(* ===== verification/_CoqProject ===== *)
-Q . S2P
Prelude.v
Bytes.v
OsFile.v
RecordBatch.v
Index.v
TimeIndex.v
Segment.v
SegmentFacts.v
Log.v
LogFacts.v
LogRead.v
LogRecover.v
Samples.v
LogProps.v
Retention.v
Names.v
Utf8.v
Offsets.v
Group.v
GroupFacts.v
GroupProps.v
Frame.v
FrameProps.v
Acl.v
Manifest.v
Cache.v
Flight.v
Broker.v
BrokerFacts.v
BrokerProps.v
BrokerRecover.v
MetaStore.v
Produce.v
FetchApi.v
FetchProps.v
ProduceProps.v
TopicApi.v
TopicProps.v
GroupApi.v
GroupApiProps.v
Text.v
Sasl.v
SaslProps.v
Dispatch.v
DispatchProps.v
Limit.v
ObjStore.v
Uploader.v
UploaderFacts.v
UploaderProps.v
Tiering.v
Lifecycle.v
GoText.v
Metrics.v
S3.v
S3Facts.v
S3Props.v
Webhook.v
WebhookFacts.v
WebhookProps.v
Config.v
ConfigLoad.v
ConfigFacts.v
ConfigProps.v
ConfigText.v
Admin.v
AdminProps.v
Host.v
HostProps.v
Flags.v
Serve.v
ServeProps.v
ConfigCmd.v
ConfigCmdFacts.v
ConfigCmdProps.v
ConfigInit.v
Client.v
ClientProps.v
