(* ===== verification/Prelude.v ===== *)
(** * kafka-wire: a verification development

    kafka-wire (src/) is a message broker in one Go process that speaks the
    Kafka protocol, keeps partition logs on the local disk and moves old segments
    to an object store.  This library models its own logic as executable functions
    over explicit state, file by file, and proves what clients and operators rely
    on.  Source paths below are relative to src/internal, those of the process to
    src/cmd/kafka-wire.

    ** The program and its model

    Storage (storage/).  A partition log is a list of segments; a segment is a file
    of record batches with a sparse offset index and a sparse time index.
    - [Bytes], [OsFile]: fixed-width integers on [Z] with their wrap-around,
      big-endian codecs; files with contents, cursor and the durable prefix.
    - [RecordBatch] (record.go, crc.go, compression.go), [Index] (index.go),
      [TimeIndex] (timeindex.go), [Segment] (segment.go), [Log] (log.go),
      [Retention] (retention.go): the data and every operation.
    - [SegmentFacts], [LogFacts], [LogRead], [LogRecover], [LogProps]: the
      invariants [seg_wf] and [log_wf], which say that a log is a start offset and
      a list of batches, and that append, fetch, trim and reopening implement the
      corresponding operations on that list.  [Samples] holds concrete logs.

    Broker (broker/).  Topics own partition logs, groups own members and offsets,
    principals own grants.
    - [Names] (names.go), [Utf8] (what Go's text packages and encoding/json do to
      strings that are not valid UTF-8), [Offsets] (offsets.go), [Acl] (acl.go),
      [Group] (group.go) with [GroupFacts] and [GroupProps].
    - [Broker] (topic.go, broker.go, restore_fetch.go, metadata.go) with
      [BrokerFacts], [BrokerProps] (tenant isolation, produce and fetch, archive
      reads) and [BrokerRecover] (boot).
    - [MetaStore] (metadata.go): topics.json and cluster.json as files, a save being the
      list of its system calls, which saves of several goroutines interleave; refined
      by the value [Broker] keeps.

    Wire (wire/).  A connection is a stream of frames; each request is decoded,
    authorized, run against the broker and answered.
    - [Frame], [FrameProps] (frame.go): reading and writing frames.
    - [Produce], [FetchApi], [TopicApi], [GroupApi] (produce.go, fetch.go,
      list_offsets.go, metadata.go, create_topics.go, describe_apis.go,
      group_apis.go, offset_apis.go): one definition per handler, over decoded
      requests; [ProduceProps], [FetchProps], [TopicProps], [GroupApiProps].
    - [Text], [Sasl], [SaslProps] (sasl.go): SCRAM-SHA-256 with its text formats.
    - [Dispatch], [DispatchProps], [Limit] (dispatch.go, api_versions.go): routing,
      the authentication gate, the connection loop, the connection limit.

    Archive (tiering/, objstore/, broker/tiering_adapter.go).  Sealed segments are
    uploaded, recorded in a manifest, deleted locally by retention and restored
    into a cache when a consumer asks for them.
    - [Manifest] (manifest.go), [Cache] (cache.go, restorer.go), [Flight] (restorer.go:
      concurrent restores as a step relation).
    - [ObjStore] (objstore.go, fs.go): the class [Store] of backends, the class
      [StoreLaws] of what the uploader relies on, and the file-system backend as an
      instance of both.
    - [Uploader], [UploaderFacts], [UploaderProps] (uploader.go): uploads with
      checkpoints, resuming, the sweep, reconciliation at boot, proved against
      [StoreLaws].
    - [S3], [S3Facts], [S3Props] (s3.go): the S3 driver over the class [S3Core] of the
      client's calls, and its instance of [StoreLaws] under what S3 documents of them.
    - [Tiering] (tiering_adapter.go): the sealed segments of the broker as the
      uploader's sources.
    - [Lifecycle]: a partition with its archive as one step relation over appends,
      flushes, uploads and sweeps of retention.

    Process (config/, admin/, webhook/, host/ and cmd/kafka-wire).  The binary
    layers its configuration, takes the directory lock, recovers the broker, serves
    the admin API and forwards topics to HTTP endpoints.
    - [GoText]: the parts of Go's strconv, strings and time packages the process
      uses; [Flags]: its flag package and the binary's [permute] (main.go).
    - [Config], [ConfigLoad] (config.go, load.go): defaults, file, environment and
      flags, validation, secrets; [ConfigFacts], [ConfigProps], [ConfigText].
    - [ConfigCmd], [ConfigCmdFacts], [ConfigCmdProps] (config_cmd.go, doctor.go):
      printing the effective configuration, checking it, the doctor's verdicts;
      [ConfigInit]: the starter file and the command that writes it.
    - [Webhook], [WebhookFacts], [WebhookProps] (forwarder.go): batching, retries,
      commits, dead letters.
    - [Admin], [AdminProps] (http.go): every route with its guards.
    - [Metrics] (metrics/prom.go): the collectors over the class [Prom] of the
      Prometheus client.
    - [Host], [HostProps] (disk guard, directory lock, background syncer).
    - [Client], [ClientProps] (client_cmds.go): [produce], [consume] and [topic] over
      the class [Kafka] of the client's calls.
    - [Serve], [ServeProps] (serve.go, main.go): what the process builds from its
      configuration, in order, and what it refuses to start with.

    This file holds the errors, the result monad, the tactics and the lemmas on
    lists and integers that the others share.

    ** What the theorems show

    - Storage: an append stores exactly the batches it was given at the next
      offsets or refuses them whole; what was appended is what is fetched; with
      fsync mode [always] an acknowledged append survives a crash that keeps the names
      of the segment files; reopening after such a crash recovers a prefix that has all
      durable batches; retention deletes only what its rule and the archive allow.
    - Broker and groups: as long as topic names are plain path components, no operation
      of one tenant reads or changes another's topic; a restarted broker has the topics
      and the synced batches it had, and topics.json is whole whenever the process is
      killed, if saves do not overlap; a topic made after one of its name was deleted is
      empty; the coordinator keeps its invariant under every operation, settles rounds,
      distributes the leader's assignments and refuses stale generations and unknown
      members; committed offsets survive a restart and come back over the wire.
    - Wire: frames are read safely and answered in order; a connection that has
      not authenticated changes nothing; no request changes a plainly named topic
      without a grant; SCRAM admits exactly the holders of the password; the long poll is
      bounded; the connection limit holds under every interleaving.
    - Archive: an upload stores exactly the segment or records nothing, also when
      resumed and whatever fails; every manifest entry has an object with its
      digest (for valid names and a part size that stays the same); an upload comes back
      byte for byte; uploads to the file-system store
      complete; parts accepted by S3 are found again over any number of pages; object
      keys never collide; restores are authentic, and concurrent ones share a download
      and lose no one; eviction is least recently used.  Together: a partition whose
      sealed segments are archived and then deleted still serves every offset that was
      ever stored, when the deletions succeed.
    - Process: the configuration that is used is, key by key, the last layer that
      sets it; the environment [config print] writes loads back to the configuration
      it was printed from, and no secret is shown unasked; a byte size means what its
      text says; a dead letter that was parked is accepted by its endpoint or still on
      disk, over any redeliveries and crashes; the admin API does nothing without its
      token; two processes never hold one directory; the syncer bounds what a crash
      loses to its interval; a process that serves has passed every check of its
      configuration; [consume] prints what it reads and no more than it is asked for;
      the file of [config init] loads and is valid; every request is counted once, under
      the label of the API it is routed to.
    - Examples next to the theorems show where the code departs from its comments
      or its intent.

    ** How the code is modelled

    A Go function returns [Ok], [Err] or [Panic]; [Diverge] marks a loop that ran
    out of fuel.  State is passed explicitly; an operation that runs under a mutex
    is one step.  Reads of files succeed; every write, sync, rename and flush that
    can fail takes its outcome as an argument, and so do clocks, random ids, and
    the order in which a Go map is iterated where it matters.  Error messages keep
    their static text.
    - Files: truncation is durable at once; a crash leaves a prefix of the file
      that includes its durable bytes ([crash_dir], [crash_image]); a new segment starts
      from an empty file set at its base.  Nothing in the program fsyncs a directory, so
      that names survive a crash is a hypothesis of its own ([entries_kept],
      [names_kept]), and so is that no index file outlives its log file
      ([index_behind]); examples show what happens without them.  JSON files are
      modelled by the value they decode to, with strings as encoding/json leaves them
      ([json_group]); in [MetaStore] by their bytes.
    - Partition logs carry their partition number; [b_disk] is the partition
      directories that no open log owns.  A log is opened on the directory of its
      cleaned path ([PartitionDir], [Storage_OpenLog]), so names with separators, which
      auto-creation lets through, reach the files of other topics.  Two open logs on one
      directory start from the same files, but what one writes afterwards is not seen in
      the other; the theorems on isolation require plain names ([plain],
      [path_component]), under which directories are proved disjoint ([apart]).
    - Removing a segment's files can fail ([delete_loop] takes the outcomes);
      [tier_step] has sweeps with failing removals, which the completeness of the
      tiered log excludes.
    - Groups: the state shared by the offset store and the coordinator is one
      store; rebalance rounds are a list addressed by index.  [JoinGroup] and
      [SyncGroup] are split at the point where they block, and what others do in
      between is an argument.
    - Paths are lists of components, cleaned as [filepath.Clean] does.
    - A fetch runs its restore alone; [Flight] has the interleavings of many, with a
      trace of the downloads carried out.  The
      uploads of a sweep, which are of different segments, run one after the other.
    - Parameters, with their assumed behaviour as hypotheses of the theorems that
      need it: the kmsg codec and its table of flexible versions, SHA-256, HMAC and
      PBKDF2, the clients of the S3 service, of a Kafka cluster and of Prometheus (the
      classes [S3Core], [Kafka] and [Prom]), encoding/json (the classes [Json],
      [AdminJson] and [MetaJson]), the YAML parser and the conversions of floats that overflow, which Go leaves to
      the platform.  Digests are assumed to have no collisions where a theorem says
      so.

    Fuel: scans of a byte list take one more than its length, and each round
    consumes a byte, so the fuel is proved enough; the connection loop takes one
    more than the bytes of the connection; the part loop of an upload takes one
    more than the bytes that are left; the long poll takes seven rounds more than
    [MaxWait] in units of 320ms; the listing of parts takes one page more than there
    can be parts.  The number of tagged fields of a request is a
    64-bit count taken from the wire, so there the fuel is an explicit argument.

    ** Not modelled

    [Decompress], which nothing calls; the salvage of a damaged manifest beyond its
    result; the calls of the metrics outside the connection loop, the banner, help texts
    and log lines; how a float
    or a timestamp prints and which characters are printable (parameters); the Windows
    variants of the host calls; the examples. *)

From stdpp Require Export base tactics numbers list sorting gmap strings.
From Stdlib Require Export ZArith Lia Sorted.
From Stdlib Require Export Strings.Byte.

#[global] Open Scope Z_scope.

(** ** Errors

    Go errors are values compared by identity through [errors.Is], which
    follows the chain built by [fmt.Errorf] with the [%w] verb.  A sentinel
    is one of the package-level [errors.New] variables; every other error is
    a message, of which the static text is kept. *)

Inductive sentinel : Set :=
| ErrDiskFull | ErrOffsetOutOfRange | ErrTopicExists | ErrUnknownTopic
| ErrUnknownPartition | ErrInvalidName | ErrUnauthorizedTopic
| ErrUnauthorizedGroup | ErrBrokerDraining | ErrNotArchived | ErrNotFound
| ErrDirLocked | ErrEOF.

#[export] Instance sentinel_eq_dec : EqDecision sentinel.
Proof. solve_decision. Defined.

Inductive error : Set :=
| ESentinel (s : sentinel)
| EMsg (msg : string)
| EWrap (ctx : string) (e : error).

#[export] Instance error_eq_dec : EqDecision error.
Proof. solve_decision. Defined.

(** [errors.Is(e, s)] for a sentinel [s]. *)
Fixpoint errors_is (e : error) (s : sentinel) : bool :=
  match e with
  | ESentinel s' => bool_decide (s' = s)
  | EMsg _ => false
  | EWrap _ e => errors_is e s
  end.

(** ** Results

    A Go function returns a value, returns an error, or panics (an index or
    slice expression out of range).  [Diverge] is returned by a loop modelled
    with fuel when the fuel runs out; the components prove that the fuel they
    pass is always enough. *)

Inductive res (A : Type) : Type :=
| Ok (a : A)
| Err (e : error)
| Panic
| Diverge.
Arguments Ok {A} a.
Arguments Err {A} e.
Arguments Panic {A}.
Arguments Diverge {A}.

#[export] Instance res_ret : MRet res := fun _ a => Ok a.
#[export] Instance res_bind : MBind res := fun _ _ f m =>
  match m with
  | Ok a => f a
  | Err e => Err e
  | Panic => Panic
  | Diverge => Diverge
  end.
#[export] Instance res_fmap : FMap res := fun _ _ f m =>
  match m with
  | Ok a => Ok (f a)
  | Err e => Err e
  | Panic => Panic
  | Diverge => Diverge
  end.

#[export] Instance res_eq_dec {A} `{EqDecision A} : EqDecision (res A).
Proof. solve_decision. Defined.

Definition is_ok {A} (r : res A) : bool :=
  match r with Ok _ => true | _ => false end.

(** [fmt.Errorf("ctx: %w", err)] applied to the error branch only. *)
Definition wrap_err {A} (ctx : string) (r : res A) : res A :=
  match r with Err e => Err (EWrap ctx e) | _ => r end.

(** ** Tactics *)

(** Split every boolean comparison of the context into its proposition. *)
Ltac zbool :=
  repeat match goal with
  | H : (_ && _)%bool = true |- _ => apply andb_true_iff in H; destruct H
  | H : (_ || _)%bool = false |- _ => apply orb_false_iff in H; destruct H
  | H : negb _ = true |- _ => apply negb_true_iff in H
  | H : negb _ = false |- _ => apply negb_false_iff in H
  | H : (_ <? _) = true |- _ => apply Z.ltb_lt in H
  | H : (_ <? _) = false |- _ => apply Z.ltb_ge in H
  | H : (_ <=? _) = true |- _ => apply Z.leb_le in H
  | H : (_ <=? _) = false |- _ => apply Z.leb_gt in H
  | H : (_ =? _) = true |- _ => apply Z.eqb_eq in H
  | H : (_ =? _) = false |- _ => apply Z.eqb_neq in H
  | H : (_ >? _) = _ |- _ => rewrite Z.gtb_ltb in H
  | H : (_ >=? _) = _ |- _ => rewrite Z.geb_leb in H
  | H : bool_decide _ = true |- _ => apply bool_decide_eq_true in H
  | H : bool_decide _ = false |- _ => apply bool_decide_eq_false in H
  end.

(** Case on the scrutinee of a [match] or [if] of hypothesis [H]. *)
Ltac step_in H :=
  match type of H with
  | context [match ?x with _ => _ end] =>
      lazymatch x with
      | context [match _ with _ => _ end] => fail
      | _ => let E := fresh "E" in destruct x eqn:E
      end
  end.
Ltac step_goal :=
  match goal with
  | |- context [match ?x with _ => _ end] =>
      lazymatch x with
      | context [match _ with _ => _ end] => fail
      | _ => let E := fresh "E" in destruct x eqn:E
      end
  end.

(** ** Automation: the databases of the development. *)
Create HintDb kw discriminated.
Create Rewrite HintDb kwlen.
#[export] Hint Rewrite @length_app @length_take @length_drop @length_replicate : kwlen.

(** Length goals over [take], [drop] and [++]. *)
Ltac len := autorewrite with kwlen in *; simpl length in *; lia.

(** ** Lists indexed by [Z]

    Go slices are indexed by [int]; the model keeps bytes in lists and
    converts at the boundary. *)

Definition zlen {A} (l : list A) : Z := Z.of_nat (length l).

(** [l[lo:hi]] for [0 <= lo <= hi <= len l]. *)
Definition slice {A} (l : list A) (lo hi : Z) : list A :=
  take (Z.to_nat (hi - lo)) (drop (Z.to_nat lo) l).

Section zlists.
Context {A : Type}.
Implicit Types l k : list A.

Lemma zlen_nonneg l : 0 <= zlen l.
Proof. unfold zlen; lia. Qed.
Lemma zlen_nil : zlen (@nil A) = 0.
Proof. done. Qed.
Lemma zlen_cons x l : zlen (x :: l) = 1 + zlen l.
Proof. unfold zlen; simpl length; lia. Qed.
Lemma zlen_app l k : zlen (l ++ k) = zlen l + zlen k.
Proof. unfold zlen; rewrite length_app; lia. Qed.
Lemma zlen_zero l : zlen l = 0 -> l = [].
Proof. destruct l; [done|rewrite zlen_cons; pose proof (zlen_nonneg l); lia]. Qed.
Lemma zlen_take l n : 0 <= n <= zlen l -> zlen (take (Z.to_nat n) l) = n.
Proof. unfold zlen. intros. rewrite length_take. lia. Qed.
Lemma zlen_drop l n : 0 <= n <= zlen l -> zlen (drop (Z.to_nat n) l) = zlen l - n.
Proof. unfold zlen. intros. rewrite length_drop. lia. Qed.

Lemma slice_all l : slice l 0 (zlen l) = l.
Proof. unfold slice, zlen. simpl. rewrite Z.sub_0_r, Nat2Z.id. apply firstn_all. Qed.
Lemma slice_app_l l k lo hi :
  0 <= lo -> lo <= hi <= zlen l -> slice (l ++ k) lo hi = slice l lo hi.
Proof.
  unfold slice, zlen. intros. rewrite drop_app_le by lia.
  rewrite take_app_le; [done|]. rewrite length_drop. lia.
Qed.
Lemma slice_app_r l k lo hi :
  zlen l <= lo -> lo <= hi -> slice (l ++ k) lo hi = slice k (lo - zlen l) (hi - zlen l).
Proof.
  unfold slice, zlen. intros. rewrite drop_app_ge by lia.
  f_equal; [lia|f_equal; lia].
Qed.
Lemma zlen_slice l lo hi : 0 <= lo -> lo <= hi <= zlen l -> zlen (slice l lo hi) = hi - lo.
Proof. unfold slice, zlen. intros. rewrite length_take, length_drop. lia. Qed.
Lemma slice_prefix l k : slice (l ++ k) 0 (zlen l) = l.
Proof.
  rewrite slice_app_l by (pose proof (zlen_nonneg l); lia). apply slice_all.
Qed.
Lemma slice_mid l k j : slice (l ++ k ++ j) (zlen l) (zlen l + zlen k) = k.
Proof.
  pose proof (zlen_nonneg k).
  rewrite slice_app_r by lia.
  replace (zlen l - zlen l) with 0 by lia.
  replace (zlen l + zlen k - zlen l) with (zlen k) by lia. apply slice_prefix.
Qed.
End zlists.

#[export] Hint Rewrite @zlen_app @zlen_cons @zlen_nil : kwlen.
#[export] Hint Resolve zlen_nonneg : kw.

(** ** Go's [sort.Search]

    Binary search for the smallest [i] in [[0, n)] with [f i] true, [n] when
    there is none: the loop of the Go standard library, with the interval
    width as fuel (it at least halves at every turn). *)

Fixpoint search_loop (fuel : nat) (f : nat -> bool) (i j : nat) : nat :=
  match fuel with
  | O => i
  | S fuel =>
      if (i <? j)%nat then
        let h := ((i + j) / 2)%nat in
        if f h then search_loop fuel f i h else search_loop fuel f (S h) j
      else i
  end.

Definition sort_Search (n : nat) (f : nat -> bool) : nat := search_loop n f 0 n.

Lemma search_loop_spec fuel (f : nat -> bool) i j :
  (j - i <= fuel)%nat -> (i <= j)%nat ->
  (forall a b, (a <= b < j)%nat -> f a = true -> f b = true) ->
  let r := search_loop fuel f i j in
  (i <= r <= j)%nat /\
  (forall k, (i <= k < r)%nat -> f k = false) /\
  (r < j -> f r = true)%nat.
Proof.
  intros Hf Hij. revert i j Hf Hij.
  induction fuel as [|fuel IH]; intros i j Hf Hij Hmono; cbn [search_loop].
  - assert (i = j) by lia. subst. repeat split; intros; lia.
  - destruct (Nat.ltb_spec i j) as [Hlt|Hge]; [|assert (i = j) by lia; subst; repeat split; intros; lia].
    cbn zeta. set (h := ((i + j) / 2)%nat).
    assert (i <= h < j)%nat as Hh.
    { subst h. pose proof (Nat.div_mod_eq (i + j) 2).
      pose proof (Nat.mod_upper_bound (i + j) 2). lia. }
    destruct (f h) eqn:Efh.
    + destruct (IH i h) as (H1 & H2 & H3); [lia..|intros ?? [??]; apply Hmono; lia|]. repeat split; [lia|lia|done|].
      intros _. destruct (decide (search_loop fuel f i h = h)) as [->|]; [done|apply H3; lia].
    + destruct (IH (S h) j) as (H1 & H2 & H3); [lia..|done|]. repeat split; [lia|lia| |done].
      intros k Hk. destruct (decide (k <= h)%nat) as [Hkh|]; [|apply H2; lia].
      destruct (f k) eqn:Efk; [|done]. rewrite (Hmono k h) in Efh; [done|lia|done].
Qed.

(** On a monotone predicate the binary search returns the boundary. *)
Lemma sort_Search_spec n (f : nat -> bool) :
  (forall a b, (a <= b < n)%nat -> f a = true -> f b = true) ->
  let r := sort_Search n f in
  (r <= n)%nat /\
  (forall k, (k < r)%nat -> f k = false) /\
  (r < n -> f r = true)%nat.
Proof.
  intros Hm. destruct (search_loop_spec n f 0 n) as (H1 & H2 & H3); [lia..|done|].
  unfold sort_Search. repeat split; [lia| |done]. intros. apply H2. lia.
Qed.
