(* ===== verification/Bytes.v ===== *)
(** * Bytes and machine integers

    Go's fixed-width integers as [Z] with their wrap-around written out, and
    the [encoding/binary] big-endian codec on lists of bytes that the record
    format, the two index formats and the request frame are built on. *)

From S2P Require Import Prelude.

(** ** Machine integers

    [uN] keeps the low [N] bits; [iN] reads them as two's complement.  These
    are the values of the Go conversions [uint32(x)], [int64(x)], ... *)

Definition wrap_u (w z : Z) : Z := z mod 2 ^ w.
Definition wrap_s (w z : Z) : Z := (z + 2 ^ (w - 1)) mod 2 ^ w - 2 ^ (w - 1).

Abbreviation u16 := (wrap_u 16).
Abbreviation u32 := (wrap_u 32).
Abbreviation u64 := (wrap_u 64).
Abbreviation i8 := (wrap_s 8).
Abbreviation i16 := (wrap_s 16).
Abbreviation i32 := (wrap_s 32).
Abbreviation i64 := (wrap_s 64).

Definition in_u (w z : Z) : Prop := 0 <= z < 2 ^ w.
Definition in_s (w z : Z) : Prop := - 2 ^ (w - 1) <= z < 2 ^ (w - 1).

Section wraps.
Variable w : Z.
Hypothesis Hw : 0 < w.

Lemma pow_split : 2 ^ w = 2 * 2 ^ (w - 1).
Proof using Hw. rewrite <- Z.pow_succ_r by lia. f_equal. lia. Qed.
Lemma pow_half_pos : 0 < 2 ^ (w - 1).
Proof using Hw. apply Z.pow_pos_nonneg; lia. Qed.

Lemma wrap_u_range z : in_u w (wrap_u w z).
Proof using Hw. apply Z.mod_pos_bound. apply Z.pow_pos_nonneg; lia. Qed.
Lemma wrap_u_small z : in_u w z -> wrap_u w z = z.
Proof using. apply Z.mod_small. Qed.
Lemma wrap_s_range z : in_s w (wrap_s w z).
Proof using Hw.
  unfold in_s, wrap_s. pose proof pow_split. pose proof pow_half_pos.
  pose proof (Z.mod_pos_bound (z + 2 ^ (w - 1)) (2 ^ w)). lia.
Qed.
Lemma wrap_s_small z : in_s w z -> wrap_s w z = z.
Proof using Hw.
  unfold in_s, wrap_s. intros. pose proof pow_split.
  rewrite Z.mod_small; lia.
Qed.
(** Converting to unsigned and back is the identity on signed values. *)
Lemma wrap_s_u z : wrap_s w (wrap_u w z) = wrap_s w z.
Proof using Hw.
  unfold wrap_s, wrap_u. f_equal.
  pose proof (Z.pow_pos_nonneg 2 w). rewrite Zplus_mod_idemp_l; lia.
Qed.
End wraps.

(** A wrapped value whose exact result is in range is that result: the
    side condition is arithmetic once the width is a numeral. *)
Lemma i64_small z : - 2 ^ 63 <= z < 2 ^ 63 -> i64 z = z.
Proof. intros. apply wrap_s_small; unfold in_s; simpl in *; lia. Qed.
Lemma i32_small z : - 2 ^ 31 <= z < 2 ^ 31 -> i32 z = z.
Proof. intros. apply wrap_s_small; unfold in_s; simpl in *; lia. Qed.
Lemma u32_small z : 0 <= z < 2 ^ 32 -> u32 z = z.
Proof. apply wrap_u_small. Qed.
Lemma u64_small z : 0 <= z < 2 ^ 64 -> u64 z = z.
Proof. apply wrap_u_small. Qed.

(** ** Bytes *)

Definition b2z (b : byte) : Z := Z.of_N (Byte.to_N b).
(** [byte(z)]: the low eight bits. *)
Definition z2b (z : Z) : byte :=
  match Byte.of_N (Z.to_N (z mod 256)) with Some b => b | None => x00 end.

Lemma b2z_range b : 0 <= b2z b < 256.
Proof. unfold b2z. pose proof (Byte.to_N_bounded b). lia. Qed.

Lemma b2z_z2b z : b2z (z2b z) = z mod 256.
Proof.
  unfold b2z, z2b. pose proof (Z.mod_pos_bound z 256).
  destruct (Byte.of_N (Z.to_N (z mod 256))) as [b|] eqn:E.
  - apply Byte.to_of_N in E. rewrite E. lia.
  - apply Byte.of_N_None_iff in E. lia.
Qed.

Lemma z2b_b2z b : z2b (b2z b) = b.
Proof.
  unfold z2b. pose proof (b2z_range b). rewrite Z.mod_small by lia.
  unfold b2z. rewrite N2Z.id, Byte.of_to_N. done.
Qed.

Lemma b2z_inj b c : b2z b = b2z c -> b = c.
Proof. intros H. rewrite <- (z2b_b2z b), H. apply z2b_b2z. Qed.

Lemma z2b_mod z w : 8 <= w -> z2b (wrap_u w z) = z2b z.
Proof.
  intros. apply b2z_inj. rewrite !b2z_z2b. unfold wrap_u.
  apply Z.mod_mod_divide.
  exists (2 ^ (w - 8)). change 256 with (2 ^ 8). rewrite <- Z.pow_add_r by lia. f_equal; lia.
Qed.

#[export] Instance byte_eq_dec : EqDecision byte.
Proof. intros b c. destruct (Byte.byte_eq_dec b c); [by left|by right]. Defined.

(** ** [binary.BigEndian] *)

(** The unsigned value of a byte string, most significant byte first:
    [binary.BigEndian.UintN] of a slice of [N/8] bytes. *)
Fixpoint be_decode (l : list byte) : Z :=
  match l with
  | [] => 0
  | b :: l => b2z b * 2 ^ (8 * zlen l) + be_decode l
  end.

(** [binary.BigEndian.PutUintN]: the [n] low bytes of [z]. *)
Fixpoint be_encode (n : nat) (z : Z) : list byte :=
  match n with
  | O => []
  | S n => z2b (z / 2 ^ (8 * Z.of_nat n)) :: be_encode n z
  end.

Lemma length_be_encode n z : length (be_encode n z) = n.
Proof. induction n; simpl; congruence. Qed.
Lemma zlen_be_encode n z : zlen (be_encode n z) = Z.of_nat n.
Proof. unfold zlen. by rewrite length_be_encode. Qed.

Lemma be_decode_range l : 0 <= be_decode l < 2 ^ (8 * zlen l).
Proof.
  induction l as [|b l IH]; [done|].
  cbn [be_decode]. rewrite zlen_cons.
  replace (8 * (1 + zlen l)) with (8 + 8 * zlen l) by lia.
  pose proof (zlen_nonneg l). rewrite Z.pow_add_r by lia.
  pose proof (b2z_range b). change (2 ^ 8) with 256. nia.
Qed.

Lemma be_decode_encode n z : be_decode (be_encode n z) = z mod 2 ^ (8 * Z.of_nat n).
Proof.
  induction n as [|n IH]; [by rewrite Z.mod_1_r|].
  cbn [be_encode be_decode]. rewrite IH, b2z_z2b, zlen_be_encode.
  replace (8 * Z.of_nat (S n)) with (8 * Z.of_nat n + 8) by lia.
  rewrite Z.pow_add_r by lia. change (2 ^ 8) with 256.
  rewrite (Z.rem_mul_r z) by (try apply Z.pow_nonzero; lia). lia.
Qed.

Lemma be_decode_inj l k : length l = length k -> be_decode l = be_decode k -> l = k.
Proof.
  revert k. induction l as [|b l IH]; intros [|c k] Hlen Heq; try done.
  cbn [be_decode] in Heq. simpl in Hlen. injection Hlen as Hlen.
  pose proof (be_decode_range l). pose proof (be_decode_range k).
  assert (zlen l = zlen k) as Hz by (unfold zlen; lia). rewrite Hz in *.
  assert (b2z b = b2z c) by nia.
  f_equal; [by apply b2z_inj|apply IH; [done|nia]].
Qed.

Lemma be_encode_decode l : be_encode (length l) (be_decode l) = l.
Proof.
  apply be_decode_inj; [apply length_be_encode|].
  rewrite be_decode_encode. apply Z.mod_small, be_decode_range.
Qed.

#[export] Hint Rewrite length_be_encode zlen_be_encode : kwlen.

(** ** Patching a buffer: [PutUintN(buf[lo:lo+n], v)]

    The slice expression panics when the buffer is too short. *)
Definition put_be (buf : list byte) (lo : Z) (n : nat) (v : Z) : res (list byte) :=
  if lo + Z.of_nat n <=? zlen buf
  then Ok (take (Z.to_nat lo) buf ++ be_encode n v ++ drop (Z.to_nat lo + n) buf)
  else Panic.

Lemma put_be_spec buf lo n v :
  0 <= lo -> lo + Z.of_nat n <= zlen buf ->
  exists buf',
    put_be buf lo n v = Ok buf' /\
    zlen buf' = zlen buf /\
    slice buf' lo (lo + Z.of_nat n) = be_encode n v /\
    (forall a b, 0 <= a -> a <= b <= lo -> slice buf' a b = slice buf a b) /\
    (forall a b, lo + Z.of_nat n <= a -> a <= b <= zlen buf -> slice buf' a b = slice buf a b).
Proof.
  intros Hlo Hn. unfold put_be. rewrite (proj2 (Z.leb_le _ _)) by lia.
  eexists; split; [done|].
  set (pre := take (Z.to_nat lo) buf). set (post := drop (Z.to_nat lo + n) buf).
  assert (zlen pre = lo) as Hpre by (apply zlen_take; lia).
  assert (buf = pre ++ slice buf lo (lo + Z.of_nat n) ++ post) as Hbuf.
  { unfold pre, post, slice.
    replace (Z.to_nat (lo + Z.of_nat n - lo)) with n by lia.
    rewrite <- drop_drop, !take_drop. done. }
  set (mid := slice buf lo (lo + Z.of_nat n)) in *.
  assert (zlen mid = Z.of_nat n) as Hmid by (unfold mid; rewrite zlen_slice; lia).
  assert (zlen buf = lo + Z.of_nat n + zlen post) as Hlen.
  { rewrite Hbuf at 1. rewrite !zlen_app. lia. }
  split_and!.
  - rewrite !zlen_app, zlen_be_encode. lia.
  - replace lo with (zlen pre) at 1 2 by done.
    rewrite <- (zlen_be_encode n v). apply slice_mid.
  - intros a b Ha Hb. rewrite Hbuf. rewrite !slice_app_l by lia. done.
  - intros a b Ha Hb. rewrite Hbuf.
    rewrite !(slice_app_r pre), !(slice_app_r _ post) by (rewrite ?zlen_be_encode; lia).
    f_equal; rewrite zlen_be_encode; lia.
Qed.

(** Unsigned and signed fields read from a buffer at a fixed place. *)
Definition get_be (buf : list byte) (lo hi : Z) : Z := be_decode (slice buf lo hi).

Lemma get_be_range buf lo hi :
  0 <= lo -> lo <= hi <= zlen buf -> 0 <= get_be buf lo hi < 2 ^ (8 * (hi - lo)).
Proof.
  intros. unfold get_be. pose proof (be_decode_range (slice buf lo hi)) as Hr.
  rewrite zlen_slice in Hr by lia. done.
Qed.
