(* ===== verification/OsFile.v ===== *)
(** * Files (the part of Go's [os.File] the storage layer uses)

    A file is its contents, the write cursor of the open handle and the number
    of leading bytes known to be on stable storage.  [Write] appends at the
    cursor, [ReadAt] never moves it, [Sync] makes everything written so far
    durable.  Failures are an argument of the operation: [None] is success,
    [Some n] is an error after [n] bytes have reached the file. *)

From S2P Require Import Prelude Bytes.

Record file := mkFile {
  fdata : list byte;   (* contents *)
  fpos : Z;            (* cursor of the handle *)
  fsynced : Z          (* leading bytes on stable storage *)
}.

Definition fsize (f : file) : Z := zlen (fdata f).

(** A file opened with [O_RDWR|O_CREATE]: the cursor is at the start.  What
    is found on disk at open time is durable. *)
Definition file_open (data : list byte) : file := mkFile data 0 (zlen data).

(** [data] with [d] written over it at [pos]; a gap is filled with zeros. *)
Definition write_at (data : list byte) (pos : Z) (d : list byte) : list byte :=
  take (Z.to_nat pos) data ++ replicate (Z.to_nat pos - length data) x00
    ++ d ++ drop (Z.to_nat pos + length d) data.

Definition file_write (f : file) (d : list byte) (fail : option Z) : file * res unit :=
  let done := match fail with None => d | Some n => take (Z.to_nat n) d end in
  (mkFile (write_at (fdata f) (fpos f) done) (fpos f + zlen done) (Z.min (fsynced f) (fpos f)),
   match fail with None => Ok tt | Some _ => Err (EMsg "write: input/output error") end).

(** [ReadAt(buf, pos)] with [len(buf) = n]: the bytes read; fewer than [n]
    together with [io.EOF] at the end of the file. *)
Definition file_readat (f : file) (pos n : Z) : list byte :=
  take (Z.to_nat n) (drop (Z.to_nat pos) (fdata f)).

Definition file_truncate (f : file) (n : Z) : file :=
  mkFile (take (Z.to_nat n) (fdata f)) (fpos f) (Z.min (fsynced f) n).

Definition file_seek (f : file) (n : Z) : file := mkFile (fdata f) n (fsynced f).

Definition file_sync (f : file) (ok : bool) : file * res unit :=
  if ok then (mkFile (fdata f) (fpos f) (fsize f), Ok tt)
  else (f, Err (EMsg "sync: input/output error")).

(** What a machine crash leaves of a file that is only appended to: some
    prefix that includes the durable bytes. *)
Definition crash_of (f : file) (left_over : list byte) : Prop :=
  exists n, fsynced f <= n /\ left_over = take (Z.to_nat n) (fdata f).

(** ** Facts *)

Lemma write_at_end data d : write_at data (zlen data) d = data ++ d.
Proof.
  unfold write_at, zlen. rewrite Nat2Z.id, firstn_all, Nat.sub_diag.
  rewrite drop_ge by lia. simpl. by rewrite app_nil_r.
Qed.

Lemma file_write_append f d :
  fpos f = fsize f ->
  file_write f d None = (mkFile (fdata f ++ d) (fsize f + zlen d) (Z.min (fsynced f) (fsize f)), Ok tt).
Proof. intros H. unfold file_write, fsize in *. rewrite H, write_at_end. done. Qed.

Lemma file_readat_slice f pos n :
  0 <= pos -> 0 <= n -> file_readat f pos n = slice (fdata f) pos (pos + n).
Proof. intros. unfold file_readat, slice. do 2 f_equal. lia. Qed.

Lemma file_readat_app l k s p n :
  0 <= n -> zlen k = n -> file_readat (mkFile (l ++ k ++ s) p n) (zlen l) n = k.
Proof.
  intros. unfold file_readat, zlen in *; cbn [fdata].
  rewrite Nat2Z.id, drop_app_length. rewrite take_app_length'; [done|lia].
Qed.
