(* ===== verification/RecordBatch.v ===== *)
(** * The v2 record batch (internal/storage/record.go, crc.go, compression.go)

    Header layout, CRC-32C, the in-place offset rewrite and the append-time
    validation.  Batches are byte strings; only the 61-byte header is ever
    decoded. *)

From S2P Require Import Prelude Bytes.

(** ** Constants *)

Definition v2HeaderSize : Z := 61.
Definition v2MagicByte : Z := 2.
Definition v2CRCOffset : Z := 17.
Definition v2CRCSize : Z := 4.
Definition v2BodyStart : Z := 21.
Definition MinBatchSize : Z := v2HeaderSize.
Definition MaxBatchSize : Z := 4 * 1024 * 1024.

Definition AttrCompressionMask : Z := 0x07.
Definition CompressionNone : Z := 0.
Definition CompressionGzip : Z := 1.
Definition CompressionSnappy : Z := 2.
Definition CompressionLZ4 : Z := 3.
Definition CompressionZstd : Z := 4.
Definition AttrTimestampType : Z := 0x08.
Definition AttrTransactional : Z := 0x10.
Definition AttrControlBatch : Z := 0x20.

(** ** CRC-32C

    [crc32.Checksum(body, crc32.MakeTable(crc32.Castagnoli))]: the reflected
    Castagnoli polynomial, one table entry per byte value, the register
    complemented before and after. *)

Definition castagnoli : Z := 0x82f63b78.

Fixpoint crc_shift (n : nat) (crc : Z) : Z :=
  match n with
  | O => crc
  | S n =>
      crc_shift n
        (if Z.odd crc then Z.lxor (Z.shiftr crc 1) castagnoli else Z.shiftr crc 1)
  end.

(** Entry [i] of the table [MakeTable] builds. *)
Definition castagnoliTable (i : Z) : Z := crc_shift 8 i.

Definition crc_update (crc : Z) (b : byte) : Z :=
  Z.lxor (castagnoliTable (Z.lxor (Z.land crc 0xff) (b2z b))) (Z.shiftr crc 8).

Definition CRC32C (body : list byte) : Z :=
  Z.lxor (fold_left crc_update body 0xffffffff) 0xffffffff.

(** The check value of the CRC catalogue: CRC-32C of [123456789]. *)
Example CRC32C_check :
  CRC32C [x31; x32; x33; x34; x35; x36; x37; x38; x39] = 0xe3069283.
Proof. vm_compute. reflexivity. Qed.

(** ** The batch header *)

Record BatchHeader := mkHeader {
  BaseOffset : Z;
  BatchLength : Z;
  Magic : Z;
  CRC : Z;
  Attributes : Z;
  LastOffsetDelta : Z;
  FirstTimestamp : Z;
  MaxTimestamp : Z;
  ProducerID : Z;
  ProducerEpoch : Z;
  BaseSequence : Z;
  RecordCount : Z
}.

Definition LastOffset (h : BatchHeader) : Z := i64 (BaseOffset h + LastOffsetDelta h).
Definition TotalSize (h : BatchHeader) : Z := 12 + BatchLength h.
Definition Compression (h : BatchHeader) : Z := i8 (Z.land (Attributes h) AttrCompressionMask).
Definition IsTransactional (h : BatchHeader) : bool :=
  negb (Z.land (Attributes h) AttrTransactional =? 0).
Definition IsControlBatch (h : BatchHeader) : bool :=
  negb (Z.land (Attributes h) AttrControlBatch =? 0).

(** The fields at their places; meaningful for at least 61 bytes. *)
Definition decode_header (buf : list byte) : BatchHeader := {|
  BaseOffset := i64 (get_be buf 0 8);
  BatchLength := i32 (get_be buf 8 12);
  Magic := i8 (get_be buf 16 17);
  CRC := get_be buf 17 21;
  Attributes := i16 (get_be buf 21 23);
  LastOffsetDelta := i32 (get_be buf 23 27);
  FirstTimestamp := i64 (get_be buf 27 35);
  MaxTimestamp := i64 (get_be buf 35 43);
  ProducerID := i64 (get_be buf 43 51);
  ProducerEpoch := i16 (get_be buf 51 53);
  BaseSequence := i32 (get_be buf 53 57);
  RecordCount := i32 (get_be buf 57 61)
|}.

Definition ParseBatchHeader (buf : list byte) : res BatchHeader :=
  if zlen buf <? v2HeaderSize then Err (EMsg "batch header: need 61 bytes")
  else
    let h := decode_header buf in
    if negb (Magic h =? v2MagicByte) then Err (EMsg "unsupported magic byte")
    else if BatchLength h <? v2HeaderSize - 12 then Err (EMsg "batch length too small")
    else if BatchLength h >? MaxBatchSize then Err (EMsg "batch length exceeds max")
    else Ok h.

Definition ValidateCRC (batch : list byte) : res unit :=
  if zlen batch <? v2HeaderSize then Err (EMsg "batch too short to CRC-check")
  else
    let wantCRC := get_be batch v2CRCOffset (v2CRCOffset + v2CRCSize) in
    let gotCRC := CRC32C (slice batch v2BodyStart (zlen batch)) in
    if gotCRC =? wantCRC then Ok tt else Err (EMsg "CRC mismatch").

Definition RewriteBaseOffset (batch : list byte) (baseOffset : Z) : res (list byte) :=
  put_be batch 0 8 (u64 baseOffset).

Definition SetPartitionLeaderEpoch (batch : list byte) (epoch : Z) : res (list byte) :=
  put_be batch 12 4 (u32 epoch).

(** ** Append-time validation *)

Definition ValidateCompressionCodec (attributes : Z) : res unit :=
  let codec := i8 (Z.land attributes AttrCompressionMask) in
  if (codec =? CompressionNone) || (codec =? CompressionGzip)
     || (codec =? CompressionSnappy) || (codec =? CompressionZstd)
  then Ok tt
  else if codec =? CompressionLZ4 then Ok tt
  else Err (EMsg "unsupported compression codec").

Definition ValidateBatchAttributes (attributes : Z) : res unit :=
  match ValidateCompressionCodec attributes with
  | Ok _ =>
      if negb (Z.land attributes AttrControlBatch =? 0)
      then Err (EMsg "batch is a transaction control marker (attribute bit 5)")
      else if negb (Z.land attributes AttrTransactional =? 0)
      then Err (EMsg "batch claims membership in a transaction (attribute bit 4)")
      else Ok tt
  | r => r
  end.

Definition ValidateBatchForAppend (batch : list byte) : res unit :=
  if zlen batch <? MinBatchSize then Err (EMsg "too small")
  else if zlen batch >? MaxBatchSize then Err (EMsg "too large")
  else
    h ← wrap_err "parse batch header" (ParseBatchHeader batch);
    _ ← ValidateCRC batch;
    ValidateBatchAttributes (Attributes h).

(** ** Reading the header *)

Lemma ParseBatchHeader_Ok buf h :
  ParseBatchHeader buf = Ok h <->
  h = decode_header buf /\ v2HeaderSize <= zlen buf /\ Magic h = v2MagicByte /\
  v2HeaderSize - 12 <= BatchLength h <= MaxBatchSize.
Proof.
  unfold ParseBatchHeader. split.
  - intros H. repeat (step_in H; try done). simplify_eq. zbool. split_and!; done || lia.
  - intros (-> & H1 & H2 & H3).
    rewrite (proj2 (Z.ltb_ge _ _)) by lia. cbn zeta.
    rewrite (proj2 (Z.eqb_eq _ _)) by done. cbn [negb].
    rewrite (proj2 (Z.ltb_ge _ _)) by lia. rewrite Z.gtb_ltb.
    rewrite (proj2 (Z.ltb_ge _ _)) by lia. done.
Qed.

(** A parsed batch occupies at least a header's worth of bytes: every loop
    that steps by [TotalSize] makes progress. *)
Lemma TotalSize_bounds buf h :
  ParseBatchHeader buf = Ok h -> v2HeaderSize <= TotalSize h <= 12 + MaxBatchSize.
Proof. intros (_ & _ & _ & ?)%ParseBatchHeader_Ok. unfold TotalSize, v2HeaderSize in *. lia. Qed.

(** Decoding reads only the first 61 bytes. *)
Lemma decode_header_ext buf buf' :
  slice buf 0 v2HeaderSize = slice buf' 0 v2HeaderSize ->
  v2HeaderSize <= zlen buf -> v2HeaderSize <= zlen buf' ->
  decode_header buf = decode_header buf'.
Proof.
  unfold v2HeaderSize. intros Heq Hb Hb'.
  assert (forall lo hi, 0 <= lo -> lo <= hi <= 61 -> slice buf lo hi = slice buf' lo hi) as Hs.
  { intros lo hi ??.
    assert (forall l : list byte, 61 <= zlen l -> slice l lo hi = slice (slice l 0 61) lo hi) as Hin.
    { intros l Hl. rewrite <- (take_drop 61 l) at 1. rewrite slice_app_l; [done|lia|].
      change 61%nat with (Z.to_nat 61). rewrite zlen_take; lia. }
    rewrite (Hin buf), (Hin buf') by lia. by rewrite Heq. }
  unfold decode_header, get_be.
  rewrite !Hs by lia. done.
Qed.

Lemma ParseBatchHeader_ext buf buf' :
  slice buf 0 v2HeaderSize = slice buf' 0 v2HeaderSize ->
  v2HeaderSize <= zlen buf -> v2HeaderSize <= zlen buf' ->
  ParseBatchHeader buf = ParseBatchHeader buf'.
Proof.
  intros Heq Hb Hb'. unfold ParseBatchHeader.
  destruct (Z.ltb_spec (zlen buf) v2HeaderSize); [lia|].
  destruct (Z.ltb_spec (zlen buf') v2HeaderSize); [lia|].
  by rewrite (decode_header_ext _ _ Heq).
Qed.

Lemma ParseBatchHeader_app buf k :
  v2HeaderSize <= zlen buf -> ParseBatchHeader (buf ++ k) = ParseBatchHeader buf.
Proof.
  intros H. pose proof (zlen_nonneg k).
  apply ParseBatchHeader_ext; [|rewrite zlen_app; lia|done].
  apply slice_app_l; unfold v2HeaderSize in *; lia.
Qed.

(** ** The offset rewrite *)

Definition set_BaseOffset (off : Z) (h : BatchHeader) : BatchHeader :=
  mkHeader off (BatchLength h) (Magic h) (CRC h) (Attributes h) (LastOffsetDelta h)
    (FirstTimestamp h) (MaxTimestamp h) (ProducerID h) (ProducerEpoch h)
    (BaseSequence h) (RecordCount h).

(** The two header patches [Log.Append] makes before it writes a batch. *)
Definition assign_offset (batch : list byte) (off : Z) : res (list byte) :=
  b ← RewriteBaseOffset batch off; SetPartitionLeaderEpoch b 0.

(** What the patches leave alone: every byte but the first eight and the
    leader epoch. *)
Definition same_outside_patch (b b' : list byte) : Prop :=
  zlen b' = zlen b /\
  slice b' 8 12 = slice b 8 12 /\
  (forall lo hi, 16 <= lo -> lo <= hi <= zlen b -> slice b' lo hi = slice b lo hi).

Lemma assign_offset_spec b off :
  v2HeaderSize <= zlen b -> in_s 64 off ->
  exists b', assign_offset b off = Ok b' /\ same_outside_patch b b' /\
             i64 (get_be b' 0 8) = off.
Proof.
  unfold v2HeaderSize. intros Hb Hoff.
  destruct (put_be_spec b 0 8 (u64 off)) as (b1 & E1 & L1 & S1 & _ & P1); [lia..|].
  destruct (put_be_spec b1 12 4 (u32 0)) as (b2 & E2 & L2 & _ & Q2 & P2); [lia..|].
  exists b2. split; [|split].
  - unfold assign_offset, RewriteBaseOffset. rewrite E1. exact E2.
  - split; [lia|split].
    + rewrite Q2 by lia. apply P1; lia.
    + intros. rewrite P2 by lia. apply P1; lia.
  - unfold get_be. rewrite Q2 by lia. change 8 with (0 + Z.of_nat 8). rewrite S1, be_decode_encode.
    change (2 ^ (8 * Z.of_nat 8)) with (2 ^ 64). change (u64 off mod 2 ^ 64) with (u64 (u64 off)).
    rewrite !wrap_s_u by lia. by apply wrap_s_small.
Qed.

(** The patches change no field but the base offset, and no CRC. *)
Lemma same_outside_patch_parse b b' off :
  same_outside_patch b b' -> v2HeaderSize <= zlen b -> i64 (get_be b' 0 8) = off ->
  decode_header b' = set_BaseOffset off (decode_header b).
Proof.
  unfold v2HeaderSize. intros (Hl & H8 & H16) Hb Hoff.
  unfold decode_header, set_BaseOffset; cbn. rewrite Hoff. unfold get_be.
  rewrite H8. rewrite !H16 by lia. done.
Qed.

Lemma same_outside_patch_crc b b' :
  same_outside_patch b b' -> ValidateCRC b' = ValidateCRC b.
Proof.
  intros (Hl & _ & H16). unfold ValidateCRC. rewrite Hl.
  destruct (Z.ltb_spec (zlen b) v2HeaderSize); [done|].
  unfold v2HeaderSize, v2CRCOffset, v2CRCSize, v2BodyStart, get_be in *.
  rewrite !H16 by lia. done.
Qed.

(** Assigning an offset to a validated batch: it still parses, with only the
    base offset changed, and still passes the CRC check. *)
Lemma assign_offset_ok b h off :
  ParseBatchHeader b = Ok h -> ValidateCRC b = Ok tt -> in_s 64 off ->
  exists b', assign_offset b off = Ok b' /\
    ParseBatchHeader b' = Ok (set_BaseOffset off h) /\
    ValidateCRC b' = Ok tt /\ zlen b' = zlen b /\
    slice b' 16 (zlen b) = slice b 16 (zlen b).
Proof.
  intros (-> & Hl & Hm & Hbl)%ParseBatchHeader_Ok Hcrc Hoff.
  destruct (assign_offset_spec b off) as (b' & E & Hp & Hb); [done..|].
  exists b'. pose proof Hp as (Hlen & _ & H16).
  split; [done|]. split.
  - apply ParseBatchHeader_Ok. rewrite (same_outside_patch_parse b b' off) by done.
    cbn in *. split_and!; done || lia.
  - split; [by rewrite (same_outside_patch_crc b b')|]. split; [lia|].
    apply H16; unfold v2HeaderSize in *; lia.
Qed.

(** ** What validation accepts *)

Lemma land_mask_codec a : ValidateCompressionCodec a = Ok tt <-> Z.land a 7 <= 4.
Proof.
  unfold ValidateCompressionCodec, AttrCompressionMask.
  assert (0 <= Z.land a 7 < 8) as Hr.
  { change 7 with (Z.ones 3). rewrite Z.land_ones by lia. apply Z.mod_pos_bound. lia. }
  rewrite wrap_s_small by (unfold in_s; simpl; lia).
  unfold CompressionNone, CompressionGzip, CompressionSnappy, CompressionZstd, CompressionLZ4.
  assert (Z.land a 7 = 0 \/ Z.land a 7 = 1 \/ Z.land a 7 = 2 \/ Z.land a 7 = 3 \/ Z.land a 7 = 4 \/
          Z.land a 7 = 5 \/ Z.land a 7 = 6 \/ Z.land a 7 = 7) as Hc by lia.
  destruct Hc as [->|[->|[->|[->|[->|[->|[->| ->]]]]]]]; cbn; split; (lia || done).
Qed.

Lemma ValidateBatchAttributes_Ok a :
  ValidateBatchAttributes a = Ok tt <->
  Z.land a 7 <= 4 /\ Z.land a AttrControlBatch = 0 /\ Z.land a AttrTransactional = 0.
Proof.
  unfold ValidateBatchAttributes. rewrite <- land_mask_codec. split.
  - intros H. repeat (step_in H; try done). zbool. by destruct a0.
  - intros (-> & -> & ->). done.
Qed.

Lemma ValidateBatchForAppend_Ok batch :
  ValidateBatchForAppend batch = Ok tt <->
  MinBatchSize <= zlen batch <= MaxBatchSize /\
  (exists h, ParseBatchHeader batch = Ok h /\ ValidateBatchAttributes (Attributes h) = Ok tt) /\
  ValidateCRC batch = Ok tt.
Proof.
  unfold ValidateBatchForAppend. split.
  - intros H. repeat (step_in H; try done). zbool. split; [lia|].
    destruct (ParseBatchHeader batch) as [h| | |] eqn:Eh; try done. cbn in H.
    destruct (ValidateCRC batch) as [[]| | |]; try done. eauto.
  - intros (Hl & (h & Hh & Ha) & Hc).
    rewrite (proj2 (Z.ltb_ge _ _)) by lia. rewrite Z.gtb_ltb.
    rewrite (proj2 (Z.ltb_ge _ _)) by lia. rewrite Hh. cbn. by rewrite Hc.
Qed.
