(* ===== verification/Index.v ===== *)
(** * The sparse offset index (internal/storage/index.go)

    One eight-byte entry per [interval] bytes of log: the offset relative to
    the segment base and the byte position of a batch, both [uint32].  Kept in
    memory sorted by offset and searched by bisection; appended to a file that
    [load] reads back. *)

From S2P Require Import Prelude Bytes OsFile.

Definition indexEntrySize : Z := 8.

Record indexEntry := mkIndexEntry { RelOffset : Z; Position : Z }.

Record Index := mkIndex {
  idx_file : file;
  idx_entries : list indexEntry;
  lastIndexedPos : Z;
  idx_interval : Z
}.

Definition encode_index_entry (e : indexEntry) : list byte :=
  be_encode 4 (RelOffset e) ++ be_encode 4 (Position e).

(** The [k]-th entry of the buffer [load] reads. *)
Definition decode_index_entry (buf : list byte) (k : nat) : indexEntry :=
  let off := Z.of_nat k * indexEntrySize in
  mkIndexEntry (get_be buf off (off + 4)) (get_be buf (off + 4) (off + 8)).

(** [load]: drop a partial trailing entry, read the rest. *)
Definition Index_load (i : Index) : Index :=
  let size := fsize (idx_file i) in
  let f := if negb (size mod indexEntrySize =? 0)
           then file_truncate (idx_file i) (size - size mod indexEntrySize)
           else idx_file i in
  let size := size - size mod indexEntrySize in
  if size =? 0 then mkIndex f (idx_entries i) (lastIndexedPos i) (idx_interval i)
  else
    let buf := file_readat f 0 size in
    let count := Z.to_nat (size / indexEntrySize) in
    let entries := map (decode_index_entry buf) (seq 0 count) in
    mkIndex f entries
      (match last entries with Some e => Position e | None => lastIndexedPos i end)
      (idx_interval i).

Definition OpenIndex (content : list byte) (interval : Z) : Index :=
  Index_load (mkIndex (file_open content) [] 0 interval).

(** [MaybeAppend]; [w] says how the entry's write goes. *)
Definition Index_MaybeAppend (w : option Z) (i : Index) (relOffset position : Z) : Index * res unit :=
  if (position - lastIndexedPos i <? idx_interval i) && negb (bool_decide (idx_entries i = []))
  then (i, Ok tt)
  else if (relOffset <? 0) || (relOffset >? 0xFFFFFFFF)
  then (i, Err (EMsg "relative offset out of range"))
  else if (position <? 0) || (position >? 0xFFFFFFFF)
  then (i, Err (EMsg "position out of range"))
  else
    let e := mkIndexEntry (u32 relOffset) (u32 position) in
    match file_write (idx_file i) (encode_index_entry e) w with
    | (f, Ok _) => (mkIndex f (idx_entries i ++ [e]) position (idx_interval i), Ok tt)
    | (f, r) =>
        (mkIndex f (idx_entries i) (lastIndexedPos i) (idx_interval i), wrap_err "write index entry" r)
    end.

(** [LookupPosition]: where in the log to start scanning for an offset. *)
Definition Index_LookupPosition (i : Index) (relOffset : Z) : Z * bool :=
  if bool_decide (idx_entries i = []) then (0, false)
  else
    let target := u32 relOffset in
    let k := sort_Search (length (idx_entries i)) (fun k =>
               match idx_entries i !! k with
               | Some e => RelOffset e >? target
               | None => false
               end) in
    match k with
    | O => (0, true)
    | S k => (match idx_entries i !! k with Some e => Position e | None => 0 end, true)
    end.

Definition Index_Sync (i : Index) (ok : bool) : Index * res unit :=
  match file_sync (idx_file i) ok with
  | (f, r) => (mkIndex f (idx_entries i) (lastIndexedPos i) (idx_interval i), r)
  end.

(** [Reset]: no entries, an empty file, the cursor at its start. *)
Definition Index_Reset (i : Index) : Index :=
  mkIndex (file_seek (file_truncate (idx_file i) 0) 0) [] 0 (idx_interval i).

(** ** Invariant

    Entries strictly increase in both fields and fit their width; the last
    indexed position is the last entry's. *)

Definition entry_lt (e e' : indexEntry) : Prop :=
  RelOffset e < RelOffset e' /\ Position e < Position e'.

Definition entry_ok (e : indexEntry) : Prop := in_u 32 (RelOffset e) /\ in_u 32 (Position e).

Record index_wf (i : Index) : Prop := {
  iw_sorted : StronglySorted entry_lt (idx_entries i);
  iw_range : Forall entry_ok (idx_entries i);
  iw_last : forall e, last (idx_entries i) = Some e -> lastIndexedPos i = Position e
}.

Lemma StronglySorted_snoc {A} (R : A -> A -> Prop) l x :
  StronglySorted R l -> Forall (fun y => R y x) l -> StronglySorted R (l ++ [x]).
Proof.
  induction 1 as [|y l Hs IH Hy]; intros Hx; simpl.
  - repeat constructor.
  - inv Hx. constructor; [by apply IH|].
    rewrite Forall_app. split; [done|by constructor].
Qed.

Lemma StronglySorted_lookup_lt {A} (R : A -> A -> Prop) (l : list A) i j x y :
  StronglySorted R l -> (i < j)%nat -> l !! i = Some x -> l !! j = Some y -> R x y.
Proof.
  intros Hs. revert i j. induction Hs as [|z l Hs IH Hz]; intros i j Hij Hi Hj; [done|].
  destruct j as [|j]; [lia|]. destruct i as [|i]; simpl in *; simplify_eq.
  - rewrite Forall_lookup in Hz. eauto.
  - eapply IH; [|done..]. lia.
Qed.

Lemma Index_Reset_wf i : index_wf (Index_Reset i).
Proof. constructor; simpl; [constructor|constructor|done]. Qed.

(** What an append can do to the entries: nothing, or one entry at the end. *)
Lemma Index_MaybeAppend_entries w i r p :
  let i' := fst (Index_MaybeAppend w i r p) in
  idx_interval i' = idx_interval i /\
  (idx_entries i' = idx_entries i /\ lastIndexedPos i' = lastIndexedPos i \/
   in_u 32 r /\ in_u 32 p /\
   idx_entries i' = idx_entries i ++ [mkIndexEntry r p] /\ lastIndexedPos i' = p).
Proof.
  unfold Index_MaybeAppend.
  repeat (step_goal; try (simpl; tauto)). simpl. zbool.
  split; [done|]. right.
  rewrite !u32_small by lia. unfold in_u. split_and!; done || lia.
Qed.

(** The invariant survives an append at a later batch. *)
Lemma Index_MaybeAppend_wf w i r p :
  index_wf i ->
  (forall e, e ∈ idx_entries i -> RelOffset e < r /\ Position e < p) ->
  index_wf (fst (Index_MaybeAppend w i r p)).
Proof.
  intros [Hs Hr Hl] Hlt.
  destruct (Index_MaybeAppend_entries w i r p) as (_ & [[He Hp]|(Hru & Hpu & He & Hp)]);
    constructor; rewrite ?He, ?Hp; try done.
  - apply StronglySorted_snoc; [done|]. rewrite Forall_forall. exact Hlt.
  - rewrite Forall_app. split; [done|]. apply Forall_singleton. done.
  - intros e. rewrite last_snoc. by intros [= <-].
Qed.

(** ** Lookup *)

(** The reference definition: the position of the last entry at or below the
    target, byte 0 when there is none. *)
Definition lookup_linear (entries : list indexEntry) (target : Z) : Z :=
  match last (filter (fun e => RelOffset e <= target) entries) with
  | Some e => Position e
  | None => 0
  end.

Lemma filter_sorted_prefix (l : list indexEntry) t k :
  (forall j e, l !! j = Some e -> (j < k)%nat -> RelOffset e <= t) ->
  (forall j e, l !! j = Some e -> (k <= j)%nat -> t < RelOffset e) ->
  filter (fun e => RelOffset e <= t) l = take k l.
Proof.
  revert k. induction l as [|x l IH]; intros k Hle Hgt; [by rewrite take_nil|].
  destruct k as [|k]; simpl.
  - rewrite filter_cons_False by (pose proof (Hgt 0%nat x eq_refl); lia).
    rewrite (IH 0%nat); [done|lia|]. intros j e Hj ?. apply (Hgt (S j)); [done|lia].
  - rewrite filter_cons_True by (apply (Hle 0%nat); [done|lia]). f_equal.
    apply IH; intros j e Hj ?; [apply (Hle (S j))|apply (Hgt (S j))]; (done || lia).
Qed.

Lemma Index_LookupPosition_linear i rel :
  index_wf i -> idx_entries i <> [] ->
  Index_LookupPosition i rel = (lookup_linear (idx_entries i) (u32 rel), true).
Proof.
  intros [Hs _ _] Hne. unfold Index_LookupPosition. rewrite bool_decide_eq_false_2 by done.
  set (es := idx_entries i) in *. set (t := u32 rel).
  set (f := fun k => match es !! k with Some e => RelOffset e >? t | None => false end).
  destruct (sort_Search_spec (length es) f) as (Hn & Hlo & Hhi).
  { intros a b Hab. unfold f.
    destruct (es !! a) as [ea|] eqn:Ea; [|done].
    destruct (es !! b) as [eb|] eqn:Eb; [|apply lookup_ge_None in Eb; lia].
    rewrite !Z.gtb_lt. intros.
    destruct (decide (a = b)) as [->|]; [simplify_eq; lia|].
    destruct (StronglySorted_lookup_lt _ _ a b _ _ Hs ltac:(lia) Ea Eb). lia. }
  set (k := sort_Search (length es) f) in *.
  assert (filter (fun e => RelOffset e <= t) es = take k es) as Hf.
  { apply filter_sorted_prefix; intros j e Hj Hjk.
    - specialize (Hlo j Hjk). unfold f in Hlo. rewrite Hj in Hlo. zbool. lia.
    - apply lookup_lt_Some in Hj as Hlt.
      destruct (decide (k = length es)); [lia|].
      assert (f k = true) as Hk by (apply Hhi; lia). unfold f in Hk.
      destruct (es !! k) as [ek|] eqn:Ek; [|done]. zbool.
      destruct (decide (k = j)) as [->|]; [simplify_eq; lia|].
      destruct (StronglySorted_lookup_lt _ _ k j _ _ Hs ltac:(lia) Ek Hj). lia. }
  unfold lookup_linear. rewrite Hf. destruct k as [|k]; [done|].
  destruct (lookup_lt_is_Some_2 es k) as [e He]; [lia|].
  rewrite (take_S_r _ _ e He), last_snoc, He. done.
Qed.

(** All a scan needs of a lookup: it starts at byte 0 or at an indexed batch
    whose offset is not past the target. *)
Lemma Index_LookupPosition_start i rel :
  index_wf i ->
  let start := let '(p, ok) := Index_LookupPosition i rel in if ok then p else 0 in
  start = 0 \/ exists e, e ∈ idx_entries i /\ RelOffset e <= u32 rel /\ start = Position e.
Proof.
  intros Hwf. destruct (decide (idx_entries i = [])) as [E|E].
  - unfold Index_LookupPosition. rewrite bool_decide_eq_true_2 by done. by left.
  - rewrite Index_LookupPosition_linear by done. unfold lookup_linear.
    destruct (last _) as [e|] eqn:El; [|by left]. right. exists e.
    apply last_Some_elem_of, list_elem_of_filter in El as [??]. eauto.
Qed.

(** ** The file

    As long as no write fails, the file is the concatenation of the entries
    and the cursor is at its end. *)

Definition index_persisted (i : Index) : Prop :=
  fdata (idx_file i) = concat (encode_index_entry <$> idx_entries i) /\
  fpos (idx_file i) = fsize (idx_file i).

Lemma zlen_encode_index_entry e : zlen (encode_index_entry e) = 8.
Proof. unfold encode_index_entry. rewrite zlen_app, !zlen_be_encode. done. Qed.

Lemma zlen_encode_entries es : zlen (concat (encode_index_entry <$> es)) = 8 * zlen es.
Proof.
  induction es as [|e es IH]; [done|].
  rewrite fmap_cons, concat_cons, zlen_app, IH, zlen_encode_index_entry, zlen_cons. lia.
Qed.

Lemma Index_Reset_persisted i : index_persisted (Index_Reset i).
Proof. done. Qed.

Lemma Index_MaybeAppend_persisted i r p :
  index_persisted i -> index_persisted (fst (Index_MaybeAppend None i r p)).
Proof.
  intros [Hd Hp]. unfold Index_MaybeAppend.
  repeat (step_goal; try done). rewrite file_write_append in E2 by done. simplify_eq.
  split; cbn; [|by unfold fsize; cbn; rewrite zlen_app].
  rewrite fmap_app, concat_app, Hd. cbn [fmap list_fmap concat]. by rewrite app_nil_r.
Qed.

Lemma decode_index_entry_at es (k : nat) e rest :
  es !! k = Some e -> entry_ok e ->
  decode_index_entry (concat (encode_index_entry <$> es) ++ rest) k = e.
Proof.
  intros Hk [Hr Hp]. apply list_elem_of_split_length in Hk as (l1 & l2 & -> & ->).
  rewrite fmap_app, concat_app, fmap_cons, concat_cons, <- !app_assoc.
  unfold decode_index_entry, indexEntrySize, get_be, encode_index_entry.
  set (pre := concat (encode_index_entry <$> l1)).
  assert (zlen pre = Z.of_nat (length l1) * 8) as Hpre.
  { unfold pre. rewrite zlen_encode_entries. unfold zlen. lia. }
  set (k := Z.of_nat (length l1) * 8) in *.
  rewrite <- !app_assoc.
  assert (forall a b r, zlen a = k -> slice (a ++ be_encode 4 b ++ r) k (k + 4) = be_encode 4 b) as Hs.
  { intros a b r <-.
    replace (zlen a + 4) with (zlen a + zlen (be_encode 4 b)) by (rewrite zlen_be_encode; lia). apply slice_mid. }
  rewrite Hs by done.
  replace (pre ++ be_encode 4 (RelOffset e) ++ be_encode 4 (Position e) ++ concat (encode_index_entry <$> l2) ++ rest)
    with ((pre ++ be_encode 4 (RelOffset e)) ++ be_encode 4 (Position e) ++ concat (encode_index_entry <$> l2) ++ rest)
    by (by rewrite <- app_assoc).
  replace (slice _ (k + 4) (k + 8)) with (be_encode 4 (Position e)).
  - rewrite !be_decode_encode. destruct e as [r p]. cbn in *. unfold in_u in *.
    rewrite !Z.mod_small by lia. done.
  - symmetry. replace (k + 4) with (zlen (pre ++ be_encode 4 (RelOffset e))).
    + replace (k + 8) with (zlen (pre ++ be_encode 4 (RelOffset e)) + zlen (be_encode 4 (Position e))).
      * apply slice_mid.
      * rewrite zlen_app, !zlen_be_encode. lia.
    + rewrite zlen_app, zlen_be_encode. lia.
Qed.

(** Reopening gives back the entries, whether or not a crash has left part of
    one more entry behind them. *)
Lemma OpenIndex_persisted es torn interval :
  Forall entry_ok es -> zlen torn < 8 ->
  let i := OpenIndex (concat (encode_index_entry <$> es) ++ torn) interval in
  idx_entries i = es /\
  fdata (idx_file i) = concat (encode_index_entry <$> es) /\
  lastIndexedPos i = match last es with Some e => Position e | None => 0 end.
Proof.
  intros Hok Htorn. unfold OpenIndex, Index_load, fsize, indexEntrySize; cbn [idx_file file_open fdata].
  set (img := concat (encode_index_entry <$> es)).
  pose proof (zlen_nonneg torn). pose proof (zlen_nonneg es).
  assert (zlen img = 8 * zlen es) as Himg by apply zlen_encode_entries.
  rewrite zlen_app, Himg.
  replace ((8 * zlen es + zlen torn) mod 8) with (zlen torn)
    by (rewrite Z.mul_comm, Z.add_comm, Z.mod_add, Z.mod_small; lia).
  replace (8 * zlen es + zlen torn - zlen torn) with (zlen img) by lia.
  set (f := if negb (zlen torn =? 0) then _ else _).
  assert (fdata f = img) as Hf.
  { unfold f. destruct (Z.eqb_spec (zlen torn) 0) as [E|E]; cbn.
    - apply zlen_zero in E as ->. by rewrite app_nil_r.
    - unfold zlen. by rewrite Nat2Z.id, take_app_length. }
  destruct (Z.eqb_spec (zlen img) 0) as [E|E].
  - assert (es = []) as -> by (apply zlen_zero; lia). by cbn.
  - cbn [idx_entries idx_file lastIndexedPos].
    assert (file_readat f 0 (zlen img) = img) as ->.
    { rewrite file_readat_slice, Hf by lia. apply slice_all. }
    assert (map (decode_index_entry img) (seq 0 (Z.to_nat (zlen img / 8))) = es) as ->; [|done].
    rewrite Himg, Z.mul_comm, Z.div_mul by lia. unfold zlen. rewrite Nat2Z.id.
    apply list_eq. intros k. rewrite list_lookup_fmap.
    destruct (es !! k) as [e|] eqn:Ek.
    + apply lookup_lt_Some in Ek as Hk. rewrite lookup_seq_lt by done. cbn. f_equal.
      rewrite <- (app_nil_r img). apply decode_index_entry_at; [done|].
      rewrite Forall_lookup in Hok. eauto.
    + apply lookup_ge_None in Ek. by rewrite lookup_seq_ge.
Qed.
