(* ===== verification/TimeIndex.v ===== *)
(** * The sparse timestamp index (internal/storage/timeindex.go)

    Sixteen-byte entries (timestamp, relative offset, padding), sampled like
    the offset index and kept in strictly increasing timestamp order by
    clamping a sample that is not newer than the previous one. *)

From S2P Require Import Prelude Bytes OsFile Index.

Definition timeIndexEntrySize : Z := 16.

Record timeEntry := mkTimeEntry { Timestamp : Z; tRelOffset : Z }.

Record TimeIndex := mkTimeIndex {
  tix_file : file;
  tix_entries : list timeEntry;
  tix_lastIndexedPos : Z;
  lastTS : Z;
  tix_interval : Z
}.

Definition encode_time_entry (e : timeEntry) : list byte :=
  be_encode 8 (u64 (Timestamp e)) ++ be_encode 4 (tRelOffset e) ++ replicate 4 x00.

Definition decode_time_entry (buf : list byte) (k : nat) : timeEntry :=
  let off := Z.of_nat k * timeIndexEntrySize in
  mkTimeEntry (i64 (get_be buf off (off + 8))) (get_be buf (off + 8) (off + 12)).

(** [load]; unlike the offset index it does not restore [lastIndexedPos]. *)
Definition TimeIndex_load (t : TimeIndex) : TimeIndex :=
  let size := fsize (tix_file t) in
  let f := if negb (size mod timeIndexEntrySize =? 0)
           then file_truncate (tix_file t) (size - size mod timeIndexEntrySize)
           else tix_file t in
  let size := size - size mod timeIndexEntrySize in
  if size =? 0 then mkTimeIndex f (tix_entries t) (tix_lastIndexedPos t) (lastTS t) (tix_interval t)
  else
    let buf := file_readat f 0 size in
    let count := Z.to_nat (size / timeIndexEntrySize) in
    let entries := map (decode_time_entry buf) (seq 0 count) in
    mkTimeIndex f entries (tix_lastIndexedPos t)
      (match last entries with Some e => Timestamp e | None => lastTS t end)
      (tix_interval t).

Definition OpenTimeIndex (content : list byte) (interval : Z) : TimeIndex :=
  TimeIndex_load (mkTimeIndex (file_open content) [] 0 0 interval).

Definition TimeIndex_MaybeAppend (w : option Z) (t : TimeIndex) (ts relOffset position : Z)
  : TimeIndex * res unit :=
  if (position - tix_lastIndexedPos t <? tix_interval t) && negb (bool_decide (tix_entries t = []))
  then (t, Ok tt)
  else
    let ts := if (ts <=? lastTS t) && negb (bool_decide (tix_entries t = []))
              then i64 (lastTS t + 1) else ts in
    if (relOffset <? 0) || (relOffset >? 0xFFFFFFFF)
    then (t, Err (EMsg "relative offset out of range"))
    else
      let e := mkTimeEntry ts (u32 relOffset) in
      match file_write (tix_file t) (encode_time_entry e) w with
      | (f, Ok _) => (mkTimeIndex f (tix_entries t ++ [e]) position ts (tix_interval t), Ok tt)
      | (f, r) =>
          (mkTimeIndex f (tix_entries t) (tix_lastIndexedPos t) (lastTS t) (tix_interval t),
           wrap_err "write timeindex entry" r)
      end.

Definition TimeIndex_LookupOffset (t : TimeIndex) (ts : Z) : Z * bool :=
  if bool_decide (tix_entries t = []) then (0, false)
  else
    let k := sort_Search (length (tix_entries t)) (fun k =>
               match tix_entries t !! k with Some e => Timestamp e >=? ts | None => false end) in
    match tix_entries t !! k with
    | Some e => (tRelOffset e, true)
    | None => (0, false)      (* [idx == len(t.entries)] *)
    end.

Definition TimeIndex_Sync (t : TimeIndex) (ok : bool) : TimeIndex * res unit :=
  match file_sync (tix_file t) ok with
  | (f, r) => (mkTimeIndex f (tix_entries t) (tix_lastIndexedPos t) (lastTS t) (tix_interval t), r)
  end.

Definition TimeIndex_Reset (t : TimeIndex) : TimeIndex :=
  mkTimeIndex (file_seek (file_truncate (tix_file t) 0) 0) [] 0 0 (tix_interval t).

Definition TimeIndex_MaxTimestamp (t : TimeIndex) : Z := lastTS t.

(** ** Invariant: sorted by timestamp and by offset, [lastTS] the newest. *)

Definition time_lt (e e' : timeEntry) : Prop :=
  Timestamp e < Timestamp e' /\ tRelOffset e < tRelOffset e'.

Record timeindex_wf (t : TimeIndex) : Prop := {
  tw_sorted : StronglySorted time_lt (tix_entries t);
  tw_last : forall e, last (tix_entries t) = Some e -> lastTS t = Timestamp e
}.

Lemma TimeIndex_Reset_wf t : timeindex_wf (TimeIndex_Reset t).
Proof. constructor; simpl; [constructor|done]. Qed.

Lemma sorted_last_max (l : list timeEntry) e x :
  StronglySorted time_lt l -> last l = Some x -> e ∈ l -> Timestamp e <= Timestamp x.
Proof.
  intros Hs Hl (i & Hi)%list_elem_of_lookup. rewrite last_lookup in Hl.
  destruct (decide (i = pred (length l))) as [->|Hne]; [simplify_eq; lia|].
  apply lookup_lt_Some in Hi as Hlt.
  destruct (StronglySorted_lookup_lt _ _ i (pred (length l)) _ _ Hs ltac:(lia) Hi Hl). lia.
Qed.

(** Appending a later batch keeps the order, whatever timestamp its producer
    put on it, short of the last representable one. *)
Lemma TimeIndex_MaybeAppend_wf w t ts r p :
  timeindex_wf t ->
  - 2 ^ 63 <= lastTS t < 2 ^ 63 - 1 ->
  (forall e, e ∈ tix_entries t -> tRelOffset e < r) ->
  timeindex_wf (fst (TimeIndex_MaybeAppend w t ts r p)).
Proof.
  intros [Hs Hl] Hts Hlt. unfold TimeIndex_MaybeAppend.
  destruct ((p - tix_lastIndexedPos t <? tix_interval t) && _); [done|].
  set (ts' := if (ts <=? lastTS t) && _ then _ else ts).
  destruct ((r <? 0) || (r >? 0xFFFFFFFF)) eqn:Er; [done|]. zbool.
  destruct (file_write _ _ w) as [f [| | |]]; try done. cbn.
  constructor; cbn; [|intros e; rewrite last_snoc; by intros [= <-]].
  apply StronglySorted_snoc; [done|]. rewrite Forall_forall. intros e He.
  split; cbn; [|rewrite u32_small by lia; by apply Hlt].
  destruct (last (tix_entries t)) as [x|] eqn:Ex;
    [|apply last_None in Ex; rewrite Ex in He; by apply elem_of_nil in He].
  pose proof (sorted_last_max _ _ _ Hs Ex He). subst ts'. rewrite (Hl x eq_refl) in *.
  rewrite bool_decide_eq_false_2 by (by intros Hn; rewrite Hn in Ex).
  cbn. rewrite andb_true_r.
  destruct (Z.leb_spec ts (Timestamp x)); [rewrite i64_small by lia; lia|lia].
Qed.

(** ** Lookup: the first sample at or after the timestamp. *)

Definition time_lookup_linear (es : list timeEntry) (ts : Z) : Z * bool :=
  match head (filter (fun e => ts <= Timestamp e) es) with
  | Some e => (tRelOffset e, true)
  | None => (0, false)
  end.

Lemma filter_sorted_suffix (l : list timeEntry) ts k :
  (forall j e, l !! j = Some e -> (j < k)%nat -> Timestamp e < ts) ->
  (forall e, l !! k = Some e -> ts <= Timestamp e) ->
  head (filter (fun e => ts <= Timestamp e) l) = l !! k.
Proof.
  revert k. induction l as [|x l IH]; intros k Hlt Hge; [done|].
  destruct k as [|k].
  - rewrite filter_cons_True; [done|]. by apply Hge.
  - rewrite filter_cons_False by (pose proof (Hlt 0%nat x eq_refl); lia).
    apply IH; [|done]. intros j e Hj ?. apply (Hlt (S j)); [done|lia].
Qed.

Lemma TimeIndex_LookupOffset_linear t ts :
  timeindex_wf t -> TimeIndex_LookupOffset t ts = time_lookup_linear (tix_entries t) ts.
Proof.
  intros [Hs _]. unfold TimeIndex_LookupOffset, time_lookup_linear.
  set (es := tix_entries t) in *. case_bool_decide as E; [by rewrite E|].
  set (f := fun k => match es !! k with Some e => Timestamp e >=? ts | None => false end).
  destruct (sort_Search_spec (length es) f) as (Hn & Hlo & Hhi).
  { intros a b Hab. unfold f.
    destruct (es !! a) as [ea|] eqn:Ea; [|done].
    destruct (es !! b) as [eb|] eqn:Eb; [|apply lookup_ge_None in Eb; lia].
    rewrite !Z.geb_le. intros.
    destruct (decide (a = b)) as [->|]; [simplify_eq; lia|].
    destruct (StronglySorted_lookup_lt _ _ a b _ _ Hs ltac:(lia) Ea Eb). lia. }
  set (k := sort_Search (length es) f) in *.
  rewrite (filter_sorted_suffix es ts k); [done| |].
  - intros j e Hj Hjk. specialize (Hlo j Hjk). unfold f in Hlo. rewrite Hj in Hlo. zbool. lia.
  - intros e He. apply lookup_lt_Some in He as Hlt. specialize (Hhi Hlt).
    unfold f in Hhi. rewrite He in Hhi. zbool. lia.
Qed.
