(* ===== verification/Segment.v ===== *)
(** * Segments (internal/storage/segment.go)

    A segment is an append-only log file with its two index files.  This file
    holds the operations; SegmentFacts.v proves them correct. *)

From S2P Require Import Prelude Bytes OsFile RecordBatch Index TimeIndex.

Record Segment := mkSegment {
  baseOffset : Z;
  logFile : file;
  logSize : Z;
  createdAt : Z;              (* nanoseconds *)
  idx : Index;
  tix : TimeIndex;
  nextOffset : Z;
  maxBytes : Z;
  maxAge : Z;                 (* nanoseconds *)
  sealed : bool;
  closed : bool               (* the three handles are nil after [Close] *)
}.

Record SegmentOpts := mkOpts {
  opt_BaseOffset : Z;
  opt_IndexInterval : Z;
  opt_MaxBytes : Z;
  opt_MaxAge : Z
}.

(** The files of one segment as found in the partition directory. *)
Record SegFiles := mkSegFiles {
  sf_log : list byte;
  sf_index : list byte;
  sf_timeindex : list byte;
  sf_mtime : Z
}.
Definition no_files (now : Z) : SegFiles := mkSegFiles [] [] [] now.

(** How the environment behaves during one append: the clock, the three
    writes and the three fsyncs. *)
Record io := mkIo {
  io_now : Z;
  io_log : option Z;
  io_idx : option Z;
  io_tix : option Z;
  io_slog : bool;
  io_sidx : bool;
  io_stix : bool
}.

Definition set_log (s : Segment) (f : file) (size : Z) : Segment :=
  mkSegment (baseOffset s) f size (createdAt s) (idx s) (tix s) (nextOffset s)
    (maxBytes s) (maxAge s) (sealed s) (closed s).
Definition set_index (s : Segment) (i : Index) (t : TimeIndex) : Segment :=
  mkSegment (baseOffset s) (logFile s) (logSize s) (createdAt s) i t (nextOffset s)
    (maxBytes s) (maxAge s) (sealed s) (closed s).
Definition set_nextOffset (s : Segment) (n : Z) : Segment :=
  mkSegment (baseOffset s) (logFile s) (logSize s) (createdAt s) (idx s) (tix s) n
    (maxBytes s) (maxAge s) (sealed s) (closed s).
Definition set_sealed (s : Segment) (b : bool) : Segment :=
  mkSegment (baseOffset s) (logFile s) (logSize s) (createdAt s) (idx s) (tix s) (nextOffset s)
    (maxBytes s) (maxAge s) b (closed s).

(** The bookkeeping both [recover] and [Append] do for a batch at [pos]: the
    two index samples, whose errors are dropped, and the next offset. *)
Definition index_batch (wi wt : option Z) (s : Segment) (h : BatchHeader) (pos : Z) : Segment :=
  let relOff := i64 (BaseOffset h - baseOffset s) in
  set_nextOffset
    (set_index s
      (fst (Index_MaybeAppend wi (idx s) relOff pos))
      (fst (TimeIndex_MaybeAppend wt (tix s) (MaxTimestamp h) relOff pos)))
    (i64 (LastOffset h + 1)).

(** ** Recovery *)

(** The scan of [recover]: from [pos], accept batches while they parse, fit
    and pass the CRC; return the segment and the end of the last good one. *)
Fixpoint recover_loop (fuel : nat) (wio : Z -> option Z * option Z) (s : Segment) (pos : Z)
  : res (Segment * Z) :=
  match fuel with
  | O => Diverge
  | S fuel =>
      if pos <? logSize s then
        let header := file_readat (logFile s) pos v2HeaderSize in
        if zlen header <? v2HeaderSize then Ok (s, pos)
        else match ParseBatchHeader header with
        | Ok h =>
            let batchSize := TotalSize h in
            if pos + batchSize >? logSize s then Ok (s, pos)
            else
              let body := file_readat (logFile s) pos batchSize in
              if zlen body <? batchSize then Ok (s, pos)
              else match ValidateCRC body with
              | Ok _ =>
                  recover_loop fuel wio
                    (index_batch (fst (wio pos)) (snd (wio pos)) s h pos) (pos + batchSize)
              | _ => Ok (s, pos)
              end
        | _ => Ok (s, pos)
        end
      else Ok (s, pos)
  end.

Definition Segment_recover (wio : Z -> option Z * option Z) (s : Segment) : res Segment :=
  if logSize s =? 0 then Ok (set_nextOffset s (baseOffset s))
  else
    let s := set_index s (Index_Reset (idx s)) (TimeIndex_Reset (tix s)) in
    '(s, pos) ← recover_loop (S (Z.to_nat (logSize s))) wio s 0;
    let s := if pos <? logSize s
             then set_log s (file_truncate (logFile s) pos) pos else s in
    Ok (set_log s (file_seek (logFile s) (logSize s)) (logSize s)).

Definition OpenSegment (wio : Z -> option Z * option Z) (opts : SegmentOpts) (f : SegFiles) : res Segment :=
  Segment_recover wio {|
    baseOffset := opt_BaseOffset opts;
    logFile := file_open (sf_log f);
    logSize := zlen (sf_log f);
    createdAt := sf_mtime f;
    idx := OpenIndex (sf_index f) (opt_IndexInterval opts);
    tix := OpenTimeIndex (sf_timeindex f) (opt_IndexInterval opts);
    nextOffset := opt_BaseOffset opts;
    maxBytes := opt_MaxBytes opts;
    maxAge := opt_MaxAge opts;
    sealed := false;
    closed := false
  |}.

(** ** Appending *)

Definition ShouldRoll (now : Z) (s : Segment) : bool :=
  if logSize s =? 0 then false
  else if (maxBytes s >? 0) && (logSize s >=? maxBytes s) then true
  else if (maxAge s >? 0) && (now - createdAt s >=? maxAge s) then true
  else false.

(** [Append]: (first offset, last offset, position). *)
Definition Segment_Append (o : io) (s : Segment) (batch : list byte) : Segment * res (Z * Z * Z) :=
  if sealed s then (s, Err (EMsg "segment sealed"))
  else match wrap_err "parse batch" (ParseBatchHeader batch) with
  | Ok h =>
      match wrap_err "validate CRC" (ValidateCRC batch),
            wrap_err "validate attributes" (ValidateBatchAttributes (Attributes h)) with
      | Ok _, Ok _ =>
          let pos := logSize s in
          match file_write (logFile s) batch (io_log o) with
          | (f, Ok _) =>
              (index_batch (io_idx o) (io_tix o) (set_log s f (logSize s + zlen batch)) h pos,
               Ok (BaseOffset h, LastOffset h, pos))
          | (f, Err e) => (set_log s f (logSize s), Err (EWrap "write batch" e))
          | (f, _) => (set_log s f (logSize s), Panic)
          end
      | Err e, _ => (s, Err e)
      | Ok _, Err e => (s, Err e)
      | _, _ => (s, Panic)
      end
  | Err e => (s, Err e)
  | _ => (s, Panic)
  end.

(** ** Reading *)

(** [ReadAt]; [make([]byte, want)] panics on a negative length. *)
Definition Segment_ReadAt (s : Segment) (position maxBytes : Z) : res (list byte) :=
  if position >=? logSize s then Ok []
  else
    let want := if position + maxBytes >? logSize s then logSize s - position else maxBytes in
    if want <? 0 then Panic
    else if closed s then Err (EMsg "invalid argument")
    else Ok (file_readat (logFile s) position want).

(** The forward scan of [FindBatchAt].  The header buffer is reused: a short
    read leaves the tail of the previous contents in place. *)
Fixpoint find_loop (fuel : nat) (s : Segment) (targetOffset : Z) (header : list byte) (pos : Z) : res Z :=
  match fuel with
  | O => Diverge
  | S fuel =>
      if pos <? logSize s then
        let rd := file_readat (logFile s) pos v2HeaderSize in
        let header := rd ++ drop (length rd) header in
        match ParseBatchHeader header with
        | Ok h =>
            if (targetOffset >=? BaseOffset h) && (targetOffset <=? LastOffset h) then Ok pos
            else if BaseOffset h >? targetOffset then Ok pos
            else find_loop fuel s targetOffset header (pos + TotalSize h)
        | Err e => Err (EWrap "scan batch" e)
        | _ => Panic
        end
      else Ok (logSize s)
  end.

(** [s.idx] is nil on a closed segment. *)
Definition FindBatchAt (s : Segment) (targetOffset : Z) : res Z :=
  if closed s then Panic
  else
    let relOff := i64 (targetOffset - baseOffset s) in
    let '(p, ok) := Index_LookupPosition (idx s) relOff in
    let startPos := if ok then p else 0 in
    find_loop (S (Z.to_nat (logSize s))) s targetOffset (replicate 61 x00) startPos.

Definition Segment_LookupOffsetByTimestamp (s : Segment) (ts : Z) : res (Z * bool) :=
  if closed s then Panic
  else let '(rel, ok) := TimeIndex_LookupOffset (tix s) ts in
       if ok then Ok (i64 (baseOffset s + rel), true) else Ok (0, false).

(** ** Durability and lifecycle *)

Definition Segment_Sync (o : io) (s : Segment) : Segment * res unit :=
  if closed s then (s, Err (EMsg "invalid argument"))
  else match file_sync (logFile s) (io_slog o) with
  | (f, Ok _) =>
      let s := set_log s f (logSize s) in
      match Index_Sync (idx s) (io_sidx o) with
      | (i, Ok _) =>
          match TimeIndex_Sync (tix s) (io_stix o) with
          | (t, r) => (set_index s i t, r)
          end
      | (i, r) => (set_index s i (tix s), r)
      end
  | (f, r) => (set_log s f (logSize s), r)
  end.

Definition Segment_Seal (o : io) (s : Segment) : Segment * res unit :=
  match Segment_Sync o s with
  | (s, Ok _) => (set_sealed s true, Ok tt)
  | (s, r) => (s, r)
  end.

(** [Close] drops the handles; [Delete] closes and then removes the files.
    [ok] says whether closing (resp. removing) succeeds. *)
Definition Segment_Close (s : Segment) : Segment :=
  mkSegment (baseOffset s) (logFile s) (logSize s) (createdAt s) (idx s) (tix s) (nextOffset s)
    (maxBytes s) (maxAge s) (sealed s) true.

Definition Segment_Delete (ok : bool) (s : Segment) : Segment * res unit :=
  (Segment_Close s, if ok then Ok tt else Err (EMsg "remove: operation not permitted")).

(** The files of a segment as they stand on disk. *)
Definition seg_files (s : Segment) : SegFiles :=
  mkSegFiles (fdata (logFile s)) (fdata (idx_file (idx s))) (fdata (tix_file (tix s))) (createdAt s).
