(* ===== verification/SegmentFacts.v ===== *)
(** * Correctness of segments

    The abstract content of a segment is the list of batches in its log file,
    a chain: each batch starts at the offset where the previous one ends.
    [seg_wf] ties a segment's fields, file and offset index to that list. *)

From S2P Require Import Prelude Bytes OsFile RecordBatch Index TimeIndex Segment.

(** ** Chains of batches *)

(** The number of offsets a batch takes. *)
Definition records (b : list byte) : Z := LastOffsetDelta (decode_header b) + 1.

Definition recs (bs : list (list byte)) : Z := foldr (fun b n => records b + n) 0 bs.

(** A batch stored at offset [o]: complete, CRC-clean, and with a delta that
    neither is negative nor runs past the offset space. *)
Definition stored (o : Z) (b : list byte) : Prop :=
  exists h, ParseBatchHeader b = Ok h /\ zlen b = TotalSize h /\ ValidateCRC b = Ok tt /\
            BaseOffset h = o /\ 0 <= LastOffsetDelta h /\ o + LastOffsetDelta h + 1 < 2 ^ 63.

Fixpoint chain (o : Z) (bs : list (list byte)) : Prop :=
  match bs with
  | [] => True
  | b :: bs => stored o b /\ chain (o + records b) bs
  end.

Lemma recs_app bs cs : recs (bs ++ cs) = recs bs + recs cs.
Proof. induction bs as [|b bs IH]; simpl; lia. Qed.

Lemma chain_app o bs cs : chain o (bs ++ cs) <-> chain o bs /\ chain (o + recs bs) cs.
Proof.
  revert o. induction bs as [|b bs IH]; intros o; simpl.
  - rewrite Z.add_0_r. tauto.
  - rewrite IH, Z.add_assoc. tauto.
Qed.

Lemma stored_inv o b :
  stored o b ->
  ParseBatchHeader b = Ok (decode_header b) /\ zlen b = TotalSize (decode_header b) /\
  ValidateCRC b = Ok tt /\ BaseOffset (decode_header b) = o /\
  1 <= records b /\ o + records b < 2 ^ 63 /\ 61 <= zlen b.
Proof.
  intros (h & Hp & Hz & Hc & Ho & Hd & Hn).
  pose proof Hp as (-> & Hl & _)%ParseBatchHeader_Ok.
  unfold records. split_and!; try done; unfold v2HeaderSize in *; lia.
Qed.

Lemma stored_LastOffset o b :
  0 <= o -> stored o b -> LastOffset (decode_header b) = o + records b - 1.
Proof.
  intros ? (_ & _ & _ & Ho & Hr & Hn & _)%stored_inv.
  unfold LastOffset, records in *. rewrite i64_small; lia.
Qed.

Lemma chain_recs_nonneg o bs : chain o bs -> 0 <= recs bs.
Proof.
  revert o. induction bs as [|b bs IH]; intros o; simpl; [lia|].
  intros [(_ & _ & _ & _ & Hr & _)%stored_inv Hc]. apply IH in Hc. lia.
Qed.

Lemma chain_bound o bs : o < 2 ^ 63 -> chain o bs -> o + recs bs < 2 ^ 63.
Proof.
  revert o. induction bs as [|b bs IH]; intros o; simpl; [lia|].
  intros Ho [(_ & _ & _ & _ & Hr & Hn & _)%stored_inv Hc].
  apply IH in Hc; lia.
Qed.

Lemma chain_length o bs : chain o bs -> 61 * zlen bs <= zlen (concat bs).
Proof.
  revert o. induction bs as [|b bs IH]; intros o; cbn [concat chain]; [done|].
  intros [(_ & _ & _ & _ & _ & _ & Hb)%stored_inv Hc]. apply IH in Hc.
  rewrite zlen_cons, zlen_app. lia.
Qed.

(** The batch of a chain that holds a given offset. *)
Lemma chain_find o bs t :
  chain o bs -> o <= t < o + recs bs ->
  exists pre b post, bs = pre ++ b :: post /\ o + recs pre <= t < o + recs pre + records b.
Proof.
  revert o. induction bs as [|b bs IH]; intros o; simpl; [lia|].
  intros [Hs Hc] Ht. destruct (decide (t < o + records b)) as [Hlt|Hge].
  - exists [], b, bs. simpl. split; [done|lia].
  - destruct (IH _ Hc) as (pre & b' & post & -> & Hr); [lia|].
    exists (b :: pre), b', post. simpl. split; [done|lia].
Qed.

(** ** The segment invariant *)

(** An index entry points at the start of a batch. *)
Definition entry_points (bs : list (list byte)) (e : indexEntry) : Prop :=
  exists pre b post, bs = pre ++ b :: post /\
    Position e = zlen (concat pre) /\ RelOffset e = recs pre.

Record seg_wf (bs : list (list byte)) (s : Segment) : Prop := {
  sw_data : fdata (logFile s) = concat bs;
  sw_pos : fpos (logFile s) = zlen (concat bs);
  sw_size : logSize s = zlen (concat bs);
  sw_base : 0 <= baseOffset s < 2 ^ 63;
  sw_chain : chain (baseOffset s) bs;
  sw_next : nextOffset s = baseOffset s + recs bs;
  sw_idx : index_wf (idx s);
  sw_entries : Forall (entry_points bs) (idx_entries (idx s));
  sw_open : closed s = false
}.

Lemma seg_wf_next_range bs s : seg_wf bs s -> baseOffset s <= nextOffset s < 2 ^ 63.
Proof.
  intros []. pose proof (chain_recs_nonneg _ _ sw_chain0).
  pose proof (chain_bound _ _ (proj2 sw_base0) sw_chain0). lia.
Qed.

Lemma entry_points_app bs cs e : entry_points bs e -> entry_points (bs ++ cs) e.
Proof.
  intros (pre & b & post & -> & Hp & Hr). exists pre, b, (post ++ cs).
  by rewrite <- app_assoc.
Qed.

(** Every indexed batch lies before the end of the chain. *)
Lemma entry_points_lt o bs e :
  chain o bs -> entry_points bs e -> RelOffset e < recs bs /\ Position e < zlen (concat bs).
Proof.
  intros Hc (pre & b & post & -> & -> & ->).
  apply chain_app in Hc as [_ [(_ & _ & _ & _ & Hr & _ & Hb)%stored_inv Hc]].
  apply chain_recs_nonneg in Hc. rewrite recs_app, concat_app, zlen_app. simpl.
  rewrite zlen_app. pose proof (zlen_nonneg (concat post)). lia.
Qed.

(** The bookkeeping for a batch at the end of the chain. *)
Lemma index_batch_wf wi wt bs b s :
  0 <= baseOffset s < 2 ^ 63 -> chain (baseOffset s) (bs ++ [b]) ->
  index_wf (idx s) -> Forall (entry_points bs) (idx_entries (idx s)) ->
  let s' := index_batch wi wt s (decode_header b) (zlen (concat bs)) in
  index_wf (idx s') /\ Forall (entry_points (bs ++ [b])) (idx_entries (idx s')) /\
  nextOffset s' = baseOffset s + recs (bs ++ [b]).
Proof.
  intros Hb Hc Hi He. cbn zeta.
  pose proof Hc as [Hc1 [Hs _]]%chain_app.
  pose proof (chain_recs_nonneg _ _ Hc1) as Hnn.
  destruct (stored_inv _ _ Hs) as (_ & _ & _ & Ho & Hr & Hn & _).
  unfold index_batch. cbn [idx set_nextOffset set_index nextOffset].
  assert (i64 (BaseOffset (decode_header b) - baseOffset s) = recs bs) as ->
    by (rewrite Ho, i64_small; lia).
  split_and!.
  - apply Index_MaybeAppend_wf; [done|]. rewrite Forall_forall in He.
    intros e Hin. eapply entry_points_lt; [done|by apply He].
  - destruct (Index_MaybeAppend_entries wi (idx s) (recs bs) (zlen (concat bs)))
      as (_ & [[-> _]|(_ & _ & -> & _)]).
    + eapply Forall_impl; [done|]. intros. by apply entry_points_app.
    + rewrite Forall_app. split.
      * eapply Forall_impl; [done|]. intros. by apply entry_points_app.
      * apply Forall_singleton. by exists bs, b, [].
  - rewrite (stored_LastOffset (baseOffset s + recs bs) b) by (done || lia).
    rewrite i64_small by lia. rewrite recs_app. simpl. lia.
Qed.

(** ** Appending *)

(** A batch the segment accepts at its next offset. *)
Definition appendable (s : Segment) (b : list byte) : Prop :=
  stored (nextOffset s) b /\ ValidateBatchAttributes (Attributes (decode_header b)) = Ok tt.

Lemma Segment_Append_wf o bs s b :
  seg_wf bs s -> sealed s = false -> appendable s b -> io_log o = None ->
  exists s', Segment_Append o s b =
      (s', Ok (nextOffset s, nextOffset s + records b - 1, logSize s)) /\
    seg_wf (bs ++ [b]) s' /\ baseOffset s' = baseOffset s /\ sealed s' = false /\
    maxBytes s' = maxBytes s /\ maxAge s' = maxAge s /\ createdAt s' = createdAt s.
Proof.
  intros Hwf Hsl [Hst Hat] Hio. pose proof (seg_wf_next_range _ _ Hwf) as Hnr.
  destruct Hwf as [Hd Hp Hz Hb Hc Hn Hi He Hop].
  destruct (stored_inv _ _ Hst) as (Hpa & Hl & Hcrc & Ho & _).
  unfold Segment_Append. rewrite Hsl, Hpa. cbn [wrap_err]. rewrite Hcrc, Hat. cbn [wrap_err].
  rewrite Hio, file_write_append by (unfold fsize; congruence).
  rewrite (stored_LastOffset (nextOffset s)), Ho by (done || lia).
  eexists; split; [done|]. split; [|done].
  set (s1 := set_log s _ _).
  destruct (index_batch_wf (io_idx o) (io_tix o) bs b s1) as (Hi' & He' & Hn');
    [done| |done..|].
  { apply chain_app. split; [done|]. cbn. rewrite <- Hn. done. }
  rewrite Hz. constructor; try done; cbn.
  - rewrite Hd, concat_app. simpl. by rewrite app_nil_r.
  - unfold fsize. rewrite Hd, concat_app, zlen_app. simpl. by rewrite app_nil_r.
  - rewrite concat_app, zlen_app. simpl. rewrite app_nil_r. lia.
  - apply chain_app. split; [done|]. cbn. rewrite <- Hn. done.
Qed.

(** ** Reading headers out of the log *)

Lemma readat_batch f l b r :
  fdata f = l ++ b ++ r -> file_readat f (zlen l) (zlen b) = b.
Proof.
  intros Hf. pose proof (zlen_nonneg l). pose proof (zlen_nonneg b).
  rewrite file_readat_slice by lia. rewrite Hf. apply slice_mid.
Qed.

Lemma readat_header f l b r :
  fdata f = l ++ b ++ r -> v2HeaderSize <= zlen b ->
  zlen (file_readat f (zlen l) v2HeaderSize) = v2HeaderSize /\
  ParseBatchHeader (file_readat f (zlen l) v2HeaderSize) = ParseBatchHeader b.
Proof.
  intros Hf Hb. set (hd := take (Z.to_nat v2HeaderSize) b).
  assert (zlen hd = v2HeaderSize) as Hhd by (apply zlen_take; unfold v2HeaderSize in *; lia).
  assert (file_readat f (zlen l) v2HeaderSize = hd) as ->.
  { rewrite <- Hhd. apply (readat_batch f l hd (drop (Z.to_nat v2HeaderSize) b ++ r)).
    rewrite Hf. f_equal. rewrite app_assoc. unfold hd. by rewrite take_drop. }
  split; [done|].
  rewrite <- (ParseBatchHeader_app hd (drop (Z.to_nat v2HeaderSize) b)) by lia.
  unfold hd. by rewrite take_drop.
Qed.

(** ** Finding a batch *)

Lemma find_loop_ok rest : forall fuel s t header pre o,
  fdata (logFile s) = concat pre ++ concat rest ->
  logSize s = zlen (concat pre) + zlen (concat rest) ->
  length header = 61%nat -> chain o rest -> 0 <= o -> o <= t < o + recs rest ->
  (length rest < fuel)%nat ->
  exists mid b post, rest = mid ++ b :: post /\
    find_loop fuel s t header (zlen (concat pre)) = Ok (zlen (concat (pre ++ mid))) /\
    o + recs mid <= t < o + recs mid + records b.
Proof.
  induction rest as [|b rest IH]; intros fuel s t header pre o Hd Hz Hh Hc Ho Ht Hf;
    [simpl in Ht; lia|].
  destruct fuel as [|fuel]; [simpl in Hf; lia|].
  destruct Hc as [Hst Hc]. cbn [recs foldr] in Ht. fold (recs rest) in Ht.
  destruct (stored_inv _ _ Hst) as (Hpa & Hl & _ & Hbo & Hr & Hn & Hb61).
  cbn [concat] in Hd, Hz. rewrite zlen_app in Hz. pose proof (zlen_nonneg (concat rest)).
  destruct (readat_header (logFile s) (concat pre) b (concat rest)) as [Hrl Hrp];
    [done|unfold v2HeaderSize; lia|].
  cbn [find_loop]. rewrite (proj2 (Z.ltb_lt _ _)) by lia.
  set (rd := file_readat _ _ _) in *.
  assert (length rd = 61%nat) as Hrd by (unfold zlen, v2HeaderSize in Hrl; lia).
  rewrite (drop_ge header), app_nil_r, Hrp, Hpa by lia.
  rewrite (stored_LastOffset _ _ Ho Hst), Hbo, Z.geb_leb, Z.gtb_ltb.
  rewrite (proj2 (Z.leb_le o t)) by lia. cbn [andb].
  destruct (Z.leb_spec t (o + records b - 1)).
  - exists [], b, rest. rewrite app_nil_r. simpl. split_and!; [done..|lia|lia].
  - rewrite (proj2 (Z.ltb_ge t o)) by lia.
    destruct (IH fuel s t rd (pre ++ [b]) (o + records b)) as (mid & b' & post & -> & Hfl & Hr');
      [|rewrite concat_app, zlen_app; simpl; rewrite app_nil_r; lia|done|done|lia|lia|simpl in Hf; lia|].
    { rewrite Hd, concat_app. simpl. by rewrite app_nil_r, <- app_assoc. }
    exists (b :: mid), b', post. split; [done|]. split; [|simpl; lia].
    replace (zlen (concat pre) + TotalSize (decode_header b)) with (zlen (concat (pre ++ [b])))
      by (rewrite concat_app, zlen_app; simpl; rewrite app_nil_r; lia).
    rewrite Hfl. by rewrite <- app_assoc.
Qed.

(** Where the index lets the scan start: a batch boundary not past the
    target. *)
Lemma lookup_start bs s t :
  seg_wf bs s -> baseOffset s <= t < nextOffset s ->
  exists pre rest, bs = pre ++ rest /\ baseOffset s + recs pre <= t /\
    (let '(p, ok) := Index_LookupPosition (idx s) (i64 (t - baseOffset s)) in
     if ok then p else 0) = zlen (concat pre).
Proof.
  intros Hwf Ht. pose proof (seg_wf_next_range _ _ Hwf) as Hnr.
  destruct Hwf as [Hd Hp Hz Hb Hc Hn Hi He Hop].
  destruct (Index_LookupPosition_start (idx s) (i64 (t - baseOffset s)) Hi)
    as [H0|(e & Hin & Hle & Hpos)].
  - exists [], bs. cbn in *. rewrite H0. split_and!; [done|lia|done].
  - rewrite Forall_forall in He. destruct (He _ Hin) as (pre & b & post & -> & Hpe & Hre).
    exists pre, (b :: post). rewrite Hpos, Hpe. split_and!; [done| |done].
    rewrite i64_small in Hle by lia.
    assert (u32 (t - baseOffset s) <= t - baseOffset s).
    { unfold wrap_u. apply Z.mod_le; lia. }
    lia.
Qed.

Lemma FindBatchAt_ok bs s t :
  seg_wf bs s -> baseOffset s <= t < nextOffset s ->
  exists pre b post, bs = pre ++ b :: post /\
    FindBatchAt s t = Ok (zlen (concat pre)) /\
    baseOffset s + recs pre <= t < baseOffset s + recs pre + records b.
Proof.
  intros Hwf Ht. destruct (lookup_start bs s t Hwf Ht) as (pre & rest & Hbs & Hle & Hst).
  destruct Hwf as [Hd Hp Hz Hb Hc Hn Hi He Hop]. subst bs.
  pose proof Hc as [Hc1 Hc2]%chain_app. pose proof (chain_recs_nonneg _ _ Hc1).
  pose proof (chain_length _ _ Hc2). rewrite recs_app in Hn.
  rewrite concat_app in Hd. rewrite concat_app, zlen_app in Hz.
  unfold FindBatchAt. rewrite Hop.
  destruct (Index_LookupPosition (idx s) (i64 (t - baseOffset s))) as [p ok]. rewrite Hst.
  destruct (find_loop_ok rest (S (Z.to_nat (logSize s))) s t (replicate 61 x00) pre
              (baseOffset s + recs pre)) as (mid & b & post & -> & Hfl & Hr);
    [done|done|done|done|lia|lia| |].
  { pose proof (zlen_nonneg (concat pre)). unfold zlen in *. lia. }
  exists (pre ++ mid), b, post. rewrite Hfl, <- app_assoc, recs_app.
  split_and!; [done..|lia|lia].
Qed.

(** ** Recovery

    The reference: the longest prefix of a byte string made of complete,
    CRC-clean batches. *)

Definition valid_batch (b : list byte) : Prop :=
  ParseBatchHeader b = Ok (decode_header b) /\ zlen b = TotalSize (decode_header b) /\
  ValidateCRC b = Ok tt.

Fixpoint scan (fuel : nat) (data : list byte) : list (list byte) :=
  match fuel with
  | O => []
  | S fuel =>
      match ParseBatchHeader data with
      | Ok h =>
          if TotalSize h >? zlen data then []
          else
            let b := take (Z.to_nat (TotalSize h)) data in
            match ValidateCRC b with
            | Ok _ => b :: scan fuel (drop (Z.to_nat (TotalSize h)) data)
            | _ => []
            end
      | _ => []
      end
  end.

Definition valid_prefix (data : list byte) : list (list byte) := scan (S (length data)) data.

(** One step of the scan, as an inversion: it stops, or takes a batch. *)
Inductive scan_step (data : list byte) : Prop :=
| step_stop : (forall f, scan f data = []) ->
    (forall h, ParseBatchHeader data = Ok h -> TotalSize h <= zlen data ->
       ValidateCRC (take (Z.to_nat (TotalSize h)) data) <> Ok tt) -> scan_step data
| step_take b rest : data = b ++ rest -> valid_batch b -> 61 <= zlen b ->
    ParseBatchHeader data = Ok (decode_header b) ->
    (forall f, scan (S f) data = b :: scan f rest) -> scan_step data.

Lemma scan_cases data : scan_step data.
Proof.
  destruct (ParseBatchHeader data) as [h|e| |] eqn:Eh;
    try (apply step_stop; [intros [|f]; simpl; by rewrite ?Eh|intros ?; by rewrite Eh]).
  destruct (Z.gtb_spec (TotalSize h) (zlen data)) as [Hgt|Hle].
  { apply step_stop; [intros [|f]; simpl; rewrite ?Eh, ?Z.gtb_ltb, ?(proj2 (Z.ltb_lt _ _) Hgt); done|].
    intros h'. rewrite Eh. intros [= <-]. lia. }
  pose proof (TotalSize_bounds _ _ Eh) as Hb.
  set (b := take (Z.to_nat (TotalSize h)) data).
  assert (zlen b = TotalSize h) as Hzb by (apply zlen_take; unfold v2HeaderSize in *; lia).
  assert (ParseBatchHeader b = Ok h) as Hpb.
  { rewrite <- Eh. rewrite <- (ParseBatchHeader_app b (drop (Z.to_nat (TotalSize h)) data)) by lia.
    unfold b. by rewrite take_drop. }
  pose proof Hpb as (Hh & _)%ParseBatchHeader_Ok.
  destruct (ValidateCRC b) as [[]|e| |] eqn:Ec;
    try (apply step_stop;
         [intros [|f]; simpl; rewrite ?Eh, ?Z.gtb_ltb, ?(proj2 (Z.ltb_ge _ _) Hle); fold b; by rewrite ?Ec
         |intros h'; rewrite Eh; intros [= <-] _; fold b; by rewrite Ec]).
  apply (step_take _ b (drop (Z.to_nat (TotalSize h)) data)).
  - unfold b. by rewrite take_drop.
  - unfold valid_batch. rewrite <- Hh. done.
  - unfold v2HeaderSize in *. lia.
  - congruence.
  - intros f. cbn [scan]. rewrite Eh, Z.gtb_ltb, (proj2 (Z.ltb_ge _ _) Hle). fold b. by rewrite Ec.
Qed.

Lemma scan_fuel f : forall f' data,
  (length data < f)%nat -> (length data < f')%nat -> scan f data = scan f' data.
Proof.
  induction f as [|f IH]; intros [|f'] data Hf Hf'; try lia.
  destruct (scan_cases data) as [Hs _|b rest -> _ Hb _ Hs]; [by rewrite !Hs|].
  rewrite !Hs. f_equal. rewrite length_app in *. unfold zlen in Hb. apply IH; lia.
Qed.

Lemma valid_prefix_stop data : (forall f, scan f data = []) -> valid_prefix data = [].
Proof. intros H. apply H. Qed.

Lemma valid_prefix_take b rest :
  61 <= zlen b -> (forall f, scan (S f) (b ++ rest) = b :: scan f rest) ->
  valid_prefix (b ++ rest) = b :: valid_prefix rest.
Proof.
  intros Hb Hs. unfold valid_prefix. rewrite Hs. f_equal.
  rewrite length_app. unfold zlen in Hb. apply scan_fuel; lia.
Qed.

Lemma valid_batch_size b : valid_batch b -> 61 <= zlen b.
Proof. intros (Hp & Hl & _). pose proof (TotalSize_bounds _ _ Hp). unfold v2HeaderSize in *. lia. Qed.

(** The scan passes over valid batches and continues behind them. *)
Lemma valid_prefix_app bs tail :
  Forall valid_batch bs -> valid_prefix (concat bs ++ tail) = bs ++ valid_prefix tail.
Proof.
  induction 1 as [|b bs Hb _ IH]; [done|]. pose proof (valid_batch_size _ Hb).
  destruct Hb as (Hp & Hl & Hc). cbn [concat]. rewrite <- app_assoc. simpl. rewrite <- IH.
  apply valid_prefix_take; [done|]. intros f. cbn [scan].
  rewrite ParseBatchHeader_app, Hp by (unfold v2HeaderSize; lia).
  pose proof (zlen_nonneg (concat bs ++ tail)).
  rewrite Z.gtb_ltb, (proj2 (Z.ltb_ge _ _)) by (rewrite zlen_app; lia).
  rewrite <- Hl. unfold zlen. rewrite Nat2Z.id, take_app_length, drop_app_length. by rewrite Hc.
Qed.

(** What the scan returns is a prefix of the data, made of valid batches, and
    maximal: nothing valid follows. *)
Lemma valid_prefix_spec data :
  Forall valid_batch (valid_prefix data) /\
  exists tail, data = concat (valid_prefix data) ++ tail /\ valid_prefix tail = [].
Proof.
  remember (length data) as n eqn:Hn. revert data Hn.
  induction n as [n IH] using lt_wf_ind; intros data ->.
  destruct (scan_cases data) as [Hs _|b rest -> Hv Hb _ Hs].
  - rewrite (valid_prefix_stop _ Hs). split; [done|].
    exists data. split; [done|]. by apply valid_prefix_stop.
  - rewrite (valid_prefix_take _ _ Hb Hs).
    destruct (IH (length rest)) with (data := rest) as (Hf & tail & Hr & Ht);
      [rewrite length_app; unfold zlen in Hb; lia|done|].
    split; [by constructor|]. exists tail. split; [|done].
    cbn [concat]. rewrite <- app_assoc. by rewrite <- Hr.
Qed.

Lemma chain_valid o bs : chain o bs -> Forall valid_batch bs.
Proof.
  revert o. induction bs as [|b bs IH]; intros o; [constructor|].
  intros [(Hp & Hl & Hc & _)%stored_inv Hch]. constructor; [done|eauto].
Qed.

(** The indexing the scan does on its way. *)
Fixpoint index_all (wio : Z -> option Z * option Z) (s : Segment) (pos : Z) (bs : list (list byte)) : Segment :=
  match bs with
  | [] => s
  | b :: bs =>
      index_all wio (index_batch (fst (wio pos)) (snd (wio pos)) s (decode_header b) pos)
        (pos + zlen b) bs
  end.

(** Indexing changes only the indexes and the next offset. *)
Lemma index_all_frame wio bs : forall s pos,
  let s' := index_all wio s pos bs in
  baseOffset s' = baseOffset s /\ logFile s' = logFile s /\ logSize s' = logSize s /\
  createdAt s' = createdAt s /\ maxBytes s' = maxBytes s /\ maxAge s' = maxAge s /\
  sealed s' = sealed s /\ closed s' = closed s.
Proof.
  induction bs as [|b bs IH]; intros s pos; [done|]. cbn zeta. cbn [index_all].
  destruct (IH (index_batch (fst (wio pos)) (snd (wio pos)) s (decode_header b) pos) (pos + zlen b))
    as (-> & -> & -> & -> & -> & -> & -> & ->). done.
Qed.

(** The loop of [recover] computes the reference scan, and always returns. *)
Lemma recover_loop_scan fuel : forall wio s l rest,
  fdata (logFile s) = l ++ rest -> logSize s = zlen l + zlen rest -> (length rest < fuel)%nat ->
  recover_loop fuel wio s (zlen l) =
    Ok (index_all wio s (zlen l) (valid_prefix rest), zlen l + zlen (concat (valid_prefix rest))).
Proof.
  induction fuel as [|fuel IH]; intros wio s l rest Hd Hz Hf; [lia|].
  cbn [recover_loop]. pose proof (zlen_nonneg rest).
  destruct (Z.ltb_spec (zlen l) (logSize s)) as [Hlt|Hge].
  2: { assert (rest = []) as -> by (apply zlen_zero; lia).
       rewrite valid_prefix_stop by (by intros [|f]). cbn. by rewrite Z.add_0_r. }
  set (hd := file_readat (logFile s) (zlen l) v2HeaderSize).
  assert (zlen hd = Z.min v2HeaderSize (zlen rest)) as Hhd.
  { unfold hd, file_readat, zlen, v2HeaderSize. rewrite Hd, Nat2Z.id, drop_app_length, length_take. lia. }
  assert (v2HeaderSize <= zlen rest -> ParseBatchHeader hd = ParseBatchHeader rest) as Hph.
  { intros H61. apply (readat_header _ l rest []); [by rewrite app_nil_r|done]. }
  destruct (scan_cases rest) as [Hs Hstop|b rest' -> Hv Hb61 Hpr Hs].
  - rewrite (valid_prefix_stop _ Hs). cbn [concat index_all]. rewrite zlen_nil, Z.add_0_r.
    destruct (Z.ltb_spec (zlen hd) v2HeaderSize); [done|]. rewrite Hph by lia.
    destruct (ParseBatchHeader rest) as [h| | |] eqn:Eh; try done.
    rewrite Z.gtb_ltb. destruct (Z.ltb_spec (logSize s) (zlen l + TotalSize h)); [done|].
    case_match; [done|].
    specialize (Hstop h eq_refl ltac:(lia)).
    assert (file_readat (logFile s) (zlen l) (TotalSize h) = take (Z.to_nat (TotalSize h)) rest) as ->.
    { unfold file_readat, zlen. by rewrite Hd, Nat2Z.id, drop_app_length. }
    destruct (ValidateCRC _) as [[]| | |]; done.
  - rewrite (valid_prefix_take _ _ Hb61 Hs). destruct Hv as (Hp & Hl & Hc).
    rewrite zlen_app in *. pose proof (zlen_nonneg rest').
    rewrite (proj2 (Z.ltb_ge _ _)), Hph, Hpr by (unfold v2HeaderSize in *; lia).
    rewrite <- Hl, Z.gtb_ltb, (proj2 (Z.ltb_ge _ _)) by lia.
    rewrite (readat_batch (logFile s) l b rest') by done.
    rewrite Z.ltb_irrefl, Hc.
    replace (zlen l + zlen b) with (zlen (l ++ b)) by apply zlen_app.
    rewrite (IH wio _ (l ++ b) rest'); cbn [index_batch logFile logSize set_nextOffset set_index].
    + cbn [concat index_all]. rewrite !zlen_app. do 2 f_equal. lia.
    + by rewrite Hd, app_assoc.
    + rewrite zlen_app. lia.
    + rewrite length_app in Hf. unfold zlen in Hb61. lia.
Qed.

(** Indexing a chain behind [pre] keeps the index half of the invariant. *)
Lemma index_all_wf wio bs : forall s pre,
  0 <= baseOffset s < 2 ^ 63 -> chain (baseOffset s) (pre ++ bs) ->
  index_wf (idx s) -> Forall (entry_points pre) (idx_entries (idx s)) ->
  nextOffset s = baseOffset s + recs pre ->
  let s' := index_all wio s (zlen (concat pre)) bs in
  index_wf (idx s') /\ Forall (entry_points (pre ++ bs)) (idx_entries (idx s')) /\
  nextOffset s' = baseOffset s + recs (pre ++ bs).
Proof.
  induction bs as [|b bs IH]; intros s pre Hb Hc Hi He Hn; cbn zeta; cbn [index_all].
  - by rewrite app_nil_r.
  - replace (pre ++ b :: bs) with ((pre ++ [b]) ++ bs) in * by (by rewrite <- app_assoc).
    pose proof Hc as [Hc1 _]%chain_app.
    destruct (index_batch_wf (fst (wio (zlen (concat pre)))) (snd (wio (zlen (concat pre)))) pre b s)
      as (Hi' & He' & Hn'); [done..|].
    replace (zlen (concat pre) + zlen b) with (zlen (concat (pre ++ [b])))
      by (rewrite concat_app, zlen_app; simpl; rewrite app_nil_r; lia).
    apply (IH (index_batch _ _ s (decode_header b) (zlen (concat pre)))); done.
Qed.

Lemma index_wf_nil i : idx_entries i = [] -> index_wf i.
Proof. intros H. constructor; rewrite H; [constructor|constructor|done]. Qed.

(** [recover] always returns, leaves exactly the valid prefix in the file with
    the cursor at its end, and re-establishes the invariant when that prefix
    is a chain.  An empty log is the one case in which the indexes are not
    rebuilt. *)
Lemma Segment_recover_spec wio s :
  let data := fdata (logFile s) in
  let bs := valid_prefix data in
  logSize s = zlen data -> fsynced (logFile s) = zlen data -> closed s = false ->
  nextOffset s = baseOffset s -> (data = [] -> fpos (logFile s) = 0) ->
  exists s', Segment_recover wio s = Ok s' /\
    logFile s' = mkFile (concat bs) (zlen (concat bs)) (zlen (concat bs)) /\
    logSize s' = zlen (concat bs) /\
    baseOffset s' = baseOffset s /\ sealed s' = sealed s /\ createdAt s' = createdAt s /\
    maxBytes s' = maxBytes s /\ maxAge s' = maxAge s /\
    (0 <= baseOffset s < 2 ^ 63 -> chain (baseOffset s) bs ->
     (data = [] -> idx_entries (idx s) = []) -> seg_wf bs s').
Proof.
  cbn zeta. intros Hz Hsy Hcl Hn Hp. set (data := fdata (logFile s)) in *.
  set (bs := valid_prefix data).
  destruct (valid_prefix_spec data) as (_ & tail & Hdata & _). fold bs in Hdata.
  pose proof (zlen_nonneg tail) as Htl.
  unfold Segment_recover. destruct (Z.eqb_spec (logSize s) 0) as [E|E].
  { assert (data = []) as Hd by (apply zlen_zero; lia). specialize (Hp Hd).
    assert (bs = []) as -> by (unfold bs; by rewrite Hd).
    assert (logFile s = mkFile [] 0 0) as Hlf.
    { destruct (logFile s) as [d p y]; cbn in *. rewrite Hd in *. by subst. }
    eexists; split; [done|]. cbn. split_and!; try done; try lia.
    intros Hb _ Hi. specialize (Hi Hd).
    constructor; cbn; rewrite ?Hlf, ?Hi; try done; try lia; by apply index_wf_nil. }
  set (s1 := set_index s (Index_Reset (idx s)) (TimeIndex_Reset (tix s))).
  pose proof (recover_loop_scan (S (Z.to_nat (logSize s1))) wio s1 [] data) as Hloop.
  rewrite zlen_nil, !Z.add_0_l in Hloop. fold bs in Hloop. rewrite Hloop; cbn [mbind res_bind];
    [|done|done|cbn; rewrite Hz; unfold zlen; lia]. clear Hloop.
  clearbody bs. destruct (index_all_frame wio bs s1 0) as (F1 & F2 & F3 & F4 & F5 & F6 & F7 & F8).
  set (s2 := index_all wio s1 0 bs) in *.
  change (logFile s1) with (logFile s) in F2. change (logSize s1) with (logSize s) in F3.
  assert (zlen data = zlen (concat bs) + zlen tail) as Hdl by (rewrite Hdata at 1; apply zlen_app).
  set (s3 := if zlen (concat bs) <? logSize s2 then _ else s2).
  assert (logFile s3 = mkFile (concat bs) (fpos (logFile s)) (zlen (concat bs)) /\
          logSize s3 = zlen (concat bs)) as [Hf3 Hz3].
  { unfold s3. rewrite F2, F3, Hz. destruct (Z.ltb_spec (zlen (concat bs)) (zlen data)) as [H|H]; cbn.
    - split; [|done]. unfold file_truncate. fold data. rewrite Hsy. f_equal; [|lia].
      rewrite Hdata at 1. unfold zlen. by rewrite Nat2Z.id, take_app_length.
    - assert (tail = []) as -> by (apply zlen_zero; lia). rewrite app_nil_r in Hdata.
      rewrite F2, F3. split; [|lia]. destruct (logFile s) as [d p y]; cbn in *.
      unfold data in *. congruence. }
  assert (baseOffset s3 = baseOffset s /\ sealed s3 = sealed s /\ createdAt s3 = createdAt s /\
          maxBytes s3 = maxBytes s /\ maxAge s3 = maxAge s /\ closed s3 = closed s /\
          idx s3 = idx s2 /\ nextOffset s3 = nextOffset s2)
    as (G1 & G2 & G3 & G4 & G5 & G6 & G7 & G8).
  { unfold s3. destruct (_ <? _); cbn; by rewrite F1, F4, F5, F6, F7, F8. }
  exists (set_log s3 (file_seek (logFile s3) (logSize s3)) (logSize s3)).
  cbn. rewrite Hf3, Hz3. split_and!; try done.
  intros Hb Hc _.
  destruct (index_all_wf wio bs s1 []) as (Hi' & He' & Hn'); try done.
  { by apply index_wf_nil. }
  { cbn. lia. }
  cbn [app concat] in *. fold s2 in Hi', He', Hn'. rewrite zlen_nil in *.
  constructor; cbn; rewrite ?Hf3, ?Hz3, ?G1, ?G6, ?G7, ?G8; done.
Qed.
