(* ===== verification/Log.v ===== *)
(** * Partition logs (internal/storage/log.go)

    A log is an ordered list of segments, the last one active.  Operations in
    source order; the proofs are in LogFacts.v. *)

From S2P Require Import Prelude Bytes OsFile RecordBatch Index TimeIndex Segment.

Record Config := mkConfig {
  DataDir : string;
  SegmentBytes : Z;
  SegmentMS : Z;
  IndexInterval : Z;
  FsyncMode : string;
  FsyncIntervalNS : Z
}.

Definition FsyncNone : string := "none".
Definition FsyncInterval : string := "interval".
Definition FsyncAlways : string := "always".

Record Log := mkLog {
  cfg : Config;
  segments : list Segment;     (* sorted by base offset, the last is active *)
  logStart : Z;
  diskGuard : option bool      (* the guard's paused flag, when one is attached *)
}.

Definition set_segments (l : Log) (segs : list Segment) : Log :=
  mkLog (cfg l) segs (logStart l) (diskGuard l).

(** The defaults [Open] puts in place of unset settings. *)
Definition Open_config (c : Config) : res Config :=
  if bool_decide (DataDir c = EmptyString) then Err (EMsg "storage: DataDir required")
  else Ok {|
    DataDir := DataDir c;
    SegmentBytes := if SegmentBytes c <=? 0 then Z.shiftl 1 30 else SegmentBytes c;
    SegmentMS := if SegmentMS c <=? 0 then 7 * 24 * 3600 * 1000 else SegmentMS c;
    IndexInterval := if IndexInterval c <=? 0 then 16 * 1024 else IndexInterval c;
    FsyncMode := if bool_decide (FsyncMode c = EmptyString) then FsyncInterval else FsyncMode c;
    FsyncIntervalNS := if FsyncIntervalNS c <=? 0 then 5 * 1000000000 else FsyncIntervalNS c
  |}.

Definition seg_opts (c : Config) (base : Z) : SegmentOpts :=
  mkOpts base (IndexInterval c) (SegmentBytes c) (i64 (SegmentMS c * 1000000)).

(** ** File names: twenty decimal digits and a suffix *)

Definition digit (d : Z) : byte := z2b (48 + d).

Fixpoint dec_digits (n : nat) (z : Z) : list byte :=
  match n with
  | O => []
  | S n => dec_digits n (z / 10) ++ [digit (z mod 10)]
  end.

Definition logSuffix : list byte := [x2e; x6c; x6f; x67].   (* ".log" *)

(** [fmt.Sprintf("%020d%s", base, suffix)]. *)
Definition segmentFilename (base : Z) (suffix : list byte) : list byte :=
  (if base <? 0 then x2d :: dec_digits 19 (- base) else dec_digits 20 base) ++ suffix.

Definition is_digit (b : byte) : bool := (48 <=? b2z b) && (b2z b <=? 57).

Definition dec_value (ds : list byte) : Z :=
  fold_left (fun acc b => acc * 10 + (b2z b - 48)) ds 0.

(** [segmentFilenameRe] and [strconv.ParseInt]: a name that does not match, or
    whose number does not fit [int64], is skipped. *)
Definition parse_segment_name (name : list byte) : option Z :=
  let ds := take 20 name in
  if (length ds =? 20)%nat && forallb is_digit ds && bool_decide (drop 20 name = logSuffix)
  then let v := dec_value ds in if v <? 2 ^ 63 then Some v else None
  else None.

(** ** Opening *)

(** A partition directory: the names found in it, and the files of each base
    offset. *)
Record Dir := mkDir { dir_names : list (list byte); dir_files : Z -> SegFiles }.

(** Open the segments of [bases] in order; all but the last are sealed. *)
Fixpoint open_all (wio : Z -> option Z * option Z) (c : Config) (files : Z -> SegFiles) (bases : list Z)
  : res (list Segment) :=
  match bases with
  | [] => Ok []
  | base :: rest =>
      seg ← OpenSegment wio (seg_opts c base) (files base);
      segs ← open_all wio c files rest;
      Ok ((if bool_decide (rest = []) then seg else set_sealed seg true) :: segs)
  end.

Definition Log_recover (wio : Z -> option Z * option Z) (c : Config) (guard : option bool) (d : Dir)
  : res Log :=
  let bases := merge_sort Z.le (omap parse_segment_name (dir_names d)) in
  segs ← open_all wio c (dir_files d) bases;
  Ok (mkLog c segs (match segs with s :: _ => baseOffset s | [] => 0 end) guard).

Definition OpenLog (wio : Z -> option Z * option Z) (now : Z) (c : Config) (guard : option bool) (d : Dir)
  : res Log :=
  l ← Log_recover wio c guard d;
  match segments l with
  | [] =>
      seg ← OpenSegment wio (seg_opts c 0) (no_files now);
      Ok (set_segments l [seg])
  | _ => Ok l
  end.

(** ** Offsets *)

Definition HighWatermark (l : Log) : Z :=
  match last (segments l) with Some s => nextOffset s | None => 0 end.
Definition LogStartOffset (l : Log) : Z := logStart l.
Definition EarliestOffset (l : Log) : Z :=
  match segments l with s :: _ => baseOffset s | [] => 0 end.
Definition LatestOffset (l : Log) : Z := HighWatermark l.

(** ** Append *)

(** The list without its last element, and that element. *)
Definition split_last {A} (l : list A) : option (list A * A) :=
  match last l with
  | Some x => Some (take (length l - 1) l, x)
  | None => None
  end.

(** [rollLocked]: seal the active segment and open its successor. *)
Definition rollLocked (o : io) (l : Log) : Log * res unit :=
  match split_last (segments l) with
  | None => (l, Panic)
  | Some (pre, old) =>
      if nextOffset old =? baseOffset old then (l, Ok tt)
      else match Segment_Seal o old with
      | (old, Ok _) =>
          let newBase := nextOffset old in
          match OpenSegment (fun _ => (None, None)) (seg_opts (cfg l) newBase) (no_files (io_now o)) with
          | Ok seg => (set_segments l (pre ++ [old; seg]), Ok tt)
          | Err e => (set_segments l (pre ++ [old]), Err e)
          | Panic => (set_segments l (pre ++ [old]), Panic)
          | Diverge => (set_segments l (pre ++ [old]), Diverge)
          end
      | (old, r) => (set_segments l (pre ++ [old]), r)
      end
  end.

(** The validation pass over the whole request. *)
Fixpoint validate_all (batches : list (list byte)) : res unit :=
  match batches with
  | [] => Ok tt
  | b :: rest => _ ← wrap_err "batch" (ValidateBatchForAppend b); validate_all rest
  end.

(** The write pass: one batch at a time, rolling between batches. *)
Fixpoint append_loop (o : nat -> io) (i : nat) (l : Log) (batches : list (list byte)) : Log * res unit :=
  match batches with
  | [] => (l, Ok tt)
  | batch :: rest =>
      match split_last (segments l) with
      | None => (l, Panic)
      | Some (pre, active) =>
          match assign_offset batch (nextOffset active) with
          | Ok b =>
              match Segment_Append (o i) active b with
              | (active, Ok _) =>
                  let l := set_segments l (pre ++ [active]) in
                  if negb (bool_decide (rest = [])) && ShouldRoll (io_now (o i)) active then
                    match rollLocked (o i) l with
                    | (l, Ok _) => append_loop o (S i) l rest
                    | (l, r) => (l, wrap_err "roll mid-produce" r)
                    end
                  else append_loop o (S i) l rest
              | (active, Err e) => (set_segments l (pre ++ [active]), Err (EWrap "append batch" e))
              | (active, Panic) => (set_segments l (pre ++ [active]), Panic)
              | (active, Diverge) => (set_segments l (pre ++ [active]), Diverge)
              end
          | _ => (l, Panic)
          end
      end
  end.

(** Fsync of the last segment: the tail of [Append] in "always" mode, and
    [FlushAndSync]. *)
Definition sync_active (o : io) (l : Log) : Log * res unit :=
  match split_last (segments l) with
  | None => (l, Ok tt)
  | Some (pre, active) =>
      match Segment_Sync o active with
      | (active, r) => (set_segments l (pre ++ [active]), r)
      end
  end.

(** [Append].  [o 0] is the environment of the first roll and of the final
    fsync, [o (S i)] that of batch [i]. *)
Definition Log_Append (o : nat -> io) (l : Log) (batches : list (list byte)) : Log * res Z :=
  if bool_decide (diskGuard l = Some true) then (l, Err (ESentinel ErrDiskFull))
  else if bool_decide (batches = []) then (l, Err (EMsg "append: empty batches"))
  else match last (segments l) with
  | None => (l, Err (EMsg "append: no active segment"))
  | Some active =>
      match (if ShouldRoll (io_now (o 0%nat)) active then rollLocked (o 0%nat) l else (l, Ok tt)) with
      | (l, Ok _) =>
          let startOffset := HighWatermark l in
          match validate_all batches with
          | Ok _ =>
              match append_loop o 1 l batches with
              | (l, Ok _) =>
                  if bool_decide (FsyncMode (cfg l) = FsyncAlways) then
                    match sync_active (o 0%nat) l with
                    | (l, Ok _) => (l, Ok startOffset)
                    | (l, Err e) => (l, Err (EWrap "fsync after append" e))
                    | (l, Panic) => (l, Panic)
                    | (l, Diverge) => (l, Diverge)
                    end
                  else (l, Ok startOffset)
              | (l, Err e) => (l, Err e)
              | (l, Panic) => (l, Panic)
              | (l, Diverge) => (l, Diverge)
              end
          | Err e => (l, Err e)
          | Panic => (l, Panic)
          | Diverge => (l, Diverge)
          end
      | (l, Err e) => (l, Err (EWrap "roll segment" e))
      | (l, Panic) => (l, Panic)
      | (l, Diverge) => (l, Diverge)
      end
  end.

(** ** Fetch *)

(** The loop of [trimToBatchBoundary]: the end of the last complete batch. *)
Fixpoint trim_loop (fuel : nat) (buf : list byte) (pos : Z) : res Z :=
  match fuel with
  | O => Diverge
  | S fuel =>
      if pos <? zlen buf then
        if pos + v2HeaderSize >? zlen buf then Ok pos
        else match ParseBatchHeader (slice buf pos (pos + v2HeaderSize)) with
        | Ok h =>
            let stop := pos + TotalSize h in
            if stop >? zlen buf then Ok pos else trim_loop fuel buf stop
        | _ => Ok pos
        end
      else Ok pos
  end.

Definition trimToBatchBoundary (buf : list byte) : res (list byte) :=
  pos ← trim_loop (S (length buf)) buf 0; Ok (slice buf 0 pos).

Definition findSegmentLocked (l : Log) (fetchOffset : Z) : option Segment :=
  match segments l with
  | [] => None
  | s0 :: _ =>
      if fetchOffset <? baseOffset s0 then None
      else if fetchOffset >=? HighWatermark l then None
      else
        let i := sort_Search (length (segments l)) (fun k =>
                   match segments l !! k with Some s => baseOffset s >? fetchOffset | None => false end) in
        match i with
        | O => Some s0
        | S i => segments l !! i
        end
  end.

Definition FetchAt (l : Log) (fetchOffset maxBytes : Z) : res (list byte * Z) :=
  match segments l with
  | [] => Ok ([], fetchOffset)
  | _ =>
      match findSegmentLocked l fetchOffset with
      | None =>
          if fetchOffset >=? HighWatermark l then Ok ([], fetchOffset)
          else Err (ESentinel ErrOffsetOutOfRange)
      | Some seg =>
          startPos ← wrap_err "find batch" (FindBatchAt seg fetchOffset);
          buf ← wrap_err "read at" (Segment_ReadAt seg startPos maxBytes);
          if bool_decide (buf = []) then Ok ([], fetchOffset)
          else
            trimmed ← trimToBatchBoundary buf;
            if bool_decide (trimmed = []) then
              hdr ← ParseBatchHeader buf;
              let need := TotalSize hdr in
              full ← Segment_ReadAt seg startPos need;
              if zlen full <? need then Ok ([], fetchOffset)
              else Ok (full, BaseOffset (decode_header full))
            else Ok (trimmed, BaseOffset (decode_header trimmed))
      end
  end.

(** [LookupOffsetByTimestamp]: the first segment with a sample. *)
Fixpoint lookup_ts (segs : list Segment) (ts : Z) : res (Z * bool) :=
  match segs with
  | [] => Ok (0, false)
  | s :: rest =>
      r ← Segment_LookupOffsetByTimestamp s ts;
      if (r.2 : bool) then Ok r else lookup_ts rest ts
  end.
Definition Log_LookupOffsetByTimestamp (l : Log) (ts : Z) : res (Z * bool) :=
  lookup_ts (segments l) ts.

(** ** Segment lists, deletion, lifecycle *)

Definition SealedSegments (l : Log) : list Segment := take (length (segments l) - 1) (segments l).
Definition AllSegments (l : Log) : list Segment := segments l.

(** The loop of [DeleteSegmentsBefore]; [del k] says whether the [k]-th
    deletion succeeds.  Returns the remaining segments, the number deleted and
    the first error. *)
Fixpoint delete_loop (del : nat -> bool) (cutoff : Z) (deleted : nat) (segs : list Segment)
  : list Segment * nat * option error :=
  match segs with
  | seg :: ((next :: _) as rest) =>
      if baseOffset next >? cutoff then (segs, deleted, None)
      else match Segment_Delete (del deleted) seg with
      | (seg, Ok _) => delete_loop del cutoff (S deleted) rest
      | (seg, Err e) => (seg :: rest, deleted, Some e)
      | (seg, _) => (seg :: rest, deleted, None)
      end
  | _ => (segs, deleted, None)
  end.

(** On an error the early return leaves [logStart] as it was. *)
Definition DeleteSegmentsBefore (del : nat -> bool) (l : Log) (cutoff : Z) : Log * nat * option error :=
  match delete_loop del cutoff 0 (segments l) with
  | (segs, n, Some e) => (set_segments l segs, n, Some e)
  | (segs, n, None) =>
      (mkLog (cfg l) segs (match segs with s :: _ => baseOffset s | [] => logStart l end) (diskGuard l),
       n, None)
  end.

Definition FlushAndSync (o : io) (l : Log) : Log * res unit := sync_active o l.

Definition Log_Close (l : Log) : Log := set_segments l [].
