(* ===== verification/LogFacts.v ===== *)
(** * Correctness of partition logs

    The abstract log is a start offset and the list of batches stored from
    there on ([log_wf]).  Appending extends the list, fetching reads from it,
    deleting segments drops a prefix of it. *)

From S2P Require Import Prelude Bytes OsFile RecordBatch Index TimeIndex Segment SegmentFacts Log.

(** ** Lists by their last element *)

Lemma split_last_snoc {A} (l : list A) x : split_last (l ++ [x]) = Some (l, x).
Proof.
  unfold split_last. rewrite last_snoc, length_app. simpl.
  do 2 f_equal. apply take_app_length'. lia.
Qed.

(** ** The invariant *)

(** Sealed segments, contiguous from [o] to [o'], none of them empty. *)
Inductive front : Z -> list (list (list byte)) -> list Segment -> Z -> Prop :=
| front_nil o : front o [] [] o
| front_cons o bs bss s segs o' :
    seg_wf bs s -> baseOffset s = o -> sealed s = true -> bs <> [] ->
    front (nextOffset s) bss segs o' -> front o (bs :: bss) (s :: segs) o'.
#[export] Hint Constructors front : kw.

Definition log_wf (start : Z) (bs : list (list byte)) (l : Log) : Prop :=
  exists bss pre abs s,
    segments l = pre ++ [s] /\ front start bss pre (baseOffset s) /\
    seg_wf abs s /\ sealed s = false /\ bs = concat bss ++ abs.

Lemma front_snoc o bss segs o' bs s :
  front o bss segs o' -> seg_wf bs s -> baseOffset s = o' -> sealed s = true -> bs <> [] ->
  front o (bss ++ [bs]) (segs ++ [s]) (nextOffset s).
Proof. induction 1; intros; simpl; eauto with kw. Qed.

Lemma seg_wf_recs_pos bs s : seg_wf bs s -> bs <> [] -> baseOffset s < nextOffset s.
Proof.
  intros [Hdata Hpos Hsize Hbase Hchain Hnext Hidx Hentries Hopen] Hne. destruct bs as [|b bs]; [done|].
  destruct Hchain as [(_ & _ & _ & _ & Hr & _)%stored_inv Hc].
  apply chain_recs_nonneg in Hc. cbn [recs foldr] in Hnext. fold (recs bs) in Hnext. lia.
Qed.

Lemma seg_wf_empty bs s : seg_wf bs s -> nextOffset s = baseOffset s -> bs = [].
Proof.
  intros Hwf Heq. destruct (decide (bs = [])) as [|Hne]; [done|].
  pose proof (seg_wf_recs_pos _ _ Hwf Hne). lia.
Qed.

(** The batches of the sealed segments chain up to the active one's base. *)
Lemma front_chain o bss segs o' :
  front o bss segs o' -> chain o (concat bss) /\ o' = o + recs (concat bss).
Proof.
  induction 1 as [|o bs bss s segs o' Hwf Hb Hs Hne _ [IH1 IH2]]; cbn [concat].
  - split; [done|simpl; lia].
  - destruct Hwf as [Hdata Hpos Hsize Hbase Hchain Hnext Hidx Hentries Hopen]. rewrite chain_app, recs_app. rewrite <- Hb, <- Hnext.
    split; [done|]. lia.
Qed.

Lemma log_wf_chain start bs l :
  log_wf start bs l -> chain start bs /\ HighWatermark l = start + recs bs /\ 0 <= HighWatermark l < 2 ^ 63.
Proof.
  intros (bss & pre & abs & s & Hsegs & Hf & Hwf & _ & ->).
  destruct (front_chain _ _ _ _ Hf) as [Hc Ho].
  pose proof (seg_wf_next_range _ _ Hwf). destruct Hwf as [Hdata Hpos Hsize Hbase Hchain Hnext Hidx Hentries Hopen].
  unfold HighWatermark. rewrite Hsegs, last_snoc, chain_app, recs_app, <- Ho.
  split_and!; [done..|lia|lia|lia].
Qed.

(** The high watermark is determined by the abstract log. *)
Lemma log_wf_hwm start bs l l' : log_wf start bs l -> log_wf start bs l' -> HighWatermark l' = HighWatermark l.
Proof.
  intros (_ & H & _)%log_wf_chain (_ & H' & _)%log_wf_chain. congruence.
Qed.

(** ** Fsync and rolling *)

(** The fields no fsync touches. *)
Definition same_content (s s' : Segment) : Prop :=
  baseOffset s' = baseOffset s /\ nextOffset s' = nextOffset s /\ logSize s' = logSize s /\
  fdata (logFile s') = fdata (logFile s) /\ sealed s' = sealed s /\
  maxBytes s' = maxBytes s /\ maxAge s' = maxAge s /\ createdAt s' = createdAt s.

Definition durable (s : Segment) : Prop := fsynced (logFile s) = fsize (logFile s).

Definition sync_good (o : io) : Prop := io_slog o = true /\ io_sidx o = true /\ io_stix o = true.

Lemma Segment_Sync_spec o bs s :
  seg_wf bs s ->
  exists s' r, Segment_Sync o s = (s', r) /\ seg_wf bs s' /\ same_content s s' /\
    (r = Ok tt \/ exists e, r = Err e) /\ (r = Ok tt -> durable s') /\
    (sync_good o -> r = Ok tt) /\ (durable s -> durable s').
Proof.
  intros Hwf. pose proof Hwf as [Hdata Hpos Hsize Hbase Hchain Hnext Hidx Hentries Hopen]. unfold Segment_Sync. rewrite Hopen.
  unfold file_sync, Index_Sync, TimeIndex_Sync, sync_good, durable, file_sync.
  destruct (io_slog o); [destruct (io_sidx o); [destruct (io_stix o)|]|];
    (eexists _, _; split; [reflexivity|]; split_and!;
     [constructor; cbn; try done; destruct Hidx; by constructor
     |unfold same_content; cbn; split_and!; done|eauto|try done|intros (?&?&?); done|try done]).
Qed.

Lemma OpenSegment_empty wio opts now :
  0 <= opt_BaseOffset opts < 2 ^ 63 ->
  exists s, OpenSegment wio opts (no_files now) = Ok s /\ seg_wf [] s /\
    baseOffset s = opt_BaseOffset opts /\ nextOffset s = opt_BaseOffset opts /\
    sealed s = false /\ durable s.
Proof.
  intros Hb. eexists; split; [reflexivity|]. split_and!; try done.
  constructor; cbn; try done; try lia. by apply index_wf_nil.
Qed.

(** The sealed segments of a log, all of them on stable storage. *)
Definition sealed_durable (l : Log) : Prop := Forall durable (SealedSegments l).

Lemma SealedSegments_snoc l pre s : segments l = pre ++ [s] -> SealedSegments l = pre.
Proof.
  intros H. unfold SealedSegments. rewrite H, length_app. simpl.
  apply take_app_length'. lia.
Qed.

(** Rolling keeps the abstract log whatever the disk does; it succeeds when
    the fsyncs do. *)
Lemma rollLocked_spec o start bs l :
  log_wf start bs l ->
  exists l' r, rollLocked o l = (l', r) /\ log_wf start bs l' /\ cfg l' = cfg l /\
    diskGuard l' = diskGuard l /\ logStart l' = logStart l /\
    (r = Ok tt \/ exists e, r = Err e) /\ (sync_good o -> r = Ok tt) /\
    (sealed_durable l -> sealed_durable l').
Proof.
  intros (bss & pre & abs & s & Hsegs & Hf & Hwf & Hsl & ->).
  unfold rollLocked. rewrite Hsegs, split_last_snoc.
  destruct (Z.eqb_spec (nextOffset s) (baseOffset s)) as [E|E].
  { eexists _, _; split; [done|]. split; [by exists bss, pre, abs, s|]. by eauto 10. }
  unfold Segment_Seal.
  destruct (Segment_Sync_spec o abs s Hwf) as (s' & r & -> & Hwf' & Hsc & Hr & Hdur & Hgood & _).
  pose proof Hsc as (Hb' & Hn' & _ & _ & Hs' & _).
  destruct Hr as [->|[e ->]].
  - destruct (OpenSegment_empty (fun _ => (None, None)) (seg_opts (cfg l) (nextOffset (set_sealed s' true)))
                (io_now o)) as (seg & -> & Hwfn & Hbn & Hnn & Hsn & _).
    { cbn. pose proof (seg_wf_next_range _ _ Hwf'). destruct Hwf' as [Hdata Hpos Hsize Hbase Hchain Hnext Hidx Hentries Hopen]. lia. }
    eexists _, _; split; [done|]. split.
    + exists (bss ++ [abs]), (pre ++ [set_sealed s' true]), [], seg.
      cbn [segments set_segments]. split; [by rewrite <- app_assoc|]. split.
      * rewrite Hbn. cbn. rewrite Hn'. rewrite <- Hn'.
        apply (front_snoc _ _ _ (baseOffset s) abs (set_sealed s' true)); try done.
        -- destruct Hwf' as [Hdata Hpos Hsize Hbase Hchain Hnext Hidx Hentries Hopen]. by constructor.
        -- intros ->. destruct Hwf as [Hdata Hpos Hsize Hbase Hchain Hnext Hidx Hentries Hopen]. cbn in *. lia.
      * split_and!; [done..|]. rewrite concat_app. cbn. by rewrite !app_nil_r.
    + split_and!; try done; [by left|].
      unfold sealed_durable. rewrite (SealedSegments_snoc l pre s Hsegs).
      rewrite (SealedSegments_snoc _ (pre ++ [set_sealed s' true]) seg)
        by (cbn; by rewrite <- app_assoc).
      intros Hd. apply Forall_app. split; [done|]. apply Forall_singleton. by apply Hdur.
  - eexists _, _; split; [done|]. split.
    + exists bss, pre, abs, s'. cbn. rewrite Hb', Hs'. done.
    + split_and!; try done; [by eauto|].
      unfold sealed_durable. rewrite (SealedSegments_snoc l pre s Hsegs).
      by rewrite (SealedSegments_snoc _ pre s').
Qed.

(** ** Appending *)

(** What a well-behaved client sends: a batch that passes validation, whose
    length is the one its header announces and whose delta is not negative. *)
Definition acceptable (b : list byte) : Prop :=
  ValidateBatchForAppend b = Ok tt /\ zlen b = TotalSize (decode_header b) /\
  0 <= LastOffsetDelta (decode_header b).

Lemma acceptable_assign b off :
  acceptable b -> 0 <= off -> off + records b < 2 ^ 63 ->
  exists b', assign_offset b off = Ok b' /\ same_outside_patch b b' /\ records b' = records b /\
    stored off b' /\ ValidateBatchAttributes (Attributes (decode_header b')) = Ok tt.
Proof.
  intros (Hv & Hl & Hd) H0 Hoff. unfold records in Hoff.
  apply ValidateBatchForAppend_Ok in Hv as (Hsz & (h & Hp & Ha) & Hc).
  pose proof Hp as (-> & H61 & _)%ParseBatchHeader_Ok.
  assert (in_s 64 off) as Hin by (unfold in_s; simpl; lia).
  destruct (assign_offset_spec b off) as (b' & E & Hsame & Hoff'); [done..|].
  destruct (assign_offset_ok b _ off Hp Hc Hin) as (b2 & E2 & Hp2 & Hc2 & Hz2 & _).
  rewrite E in E2; injection E2 as <-.
  pose proof Hp2 as (Hd2 & _)%ParseBatchHeader_Ok.
  exists b'. split_and!; try done; rewrite <- ?Hd2; try done.
  - unfold records. by rewrite <- Hd2.
  - exists (set_BaseOffset off (decode_header b)). unfold TotalSize in *.
    cbn [set_BaseOffset BaseOffset BatchLength LastOffsetDelta]. split_and!; try done; lia.
Qed.

(** One batch into the active segment. *)
Lemma log_append_one o start bs l pre active b :
  log_wf start bs l -> segments l = pre ++ [active] -> acceptable b ->
  HighWatermark l + records b < 2 ^ 63 -> io_log o = None ->
  exists b' active', assign_offset b (nextOffset active) = Ok b' /\ same_outside_patch b b' /\
    records b' = records b /\
    Segment_Append o active b' =
      (active', Ok (nextOffset active, nextOffset active + records b' - 1, logSize active)) /\
    log_wf start (bs ++ [b']) (set_segments l (pre ++ [active'])).
Proof.
  intros Hwf Hsegs Hacc Hroom Hio. pose proof (log_wf_chain _ _ _ Hwf) as (_ & _ & Hr).
  unfold HighWatermark in Hroom, Hr. rewrite Hsegs, last_snoc in Hroom, Hr.
  destruct Hwf as (bss & pre' & abs & s & Hsegs' & Hf & Hs & Hsl & ->).
  rewrite Hsegs in Hsegs'. apply app_inj_tail in Hsegs' as [<- <-].
  destruct (acceptable_assign b (nextOffset active) Hacc) as (b' & E & Hsame & Hrec & Hst & Ha); [lia..|].
  destruct (Segment_Append_wf o abs active b') as (a' & Ea & Ha' & Hb & Hsl' & _); try done.
  exists b', a'. split_and!; try done.
  exists bss, pre, (abs ++ [b']), a'. rewrite Hb, <- app_assoc. done.
Qed.

(** The frame of the append path. *)
Definition same_frame (l l' : Log) : Prop :=
  cfg l' = cfg l /\ diskGuard l' = diskGuard l /\ logStart l' = logStart l.

Lemma same_frame_refl l : same_frame l l.
Proof. done. Qed.

Lemma same_frame_trans l1 l2 l3 : same_frame l1 l2 -> same_frame l2 l3 -> same_frame l1 l3.
Proof. unfold same_frame. intuition congruence. Qed.

(** The batches as stored: each patched to start where the previous one
    ends. *)
Fixpoint assign_all (off : Z) (bs : list (list byte)) : list (list byte) :=
  match bs with
  | [] => []
  | b :: bs =>
      match assign_offset b off with
      | Ok b' => b' :: assign_all (off + records b) bs
      | _ => []
      end
  end.

(** What an append path has done when it stops: some prefix [got] of the
    request is stored, with result [r]. *)
Definition appended (start : Z) (bs : list (list byte)) (l l' : Log)
    (batches : list (list byte)) (r : res unit) (good : Prop) : Prop :=
  exists got left bs', batches = got ++ left /\ bs' = assign_all (HighWatermark l) got /\
    Forall2 same_outside_patch got bs' /\ recs bs' = recs got /\
    log_wf start (bs ++ bs') l' /\ same_frame l l' /\
    (r = Ok tt /\ left = [] \/ exists e, r = Err e /\ ~ good) /\
    (sealed_durable l -> sealed_durable l').

Lemma appended_cons start bs l l1 l' b b' batches r good :
  assign_offset b (HighWatermark l) = Ok b' -> HighWatermark l1 = HighWatermark l + records b ->
  same_outside_patch b b' -> records b' = records b -> same_frame l l1 ->
  (sealed_durable l -> sealed_durable l1) ->
  appended start (bs ++ [b']) l1 l' batches r good ->
  appended start bs l l' (b :: batches) r good.
Proof.
  intros Ha Hh Hs Hr Hf Hd (got & lft & bs' & -> & Heq & H2 & Hrec & Hwf & Hf' & Hres & Hd').
  exists (b :: got), lft, (b' :: bs'). rewrite <- app_assoc in Hwf.
  split_and!; try done; [cbn [assign_all]; by rewrite Ha, Heq, Hh|by constructor|cbn; fold (recs bs') (recs got); lia
    |by eapply same_frame_trans|auto].
Qed.

Lemma append_loop_spec o batches : forall i start bs l,
  log_wf start bs l -> Forall acceptable batches ->
  HighWatermark l + recs batches < 2 ^ 63 -> (forall k, io_log (o k) = None) ->
  exists l' r, append_loop o i l batches = (l', r) /\
    appended start bs l l' batches r (forall k, sync_good (o k)).
Proof.
  induction batches as [|b batches IH]; intros i start bs l Hwf Hacc Hroom Hio.
  { exists l, (Ok tt). split; [done|]. exists [], [], [].
    split_and!; try done; [by rewrite app_nil_r|by left]. }
  apply Forall_cons in Hacc as [Hb Hacc].
  assert (0 <= recs batches) as Hnn.
  { clear -Hacc. induction Hacc as [|x xs (_ & _ & ?)]; cbn; [done|]. fold (recs xs). unfold records. lia. }
  assert (1 <= records b) as Hb1 by (destruct Hb as (_ & _ & ?); unfold records; lia).
  cbn [recs foldr] in Hroom. fold (recs batches) in Hroom.
  pose proof Hwf as (bss & pre & abs & s & Hsegs & _).
  destruct (log_append_one (o i) start bs l pre s b) as (b' & s' & E1 & Hsame & Hrec & E2 & Hwf1);
    [done..|lia|done|].
  cbn [append_loop]. rewrite Hsegs, split_last_snoc, E1, E2.
  set (l1 := set_segments l (pre ++ [s'])) in *.
  assert (HighWatermark l1 = HighWatermark l + records b) as Hhw.
  { rewrite (proj1 (proj2 (log_wf_chain _ _ _ Hwf1))), (proj1 (proj2 (log_wf_chain _ _ _ Hwf))), recs_app.
    cbn. lia. }
  assert (sealed_durable l -> sealed_durable l1) as Hsd.
  { unfold sealed_durable. by rewrite (SealedSegments_snoc l pre s Hsegs), (SealedSegments_snoc l1 pre s'). }
  assert (same_frame l l1) as Hfr by done.
  assert (assign_offset b (HighWatermark l) = Ok b') as Hassign.
  { unfold HighWatermark. by rewrite Hsegs, last_snoc. }
  destruct (negb _ && ShouldRoll _ _).
  - destruct (rollLocked_spec (o i) _ _ _ Hwf1) as (l2 & r2 & -> & Hwf2 & Hc2 & Hg2 & Hs2 & Hr2 & Hgood & Hd2).
    assert (same_frame l l2) as Hf2 by (apply (same_frame_trans _ l1); done).
    destruct Hr2 as [->|[e ->]].
    + destruct (IH (S i) _ _ _ Hwf2 Hacc) as (l' & r & -> & Happ); [|done|].
      { rewrite (proj1 (proj2 (log_wf_chain _ _ _ Hwf2))), <- (proj1 (proj2 (log_wf_chain _ _ _ Hwf1))). lia. }
      exists l', r. split; [done|]. pose proof (log_wf_hwm _ _ _ _ Hwf1 Hwf2).
      apply (appended_cons _ _ _ l2 _ _ b'); auto; congruence.
    + exists l2, (Err (EWrap "roll mid-produce" e)). split; [done|].
      exists [b], batches, [b']. split_and!; eauto; [cbn [assign_all]; by rewrite Hassign|cbn; lia|].
      right. eexists; split; [done|]. intros Hg. by specialize (Hgood (Hg i)).
  - destruct (IH (S i) _ _ _ Hwf1 Hacc) as (l' & r & -> & Happ); [lia|done|].
    exists l', r. split; [done|]. eapply appended_cons; eauto.
Qed.

Lemma validate_all_Ok batches :
  validate_all batches = Ok tt <-> Forall (fun b => ValidateBatchForAppend b = Ok tt) batches.
Proof.
  induction batches as [|b batches IH]; cbn [validate_all]; [by split|].
  rewrite Forall_cons, <- IH. destruct (ValidateBatchForAppend b) as [[]| | |]; cbn; split; intuition done.
Qed.

Lemma validate_all_cases batches :
  validate_all batches = Ok tt \/ exists e, validate_all batches = Err e.
Proof.
  induction batches as [|b batches IH]; cbn [validate_all]; [by left|].
  assert (ValidateBatchForAppend b = Ok tt \/ exists e, ValidateBatchForAppend b = Err e) as [->|[e ->]].
  { unfold ValidateBatchForAppend, ParseBatchHeader, ValidateCRC, ValidateBatchAttributes,
      ValidateCompressionCodec.
    repeat (case_match; cbn [mbind res_bind wrap_err]; eauto); simplify_eq; eauto. }
  - done.
  - right. eexists. done.
Qed.

(** Every segment of the log on stable storage. *)
Definition all_durable (l : Log) : Prop := Forall durable (segments l).

Lemma sync_active_spec o start bs l :
  log_wf start bs l ->
  exists l' r, sync_active o l = (l', r) /\ log_wf start bs l' /\ same_frame l l' /\
    (r = Ok tt \/ exists e, r = Err e) /\ (sync_good o -> r = Ok tt) /\
    (r = Ok tt -> sealed_durable l -> all_durable l') /\
    (sealed_durable l -> sealed_durable l').
Proof.
  intros (bss & pre & abs & s & Hsegs & Hf & Hwf & Hsl & ->).
  unfold sync_active. rewrite Hsegs, split_last_snoc.
  destruct (Segment_Sync_spec o abs s Hwf) as (s' & r & -> & Hwf' & Hsc & Hr & Hdur & Hgood & _).
  destruct Hsc as (Hb' & _ & _ & _ & Hs' & _).
  eexists _, _; split; [done|]. split; [|split_and!; try done].
  - exists bss, pre, abs, s'. cbn. by rewrite Hb', Hs'.
  - intros Hok. unfold sealed_durable, all_durable. rewrite (SealedSegments_snoc l pre s Hsegs). cbn.
    intros Hd. apply Forall_app. auto.
  - unfold sealed_durable. by rewrite (SealedSegments_snoc l pre s Hsegs), (SealedSegments_snoc _ pre s').
Qed.

(** The roll in front of a request. *)
Lemma first_roll_spec o start bs l (roll : bool) :
  log_wf start bs l ->
  exists l1 r1, (if roll then rollLocked o l else (l, Ok tt)) = (l1, r1) /\
    log_wf start bs l1 /\ same_frame l l1 /\ (r1 = Ok tt \/ exists e, r1 = Err e) /\
    (sync_good o -> r1 = Ok tt) /\ (sealed_durable l -> sealed_durable l1).
Proof.
  intros Hwf. destruct roll; [|exists l, (Ok tt); split_and!; try done; by left].
  destruct (rollLocked_spec o _ _ _ Hwf) as (l1 & r1 & -> & ? & ? & ? & ? & ? & ? & ?).
  exists l1, r1. by split_and!.
Qed.

(** The request as a whole, on a log that takes writes: it succeeds with the
    old high watermark and everything stored, or fails because an fsync did. *)
Lemma Log_Append_spec o start bs l batches :
  log_wf start bs l -> diskGuard l <> Some true -> batches <> [] ->
  Forall acceptable batches -> HighWatermark l + recs batches < 2 ^ 63 ->
  (forall k, io_log (o k) = None) ->
  exists l' r u, Log_Append o l batches = (l', r) /\
    appended start bs l l' batches u (forall k, sync_good (o k)) /\
    (u = Ok tt /\ r = Ok (HighWatermark l) /\
       (FsyncMode (cfg l) = FsyncAlways -> sealed_durable l -> all_durable l') \/
     exists e, r = Err e /\ ~ (forall k, sync_good (o k))).
Proof.
  intros Hwf Hg Hne Hacc Hroom Hio. unfold Log_Append.
  rewrite bool_decide_false by done. rewrite bool_decide_false by done.
  pose proof Hwf as (bss & pre & abs & s & Hsegs & _). rewrite Hsegs, last_snoc.
  destruct (first_roll_spec (o 0%nat) start bs l (ShouldRoll (io_now (o 0%nat)) s) Hwf)
    as (l1 & r1 & -> & Hwf1 & Hf1 & Hr1 & Hgood & Hd1).
  pose proof (log_wf_hwm _ _ _ _ Hwf Hwf1) as Hhw.
  destruct Hr1 as [->|[e ->]].
  2: { assert (~ (forall k, sync_good (o k))) as Hng by (intros H; by specialize (Hgood (H 0%nat))).
       eexists l1, _, (Err e). split; [done|]. split; [|by eauto].
       exists [], batches, []. rewrite app_nil_r. split_and!; eauto. }
  rewrite (proj2 (validate_all_Ok batches)) by (eapply Forall_impl; [done|]; by intros ? []).
  destruct (append_loop_spec o batches 1 _ _ _ Hwf1 Hacc) as (l2 & r2 & -> & Happ); [lia|done|].
  destruct Happ as (got & lft & bs' & -> & Heq & H2 & Hrec & Hwf2 & Hf2 & Hr2 & Hd2).
  rewrite Hhw in Heq. pose proof (same_frame_trans _ _ _ Hf1 Hf2) as Hf12. pose proof Hf12 as (Hc2 & _).
  destruct Hr2 as [[-> ->]|(e & -> & Hng)].
  2: { eexists l2, _, (Err e). split; [done|]. split; [|by eauto].
       exists got, lft, bs'. split_and!; eauto. }
  rewrite Hc2, Hhw. destruct (bool_decide_reflect (FsyncMode (cfg l) = FsyncAlways)) as [Hal|Hal].
  2: { eexists l2, _, (Ok tt). split; [done|]. split; [|by left].
       exists got, [], bs'. split_and!; eauto. }
  destruct (sync_active_spec (o 0%nat) _ _ _ Hwf2) as (l3 & r3 & -> & Hwf3 & Hf3 & Hr3 & Hg3 & Hd3 & Hd4).
  pose proof (same_frame_trans _ _ _ Hf12 Hf3) as Hf13.
  destruct Hr3 as [->|[e ->]].
  - eexists l3, _, (Ok tt). split; [done|]. split; [|left; split_and!; auto].
    exists got, [], bs'. split_and!; eauto.
  - assert (~ (forall k, sync_good (o k))) as Hng by (intros H; by specialize (Hg3 (H 0%nat))).
    eexists l3, _, (Err e). split; [done|]. split; [|by eauto].
    exists got, [], bs'. split_and!; eauto.
Qed.
