(* ===== verification/LogRead.v ===== *)
(** * Reading and trimming partition logs

    [FetchAt] against the abstract log of LogFacts.v, the consumer loop built
    on it, and [DeleteSegmentsBefore]. *)

From S2P Require Import Prelude Bytes OsFile RecordBatch Index TimeIndex Segment SegmentFacts Log LogFacts.

(** ** All segments of a log, contiguous *)

Inductive contig : Z -> list (list (list byte)) -> list Segment -> Z -> Prop :=
| contig_nil o : contig o [] [] o
| contig_cons o bs bss s segs o' :
    seg_wf bs s -> baseOffset s = o -> contig (nextOffset s) bss segs o' ->
    contig o (bs :: bss) (s :: segs) o'.
#[export] Hint Constructors contig : kw.

Lemma contig_app o bss segs o' bss2 segs2 o2 :
  contig o bss segs o' -> contig o' bss2 segs2 o2 -> contig o (bss ++ bss2) (segs ++ segs2) o2.
Proof. induction 1; intros; simpl; eauto with kw. Qed.

Lemma front_contig o bss segs o' : front o bss segs o' -> contig o bss segs o'.
Proof. induction 1; eauto with kw. Qed.

Lemma log_wf_contig start bs l :
  log_wf start bs l ->
  exists bss, bs = concat bss /\ contig start bss (segments l) (HighWatermark l) /\ bss <> [].
Proof.
  intros (bss & pre & abs & s & Hsegs & Hf & Hwf & _ & ->).
  exists (bss ++ [abs]). unfold HighWatermark. rewrite Hsegs, last_snoc. split_and!.
  - rewrite concat_app. simpl. by rewrite app_nil_r.
  - eapply contig_app; [by apply front_contig|eauto with kw].
  - by destruct bss.
Qed.

(** The [k]-th segment, with what lies before and after it. *)
Lemma contig_lookup o bss segs o' : contig o bss segs o' -> forall k s, segs !! k = Some s ->
  exists bss1 bs bss2, bss = bss1 ++ bs :: bss2 /\ seg_wf bs s /\
    baseOffset s = o + recs (concat bss1) /\ contig (nextOffset s) bss2 (drop (S k) segs) o'.
Proof.
  induction 1 as [|o bs bss s segs o' Hwf Hb Hc IH]; intros k s' Hk; [done|].
  destruct k as [|k]; simpl in Hk.
  - simplify_eq. exists [], bs, bss. simpl. split_and!; try done. lia.
  - destruct (IH k s' Hk) as (bss1 & bs' & bss2 & -> & Hwf' & Hb' & Hc').
    exists (bs :: bss1), bs', bss2. split_and!; try done.
    cbn [concat]. rewrite recs_app. destruct Hwf as [_ _ _ _ _ Hn _ _ _]. lia.
Qed.

Lemma contig_le o bss segs o' : contig o bss segs o' -> o <= o'.
Proof.
  induction 1 as [|? ? ? ? ? ? Hwf <- _ IH]; [lia|]. pose proof (seg_wf_next_range _ _ Hwf). lia.
Qed.

(** Base offsets do not decrease along the list. *)
Lemma contig_mono o bss segs o' : contig o bss segs o' -> forall i j s t,
  (i <= j)%nat -> segs !! i = Some s -> segs !! j = Some t -> o <= baseOffset s <= baseOffset t.
Proof.
  induction 1 as [|o bs bss s segs o' Hwf Hb Hc IH]; intros i j s' t Hij Hi Hj; [done|].
  pose proof (seg_wf_next_range _ _ Hwf).
  destruct i as [|i], j as [|j]; simpl in *; simplify_eq; try lia.
  - pose proof (IH j j t t (le_n _) Hj Hj). lia.
  - pose proof (IH i j s' t ltac:(lia) Hi Hj). lia.
Qed.

Definition base_above (segs : list Segment) (off : Z) (k : nat) : bool :=
  match segs !! k with Some s => baseOffset s >? off | None => false end.

Lemma base_above_mono o bss segs o' off :
  contig o bss segs o' -> forall a b, (a <= b < length segs)%nat ->
  base_above segs off a = true -> base_above segs off b = true.
Proof.
  intros Hc a b Hab. unfold base_above.
  destruct (lookup_lt_is_Some_2 segs a) as [s Hs]; [lia|].
  destruct (lookup_lt_is_Some_2 segs b) as [t Ht]; [lia|].
  rewrite Hs, Ht, !Z.gtb_ltb, !Z.ltb_lt. pose proof (contig_mono _ _ _ _ Hc a b s t ltac:(lia) Hs Ht). lia.
Qed.

(** The binary search finds the segment that holds the offset. *)
Lemma findSegmentLocked_spec start bs l off :
  log_wf start bs l -> start <= off < HighWatermark l ->
  exists s pre mid post, findSegmentLocked l off = Some s /\ bs = pre ++ mid ++ post /\
    seg_wf mid s /\ baseOffset s = start + recs pre /\ baseOffset s <= off < nextOffset s.
Proof.
  intros Hwf Hoff. destruct (log_wf_contig _ _ _ Hwf) as (bss & -> & Hc & Hne).
  assert (exists s0 rest, segments l = s0 :: rest /\ baseOffset s0 = start) as (s0 & rest & Hs0 & Hb0).
  { destruct Hc; [done|eauto]. }
  set (r := sort_Search (length (segments l)) (base_above (segments l) off)).
  destruct (sort_Search_spec _ _ (base_above_mono _ _ _ _ off Hc)) as (Hr & Hlo & Hhi). fold r in Hr, Hlo, Hhi.
  assert (r <> O) as Hr0.
  { intros E. rewrite E in Hhi. unfold base_above in Hhi. rewrite Hs0 in Hhi. simpl in Hhi.
    rewrite Z.gtb_ltb, Z.ltb_lt in Hhi. lia. }
  destruct (lookup_lt_is_Some_2 (segments l) (pred r)) as [s Hs]; [lia|].
  destruct (contig_lookup _ _ _ _ Hc _ _ Hs) as (bss1 & mid & bss2 & -> & Hwfs & Hb & Hrest).
  exists s, (concat bss1), mid, (concat bss2). split_and!; try done.
  - unfold findSegmentLocked. rewrite Hs0 at 1. rewrite (proj2 (Z.ltb_ge _ _)), Z.geb_leb by lia.
    rewrite (proj2 (Z.leb_gt _ _)) by lia. fold (base_above (segments l) off). fold r.
    by destruct r.
  - by rewrite concat_app.
  - specialize (Hlo (pred r) ltac:(lia)). unfold base_above in Hlo. rewrite Hs in Hlo.
    rewrite Z.gtb_ltb, Z.ltb_ge in Hlo. lia.
  - replace (S (pred r)) with r in Hrest by lia.
    destruct (drop r (segments l)) as [|t ts] eqn:Ed.
    + inversion Hrest; subst. lia.
    + assert (segments l !! r = Some t) as Ht.
      { rewrite <- (Nat.add_0_r r), <- lookup_drop, Ed. done. }
      specialize (Hhi ltac:(eapply lookup_lt_Some; done)). unfold base_above in Hhi.
      rewrite Ht, Z.gtb_ltb, Z.ltb_lt in Hhi. inversion Hrest; subst. lia.
Qed.

(** ** Trimming to a batch boundary *)

(** The header slice the loop parses, when the buffer holds it. *)
Lemma header_slice l b r :
  v2HeaderSize <= zlen b ->
  ParseBatchHeader (slice (l ++ b ++ r) (zlen l) (zlen l + v2HeaderSize)) = ParseBatchHeader b.
Proof.
  intros Hb. set (hd := take (Z.to_nat v2HeaderSize) b).
  assert (zlen hd = v2HeaderSize) as Hhd by (apply zlen_take; unfold v2HeaderSize in *; lia).
  assert (b = hd ++ drop (Z.to_nat v2HeaderSize) b) as Hbd by (unfold hd; by rewrite take_drop).
  assert (slice (l ++ b ++ r) (zlen l) (zlen l + v2HeaderSize) = hd) as ->.
  { rewrite <- Hhd, Hbd, <- (app_assoc hd). apply slice_mid. }
  rewrite <- (ParseBatchHeader_app hd (drop (Z.to_nat v2HeaderSize) b)) by lia. by rewrite <- Hbd.
Qed.

(** On the first [n] bytes of a chain the loop stops behind the last batch
    that is complete. *)
Lemma trim_loop_chain bs : forall o fuel l n,
  chain o bs -> (length (take n (concat bs)) < fuel)%nat ->
  exists mid post, bs = mid ++ post /\
    trim_loop fuel (l ++ take n (concat bs)) (zlen l) = Ok (zlen l + zlen (concat mid)) /\
    (length (concat mid) <= n)%nat /\
    (forall b rest, post = b :: rest -> (n < length (concat mid) + length b)%nat).
Proof.
  induction bs as [|b bs IH]; intros o fuel l n Hc Hf; (destruct fuel as [|fuel]; [lia|]).
  { exists [], []. cbn [concat]. rewrite take_nil. split_and!; try done; [|simpl; lia].
    rewrite app_nil_r, zlen_nil, Z.add_0_r. cbn [trim_loop]. by rewrite Z.ltb_irrefl. }
  destruct Hc as [(Hp & Hl & _ & _ & _ & _ & H61)%stored_inv Hc]. cbn [concat].
  destruct (decide (length b <= n)%nat) as [Hn|Hn].
  - destruct (IH _ fuel (l ++ b) (n - length b)%nat Hc) as (mid & post & -> & Ht & Hlen & Hmax);
      [cbn [concat] in Hf; rewrite length_take, length_app in *; unfold zlen in H61; lia|].
    exists (b :: mid), post. rewrite take_app_ge by lia.
    cbn [trim_loop]. rewrite zlen_app, zlen_app. pose proof (zlen_nonneg (take (n - length b) (concat (mid ++ post)))).
    rewrite (proj2 (Z.ltb_lt _ _)), Z.gtb_ltb, (proj2 (Z.ltb_ge _ _)) by (unfold v2HeaderSize; lia).
    rewrite header_slice, Hp, <- Hl by (unfold v2HeaderSize; lia). rewrite Z.gtb_ltb.
    rewrite (proj2 (Z.ltb_ge _ _)) by lia.
    rewrite <- zlen_app, app_assoc, Ht. cbn [concat]. rewrite !zlen_app, length_app.
    split_and!; [done|f_equal; lia|lia|]. intros b' rest E. specialize (Hmax _ _ E). lia.
  - exists [], (b :: bs). split; [done|]. split; [|split; [simpl; lia|intros; simplify_eq; simpl; lia]].
    rewrite take_app_le by lia. cbn [trim_loop concat]. rewrite zlen_nil, Z.add_0_r, zlen_app.
    assert (zlen (take n b) = Z.of_nat n) as Hz by (unfold zlen; rewrite length_take; lia). rewrite Hz.
    destruct (Z.ltb_spec (zlen l) (zlen l + Z.of_nat n)); [|done].
    rewrite Z.gtb_ltb. destruct (Z.ltb_spec (zlen l + Z.of_nat n) (zlen l + v2HeaderSize)); [done|].
    rewrite <- (app_nil_r (take n b)), header_slice by lia.
    assert (ParseBatchHeader (take n b) = ParseBatchHeader b) as ->.
    { rewrite <- (ParseBatchHeader_app (take n b) (drop n b)), take_drop by lia. done. }
    rewrite Hp, Z.gtb_ltb, (proj2 (Z.ltb_lt _ _)); [done|]. unfold zlen in *. lia.
Qed.

(** The loop returns on every buffer, at a position inside it. *)
Lemma trim_loop_total fuel : forall buf pos,
  0 <= pos <= zlen buf -> zlen buf - pos < Z.of_nat fuel ->
  exists p, trim_loop fuel buf pos = Ok p /\ pos <= p <= zlen buf.
Proof.
  induction fuel as [|fuel IH]; intros buf pos Hp Hf; [lia|]. cbn [trim_loop].
  destruct (Z.ltb_spec pos (zlen buf)); [|exists pos; split; [done|lia]].
  destruct (pos + v2HeaderSize >? zlen buf); [exists pos; split; [done|lia]|].
  destruct (ParseBatchHeader _) as [h| | |] eqn:Eh; try (exists pos; split; [done|lia]).
  pose proof (TotalSize_bounds _ _ Eh) as Hb. unfold v2HeaderSize in *. rewrite Z.gtb_ltb.
  destruct (Z.ltb_spec (zlen buf) (pos + TotalSize h)); [exists pos; split; [done|lia]|].
  destruct (IH buf (pos + TotalSize h)) as (p & -> & Hr); [lia..|]. exists p. split; [done|lia].
Qed.

(** ** Fetching *)

Lemma take_concat_prefix (mid post : list (list byte)) n :
  (length (concat mid) <= n)%nat ->
  slice (take n (concat (mid ++ post))) 0 (zlen (concat mid)) = concat mid.
Proof.
  intros H. rewrite concat_app, take_app_ge by lia. apply slice_prefix.
Qed.

(** What a fetch of [maxBytes] bytes at [off] returns: whole batches, from the
    one that holds [off] on, within the budget unless it is a single batch. *)
Definition fetched (bs : list (list byte)) (start off maxBytes : Z) (data : list byte) (first : Z) : Prop :=
  exists pre b mid post, bs = pre ++ (b :: mid) ++ post /\ data = concat (b :: mid) /\
    first = start + recs pre /\ first <= off < first + records b /\
    (mid = [] \/ zlen data <= maxBytes).

Lemma decode_concat o b mid : chain o (b :: mid) -> BaseOffset (decode_header (concat (b :: mid))) = o.
Proof.
  intros [(Hp & _ & _ & Ho & _ & _ & H61)%stored_inv _]. cbn [concat]. rewrite <- Ho.
  f_equal. pose proof (ParseBatchHeader_app b (concat mid)) as Ha.
  rewrite Hp in Ha. specialize (Ha ltac:(unfold v2HeaderSize; lia)).
  by apply ParseBatchHeader_Ok in Ha as (-> & _).
Qed.

Lemma Segment_ReadAt_ok bs s pos n :
  seg_wf bs s -> 0 <= pos < logSize s -> 0 <= n ->
  Segment_ReadAt s pos n = Ok (take (Z.to_nat n) (drop (Z.to_nat pos) (concat bs))).
Proof.
  intros [Hd Hp Hz Hb Hc Hn Hi He Hop] Hpos Hnn. unfold Segment_ReadAt.
  rewrite Z.geb_leb, (proj2 (Z.leb_gt _ _)) by lia. rewrite Z.gtb_ltb, Hop.
  destruct (Z.ltb_spec (logSize s) (pos + n)) as [H|H]; (rewrite (proj2 (Z.ltb_ge _ _)) by lia);
    unfold file_readat; rewrite Hd; [|done].
  f_equal. rewrite !take_ge; [done|..]; rewrite length_drop; unfold zlen in *; lia.
Qed.

(** Reading a segment at a batch boundary. *)
Lemma fetch_tail pre b post s n :
  seg_wf (pre ++ b :: post) s -> v2HeaderSize <= n ->
  exists buf trimmed, Segment_ReadAt s (zlen (concat pre)) n = Ok buf /\ buf <> [] /\
    trimToBatchBoundary buf = Ok trimmed /\ v2HeaderSize <= zlen buf /\
    ((exists mid post', post = mid ++ post' /\ trimmed = concat (b :: mid) /\ zlen trimmed <= n) \/
     (trimmed = [] /\ n < zlen b /\ ParseBatchHeader buf = Ok (decode_header b) /\
      Segment_ReadAt s (zlen (concat pre)) (TotalSize (decode_header b)) = Ok b)).
Proof.
  intros Hwf Hn. pose proof Hwf as [_ _ Hz _ Hc _ _ _ _].
  apply chain_app in Hc as [_ Hc]. pose proof Hc as [(Hp & Hl & _ & _ & _ & _ & H61)%stored_inv _].
  rewrite concat_app, zlen_app in Hz. cbn [concat] in Hz. rewrite zlen_app in Hz.
  pose proof (zlen_nonneg (concat pre)). pose proof (zlen_nonneg (concat post)). unfold v2HeaderSize in *.
  assert (forall k, drop (Z.to_nat (zlen (concat pre))) (concat (pre ++ k)) = concat k) as Hdrop.
  { intros k. rewrite concat_app. unfold zlen. by rewrite Nat2Z.id, drop_app_length. }
  set (buf := take (Z.to_nat n) (concat (b :: post))).
  assert (61 <= zlen buf) as Hbuf.
  { unfold buf. cbn [concat]. unfold zlen in *. rewrite length_take, length_app. lia. }
  destruct (trim_loop_chain (b :: post) _ (S (length buf)) [] (Z.to_nat n) Hc) as (mid & post' & Hsp & Ht & Hlen & Hmax).
  { fold buf. lia. }
  assert (trimToBatchBoundary buf = Ok (concat mid)) as Htr.
  { unfold trimToBatchBoundary. rewrite app_nil_l, zlen_nil in Ht. fold buf in Ht. rewrite Ht. cbn.
    f_equal. unfold buf. rewrite Hsp. by apply take_concat_prefix. }
  exists buf, (concat mid). split_and!; try done.
  - rewrite (Segment_ReadAt_ok _ _ _ _ Hwf), Hdrop by lia. done.
  - intros E. rewrite E in Hbuf. done.
  - destruct mid as [|b' mid]; [right|left; simplify_eq/=; exists mid, post'; unfold zlen; split_and!; done || lia].
    simplify_eq/=. specialize (Hmax _ _ eq_refl). simpl in Hmax.
    split_and!; [done|unfold zlen; lia| |].
    + rewrite <- Hp. unfold buf. rewrite take_app_le by lia.
      rewrite <- (ParseBatchHeader_app (take (Z.to_nat n) b) (drop (Z.to_nat n) b)), take_drop; [done|].
      unfold v2HeaderSize, zlen. rewrite length_take. lia.
    + rewrite (Segment_ReadAt_ok _ _ _ _ Hwf), Hdrop, <- Hl by lia. cbn [concat].
      unfold zlen. by rewrite Nat2Z.id, take_app_length.
Qed.

Lemma FetchAt_ok start bs l off maxBytes :
  log_wf start bs l -> start <= off < HighWatermark l -> v2HeaderSize <= maxBytes ->
  exists data first, FetchAt l off maxBytes = Ok (data, first) /\
    fetched bs start off maxBytes data first.
Proof.
  intros Hwf Hoff Hmax.
  destruct (findSegmentLocked_spec _ _ _ _ Hwf Hoff) as (s & B1 & sbs & B2 & Hfind & -> & Hs & Hb & Hr).
  destruct (FindBatchAt_ok sbs s off Hs Hr) as (pre & b & post & -> & Hfb & Hin).
  destruct (fetch_tail pre b post s maxBytes Hs Hmax) as (buf & tr & Erd & Hne & Etr & Hbuf & Hcases).
  assert (exists s0 segs, segments l = s0 :: segs) as (s0 & segs & Hsegs).
  { unfold findSegmentLocked in Hfind. destruct (segments l); [done|eauto]. }
  unfold FetchAt. rewrite Hsegs, Hfind, Hfb. cbn [wrap_err mbind res_bind].
  rewrite Erd. cbn [wrap_err mbind res_bind]. rewrite bool_decide_false, Etr by done.
  cbn [mbind res_bind].
  pose proof (sw_chain _ _ Hs) as Hch. apply chain_app in Hch as [_ Hch].
  destruct Hcases as [(mid & post' & -> & -> & Hle)|(-> & Hlt & Hp & Hfull)].
  - assert (chain (baseOffset s + recs pre) (b :: mid)) as Hc2.
    { change (b :: mid ++ post') with ((b :: mid) ++ post') in Hch. by apply chain_app in Hch as [? _]. }
    rewrite bool_decide_false, (decode_concat _ _ _ Hc2).
    2: { destruct Hc2 as [(_ & _ & _ & _ & _ & _ & H61)%stored_inv _]. intros E.
         apply (f_equal length) in E. cbn [concat] in E. rewrite length_app in E. unfold zlen in H61. simpl in E. lia. }
    eexists _, _; split; [done|]. exists (B1 ++ pre), b, mid, (post' ++ B2).
    rewrite recs_app. split_and!; try done; try lia. simpl. by simplify_list_eq.
  - rewrite bool_decide_true, Hp by done. cbn [mbind res_bind]. rewrite Hfull. cbn [mbind res_bind].
    pose proof Hch as [(_ & Hl & _ & Ho & _)%stored_inv _].
    rewrite <- Hl, Z.ltb_irrefl, Ho.
    eexists _, _; split; [done|]. exists (B1 ++ pre), b, [], (post ++ B2).
    rewrite recs_app. cbn [concat]. rewrite app_nil_r. split_and!; try done; try lia; [simpl; by simplify_list_eq|by left].
Qed.

(** Outside [start, high watermark) no data is returned. *)
Lemma FetchAt_outside start bs l off maxBytes :
  log_wf start bs l -> off < start \/ HighWatermark l <= off ->
  FetchAt l off maxBytes = (if off <? start then Err (ESentinel ErrOffsetOutOfRange) else Ok ([], off)).
Proof.
  intros Hwf Hoff. pose proof (log_wf_chain _ _ _ Hwf) as (Hc & Hhw & _).
  pose proof (chain_recs_nonneg _ _ Hc).
  destruct (log_wf_contig _ _ _ Hwf) as (bss & _ & Hct & Hne).
  assert (exists s0 segs, segments l = s0 :: segs /\ baseOffset s0 = start) as (s0 & segs & Hsegs & Hb).
  { destruct Hct; [done|eauto]. }
  unfold FetchAt, findSegmentLocked. rewrite Hsegs, Hb.
  destruct (Z.ltb_spec off start).
  - rewrite Z.geb_leb, (proj2 (Z.leb_gt _ _)) by lia. done.
  - rewrite Z.geb_leb, (proj2 (Z.leb_le _ _)) by lia. done.
Qed.

(** A position of a chain determines the batch that starts there. *)
Lemma chain_split_unique pre : forall o b post pre' b' post',
  chain o (pre ++ b :: post) -> pre ++ b :: post = pre' ++ b' :: post' ->
  recs pre' <= recs pre < recs pre' + records b' -> pre' = pre /\ b' :: post' = b :: post.
Proof.
  induction pre as [|x pre IH]; intros o b post [|x' pre'] b' post' Hc Heq Hr; simplify_eq/=; try done.
  - destruct Hc as [(_ & _ & _ & _ & H1 & _)%stored_inv Hc]. apply chain_app in Hc as [Hc _].
    apply chain_recs_nonneg in Hc. unfold recs in *. lia.
  - destruct Hc as [_ Hc]. apply chain_app in Hc as [Hc _].
    apply chain_recs_nonneg in Hc. unfold recs in *. lia.
  - destruct Hc as [_ Hc]. by destruct (IH _ _ _ pre' b' post' Hc ltac:(eassumption) ltac:(lia)) as [-> ->].
Qed.

(** ** The consumer loop

    A consumer fetches at its position, hands the batches on, and continues at
    the offset behind the last one. *)

Fixpoint consume (fuel : nat) (l : Log) (off maxBytes : Z) : res (list (list byte)) :=
  match fuel with
  | O => Diverge
  | S fuel =>
      '(data, first) ← FetchAt l off maxBytes;
      if bool_decide (data = []) then Ok []
      else
        let bs := valid_prefix data in
        rest ← consume fuel l (first + recs bs) maxBytes;
        Ok (bs ++ rest)
  end.

Lemma consume_ok fuel : forall start pre bs l maxBytes,
  log_wf start (pre ++ bs) l -> v2HeaderSize <= maxBytes -> (length bs < fuel)%nat ->
  consume fuel l (start + recs pre) maxBytes = Ok bs.
Proof.
  induction fuel as [|fuel IH]; intros start pre bs l maxBytes Hwf Hmax Hf; [lia|].
  pose proof (log_wf_chain _ _ _ Hwf) as (Hc & Hhw & _).
  pose proof Hc as [Hc1 Hc2]%chain_app. rewrite recs_app in Hhw.
  pose proof (chain_recs_nonneg _ _ Hc1). cbn [consume].
  destruct bs as [|b0 bs0].
  { rewrite (FetchAt_outside _ _ _ _ _ Hwf) by (simpl in Hhw; lia).
    rewrite (proj2 (Z.ltb_ge _ _)) by lia. done. }
  assert (0 <= recs bs0 /\ 1 <= records b0) as [? ?].
  { destruct Hc2 as [(_ & _ & _ & _ & ? & _)%stored_inv ?]. eauto using chain_recs_nonneg. }
  cbn [recs foldr] in Hhw. fold (recs bs0) in Hhw.
  destruct (FetchAt_ok _ _ _ (start + recs pre) maxBytes Hwf) as (data & first & -> & Hfet); [lia|done|].
  destruct Hfet as (pre' & b & mid & post & Hbs & -> & -> & Hin & _).
  destruct (chain_split_unique pre start b0 bs0 pre' b (mid ++ post)) as [-> Hsplit]; [done|done|lia|].
  change (b :: mid ++ post) with ((b :: mid) ++ post) in Hsplit. rewrite <- Hsplit in *.
  pose proof Hc2 as [Hcm _]%chain_app. cbn [mbind res_bind].
  rewrite bool_decide_false.
  2: { intros E. pose proof (chain_length _ _ Hcm) as Hl. rewrite E, zlen_cons in Hl.
       pose proof (zlen_nonneg mid). rewrite zlen_nil in Hl. lia. }
  assert (valid_prefix (concat (b :: mid)) = b :: mid) as ->.
  { rewrite <- (app_nil_r (concat (b :: mid))), valid_prefix_app by (by eapply chain_valid).
    by rewrite app_nil_r. }
  rewrite <- Z.add_assoc, <- recs_app, (IH start (pre ++ b :: mid) post).
  - done.
  - by rewrite <- app_assoc.
  - done.
  - simpl in Hf. rewrite length_app in Hf. lia.
Qed.

(** ** Deleting old segments *)

Lemma delete_loop_spec del cutoff s : forall pre bss start n,
  (forall k, del k = true) -> front start bss pre (baseOffset s) ->
  exists bss1 bss2 pre2 k, delete_loop del cutoff n (pre ++ [s]) = (pre2 ++ [s], n + k, None)%nat /\
    bss = bss1 ++ bss2 /\ front (start + recs (concat bss1)) bss2 pre2 (baseOffset s) /\
    (bss1 = [] \/ start + recs (concat bss1) <= cutoff) /\ k = length bss1 /\
    match pre2 ++ [s] with _ :: t :: _ => cutoff < baseOffset t | _ => True end.
Proof.
  induction pre as [|s0 pre IH]; intros bss start n Hdel Hf.
  { inversion Hf; subst. exists [], [], [], 0%nat. simpl. rewrite Nat.add_0_r, Z.add_0_r.
    split_and!; auto with kw. }
  inversion Hf as [|? bs0 bss0 ? ? ? Hwf Hb Hsl Hne Hf']; subst.
  assert (exists t rest, pre ++ [s] = t :: rest /\ baseOffset t = nextOffset s0) as (t & rest & Ht & Hbt).
  { destruct pre as [|p pre]; inversion Hf'; subst; simpl; eauto. }
  simpl. rewrite Ht. destruct (Z.gtb_spec (baseOffset t) cutoff) as [Hgt|Hle].
  - exists [], (bs0 :: bss0), (s0 :: pre), 0%nat. simpl. rewrite Ht, Nat.add_0_r, Z.add_0_r.
    split_and!; auto.
  - unfold Segment_Delete. rewrite Hdel. cbv iota. rewrite <- Ht.
    destruct (IH _ _ (S n) Hdel Hf') as (bss1 & bss2 & pre2 & k & -> & -> & Hf2 & Hcut & -> & Hlast).
    exists (bs0 :: bss1), bss2, pre2, (S (length bss1)).
    assert (baseOffset s0 + recs (concat (bs0 :: bss1)) = nextOffset s0 + recs (concat bss1)) as Heq.
    { cbn [concat]. rewrite recs_app, (sw_next _ _ Hwf). lia. }
    rewrite Heq. split_and!; try done.
    + by rewrite Nat.add_succ_r.
    + right. destruct Hcut as [->|]; [simpl; lia|done].
Qed.

(** What retention takes away is a prefix of the log, all of it below the
    cutoff; the high watermark stays, and nothing deletable is left. *)
Lemma DeleteSegmentsBefore_spec del start bs l cutoff :
  log_wf start bs l -> (forall k, del k = true) ->
  exists l' n gone kept, DeleteSegmentsBefore del l cutoff = (l', n, None) /\
    bs = gone ++ kept /\ log_wf (start + recs gone) kept l' /\
    (gone = [] \/ start + recs gone <= cutoff) /\
    LogStartOffset l' = start + recs gone /\ HighWatermark l' = HighWatermark l /\
    match segments l' with _ :: t :: _ => cutoff < baseOffset t | _ => True end.
Proof.
  intros (bss & pre & abs & s & Hsegs & Hf & Hwf & Hsl & ->) Hdel.
  destruct (delete_loop_spec del cutoff s pre bss start 0 Hdel Hf)
    as (bss1 & bss2 & pre2 & k & E & -> & Hf2 & Hcut & -> & Hlast).
  unfold DeleteSegmentsBefore. rewrite Hsegs, E.
  eexists _, _, (concat bss1), (concat bss2 ++ abs). split; [done|].
  cbn [segments LogStartOffset logStart]. split_and!; try done.
  - by rewrite concat_app, <- app_assoc.
  - by exists bss2, pre2, abs, s.
  - destruct Hcut as [->|]; auto.
  - destruct pre2; simpl; inversion Hf2; subst; done.
  - unfold HighWatermark. cbn [segments]. by rewrite Hsegs, !last_snoc.
Qed.
