(* ===== verification/LogRecover.v ===== *)
(** * Reopening partition logs

    Segment file names, torn writes, and [Open] after a clean stop or a
    crash. *)

From S2P Require Import Prelude Bytes OsFile RecordBatch Index TimeIndex Segment SegmentFacts Log LogFacts LogRead.

(** ** File names *)

Lemma digit_facts d : 0 <= d < 10 -> is_digit (digit d) = true /\ b2z (digit d) - 48 = d.
Proof.
  intros Hd. assert (d = 0 \/ d = 1 \/ d = 2 \/ d = 3 \/ d = 4 \/ d = 5 \/ d = 6 \/ d = 7 \/ d = 8 \/ d = 9) as Hc by lia.
  destruct Hc as [->|[->|[->|[->|[->|[->|[->|[->|[->| ->]]]]]]]]]; done.
Qed.

Lemma dec_digits_length n : forall z, length (dec_digits n z) = n.
Proof. induction n as [|n IH]; intros z; cbn [dec_digits]; [done|]. rewrite length_app, IH. simpl. lia. Qed.

Lemma dec_digits_digits n : forall z, forallb is_digit (dec_digits n z) = true.
Proof.
  induction n as [|n IH]; intros z; cbn [dec_digits]; [done|].
  rewrite forallb_app, IH. cbn [forallb andb].
  by rewrite (proj1 (digit_facts (z mod 10) (Z.mod_pos_bound z 10 ltac:(lia)))).
Qed.

Lemma dec_value_snoc ds d : dec_value (ds ++ [d]) = dec_value ds * 10 + (b2z d - 48).
Proof. unfold dec_value. by rewrite fold_left_app. Qed.

Lemma dec_value_digits n : forall z, 0 <= z < 10 ^ Z.of_nat n -> dec_value (dec_digits n z) = z.
Proof.
  induction n as [|n IH]; intros z Hz; cbn [dec_digits].
  { simpl in Hz. assert (z = 0) as -> by lia. done. }
  rewrite Nat2Z.inj_succ, Z.pow_succ_r in Hz by lia.
  rewrite dec_value_snoc, IH by (split; [apply Z.div_pos; lia|apply Z.div_lt_upper_bound; lia]).
  rewrite (proj2 (digit_facts (z mod 10) (Z.mod_pos_bound z 10 ltac:(lia)))).
  pose proof (Z.div_mod z 10). lia.
Qed.

Lemma segmentFilename_parse base :
  0 <= base < 2 ^ 63 -> parse_segment_name (segmentFilename base logSuffix) = Some base.
Proof.
  intros Hb. unfold segmentFilename, parse_segment_name. rewrite (proj2 (Z.ltb_ge _ _)) by lia.
  rewrite take_app_length' by (by rewrite dec_digits_length).
  rewrite drop_app_length' by (by rewrite dec_digits_length).
  rewrite dec_digits_length, dec_digits_digits, bool_decide_true by done. cbn [andb Nat.eqb].
  rewrite dec_value_digits by (simpl; lia).
  by rewrite (proj2 (Z.ltb_lt _ _)) by lia.
Qed.

(** ** Torn writes *)

(** A complete header in front of too few bytes ends the scan. *)
Lemma valid_prefix_cut b n :
  ParseBatchHeader b = Ok (decode_header b) -> zlen b = TotalSize (decode_header b) ->
  (n < length b)%nat -> valid_prefix (take n b) = [].
Proof.
  intros Hp Hl Hn. apply valid_prefix_stop. intros [|f]; [done|]. cbn [scan].
  destruct (decide (n < 61)%nat) as [Hs|Hs].
  { unfold ParseBatchHeader. rewrite (proj2 (Z.ltb_lt _ _)); [done|].
    unfold zlen, v2HeaderSize. rewrite length_take. lia. }
  assert (ParseBatchHeader (take n b) = ParseBatchHeader b) as ->.
  { rewrite <- (ParseBatchHeader_app (take n b) (drop n b)), take_drop; [done|].
    unfold zlen, v2HeaderSize. rewrite length_take. lia. }
  rewrite Hp, Z.gtb_ltb, (proj2 (Z.ltb_lt _ _)); [done|].
  rewrite <- Hl. unfold zlen. rewrite length_take. lia.
Qed.

(** The first [n] bytes of a chain: the scan keeps the batches that are
    complete in them. *)
Lemma valid_prefix_torn bs : forall o n, chain o bs ->
  exists kept lost, bs = kept ++ lost /\ valid_prefix (take n (concat bs)) = kept /\
    (forall b rest, lost = b :: rest -> (n < length (concat kept) + length b)%nat).
Proof.
  induction bs as [|b bs IH]; intros o n Hc.
  { exists [], []. cbn [concat]. by rewrite take_nil. }
  destruct Hc as [Hst Hc]. pose proof Hst as (Hp & Hl & Hcrc & _)%stored_inv. cbn [concat].
  destruct (decide (length b <= n)%nat) as [Hn|Hn].
  - destruct (IH _ (n - length b)%nat Hc) as (kept & lost & -> & Hv & Hmax).
    exists (b :: kept), lost. rewrite take_app_ge by lia.
    pose proof (valid_prefix_app [b] (take (n - length b) (concat (kept ++ lost)))) as Hb.
    cbn [concat] in Hb. rewrite app_nil_r in Hb. rewrite Hb by (by repeat constructor).
    rewrite Hv. split_and!; try done. intros b' rest E. specialize (Hmax _ _ E).
    cbn [concat]. rewrite length_app. lia.
  - exists [], (b :: bs). rewrite take_app_le by lia.
    rewrite valid_prefix_cut by (done || lia).
    split_and!; try done. intros ? ? [= <- <-]. simpl. lia.
Qed.

(** Nothing that lies within the surviving bytes is lost. *)
Lemma torn_keeps kept lost a c n :
  kept ++ lost = a ++ c -> (length (concat a : list byte) <= n)%nat ->
  (forall b rest, lost = b :: rest -> (n < length (concat kept) + length b)%nat) ->
  exists c', kept = a ++ c'.
Proof.
  intros Heq Ha Hmax. apply app_eq_inv in Heq as [(k & -> & _)|(k & -> & ->)]; [eauto|].
  destruct k as [|b k]; [exists []; by rewrite !app_nil_r|].
  specialize (Hmax b (k ++ c) eq_refl). rewrite concat_app, length_app in Ha. simpl in Ha.
  rewrite length_app in Ha. lia.
Qed.

(** ** Opening *)

(** Opening one segment: the valid prefix of its log is its content, whatever
    the index files held. *)
Lemma OpenSegment_spec wio opts f :
  let bs := valid_prefix (sf_log f) in
  0 <= opt_BaseOffset opts < 2 ^ 63 -> chain (opt_BaseOffset opts) bs ->
  (sf_log f = [] -> sf_index f = []) ->
  exists s, OpenSegment wio opts f = Ok s /\ seg_wf bs s /\
    baseOffset s = opt_BaseOffset opts /\ sealed s = false /\ durable s.
Proof.
  cbn zeta. intros Hb Hc Hidx. unfold OpenSegment. set (s0 := mkSegment _ _ _ _ _ _ _ _ _ _ _).
  destruct (Segment_recover_spec wio s0) as (s & E & Hlf & _ & Hbase & Hsl & _ & _ & _ & Hwf); try done.
  exists s. split_and!; try done.
  - apply Hwf; [done..|]. intros Hnil. cbn in Hnil. cbn. by rewrite (Hidx Hnil).
  - unfold durable. by rewrite Hlf.
Qed.

Lemma valid_prefix_whole o bs : chain o bs -> valid_prefix (concat bs) = bs.
Proof.
  intros Hc. rewrite <- (app_nil_r (concat bs)), valid_prefix_app by (by eapply chain_valid).
  by rewrite app_nil_r.
Qed.

(** Opening a list of contiguous segments, the last of which may be torn. *)
Lemma open_all_spec wio c files bs0 kept base : forall bss bases start,
  length bases = length bss ->
  (* the sealed segments: what each base offset holds *)
  (forall k bs b, bss !! k = Some bs -> bases !! k = Some b ->
     bs <> [] /\ b = start + recs (concat (take k bss)) /\ sf_log (files b) = concat bs) ->
  chain start (concat bss ++ bs0) -> 0 <= start < 2 ^ 63 ->
  base = start + recs (concat bss) ->
  valid_prefix (sf_log (files base)) = kept -> chain base kept ->
  (sf_log (files base) = [] -> sf_index (files base) = []) ->
  exists pre s, open_all wio c files (bases ++ [base]) = Ok (pre ++ [s]) /\
    front start bss pre (baseOffset s) /\ seg_wf kept s /\ sealed s = false /\
    baseOffset s = base /\ Forall durable (pre ++ [s]).
Proof.
  induction bss as [|bs bss IH]; intros bases start Hlen Hk Hc Hst Hbase Hv Hkept Hidx.
  { destruct bases; [|done]. simpl in Hbase. rewrite Z.add_0_r in Hbase. subst base.
    destruct (OpenSegment_spec wio (seg_opts c start) (files start)) as (s & E & Hwf & Hb & Hsl & Hd);
      [done|by rewrite Hv|done|]. rewrite Hv in Hwf.
    exists [], s. cbn [app open_all]. rewrite E. cbn [mbind res_bind]. rewrite bool_decide_true by done.
    cbn in Hb. rewrite Hb. split_and!; auto with kw. }
  destruct bases as [|b bases]; [done|].
  destruct (Hk 0%nat bs b eq_refl eq_refl) as (Hne & Hb & Hlog). simpl in Hb. rewrite Z.add_0_r in Hb. subst b.
  cbn [concat] in Hc. rewrite <- app_assoc in Hc. apply chain_app in Hc as [Hc1 Hc2].
  pose proof (valid_prefix_whole _ _ Hc1) as Hvp.
  destruct (OpenSegment_spec wio (seg_opts c start) (files start)) as (s & E & Hwf & Hbs & Hsl & Hd).
  { done. }
  { rewrite Hlog, Hvp. done. }
  { rewrite Hlog. intros Hnil. rewrite Hnil in Hvp. by subst bs. }
  rewrite Hlog, Hvp in Hwf. cbn in Hbs.
  pose proof (chain_recs_nonneg _ _ Hc1). pose proof (chain_bound _ _ (proj2 Hst) Hc1).
  destruct (IH bases (start + recs bs)) as (pre & s' & E' & Hf & Hwf' & Hsl' & Hb' & Hd').
  { simpl in Hlen. lia. }
  { intros k bs' b' H1 H2. destruct (Hk (S k) bs' b' H1 H2) as (? & -> & ?).
    cbn [take concat] in *. rewrite recs_app in *. split_and!; [done|lia|done]. }
  { done. }
  { lia. }
  { subst base. cbn [concat]. rewrite recs_app. lia. }
  { done. } { done. } { done. }
  exists (set_sealed s true :: pre), s'.
  cbn [app open_all]. rewrite E. cbn [mbind res_bind]. rewrite E'. cbn [mbind res_bind].
  rewrite bool_decide_false by (by destruct bases). split_and!; try done.
  - econstructor; try done; [by destruct Hwf; constructor|].
    cbn. rewrite (sw_next _ _ Hwf), Hbs. done.
  - by constructor.
Qed.

(** A directory that holds the log [l], in which only the active segment's
    file may have lost its tail: the first [n] bytes of it are left. *)
Record dir_holds (l : Log) (d : Dir) (n : nat) : Prop := {
  dh_names : omap parse_segment_name (dir_names d) ≡ₚ map baseOffset (segments l);
  dh_sealed : forall s, s ∈ SealedSegments l -> sf_log (dir_files d (baseOffset s)) = fdata (logFile s);
  dh_active : forall s, last (segments l) = Some s ->
    sf_log (dir_files d (baseOffset s)) = take n (fdata (logFile s)) /\
    (sf_log (dir_files d (baseOffset s)) = [] -> sf_index (dir_files d (baseOffset s)) = [])
}.

Lemma contig_bases_sorted o bss segs o' : contig o bss segs o' ->
  StronglySorted Z.le (map baseOffset segs) /\ Forall (Z.le o) (map baseOffset segs).
Proof.
  induction 1 as [|o bs bss s segs o' Hwf Hb Hc [IH1 IH2]]; [repeat constructor|].
  pose proof (seg_wf_next_range _ _ Hwf). cbn [map].
  assert (Forall (Z.le o) (map baseOffset segs)) by (eapply Forall_impl; [done|]; simpl; lia).
  split; constructor; try done; [by rewrite Hb|lia].
Qed.

Lemma sorted_bases start bs l names :
  log_wf start bs l -> names ≡ₚ map baseOffset (segments l) ->
  merge_sort Z.le names = map baseOffset (segments l).
Proof.
  intros Hwf Hp. destruct (log_wf_contig _ _ _ Hwf) as (bss & _ & Hc & _).
  apply (StronglySorted_unique Z.le).
  - apply StronglySorted_merge_sort; apply _.
  - by apply (contig_bases_sorted _ _ _ _ Hc).
  - by rewrite merge_sort_Permutation.
Qed.

(** What the sealed segments hold, by position. *)
Lemma front_lookup o bss segs o' : front o bss segs o' -> forall k bs b,
  bss !! k = Some bs -> map baseOffset segs !! k = Some b ->
  bs <> [] /\ b = o + recs (concat (take k bss)) /\
  exists s, s ∈ segs /\ baseOffset s = b /\ fdata (logFile s) = concat bs.
Proof.
  induction 1 as [|o bs bss s segs o' Hwf Hb Hs Hne _ IH]; intros k bs' b H1 H2; [done|].
  destruct k as [|k]; simpl in *; simplify_eq.
  - split_and!; [done|lia|]. exists s. split_and!; [constructor|done|by apply sw_data].
  - destruct (IH _ _ _ H1 H2) as (? & -> & s' & ? & ? & ?).
    pose proof (sw_next _ _ Hwf). rewrite recs_app. split_and!; [done|lia|].
    exists s'. split_and!; [by constructor|lia|done].
Qed.

(** Reopening a log from its directory: every sealed batch and every batch of
    the active segment complete within the surviving bytes is back, at the
    same offsets. *)
Lemma OpenLog_spec wio now c guard start bs l d n :
  log_wf start bs l -> dir_holds l d n -> 0 <= start ->
  exists l' kept lost, OpenLog wio now c guard d = Ok l' /\ bs = kept ++ lost /\
    log_wf start kept l' /\ LogStartOffset l' = start /\ all_durable l' /\
    (forall b rest, lost = b :: rest -> exists s, last (segments l) = Some s /\
       exists a, fdata (logFile s) = concat a ++ concat lost /\ (n < length (concat a) + length b)%nat).
Proof.
  intros Hwf Hd H0. pose proof (sorted_bases _ _ _ _ Hwf (dh_names _ _ _ Hd)) as Hsort.
  pose proof (log_wf_chain _ _ _ Hwf) as (Hch & Hhw & Hhr).
  pose proof (chain_recs_nonneg _ _ Hch).
  destruct Hwf as (bss & pre & abs & s & Hsegs & Hf & Hs & Hsl & ->).
  pose proof (front_chain _ _ _ _ Hf) as [_ Hbase].
  destruct (dh_active _ _ _ Hd s) as [Hlog Hidx]; [by rewrite Hsegs, last_snoc|].
  rewrite (sw_data _ _ Hs) in Hlog.
  destruct (valid_prefix_torn abs _ n (sw_chain _ _ Hs)) as (kept & lost & -> & Hv & Hmax).
  pose proof (sw_chain _ _ Hs) as [Hck _]%chain_app.
  destruct (open_all_spec wio c (dir_files d) [] kept (baseOffset s) bss (map baseOffset pre) start)
    as (pre' & s' & E & Hf' & Hs' & Hsl' & Hb' & Hdur); try done.
  { rewrite length_map. clear -Hf. induction Hf; simpl; lia. }
  { intros k bs b Hk1 Hk2. destruct (front_lookup _ _ _ _ Hf _ _ _ Hk1 Hk2) as (? & ? & s1 & Hin & <- & <-).
    split_and!; try done. apply (dh_sealed _ _ _ Hd). by rewrite (SealedSegments_snoc l pre s). }
  { rewrite app_nil_r. by apply chain_app in Hch as [? _]. }
  { lia. }
  { by rewrite Hlog. }
  unfold OpenLog, Log_recover. rewrite Hsort, Hsegs, map_app. cbn [map]. rewrite E. cbn [mbind res_bind segments].
  assert (exists s0 segs0, pre' ++ [s'] = s0 :: segs0 /\ baseOffset s0 = start) as (s0 & segs0 & Hp0 & Hb0).
  { destruct pre' as [|p pre']; inversion Hf'; subst; simpl; eauto. }
  rewrite Hp0. eexists _, (concat bss ++ kept), lost. split; [done|]. split_and!.
  - by rewrite app_assoc.
  - exists bss, pre', kept, s'. cbn. split_and!; try done.
  - done.
  - unfold all_durable. cbn. by rewrite <- Hp0.
  - intros b rest E2. exists s. rewrite last_snoc. split; [done|]. exists kept.
    rewrite (sw_data _ _ Hs), concat_app. split; [done|]. by eapply Hmax.
Qed.

(** ** Crashes *)

(** The segments the partition directory lists. *)
Definition listed (d : Dir) : list Z := omap parse_segment_name (dir_names d).

(** What the partition directory may look like after a machine crash: only
    segments the log created are listed; of each listed log file the synced
    bytes are left and any further prefix; of its index file likewise, or the
    file is gone.  A name can be missing although the file's bytes were synced:
    no directory is ever fsynced. *)
Record crash_dir (l : Log) (d : Dir) : Prop := {
  cd_names : listed d ⊆+ map baseOffset (segments l);
  cd_files : forall s, s ∈ segments l -> baseOffset s ∈ listed d ->
    crash_of (logFile s) (sf_log (dir_files d (baseOffset s)));
  cd_index : forall s, s ∈ segments l -> baseOffset s ∈ listed d ->
    crash_of (idx_file (idx s)) (sf_index (dir_files d (baseOffset s))) \/ sf_index (dir_files d (baseOffset s)) = []
}.

(** The two ways in which a crash can be worse than the loss of bytes that
    were not synced, excluded by name where a theorem needs it: a segment's
    name is missing from the directory, and the index file of the active
    segment outlives every byte of its log file ([recover] returns early on an
    empty log file and keeps the index it loaded). *)
Definition entries_kept (l : Log) (d : Dir) : Prop := listed d ≡ₚ map baseOffset (segments l).
Definition index_behind (l : Log) (d : Dir) : Prop := forall s, last (segments l) = Some s ->
  sf_log (dir_files d (baseOffset s)) = [] -> sf_index (dir_files d (baseOffset s)) = [].

Lemma last_elem_of {A} (l : list A) x : last l = Some x -> x ∈ l.
Proof. intros [l' ->]%last_Some. apply elem_of_app. right. by apply list_elem_of_singleton. Qed.

Lemma crash_of_durable f data : fsynced f = fsize f -> crash_of f data -> data = fdata f.
Proof.
  intros Hd (n & Hn & ->). apply take_ge. unfold fsize, zlen in Hd. lia.
Qed.

Lemma crash_dir_holds l d s :
  last (segments l) = Some s -> sealed_durable l -> crash_dir l d -> entries_kept l d -> index_behind l d ->
  exists n, dir_holds l d n /\ fsynced (logFile s) <= Z.of_nat n.
Proof.
  intros Hs Hsd [_ Hf' _] Hn Hi.
  assert (forall t, t ∈ segments l -> crash_of (logFile t) (sf_log (dir_files d (baseOffset t)))) as Hf.
  { intros t Ht. apply Hf'; [done|]. rewrite Hn. apply list_elem_of_fmap. by exists t. }
  assert (exists pre, segments l = pre ++ [s]) as [pre Hsegs].
  { apply last_Some in Hs as [pre ->]. eauto. }
  assert (s ∈ segments l) as Hin by (rewrite Hsegs; set_solver).
  destruct (Hf s Hin) as (n & Hle & Hlog). exists (Z.to_nat n). split; [|lia].
  split; [done| |].
  - intros t Ht. unfold sealed_durable in Hsd. rewrite (SealedSegments_snoc l pre s Hsegs) in *.
    rewrite Forall_forall in Hsd. apply crash_of_durable; [by apply Hsd|].
    apply Hf. rewrite Hsegs. set_solver.
  - intros t Ht. rewrite Hs in Ht. simplify_eq. auto.
Qed.

(** After a crash, [Open] loses at most a tail of the active segment, and
    nothing of it that was on stable storage. *)
Lemma OpenLog_crash_spec wio now c guard start bs l d :
  log_wf start bs l -> 0 <= start -> sealed_durable l ->
  crash_dir l d -> entries_kept l d -> index_behind l d ->
  exists l' kept lost, OpenLog wio now c guard d = Ok l' /\ bs = kept ++ lost /\
    log_wf start kept l' /\ LogStartOffset l' = start /\ all_durable l' /\
    (all_durable l -> lost = []) /\
    (forall b rest, lost = b :: rest -> exists s a, last (segments l) = Some s /\
       fdata (logFile s) = concat a ++ concat lost /\ fsynced (logFile s) < zlen (concat a) + zlen b).
Proof.
  intros Hwf H0 Hsd Hcd Hek Hib.
  assert (exists s, last (segments l) = Some s) as [s Hs].
  { destruct Hwf as (? & pre & ? & s & -> & _). exists s. apply last_snoc. }
  destruct (crash_dir_holds l d s Hs Hsd Hcd Hek Hib) as (n & Hdh & Hn).
  destruct (OpenLog_spec wio now c guard start bs l d n Hwf Hdh H0)
    as (l' & kept & lost & E & -> & Hwf' & Hls & Had & Hlost).
  assert (forall b rest, lost = b :: rest -> exists s a, last (segments l) = Some s /\
    fdata (logFile s) = concat a ++ concat lost /\ fsynced (logFile s) < zlen (concat a) + zlen b) as Hl2.
  { intros b rest Hb. destruct (Hlost b rest Hb) as (s' & Hs' & a & Hfd & Hlt).
    exists s', a. rewrite Hs in Hs'. simplify_eq. split_and!; try done. unfold zlen. lia. }
  exists l', kept, lost. split_and!; try done.
  intros Had0. destruct lost as [|b rest]; [done|]. exfalso.
  destruct (Hl2 b rest eq_refl) as (s' & a & Hs' & Hfd & Hlt).
  unfold all_durable in Had0. rewrite Forall_forall in Had0.
  specialize (Had0 s' ltac:(apply last_Some in Hs' as [? ->]; set_solver)).
  unfold durable, fsize in Had0. rewrite Hfd in Had0. cbn [concat] in Had0.
  rewrite !zlen_app in Had0. pose proof (zlen_nonneg (concat rest)). lia.
Qed.

(** The active segment holds the batch an accepted append wrote last. *)
Lemma Segment_Append_nonempty o s b s' r : Segment_Append o s b = (s', Ok r) -> fdata (logFile s') <> [].
Proof.
  unfold Segment_Append. destruct (sealed s); [done|].
  destruct (ParseBatchHeader b) as [h| | |] eqn:Ep; cbn [wrap_err]; try done.
  destruct (ValidateCRC b); cbn [wrap_err]; try done;
    destruct (ValidateBatchAttributes (Attributes h)); cbn [wrap_err]; try done.
  unfold file_write. destruct (io_log o) as [n|]; intros [= <- _].
  unfold index_batch, set_log, write_at. cbn.
  assert (b <> []) as Hb by (intros ->; by vm_compute in Ep).
  intros (_ & [_ [H _]%app_eq_nil]%app_eq_nil)%app_eq_nil. done.
Qed.

Lemma append_loop_nonempty o : forall batches i l l', batches <> [] ->
  append_loop o i l batches = (l', Ok tt) -> exists s, last (segments l') = Some s /\ fdata (logFile s) <> [].
Proof.
  induction batches as [|b batches IH]; intros i l l' Hne; [done|]. cbn [append_loop].
  destruct (split_last _) as [[pre s]|]; [|done]. destruct (assign_offset b _) as [b'| | |]; try done.
  destruct (Segment_Append (o i) s b') as [s' r] eqn:Ea. destruct r as [r| | |]; try done.
  destruct batches as [|b2 batches].
  - rewrite (bool_decide_true ([] = [])) by done. cbn [negb andb append_loop]. intros [= <-].
    exists s'. split; [by cbn; rewrite last_snoc|]. by eapply Segment_Append_nonempty.
  - destruct (_ && _); [|by apply IH]. destruct (rollLocked _ _) as [l2 [[]| | |]]; try done. by apply IH.
Qed.

(** So the index of the active segment cannot outlive its log file when the
    append was synced. *)
Lemma Log_Append_index_behind o l batches l' off d :
  Log_Append o l batches = (l', Ok off) -> all_durable l' -> crash_dir l' d -> entries_kept l' d -> index_behind l' d.
Proof.
  intros E Hdur Hcd Hek s Hs Hnil. exfalso.
  pose proof (last_elem_of _ _ Hs) as Hin.
  assert (crash_of (logFile s) (sf_log (dir_files d (baseOffset s)))) as Hc.
  { apply (cd_files _ _ Hcd); [done|]. rewrite Hek. apply list_elem_of_fmap. by exists s. }
  unfold all_durable in Hdur. rewrite Forall_forall in Hdur.
  rewrite (crash_of_durable _ _ (Hdur s Hin) Hc) in Hnil. revert Hnil.
  unfold Log_Append in E. destruct (bool_decide (diskGuard l = _)); [done|].
  destruct (bool_decide_reflect (batches = [])) as [|Hne]; [done|].
  destruct (last (segments l)); [|done]. destruct (if ShouldRoll _ _ then _ else _) as [l1 [[]| | |]]; try done.
  destruct (validate_all batches); try done. destruct (append_loop o 1 l1 batches) as [l2 [[]| | |]] eqn:El; try done.
  destruct (append_loop_nonempty _ _ _ _ _ Hne El) as (s2 & Hs2 & Hd2).
  destruct (bool_decide _); [|injection E as <- _; congruence].
  unfold sync_active in E. destruct (split_last (segments l2)) as [[pre s3]|] eqn:Esp.
  2:{ injection E as <- _. congruence. }
  assert (s3 = s2) as -> by (unfold split_last in Esp; rewrite Hs2 in Esp; congruence).
  destruct (Segment_Sync (o 0%nat) s2) as [s4 r4] eqn:Es. destruct r4 as [[]| | |]; try done. injection E as <- _.
  cbn in Hs. rewrite last_snoc in Hs. injection Hs as ->.
  assert (fdata (logFile s) = fdata (logFile s2)) as ->; [|done].
  revert Es. unfold Segment_Sync, file_sync, Index_Sync, TimeIndex_Sync, file_sync. repeat (step_goal; try done). all: intros [= <-]; done.
Qed.
