(* ===== verification/Samples.v ===== *)
(** * Sample batches and logs

    A producer's batch encoder, for the concrete instances of the theorems,
    and a small log of two segments. *)

From S2P Require Import Prelude Bytes OsFile RecordBatch Index TimeIndex Segment SegmentFacts Log LogFacts LogRead.

(** A v2 batch of [count] records with the given attributes and payload. *)
Definition encode_batch (attrs count ts : Z) (payload : list byte) : list byte :=
  let body := be_encode 2 attrs ++ be_encode 4 (u32 (count - 1)) ++ be_encode 8 ts ++ be_encode 8 ts ++
              be_encode 8 (u64 (-1)) ++ be_encode 2 (u16 (-1)) ++ be_encode 4 (u32 (-1)) ++
              be_encode 4 count ++ payload in
  be_encode 8 0 ++ be_encode 4 (9 + zlen body) ++ be_encode 4 (u32 (-1)) ++ [x02] ++
  be_encode 4 (CRC32C body) ++ body.

Definition b1 : list byte := encode_batch 0 3 1000 [x61; x62; x63].
Definition b2 : list byte := encode_batch 0 2 2000 [x64; x65].
Definition b3 : list byte := encode_batch 0 1 3000 [x66].

(** The same bytes with a bit flipped in the payload, and a transactional
    batch. *)
Definition bad_crc : list byte := encode_batch 0 1 1000 [] ++ [x61].
Definition transactional : list byte := encode_batch 0x10 1 1000 [x61].
(** A batch whose last-offset delta is -3. *)
Definition negative_delta : list byte := encode_batch 0 (-2) 1000 [x61].

Definition good_io (now : Z) : io := mkIo now None None None true true true.

Definition sample_cfg (mode : string) : Config := mkConfig "/data" 100 1000000 10 mode 5000000000.

Definition empty_dir : Dir := mkDir [] (fun _ => no_files 0).

Definition fresh_log (mode : string) : Log :=
  match OpenLog (fun _ => (None, None)) 0 (sample_cfg mode) None empty_dir with
  | Ok l => l
  | _ => mkLog (sample_cfg mode) [] 0 None
  end.

Lemma acceptable_compute b :
  ValidateBatchForAppend b = Ok tt -> (zlen b =? TotalSize (decode_header b)) = true ->
  (0 <=? LastOffsetDelta (decode_header b)) = true -> acceptable b.
Proof. intros. zbool. by split_and!. Qed.

Ltac compute_acceptable := apply acceptable_compute; vm_compute; reflexivity.

Lemma b1_acceptable : acceptable b1.
Proof. compute_acceptable. Qed.
Lemma b2_acceptable : acceptable b2.
Proof. compute_acceptable. Qed.
Lemma b3_acceptable : acceptable b3.
Proof. compute_acceptable. Qed.

Lemma fresh_log_wf mode : log_wf 0 [] (fresh_log mode).
Proof.
  exists [], [], [], (match segments (fresh_log mode) with s :: _ => s | [] => mkSegment 0 (file_open []) 0 0
    (OpenIndex [] 0) (OpenTimeIndex [] 0) 0 0 0 false false end).
  split; [done|]. split; [constructor|]. split; [|done].
  constructor; cbn; try done; try lia. by apply index_wf_nil.
Qed.

(** Three batches into a log whose segments hold 100 bytes: one roll. *)
Definition sample_log (mode : string) : Log :=
  fst (Log_Append (fun k => good_io (Z.of_nat k)) (fresh_log mode) [b1; b2; b3]).
Definition sample_batches : list (list byte) := assign_all 0 [b1; b2; b3].

Lemma sample_log_wf mode : log_wf 0 sample_batches (sample_log mode).
Proof.
  destruct (Log_Append_spec (fun k => good_io (Z.of_nat k)) 0 [] (fresh_log mode) [b1; b2; b3])
    as (l' & r & u & E & Happ & Hr).
  - apply fresh_log_wf.
  - done.
  - done.
  - auto using b1_acceptable, b2_acceptable, b3_acceptable.
  - reflexivity.
  - done.
  - destruct Happ as (got & lft & bs' & Hg & Hbs & _ & _ & Hwf & _ & Hok & _).
    unfold sample_log. rewrite E. cbn [fst].
    destruct Hok as [[_ ->]|(? & _ & Hng)]; [|exfalso; apply Hng; intros k; repeat split].
    rewrite app_nil_r in Hg. subst got bs'. exact Hwf.
Qed.

Example sample_two_segments :
  map (fun s => (baseOffset s, nextOffset s)) (segments (sample_log FsyncNone)) = [(0, 5); (5, 6)] /\
  HighWatermark (sample_log FsyncNone) = 6.
Proof. vm_compute. done. Qed.
