(* ===== verification/LogProps.v ===== *)
(** * What the storage layer promises

    The theorems about partition logs, each with a concrete instance. *)

From S2P Require Import Prelude Bytes OsFile RecordBatch Index TimeIndex Segment SegmentFacts Log LogFacts LogRead LogRecover Samples.

(** ** Appending *)

(** C3: An append of well-formed batches to a log that is not paused stores
    all of them at consecutive offsets from the high watermark on, which it
    returns, changing only their offset and leader-epoch fields; the high
    watermark advances by the number of records. *)
Theorem Log_Append_stores o start bs l batches :
  log_wf start bs l -> diskGuard l <> Some true -> batches <> [] ->
  Forall acceptable batches -> HighWatermark l + recs batches < 2 ^ 63 ->
  (forall k, io_log (o k) = None) -> (forall k, sync_good (o k)) ->
  exists l' bs', Log_Append o l batches = (l', Ok (HighWatermark l)) /\
    bs' = assign_all (HighWatermark l) batches /\ Forall2 same_outside_patch batches bs' /\
    log_wf start (bs ++ bs') l' /\ HighWatermark l' = HighWatermark l + recs batches.
Proof.
  intros Hwf Hg Hne Hacc Hroom Hio Hsync.
  destruct (Log_Append_spec o start bs l batches) as (l' & r & u & E & Happ & Hr); [done..|].
  destruct Hr as [(-> & -> & _)|(e & _ & Hng)]; [|done].
  destruct Happ as (got & lft & bs' & -> & Hbs & H2 & Hrec & Hwf' & _ & Hok & _).
  destruct Hok as [[_ ->]|(e & ? & _)]; [|done]. rewrite app_nil_r in *.
  exists l', bs'. split_and!; try done.
  destruct (log_wf_chain _ _ _ Hwf) as (_ & H1 & _). destruct (log_wf_chain _ _ _ Hwf') as (_ & H1' & _).
  rewrite recs_app in H1'. lia.
Qed.

Lemma Log_Append_stores_witness :
  exists l' bs', Log_Append (fun k => good_io (Z.of_nat k)) (fresh_log FsyncNone) [b1; b2] =
      (l', Ok (HighWatermark (fresh_log FsyncNone))) /\
    bs' = assign_all (HighWatermark (fresh_log FsyncNone)) [b1; b2] /\ Forall2 same_outside_patch [b1; b2] bs' /\
    log_wf 0 ([] ++ bs') l' /\ HighWatermark l' = HighWatermark (fresh_log FsyncNone) + recs [b1; b2].
Proof.
  apply Log_Append_stores.
  - apply fresh_log_wf.
  - discriminate.
  - discriminate.
  - exact (Forall_cons_2 _ _ _ b1_acceptable (Forall_cons_2 _ _ _ b2_acceptable (Forall_nil_2 _))).
  - reflexivity.
  - reflexivity.
  - repeat split.
Defined.

(** A request in which any batch fails validation is rejected as a whole:
    the call returns an error and the stored batches are unchanged, whatever
    the fsyncs of a roll in front of it do. *)
Theorem Log_Append_rejects o start bs l batches b :
  log_wf start bs l -> b ∈ batches -> ValidateBatchForAppend b <> Ok tt ->
  exists l' e, Log_Append o l batches = (l', Err e) /\ log_wf start bs l'.
Proof.
  intros Hwf Hb Hbad. unfold Log_Append.
  destruct (bool_decide_reflect (diskGuard l = Some true)); [by eauto|].
  rewrite bool_decide_false by (intros ->; by apply not_elem_of_nil in Hb).
  pose proof Hwf as (bss & pre & abs & s & Hsegs & _). rewrite Hsegs, last_snoc.
  destruct (first_roll_spec (o 0%nat) start bs l (ShouldRoll (io_now (o 0%nat)) s) Hwf)
    as (l1 & r1 & -> & Hwf1 & _ & [->|[e ->]] & _); [|by eauto].
  destruct (validate_all_cases batches) as [Hv|[e ->]]; [|by eauto].
  rewrite validate_all_Ok, Forall_forall in Hv. by destruct Hbad; apply Hv.
Qed.

Lemma Log_Append_rejects_witness :
  exists l' e, Log_Append (fun k => good_io (Z.of_nat k)) (fresh_log FsyncNone) [b1; bad_crc] = (l', Err e) /\
    log_wf 0 [] l'.
Proof.
  apply (Log_Append_rejects _ 0 [] _ [b1; bad_crc] bad_crc).
  - apply fresh_log_wf.
  - apply elem_of_cons. right. apply elem_of_cons. left. reflexivity.
  - vm_compute. discriminate.
Defined.

(** C4: In fsync mode "always" an acknowledged append survives a machine
    crash that keeps the names of the segment files: whatever prefix of each
    file beyond its synced bytes is left, the reopened log holds every batch
    acknowledged so far, at the same offsets.  (Writes to the log file succeed, and
    the sealed segments are synced, as rolling leaves them.)  The proviso is [entries_kept];
    without it the claim fails ([directory_entry_lost]), because the program
    never fsyncs a directory. *)
Theorem Log_Append_always_survives o start bs l batches l' off d wio now c guard :
  log_wf start bs l -> 0 <= start -> FsyncMode (cfg l) = FsyncAlways -> sealed_durable l ->
  diskGuard l <> Some true -> batches <> [] -> Forall acceptable batches ->
  HighWatermark l + recs batches < 2 ^ 63 -> (forall k, io_log (o k) = None) ->
  Log_Append o l batches = (l', Ok off) -> crash_dir l' d -> entries_kept l' d ->
  exists l'', OpenLog wio now c guard d = Ok l'' /\
    log_wf start (bs ++ assign_all off batches) l'' /\ off = HighWatermark l /\ all_durable l''.
Proof.
  intros Hwf H0 Hmode Hsd Hg Hne Hacc Hroom Hio E Hcrash Hek.
  destruct (Log_Append_spec o start bs l batches) as (l2 & r & u & E2 & Happ & Hr); [done..|].
  rewrite E in E2. simplify_eq.
  destruct Hr as [(-> & [= ->] & Hdur)|(e & ? & _)]; [|done]. specialize (Hdur Hmode Hsd).
  destruct Happ as (got & lft & bs' & -> & -> & _ & _ & Hwf' & _ & Hok & Hsd').
  destruct Hok as [[_ ->]|(e & ? & _)]; [|done]. rewrite app_nil_r in *.
  destruct (OpenLog_crash_spec wio now c guard start _ l2 d Hwf' H0 (Hsd' Hsd) Hcrash Hek
    (Log_Append_index_behind _ _ _ _ _ _ E Hdur Hcrash Hek))
    as (l'' & kept & lost & E' & Hsplit & Hwf'' & _ & Had & Hnone & _).
  rewrite (Hnone Hdur), app_nil_r in Hsplit. exists l''. rewrite Hsplit. by split_and!.
Qed.

Definition sample_dir (mode : string) : Dir :=
  mkDir (map (fun s => segmentFilename (baseOffset s) logSuffix) (segments (sample_log mode)))
    (fun base => match find (fun s => baseOffset s =? base) (segments (sample_log mode)) with
                 | Some s => seg_files s
                 | None => no_files 0
                 end).

Lemma crash_of_refl f : crash_of f (fdata f).
Proof.
  exists (Z.max (fsynced f) (fsize f)). split; [lia|]. symmetry. apply take_ge. unfold fsize, zlen. lia.
Qed.

Lemma crash_of_same f data : data = fdata f -> crash_of f data.
Proof. intros ->. apply crash_of_refl. Qed.

(** A directory with the log's own files is a possible outcome of a crash. *)
Lemma sample_dir_files mode s :
  mode = FsyncAlways -> s ∈ segments (sample_log mode) ->
  sf_log (dir_files (sample_dir mode) (baseOffset s)) = fdata (logFile s) /\ fdata (logFile s) <> [].
Proof.
  intros -> Hs. apply list_elem_of_In in Hs.
  assert (forallb (fun s => bool_decide (sf_log (dir_files (sample_dir FsyncAlways) (baseOffset s)) = fdata (logFile s))
    && negb (bool_decide (fdata (logFile s) = []))) (segments (sample_log FsyncAlways)) = true) as Hall
    by (vm_compute; reflexivity).
  pose proof (proj1 (forallb_forall _ _) Hall s Hs) as H. clear Hall Hs. cbv beta in H. zbool.
  split; assumption.
Qed.

Lemma sample_dir_kept : entries_kept (sample_log FsyncAlways) (sample_dir FsyncAlways).
Proof. vm_compute. apply Permutation_refl. Qed.

Lemma sample_dir_crash : crash_dir (sample_log FsyncAlways) (sample_dir FsyncAlways).
Proof.
  split.
  - apply Permutation_submseteq, sample_dir_kept.
  - intros s Hs _. destruct (sample_dir_files _ _ eq_refl Hs) as [-> _]. apply crash_of_refl.
  - intros s Hs%list_elem_of_In _. left.
    assert (forallb (fun s => bool_decide (sf_index (dir_files (sample_dir FsyncAlways) (baseOffset s)) = fdata (idx_file (idx s))))
      (segments (sample_log FsyncAlways)) = true) as Hall by (vm_compute; reflexivity).
    pose proof (proj1 (forallb_forall _ _) Hall s Hs) as H. clear Hall Hs. cbv beta in H.
    exact (crash_of_same _ _ (bool_decide_eq_true_1 _ H)).
Qed.

Lemma sample_dir_behind : index_behind (sample_log FsyncAlways) (sample_dir FsyncAlways).
Proof.
  intros s Hs%last_elem_of Hnil. destruct (sample_dir_files _ _ eq_refl Hs) as [H1 H2]. rewrite H1 in Hnil. contradiction.
Qed.

Lemma Log_Append_always_survives_witness :
  exists l'', OpenLog (fun _ => (None, None)) 0 (sample_cfg FsyncAlways) None (sample_dir FsyncAlways) = Ok l'' /\
    log_wf 0 ([] ++ assign_all 0 [b1; b2; b3]) l'' /\ 0 = HighWatermark (fresh_log FsyncAlways) /\ all_durable l''.
Proof.
  apply (Log_Append_always_survives (fun k => good_io (Z.of_nat k)) 0 [] (fresh_log FsyncAlways) [b1; b2; b3]
           (sample_log FsyncAlways) 0).
  - apply fresh_log_wf.
  - reflexivity || (intros H; discriminate H).
  - reflexivity.
  - apply Forall_nil_2.
  - discriminate.
  - discriminate.
  - exact (Forall_cons_2 _ _ _ b1_acceptable (Forall_cons_2 _ _ _ b2_acceptable
             (Forall_cons_2 _ _ _ b3_acceptable (Forall_nil_2 _)))).
  - reflexivity.
  - reflexivity.
  - vm_compute. reflexivity.
  - exact sample_dir_crash.
  - exact sample_dir_kept.
Defined.

(** Without the proviso of [entries_kept] an acknowledged append is lost: after
    the synced append of three batches the directory may still be empty, and
    the log then starts again at offset 0. *)
Definition entry_lost_dir : Dir := mkDir [] (fun _ => no_files 0).

Lemma entry_lost_crash : crash_dir (sample_log FsyncAlways) entry_lost_dir.
Proof.
  split; [apply submseteq_nil_l| |]; intros s _ H; apply elem_of_nil in H; contradiction.
Qed.

Example directory_entry_lost :
  snd (Log_Append (fun k => good_io (Z.of_nat k)) (fresh_log FsyncAlways) [b1; b2; b3]) = Ok 0 /\
  HighWatermark (sample_log FsyncAlways) = 6 /\ crash_dir (sample_log FsyncAlways) entry_lost_dir /\
  exists l, OpenLog (fun _ => (None, None)) 0 (sample_cfg FsyncAlways) None entry_lost_dir = Ok l /\ HighWatermark l = 0.
Proof.
  split_and!; [vm_compute; reflexivity|vm_compute; reflexivity|exact entry_lost_crash|].
  eexists. split; vm_compute; reflexivity.
Qed.

(** And an index file that outlives its log file ([index_behind] excludes it)
    misleads the reads that follow: four batches are written and not synced, the
    crash leaves the index file and no byte of the log file, and after the
    restart two batches with the offsets 0 to 5 are appended.  The fetch of
    offset 1 then fails and that of offset 3 returns nothing, although both lie
    below the high watermark. *)
Definition stale_cfg : Config := mkConfig "/data" 1000 1000000 10 FsyncNone 5000000000.
Definition opened (r : res Log) : Log := match r with Ok l => l | _ => fresh_log FsyncNone end.
Definition unsynced_log : Log :=
  fst (Log_Append (fun k => good_io (Z.of_nat k))
    (opened (OpenLog (fun _ => (None, None)) 0 stale_cfg None empty_dir)) [b3; b3; b3; b3]).
Definition stale_dir : Dir :=
  mkDir [segmentFilename 0 logSuffix]
    (fun _ => match segments unsynced_log with
              | s :: _ => mkSegFiles [] (fdata (idx_file (idx s))) [] 0
              | [] => no_files 0
              end).
Definition stale_log : Log :=
  fst (Log_Append (fun k => good_io (Z.of_nat k))
    (opened (OpenLog (fun _ => (None, None)) 0 stale_cfg None stale_dir)) [b1; b1]).

Lemma stale_dir_crash : crash_dir unsynced_log stale_dir /\ entries_kept unsynced_log stale_dir.
Proof.
  assert (entries_kept unsynced_log stale_dir) as Hk by (vm_compute; apply Permutation_refl).
  split; [|exact Hk]. split; [by apply Permutation_submseteq| |];
    intros s Hs%list_elem_of_In _.
  - assert (forallb (fun s => fsynced (logFile s) =? 0) (segments unsynced_log) = true) as Hall by (vm_compute; reflexivity).
    pose proof (proj1 (forallb_forall _ _) Hall s Hs) as H. apply Z.eqb_eq in H. exists 0. rewrite H. split; [lia|].
    assert (sf_log (dir_files stale_dir (baseOffset s)) = []) as ->; [|done].
    unfold stale_dir. cbn [dir_files]. by destruct (segments unsynced_log).
  - left. assert (forallb (fun s => bool_decide (sf_index (dir_files stale_dir (baseOffset s)) = fdata (idx_file (idx s))))
      (segments unsynced_log) = true) as Hall by (vm_compute; reflexivity).
    pose proof (proj1 (forallb_forall _ _) Hall s Hs) as H. clear Hall Hs. cbv beta in H.
    exact (crash_of_same _ _ (bool_decide_eq_true_1 _ H)).
Qed.

Example stale_index_misleads :
  crash_dir unsynced_log stale_dir /\ entries_kept unsynced_log stale_dir /\ HighWatermark stale_log = 6 /\
  (exists e, FetchAt stale_log 1 1000 = Err e) /\ FetchAt stale_log 3 1000 = Ok ([], 3).
Proof.
  destruct stale_dir_crash. split_and!; [assumption|assumption|vm_compute; reflexivity| |vm_compute; reflexivity].
  eexists. vm_compute. reflexivity.
Qed.

(** [Open] after any crash that keeps the segment names and no index without
    its log loses at most a tail of the active segment: the sealed segments and
    every batch that was completely on stable storage are recovered, at the
    same offsets, and the reopened log satisfies the invariant again. *)
Theorem OpenLog_crash wio now c guard start bs l d :
  log_wf start bs l -> 0 <= start -> sealed_durable l ->
  crash_dir l d -> entries_kept l d -> index_behind l d ->
  exists l' kept lost, OpenLog wio now c guard d = Ok l' /\ bs = kept ++ lost /\
    log_wf start kept l' /\ LogStartOffset l' = start /\
    (forall b rest, lost = b :: rest -> exists s a, last (segments l) = Some s /\
       fdata (logFile s) = concat a ++ concat lost /\ fsynced (logFile s) < zlen (concat a) + zlen b).
Proof.
  intros Hwf H0 Hsd Hcd Hek Hib.
  destruct (OpenLog_crash_spec wio now c guard start bs l d Hwf H0 Hsd Hcd Hek Hib)
    as (l' & kept & lost & E & Hbs & Hwf' & Hls & _ & _ & Hlost).
  exists l', kept, lost. by split_and!.
Qed.

Lemma sample_sealed_durable : sealed_durable (sample_log FsyncAlways).
Proof.
  unfold sealed_durable. apply List.Forall_forall. intros s Hs.
  assert (forallb (fun s => fsynced (logFile s) =? fsize (logFile s)) (SealedSegments (sample_log FsyncAlways)) = true)
    as Hall by (vm_compute; reflexivity).
  pose proof (proj1 (forallb_forall _ _) Hall s Hs) as H. apply Z.eqb_eq in H. exact H.
Qed.

Lemma OpenLog_crash_witness :
  exists l' kept lost, OpenLog (fun _ => (None, None)) 0 (sample_cfg FsyncNone) None (sample_dir FsyncAlways) = Ok l' /\
    sample_batches = kept ++ lost /\ log_wf 0 kept l' /\ LogStartOffset l' = 0 /\
    (forall b rest, lost = b :: rest -> exists s a, last (segments (sample_log FsyncAlways)) = Some s /\
       fdata (logFile s) = concat a ++ concat lost /\ fsynced (logFile s) < zlen (concat a) + zlen b).
Proof.
  apply OpenLog_crash.
  - apply sample_log_wf.
  - intros H; discriminate H.
  - exact sample_sealed_durable.
  - exact sample_dir_crash.
  - exact sample_dir_kept.
  - exact sample_dir_behind.
Defined.

(** Recovery of one segment returns on every byte string, keeps exactly
    the longest prefix made of complete, CRC-clean batches, cuts the file
    there and leaves the write cursor at its end. *)
Theorem OpenSegment_recovers wio opts f :
  exists s, OpenSegment wio opts f = Ok s /\
    let bs := valid_prefix (sf_log f) in
    fdata (logFile s) = concat bs /\ fpos (logFile s) = zlen (concat bs) /\ logSize s = zlen (concat bs) /\
    Forall valid_batch bs /\ exists tail, sf_log f = concat bs ++ tail /\ valid_prefix tail = [].
Proof.
  unfold OpenSegment. set (s0 := mkSegment _ _ _ _ _ _ _ _ _ _ _).
  destruct (Segment_recover_spec wio s0) as (s & E & Hlf & Hsz & _); try done.
  exists s. split; [done|]. cbn zeta. rewrite Hlf.
  destruct (valid_prefix_spec (sf_log f)) as (Hv & Ht). by split_and!.
Qed.

(** ** Fetching *)

(** C14: A fetch inside the log with a byte budget of at least one batch
    header (61 bytes) returns whole batches, starting with the one that holds
    the offset and reporting its base offset, and exceeds the byte budget only
    when that one batch is larger than the budget.  Below 61 bytes the call
    fails ([FetchAt_tiny_budget]) or panics ([FetchAt_negative_panics]). *)
Theorem FetchAt_correct start bs l off maxBytes :
  log_wf start bs l -> start <= off < HighWatermark l -> v2HeaderSize <= maxBytes ->
  exists data first, FetchAt l off maxBytes = Ok (data, first) /\
    exists pre b mid post, bs = pre ++ (b :: mid) ++ post /\ data = concat (b :: mid) /\
      first = start + recs pre /\ first <= off < first + records b /\
      (mid = [] \/ zlen data <= maxBytes).
Proof. intros Hwf Hoff Hmax. exact (FetchAt_ok _ _ _ _ _ Hwf Hoff Hmax). Qed.

Lemma FetchAt_correct_witness :
  exists data first, FetchAt (sample_log FsyncNone) 4 100 = Ok (data, first) /\
    exists pre b mid post, sample_batches = pre ++ (b :: mid) ++ post /\ data = concat (b :: mid) /\
      first = 0 + recs pre /\ first <= 4 < first + records b /\ (mid = [] \/ zlen data <= 100).
Proof.
  apply (FetchAt_correct 0 sample_batches (sample_log FsyncNone) 4 100).
  - apply sample_log_wf.
  - vm_compute. split; [discriminate|reflexivity].
  - vm_compute. discriminate.
Defined.

(** Below the log start a fetch fails with the out-of-range error the wire
    layer maps to OFFSET_OUT_OF_RANGE; at or past the high watermark it returns
    no bytes and the requested offset, whatever the byte budget. *)
Theorem FetchAt_out_of_range start bs l off maxBytes :
  log_wf start bs l ->
  (off < start -> FetchAt l off maxBytes = Err (ESentinel ErrOffsetOutOfRange)) /\
  (HighWatermark l <= off -> FetchAt l off maxBytes = Ok ([], off)).
Proof.
  intros Hwf. pose proof (log_wf_chain _ _ _ Hwf) as (Hc & Hhw & _).
  pose proof (chain_recs_nonneg _ _ Hc).
  split; intros ?; rewrite (FetchAt_outside _ _ _ _ _ Hwf) by lia.
  - by rewrite (proj2 (Z.ltb_lt _ _)).
  - by rewrite (proj2 (Z.ltb_ge _ _)) by lia.
Qed.

Lemma FetchAt_out_of_range_witness :
  (6 < 0 -> FetchAt (sample_log FsyncNone) 6 100 = Err (ESentinel ErrOffsetOutOfRange)) /\
  (HighWatermark (sample_log FsyncNone) <= 6 -> FetchAt (sample_log FsyncNone) 6 100 = Ok ([], 6)).
Proof. apply (FetchAt_out_of_range 0 sample_batches). apply sample_log_wf. Defined.

(** C13: A consumer that starts at the log start and continues each fetch behind
    the last batch it got terminates having read every stored batch, once and
    in order, for every budget of at least one header. *)
Theorem consume_reads_all start bs l maxBytes :
  log_wf start bs l -> v2HeaderSize <= maxBytes ->
  consume (S (length bs)) l start maxBytes = Ok bs.
Proof.
  intros Hwf Hmax. rewrite <- (Z.add_0_r start).
  apply (consume_ok (S (length bs)) start [] bs); [done|done|lia].
Qed.

Lemma consume_reads_all_witness :
  consume 4 (sample_log FsyncNone) 0 61 = Ok sample_batches.
Proof.
  apply (consume_reads_all 0 sample_batches (sample_log FsyncNone) 61).
  - apply sample_log_wf.
  - vm_compute. discriminate.
Defined.

(** The boundary trim returns on every buffer, with a prefix of it. *)
Theorem trimToBatchBoundary_total buf :
  exists p, trimToBatchBoundary buf = Ok (take (Z.to_nat p) buf) /\ 0 <= p <= zlen buf.
Proof.
  pose proof (zlen_nonneg buf). unfold trimToBatchBoundary.
  destruct (trim_loop_total (S (length buf)) buf 0) as (p & -> & Hp); [lia|unfold zlen; lia|].
  exists p. cbn. split; [|lia]. unfold slice. by rewrite Z.sub_0_r.
Qed.

(** A negative byte budget inside the log makes the fetch panic: the
    segment allocates a buffer of that length. *)
Theorem FetchAt_negative_panics start bs l off maxBytes :
  log_wf start bs l -> start <= off < HighWatermark l -> maxBytes < 0 ->
  FetchAt l off maxBytes = Panic.
Proof.
  intros Hwf Hoff Hneg.
  destruct (findSegmentLocked_spec _ _ _ _ Hwf Hoff) as (s & B1 & sbs & B2 & Hfind & -> & Hs & Hb & Hr).
  destruct (FindBatchAt_ok sbs s off Hs Hr) as (pre & b & post & -> & Hfb & Hin).
  assert (segments l <> []) as Hne by (unfold findSegmentLocked in Hfind; by destruct (segments l)).
  destruct (segments l) eqn:Hsegs; [done|].
  unfold FetchAt. rewrite Hsegs, Hfind, Hfb. cbn [wrap_err mbind res_bind].
  pose proof (sw_size _ _ Hs) as Hz. pose proof (sw_chain _ _ Hs) as [_ [Hst _]]%chain_app.
  apply stored_inv in Hst as (_ & _ & _ & _ & _ & _ & H61).
  rewrite concat_app, zlen_app in Hz. cbn [concat] in Hz. rewrite zlen_app in Hz.
  pose proof (zlen_nonneg (concat post)).
  unfold Segment_ReadAt. rewrite Z.geb_leb, Z.gtb_ltb.
  destruct (Z.leb_spec (logSize s) (zlen (concat pre))); [lia|].
  destruct (Z.ltb_spec (logSize s) (zlen (concat pre) + maxBytes)); [lia|].
  by rewrite (proj2 (Z.ltb_lt _ _)).
Qed.

Lemma FetchAt_negative_panics_witness : FetchAt (sample_log FsyncNone) 0 (-1) = Panic.
Proof.
  apply (FetchAt_negative_panics 0 sample_batches).
  - apply sample_log_wf.
  - vm_compute. split; [discriminate|reflexivity].
  - reflexivity.
Defined.

(** A budget smaller than a header fails instead of returning one batch. *)
Example FetchAt_tiny_budget :
  FetchAt (sample_log FsyncNone) 0 60 = Err (EMsg "batch header: need 61 bytes").
Proof. vm_compute. reflexivity. Qed.

(** ** Retention *)

(** Deleting segments below a cutoff removes a prefix of the log that lies
    entirely below the cutoff, never the active segment: the remaining batches
    keep their offsets, the log start moves to the first of them, and the high
    watermark does not move. *)
Theorem DeleteSegmentsBefore_correct del start bs l cutoff :
  log_wf start bs l -> (forall k, del k = true) ->
  exists l' n gone kept, DeleteSegmentsBefore del l cutoff = (l', n, None) /\
    bs = gone ++ kept /\ log_wf (start + recs gone) kept l' /\
    (gone = [] \/ start + recs gone <= cutoff) /\
    LogStartOffset l' = start + recs gone /\ HighWatermark l' = HighWatermark l /\
    match segments l' with _ :: t :: _ => cutoff < baseOffset t | _ => True end.
Proof. intros Hwf Hdel. exact (DeleteSegmentsBefore_spec _ _ _ _ _ Hwf Hdel). Qed.

Lemma DeleteSegmentsBefore_correct_witness :
  exists l' n gone kept, DeleteSegmentsBefore (fun _ => true) (sample_log FsyncNone) 5 = (l', n, None) /\
    sample_batches = gone ++ kept /\ log_wf (0 + recs gone) kept l' /\
    (gone = [] \/ 0 + recs gone <= 5) /\
    LogStartOffset l' = 0 + recs gone /\ HighWatermark l' = HighWatermark (sample_log FsyncNone) /\
    match segments l' with _ :: t :: _ => 5 < baseOffset t | _ => True end.
Proof.
  apply DeleteSegmentsBefore_correct.
  - apply sample_log_wf.
  - reflexivity.
Defined.

(** The name of a segment file parses back to its base offset. *)
Theorem segmentFilename_roundtrip base :
  0 <= base < 2 ^ 63 -> parse_segment_name (segmentFilename base logSuffix) = Some base.
Proof. apply segmentFilename_parse. Qed.

Lemma segmentFilename_roundtrip_witness :
  parse_segment_name (segmentFilename 1234567890123 logSuffix) = Some 1234567890123.
Proof. apply segmentFilename_roundtrip. split; [discriminate|reflexivity]. Defined.

(** A batch with a negative last-offset delta passes validation and moves the
    high watermark backwards. *)
Example negative_delta_regresses :
  ValidateBatchForAppend negative_delta = Ok tt /\
  HighWatermark (fst (Log_Append (fun k => good_io 0) (sample_log FsyncNone) [negative_delta])) = 4.
Proof. vm_compute. split; reflexivity. Qed.
