(* ===== verification/Retention.v ===== *)
(** * The retention reaper (internal/storage/retention.go)

    One sweep of one log, as the code computes it, and as the two rules it
    implements. *)

From S2P Require Import Prelude Bytes OsFile RecordBatch Index TimeIndex Segment SegmentFacts Log LogFacts LogRead Samples.

Record RetentionConfig := mkRetention {
  RetentionMS : Z;
  RetentionBytes : Z;
  Tick : Z;                                   (* nanoseconds *)
  Archived : option (Segment -> bool)         (* nil when cold storage is off *)
}.

Definition sweepInterval (c : RetentionConfig) : Z :=
  let d := if Tick c <=? 0 then 60 * 1000000000 else Tick c in
  let half := Z.quot (i64 (RetentionMS c * 1000000)) 2 in
  if (RetentionMS c >? 0) && (half <? d) then Z.max half 1000000000 else d.

(** The length of the longest prefix whose elements satisfy [f]. *)
Fixpoint prefix_len {A} (f : A -> bool) (l : list A) : nat :=
  match l with
  | [] => 0
  | x :: l => if f x then S (prefix_len f l) else 0
  end.

Definition deletable (c : RetentionConfig) (segs : list Segment) : nat :=
  match Archived c with
  | None => length segs
  | Some f => prefix_len f segs
  end.

Definition too_old (c : RetentionConfig) (now : Z) (seg : Segment) : bool :=
  negb ((RetentionMS c <=? 0) || (Z.quot (now - createdAt seg) 1000000 <=? RetentionMS c)).

(** The age walk over the deletable prefix. *)
Fixpoint age_cutoff (c : RetentionConfig) (now cutoff : Z) (segs : list Segment) : Z :=
  match segs with
  | [] => cutoff
  | seg :: segs => if too_old c now seg then age_cutoff c now (nextOffset seg) segs else cutoff
  end.

(** The size walk. *)
Fixpoint size_cutoff (c : RetentionConfig) (totalBytes cutoff : Z) (segs : list Segment) : Z :=
  match segs with
  | [] => cutoff
  | seg :: segs =>
      if totalBytes >? RetentionBytes c
      then size_cutoff c (totalBytes - logSize seg)
             (if nextOffset seg >? cutoff then nextOffset seg else cutoff) segs
      else cutoff
  end.

Definition total_bytes (segs : list Segment) : Z := foldr (fun s n => logSize s + n) 0 segs.

(** The cutoff one log gets, -1 for none. *)
Definition sweep_cutoff (c : RetentionConfig) (now : Z) (l : Log) : Z :=
  let segs := SealedSegments l in
  let prefix := take (deletable c segs) segs in
  let cutoff := age_cutoff c now (-1) prefix in
  if RetentionBytes c >? 0 then size_cutoff c (total_bytes (AllSegments l)) cutoff prefix else cutoff.

(** The body of [sweepOnce] for one log. *)
Definition sweepOne (del : nat -> bool) (c : RetentionConfig) (now : Z) (l : Log) : Log :=
  if bool_decide (SealedSegments l = []) then l
  else
    let cutoff := sweep_cutoff c now l in
    if cutoff <? 0 then l else (DeleteSegmentsBefore del l cutoff).1.1.

Definition sweepOnce (del : nat -> bool) (c : RetentionConfig) (now : Z) (logs : list Log) : list Log :=
  sweepOne del c now <$> logs.

(** ** The rules *)

(** How many of the oldest segments each rule gives up. *)
Definition age_rule (c : RetentionConfig) (now : Z) (segs : list Segment) : nat := prefix_len (too_old c now) segs.

Fixpoint size_rule (c : RetentionConfig) (totalBytes : Z) (segs : list Segment) : nat :=
  match segs with
  | [] => 0
  | seg :: segs => if totalBytes >? RetentionBytes c then S (size_rule c (totalBytes - logSize seg) segs) else 0
  end.

Definition retention_rule (c : RetentionConfig) (now : Z) (l : Log) : nat :=
  let segs := SealedSegments l in
  let prefix := take (deletable c segs) segs in
  Nat.max (age_rule c now prefix)
    (if RetentionBytes c >? 0 then size_rule c (total_bytes (AllSegments l)) prefix else 0).

(** ** The walks compute the rules *)

(** The end of the [k]-th segment, [-1] for [k = 0]. *)
Definition end_of (k : nat) (segs : list Segment) : Z :=
  match k with
  | O => -1
  | S k => match segs !! k with Some s => nextOffset s | None => -1 end
  end.

Lemma prefix_len_le {A} (f : A -> bool) l : (prefix_len f l <= length l)%nat.
Proof. induction l as [|x l IH]; simpl; [done|]. destruct (f x); lia. Qed.

Lemma prefix_len_all {A} (f : A -> bool) l k x : (k < prefix_len f l)%nat -> l !! k = Some x -> f x = true.
Proof.
  revert k. induction l as [|y l IH]; intros [|k]; simpl; try done; destruct (f y) eqn:E; intros; simplify_eq; try lia; try done.
  by eapply (IH k); [lia|].
Qed.

Lemma size_rule_le c segs : forall t, (size_rule c t segs <= length segs)%nat.
Proof. induction segs as [|s segs IH]; intros t; simpl; [done|]. case_match; [specialize (IH (t - logSize s))|]; lia. Qed.

Lemma age_cutoff_rule c now segs : forall cutoff,
  age_cutoff c now cutoff segs = match age_rule c now segs with O => cutoff | k => end_of k segs end.
Proof.
  unfold age_rule. induction segs as [|s segs IH]; intros cutoff; simpl; [done|].
  destruct (too_old c now s); [|done]. rewrite IH. destruct (prefix_len _ segs) as [|k] eqn:E; [done|].
  simpl. by destruct (segs !! k).
Qed.

Definition ends_above (cutoff : Z) (segs : list Segment) : Prop := Forall (fun s => cutoff < nextOffset s) segs.

(** Ends of segments increase along a log. *)
Lemma front_ends o bss segs o' :
  front o bss segs o' -> ends_above o segs /\ StronglySorted (fun a b => nextOffset a < nextOffset b) segs.
Proof.
  induction 1 as [|o bs bss s segs o' Hwf Hb Hs Hne _ [IH1 IH2]]; [split; constructor|].
  pose proof (seg_wf_recs_pos _ _ Hwf Hne). split.
  - constructor; [lia|]. eapply Forall_impl; [done|]. simpl. lia.
  - by constructor.
Qed.

Lemma front_base_nonneg o bss segs o' : front o bss segs o' -> segs <> [] -> 0 <= o.
Proof. intros Hf Hne. destruct Hf as [|? ? ? ? ? ? Hwf <-]; [done|]. by apply (sw_base _ _ Hwf). Qed.

Lemma end_of_lookup k s segs : segs !! k = Some s -> end_of (S k) segs = nextOffset s.
Proof. simpl. by intros ->. Qed.

Lemma size_cutoff_rule c segs : forall t cutoff,
  StronglySorted (fun a b => nextOffset a < nextOffset b) segs ->
  size_cutoff c t cutoff segs =
    match size_rule c t segs with O => cutoff | k => Z.max cutoff (end_of k segs) end.
Proof.
  induction segs as [|s segs IH]; intros t cutoff Hs; cbn [size_cutoff size_rule]; [done|].
  apply StronglySorted_inv in Hs as [Hs Hall]. destruct (t >? RetentionBytes c); [|done].
  rewrite IH by done. pose proof (size_rule_le c segs (t - logSize s)) as Hle.
  assert ((if nextOffset s >? cutoff then nextOffset s else cutoff) = Z.max cutoff (nextOffset s)) as ->
    by (rewrite Z.gtb_ltb; destruct (Z.ltb_spec cutoff (nextOffset s)); lia).
  destruct (size_rule c (t - logSize s) segs) as [|k]; [done|].
  destruct (lookup_lt_is_Some_2 segs k) as [x Hx]; [lia|].
  rewrite (end_of_lookup k x segs Hx), (end_of_lookup (S k) x (s :: segs) Hx).
  rewrite Forall_forall in Hall. pose proof (Hall x (list_elem_of_lookup_2 _ _ _ Hx)). lia.
Qed.

Lemma end_of_mono segs j k :
  StronglySorted (fun a b => nextOffset a < nextOffset b) segs -> ends_above (-1) segs ->
  (j <= k <= length segs)%nat -> end_of j segs <= end_of k segs.
Proof.
  intros Hs Ha Hjk. destruct j as [|j].
  { destruct k as [|k]; [done|]. destruct (lookup_lt_is_Some_2 segs k) as [x Hx]; [lia|].
    rewrite (end_of_lookup _ _ _ Hx). unfold ends_above in Ha. rewrite Forall_forall in Ha.
    pose proof (Ha x (list_elem_of_lookup_2 _ _ _ Hx)). simpl. lia. }
  destruct k as [|k]; [lia|]. destruct (lookup_lt_is_Some_2 segs j) as [x Hx]; [lia|].
  destruct (lookup_lt_is_Some_2 segs k) as [y Hy]; [lia|].
  rewrite (end_of_lookup _ _ _ Hx), (end_of_lookup _ _ _ Hy).
  destruct (decide (j = k)) as [->|]; [simplify_eq; lia|].
  enough (nextOffset x < nextOffset y) by lia. clear Ha. revert j k Hx Hy Hjk n.
  induction Hs as [|z segs Hs IH Hall]; intros [|j] [|k] Hx Hy Hjk Hn; simpl in *; simplify_eq; try lia; try done.
  - rewrite Forall_forall in Hall. apply Hall. by eapply list_elem_of_lookup_2.
  - eapply IH; [done|done|lia|lia].
Qed.

(** One turn of the deletion loop. *)
Lemma delete_loop_cons del cutoff n seg segs t rest :
  segs = t :: rest -> del n = true ->
  delete_loop del cutoff n (seg :: segs) =
    if baseOffset t >? cutoff then (seg :: segs, n, None) else delete_loop del cutoff (S n) segs.
Proof. intros -> Hd. cbn [delete_loop]. destruct (_ >? _); [done|]. unfold Segment_Delete. by rewrite Hd. Qed.

(** Deleting up to the end of the [k]-th segment deletes [k] segments. *)
Lemma delete_loop_exact del s : forall pre bss o n k,
  (forall i, del i = true) -> front o bss pre (baseOffset s) -> (0 < k <= length pre)%nat ->
  delete_loop del (end_of k pre) n (pre ++ [s]) = (drop k pre ++ [s], n + k, None)%nat.
Proof.
  induction pre as [|p pre IH]; intros bss o n k Hdel Hf Hk; [simpl in Hk; lia|].
  destruct k as [|k]; [lia|].
  destruct (front_ends _ _ _ _ Hf) as [Ha Hss]. pose proof (front_base_nonneg _ _ _ _ Hf ltac:(done)) as H0.
  assert (ends_above (-1) (p :: pre)) as Ha1 by (eapply Forall_impl; [exact Ha|]; simpl; lia).
  pose proof (end_of_mono (p :: pre) 1 (S k) Hss Ha1 ltac:(simpl in *; lia)) as Hmono.
  change (end_of 1 (p :: pre)) with (nextOffset p) in Hmono.
  inversion Hf as [|? bs0 bss0 ? ? ? Hwf Hb Hsl Hne Hf']; subst.
  assert (exists t rest, pre ++ [s] = t :: rest /\ baseOffset t = nextOffset p) as (t & rest & Ht & Hbt).
  { destruct pre as [|q pre]; inversion Hf'; subst; simpl; eauto. }
  set (cut := end_of (S k) (p :: pre)) in *. cbn [app].
  rewrite (delete_loop_cons _ _ _ _ _ _ _ Ht) by done.
  rewrite Z.gtb_ltb, (proj2 (Z.ltb_ge _ _)) by lia. destruct k as [|k].
  - unfold cut. cbn [end_of lookup list_lookup drop]. clear -Hf' Hdel.
    replace (n + 1)%nat with (S n) by lia.
    destruct pre as [|q pre]; [done|]. inversion Hf' as [|? bs1 bss1 ? ? ? Hwf1 Hb1 Hs1 Hne1 Hf1]; subst.
    assert (exists t rest, pre ++ [s] = t :: rest /\ baseOffset t = nextOffset q) as (t & rest & Ht & Hbt).
    { destruct pre as [|r pre]; inversion Hf1; subst; simpl; eauto. }
    cbn [app]. rewrite (delete_loop_cons _ _ _ _ _ _ _ Ht) by done. pose proof (seg_wf_recs_pos _ _ Hwf1 Hne1).
    rewrite Z.gtb_ltb, (proj2 (Z.ltb_lt _ _)) by lia. done.
  - replace cut with (end_of (S k) pre) by done.
    rewrite (IH _ _ (S n) (S k) Hdel Hf') by (simpl in Hk; lia). cbn [drop]. do 2 f_equal. lia.
Qed.

Lemma StronglySorted_take {A} (R : A -> A -> Prop) l n : StronglySorted R l -> StronglySorted R (take n l).
Proof.
  intros H. revert n. induction H as [|x l H IH Hall]; intros [|n]; simpl; constructor; auto using Forall_take.
Qed.

Lemma end_of_take k n segs : (k <= n)%nat -> end_of k (take n segs) = end_of k segs.
Proof. intros H. destruct k as [|k]; [done|]. simpl. by rewrite lookup_take_lt by lia. Qed.

(** The cutoff is the end of the last segment the rules give up. *)
Lemma sweep_cutoff_rule c now l o bss pre s :
  segments l = pre ++ [s] -> front o bss pre (baseOffset s) ->
  (retention_rule c now l <= length pre)%nat /\ sweep_cutoff c now l = end_of (retention_rule c now l) pre.
Proof.
  intros Hsegs Hf. unfold retention_rule, sweep_cutoff. rewrite (SealedSegments_snoc l pre s Hsegs).
  set (n := deletable c pre). set (p := take n pre).
  destruct (front_ends _ _ _ _ Hf) as [Ha Hss].
  assert (StronglySorted (fun a b => nextOffset a < nextOffset b) p) as Hssp by (by apply StronglySorted_take).
  assert (ends_above (-1) p) as Hap.
  { apply Forall_take. destruct (decide (pre = [])) as [->|Hne]; [constructor|].
    pose proof (front_base_nonneg _ _ _ _ Hf Hne). eapply Forall_impl; [exact Ha|]. simpl. lia. }
  pose proof (prefix_len_le (too_old c now) p) as H1. fold (age_rule c now p) in H1.
  pose proof (size_rule_le c p (total_bytes (AllSegments l))) as H2.
  assert (length p <= length pre /\ length p <= n)%nat as [Hlp Hln] by (unfold p; rewrite length_take; lia).
  assert (forall k, (k <= length p)%nat -> end_of k pre = end_of k p) as Hend
    by (intros k Hk; symmetry; apply end_of_take; lia).
  assert (age_cutoff c now (-1) p = end_of (age_rule c now p) p) as Hage
    by (rewrite age_cutoff_rule; by destruct (age_rule c now p)).
  destruct (RetentionBytes c >? 0).
  - split; [lia|]. rewrite size_cutoff_rule, Hage, Hend by (done || lia).
    set (ka := age_rule c now p) in *. set (ks := size_rule c _ p) in *.
    clearbody ka ks. destruct ks as [|ks]; [by rewrite Nat.max_0_r|].
    destruct (decide (ka <= S ks)%nat).
    + rewrite Nat.max_r by lia. pose proof (end_of_mono p ka (S ks) Hssp Hap ltac:(lia)). lia.
    + rewrite Nat.max_l by lia. pose proof (end_of_mono p (S ks) ka Hssp Hap ltac:(lia)). lia.
  - rewrite Nat.max_0_r. split; [lia|]. rewrite Hage, Hend; [done|lia].
Qed.

(** A sweep removes exactly what the two retention rules give up: the
    longest run of oldest segments past the age limit, or as many oldest
    segments as it takes to get under the size limit, whichever is more, cut
    short at the first segment not yet archived.  The active segment stays, and
    what is left is the same log from a later start. *)
Theorem sweepOne_rule del c now start bs l :
  log_wf start bs l -> (forall i, del i = true) ->
  segments (sweepOne del c now l) = drop (retention_rule c now l) (segments l) /\
  HighWatermark (sweepOne del c now l) = HighWatermark l /\
  exists gone kept, bs = gone ++ kept /\ log_wf (start + recs gone) kept (sweepOne del c now l).
Proof.
  intros Hwf Hdel. pose proof Hwf as (bss & pre & abs & s & Hsegs & Hf & Hs & _).
  destruct (sweep_cutoff_rule c now l start bss pre s Hsegs Hf) as [Hle Hcut].
  unfold sweepOne. rewrite (SealedSegments_snoc l pre s Hsegs), Hcut.
  destruct (retention_rule c now l) as [|k] eqn:Ek.
  { simpl. destruct (bool_decide (pre = [])); (split_and!; [done|done|exists [], bs; by rewrite Z.add_0_r]). }
  rewrite bool_decide_false by (intros ->; simpl in Hle; lia).
  destruct (lookup_lt_is_Some_2 pre k) as [x Hx]; [lia|].
  assert (0 <= end_of (S k) pre) as H0.
  { rewrite (end_of_lookup _ _ _ Hx). destruct (front_ends _ _ _ _ Hf) as [Ha _].
    pose proof (front_base_nonneg _ _ _ _ Hf ltac:(by intros ->)). unfold ends_above in Ha. rewrite Forall_forall in Ha.
    pose proof (Ha x (list_elem_of_lookup_2 _ _ _ Hx)). lia. }
  rewrite (proj2 (Z.ltb_ge _ _)) by done.
  destruct (DeleteSegmentsBefore_spec del start bs l (end_of (S k) pre) Hwf Hdel)
    as (l' & n & gone & kept & E & Hbs & Hwf' & _ & _ & Hhw & _).
  pose proof (delete_loop_exact del s pre bss start 0 (S k) Hdel Hf ltac:(lia)) as Hex.
  unfold DeleteSegmentsBefore in E |- *. rewrite Hsegs, Hex in E |- *. cbn [fst]. injection E as <- <-.
  split_and!; [|done|by exists gone, kept].
  cbn [segments]. rewrite drop_app_le by lia. done.
Qed.

Definition size_limit : RetentionConfig := mkRetention 0 100 0 None.

Lemma sweepOne_rule_witness :
  segments (sweepOne (fun _ => true) size_limit 0 (sample_log FsyncNone)) =
    drop (retention_rule size_limit 0 (sample_log FsyncNone)) (segments (sample_log FsyncNone)) /\
  HighWatermark (sweepOne (fun _ => true) size_limit 0 (sample_log FsyncNone)) = HighWatermark (sample_log FsyncNone) /\
  exists gone kept, sample_batches = gone ++ kept /\
    log_wf (0 + recs gone) kept (sweepOne (fun _ => true) size_limit 0 (sample_log FsyncNone)).
Proof.
  apply (sweepOne_rule (fun _ => true) size_limit 0 0 sample_batches (sample_log FsyncNone)).
  - apply sample_log_wf.
  - reflexivity.
Defined.

(** With cold storage on, every segment the rules give up, oldest first, is one the
    archive holds. *)
Lemma retention_archived c now l archived k s :
  Archived c = Some archived -> (k < retention_rule c now l)%nat -> SealedSegments l !! k = Some s -> archived s = true.
Proof.
  intros Ha Hk Hs. unfold retention_rule, deletable in Hk. rewrite Ha in Hk.
  set (p := take _ _) in Hk. assert (k < length p)%nat as Hkp.
  { pose proof (prefix_len_le (too_old c now) p). pose proof (size_rule_le c p (total_bytes (AllSegments l))).
    unfold age_rule in Hk. destruct (RetentionBytes c >? 0); lia. }
  unfold p in Hkp. rewrite length_take in Hkp. by eapply prefix_len_all; [|exact Hs]; lia.
Qed.

(** The sweep interval is never below one second, never above the configured
    tick, and with an age limit of more than two seconds at most half of it. *)
Theorem sweepInterval_bounds c :
  RetentionMS c < 2 ^ 43 ->
  let tick := if Tick c <=? 0 then 60 * 1000000000 else Tick c in
  1000000000 <= tick ->
  1000000000 <= sweepInterval c <= tick /\
  (2000 <= RetentionMS c -> 2 * sweepInterval c <= RetentionMS c * 1000000).
Proof.
  cbn zeta. unfold sweepInterval. set (tick := if Tick c <=? 0 then _ else _). intros Hms Ht.
  rewrite Z.gtb_ltb. destruct (Z.ltb_spec 0 (RetentionMS c)) as [Hpos|Hpos]; cbn [andb]; [|split; lia].
  rewrite i64_small by lia.
  pose proof (Z.quot_div_nonneg (RetentionMS c * 1000000) 2 ltac:(lia) ltac:(lia)) as Hq. rewrite Hq.
  pose proof (Z.mul_div_le (RetentionMS c * 1000000) 2 ltac:(lia)).
  destruct (Z.ltb_spec (RetentionMS c * 1000000 / 2) tick) as [H1|H1]; [|split; lia].
  split; [lia|]. intros Hb. assert (1000000000 <= RetentionMS c * 1000000 / 2) by (apply Z.div_le_lower_bound; lia). lia.
Qed.

Lemma sweepInterval_bounds_witness :
  1000000000 <= sweepInterval (mkRetention 10000 0 0 None) <= 60000000000 /\
  (2000 <= 10000 -> 2 * sweepInterval (mkRetention 10000 0 0 None) <= 10000 * 1000000).
Proof. apply (sweepInterval_bounds (mkRetention 10000 0 0 None)); vm_compute; (reflexivity || discriminate). Defined.
