(* ===== verification/Names.v ===== *)
(** * Names and strings (internal/broker/names.go)

    Go strings are byte strings, as are Coq's; comparison is byte-wise. *)

From S2P Require Import Prelude Bytes.
From Stdlib Require Export Ascii.

#[global] Open Scope string_scope.
#[global] Open Scope list_scope.
#[global] Open Scope Z_scope.

(** The unsigned value of a byte of a string. *)
Definition code (c : ascii) : Z := Z.of_N (N_of_ascii c).

Definition slen (s : string) : Z := Z.of_nat (String.length s).

Fixpoint string_forallb (f : ascii -> bool) (s : string) : bool :=
  match s with
  | EmptyString => true
  | String c s => f c && string_forallb f s
  end.

Fixpoint string_filter (f : ascii -> bool) (s : string) : string :=
  match s with
  | EmptyString => EmptyString
  | String c s => if f c then String c (string_filter f s) else string_filter f s
  end.

(** [strings.HasSuffix] and [name[:len(name)-len(suffix)]]. *)
Definition has_suffix (s suf : string) : bool :=
  (String.length suf <=? String.length s)%nat &&
  String.eqb (String.substring (String.length s - String.length suf) (String.length suf) s) suf.
Definition trim_suffix (s suf : string) : string :=
  String.substring 0 (String.length s - String.length suf) s.

(** ** [ValidateName] *)

Definition MaxNameLength : Z := 249.
Definition MaxPartitionsPerTopic : Z := 1024.

Definition name_char (c : ascii) : bool :=
  let c := code c in
  ((97 <=? c) && (c <=? 122)) || ((65 <=? c) && (c <=? 90)) || ((48 <=? c) && (c <=? 57))
  || (c =? 46) || (c =? 95) || (c =? 45).

Definition ValidateName (kind name : string) : res unit :=
  let invalid why := Err (EWrap (kind +:+ " name " +:+ why) (ESentinel ErrInvalidName)) in
  if String.eqb name "" then invalid "is empty"
  else if slen name >? MaxNameLength then invalid "is too long"
  else if String.eqb name "." || String.eqb name ".." then invalid "is a directory reference"
  else if string_forallb name_char name then Ok tt
  else invalid "contains a forbidden character".

(** ** What a valid name is good for *)

Fixpoint string_In (c : ascii) (s : string) : Prop :=
  match s with
  | EmptyString => False
  | String d s => c = d \/ string_In c s
  end.

(** A name that denotes an entry of the directory it is joined to: it is not
    empty, has no separator of any platform and no NUL, and is neither of the
    two directory references. *)
Definition path_component (s : string) : Prop :=
  s <> "" /\ s <> "." /\ s <> ".." /\
  forall c, string_In c s -> code c <> 47 /\ code c <> 92 /\ code c <> 58 /\ code c <> 0.

Lemma string_forallb_In f s c : string_forallb f s = true -> string_In c s -> f c = true.
Proof.
  induction s as [|d s IH]; simpl; [done|]. intros [? ?]%andb_true_iff [->|?]; auto.
Qed.

Lemma name_char_safe c :
  name_char c = true -> code c <> 47 /\ code c <> 92 /\ code c <> 58 /\ code c <> 0.
Proof.
  unfold name_char. intros H. rewrite !orb_true_iff, !andb_true_iff, !Z.leb_le, !Z.eqb_eq in H. lia.
Qed.

Lemma ValidateName_Ok kind name :
  ValidateName kind name = Ok tt <->
  name <> "" /\ slen name <= MaxNameLength /\ name <> "." /\ name <> ".." /\
  string_forallb name_char name = true.
Proof.
  unfold ValidateName. rewrite Z.gtb_ltb.
  destruct (String.eqb_spec name "") as [->|Hne]; [by split; [|intros []]|].
  destruct (Z.ltb_spec MaxNameLength (slen name)) as [Hl|Hl]; [split; [done|lia]|].
  destruct (String.eqb_spec name ".") as [->|H1]; [by split; [|intros (?&?&?&?)]|].
  destruct (String.eqb_spec name "..") as [->|H2]; [by split; [|intros (?&?&?&?&?)]|].
  simpl. destruct (string_forallb name_char name); split; intuition done.
Qed.

Lemma ValidateName_total kind name :
  ValidateName kind name = Ok tt \/
  exists e, ValidateName kind name = Err e /\ errors_is e ErrInvalidName = true.
Proof. unfold ValidateName. repeat case_match; eauto. Qed.

(** A topic or group name that passes validation is at most 249 bytes long
    and a single path component: joined to a directory it cannot leave it.
    Every other name is refused with [ErrInvalidName]. *)
Theorem ValidateName_safe kind name :
  (ValidateName kind name = Ok tt /\ path_component name /\ 1 <= slen name <= 249) \/
  (exists e, ValidateName kind name = Err e /\ errors_is e ErrInvalidName = true).
Proof.
  destruct (ValidateName_total kind name) as [H|H]; [left|by right]. split; [done|].
  apply ValidateName_Ok in H as (Hne & Hl & H1 & H2 & Hc). split.
  - split_and!; try done; intros c Hin; by apply name_char_safe, (string_forallb_In _ name).
  - destruct name; [done|]. unfold MaxNameLength, slen in *. simpl in *. lia.
Qed.
