(* ===== verification/Utf8.v ===== *)
(** * UTF-8 as Go reads it

    The length of the encoding at the front of a byte string, validity, and what
    a string becomes on its way through encoding/json: [json.Marshal] writes
    U+FFFD in place of every byte that begins no valid encoding, and the reader
    decodes that as three bytes.  Everything else survives the round trip. *)

From S2P Require Import Prelude Bytes Names.

#[local] Open Scope string_scope.
#[local] Open Scope Z_scope.

Definition is_cont (b : Z) : bool := (128 <=? b) && (b <=? 191).

(** The length of the encoding that begins with [c] and goes on with [r]; one for
    a byte that begins none. *)
Definition rune_size (c : Z) (r : list Z) : nat :=
  if (194 <=? c) && (c <=? 223) then match r with b :: _ => if is_cont b then 2%nat else 1%nat | _ => 1%nat end
  else if (224 <=? c) && (c <=? 239) then
    match r with
    | b :: b2 :: _ => if (((if c =? 224 then 160 else 128) <=? b) && (b <=? (if c =? 237 then 159 else 191)) && is_cont b2) then 3%nat else 1%nat
    | _ => 1%nat
    end
  else if (240 <=? c) && (c <=? 244) then
    match r with
    | b :: b2 :: b3 :: _ => if (((if c =? 240 then 144 else 128) <=? b) && (b <=? (if c =? 244 then 143 else 191)) && is_cont b2 && is_cont b3) then 4%nat else 1%nat
    | _ => 1%nat
    end
  else 1%nat.

Definition codes (s : string) : list Z := map code (String.list_ascii_of_string s).

(** [utf8.ValidString] *)
Fixpoint utf8_ValidString (s : string) : bool :=
  match s with
  | "" => true
  | String c r =>
      match rune_size (code c) (codes r), r with
      | 2%nat, String _ r1 => utf8_ValidString r1
      | 3%nat, String _ (String _ r2) => utf8_ValidString r2
      | 4%nat, String _ (String _ (String _ r3)) => utf8_ValidString r3
      | _, _ => (code c <? 128) && utf8_ValidString r
      end
  end.

(** U+FFFD *)
Definition replacement : string := String "239" (String "191" (String "189" "")).

(** A string written by [json.Marshal] and read back by [json.Unmarshal]. *)
Fixpoint json_string (s : string) : string :=
  match s with
  | "" => ""
  | String c r =>
      match rune_size (code c) (codes r), r with
      | 2%nat, String c1 r1 => String c (String c1 (json_string r1))
      | 3%nat, String c1 (String c2 r2) => String c (String c1 (String c2 (json_string r2)))
      | 4%nat, String c1 (String c2 (String c3 r3)) => String c (String c1 (String c2 (String c3 (json_string r3))))
      | _, _ => if code c <? 128 then String c (json_string r) else replacement +:+ json_string r
      end
  end.

Example json_string_replaces :
  json_string (String "097" (String "255" (String "195" (String "169" "")))) =
  String "097" (replacement +:+ String "195" (String "169" "")).
Proof. reflexivity. Qed.

(** The front of a string: a whole encoding of several bytes, kept, or one byte. *)
Lemma json_string_front c r :
  (128 <= code c /\ exists a t, r = a +:+ t /\ json_string (String c r) = String c (a +:+ json_string t) /\
     utf8_ValidString (String c r) = utf8_ValidString t) \/
  (json_string (String c r) = (if code c <? 128 then String c (json_string r) else replacement +:+ json_string r) /\
   utf8_ValidString (String c r) = (code c <? 128) && utf8_ValidString r).
Proof.
  assert ((1 < rune_size (code c) (codes r))%nat -> 128 <= code c) as Hc.
  { unfold rune_size. repeat (step_goal; try lia). all: intros; zbool; lia. }
  cbn [json_string utf8_ValidString].
  destruct (rune_size (code c) (codes r)) as [|[|[|[|[|k]]]]]; try (right; by destruct r).
  - destruct r as [|c1 r]; [by right|]. left. split; [lia|]. by exists (String c1 ""), r.
  - destruct r as [|c1 [|c2 r]]; [by right..|]. left. split; [lia|]. by exists (String c1 (String c2 "")), r.
  - destruct r as [|c1 [|c2 [|c3 r]]]; [by right..|]. left. split; [lia|]. by exists (String c1 (String c2 (String c3 ""))), r.
Qed.

Lemma append_length (s t : string) : String.length (s +:+ t) = (String.length s + String.length t)%nat.
Proof. induction s as [|c s IH]; [done|]. change (String c s +:+ t) with (String c (s +:+ t)). cbn. by rewrite IH. Qed.

Lemma string_length_ind (P : string -> Prop) :
  (forall s, (forall t, (String.length t < String.length s)%nat -> P t) -> P s) -> forall s, P s.
Proof. intros H s. induction (well_founded_ltof _ String.length s) as [x _ IH]. apply H. exact IH. Qed.

(** Valid strings come back as they were. *)
Lemma json_string_valid s : utf8_ValidString s = true -> json_string s = s.
Proof.
  induction s as [[|c r] IH] using string_length_ind; [done|]. cbn [String.length] in IH.
  destruct (json_string_front c r) as [(_ & a & t & -> & -> & ->)|[-> ->]].
  - intros Ht. rewrite IH; [done| |done]. rewrite append_length. lia.
  - intros [-> Hr]%andb_true_iff. by rewrite IH by (done || lia).
Qed.

Definition ascii_string (s : string) : bool := string_forallb (fun c => code c <? 128) s.

(** Only an ASCII string comes back as an ASCII string. *)
Lemma json_string_ascii s : ascii_string (json_string s) = true -> json_string s = s.
Proof.
  induction s as [[|c r] IH] using string_length_ind; [done|]. cbn [String.length] in IH.
  destruct (json_string_front c r) as [(Hc & a & t & -> & -> & _)|[-> _]].
  - unfold ascii_string. cbn [string_forallb]. intros [H _]%andb_true_iff. zbool. lia.
  - destruct (code c <? 128) eqn:Ec; [|done]. unfold ascii_string. cbn [string_forallb].
    intros [_ H]%andb_true_iff. f_equal. apply IH; [lia|done].
Qed.

Lemma ascii_valid s : ascii_string s = true -> utf8_ValidString s = true.
Proof.
  unfold ascii_string. induction s as [|c r IH]; [done|]. cbn [string_forallb]. intros [Hc Hr]%andb_true_iff.
  destruct (json_string_front c r) as [(H & _)|[_ ->]]; [zbool; lia|]. by rewrite Hc, IH.
Qed.

Lemma name_ascii kind s : ValidateName kind s = Ok tt -> ascii_string s = true.
Proof.
  intros (_ & _ & _ & _ & H)%ValidateName_Ok. unfold ascii_string. induction s as [|c s IH]; [done|].
  cbn [string_forallb] in *. apply andb_true_iff in H as [H1 H2]. rewrite IH by done. rewrite andb_true_r.
  unfold name_char in H1. zbool. repeat (apply orb_true_iff in H1 as [H1|H1]); zbool; lia.
Qed.

(** A valid name is read back as itself, and no other string is read back as it. *)
Lemma json_string_name kind s : ValidateName kind s = Ok tt -> json_string s = s.
Proof. intros H. by eapply json_string_valid, ascii_valid, name_ascii. Qed.
Lemma json_string_name_inj kind s t : ValidateName kind t = Ok tt -> json_string s = t -> s = t.
Proof. intros H <-. symmetry. apply json_string_ascii. by eapply name_ascii. Qed.

(** ** Objects with string keys *)

(** A Go map written and read back: the members are written in the order of their
    keys, and of two that are read back under one key the later one stays. *)
Section map.
Context {A : Type} (f : A -> A).

Definition json_members (m : gmap string A) : list (string * A) :=
  omap (fun k => v ← m !! k; Some (json_string k, f v)) (merge_sort String.le (map_to_list m).*1).
Definition json_map (m : gmap string A) : gmap string A := list_to_map (reverse (json_members m)).

Lemma json_members_elem m k' v' :
  (k', v') ∈ json_members m <-> exists k v, m !! k = Some v /\ k' = json_string k /\ v' = f v.
Proof.
  unfold json_members. rewrite list_elem_of_omap. split.
  - intros (k & _ & H). destruct (m !! k) as [v|] eqn:E; [|done]. cbn in H. injection H as <- <-. eauto.
  - intros (k & v & E & -> & ->). exists k. rewrite E. split; [|done].
    rewrite (merge_sort_Permutation String.le _). apply list_elem_of_fmap. exists (k, v). split; [done|].
    by apply elem_of_map_to_list.
Qed.

(** At a key that only it is read back as, a map is read back as it was. *)
Lemma json_map_lookup m k : json_string k = k -> (forall k', json_string k' = k -> k' = k) ->
  json_map m !! k = f <$> (m !! k).
Proof.
  intros Hk Hinj. unfold json_map. destruct (m !! k) as [v|] eqn:E; cbn.
  - apply elem_of_list_to_map_1'.
    + intros y. rewrite elem_of_reverse, json_members_elem. intros (k2 & v2 & E2 & H & ->).
      symmetry in H. apply Hinj in H as ->. by simplify_eq.
    + rewrite elem_of_reverse, json_members_elem. eauto.
  - apply not_elem_of_list_to_map_1. intros ([k2 v2] & -> & H)%list_elem_of_fmap.
    rewrite elem_of_reverse, json_members_elem in H. destruct H as (k3 & v3 & E3 & H & _).
    cbn in *. symmetry in H. apply Hinj in H as ->. congruence.
Qed.
End map.
