(* ===== verification/Offsets.v ===== *)
(** * Committed offsets (internal/broker/offsets.go)

    The store keeps one [GroupState] per group in memory and one JSON file per
    group on disk, replaced atomically.  The group coordinator works on the
    very same [GroupState] objects (Go pointers); the model therefore keeps
    them here only, and group.go's operations update this store.  A file is
    modelled by the state its JSON text decodes to, [None] when it does not
    parse; that is not always the state that was written, since encoding/json
    replaces what is not UTF-8 in the strings ([json_group]). *)

From S2P Require Import Prelude Bytes Names Utf8.

Record CommittedOffset := mkCommitted {
  co_Offset : Z;
  co_LeaderEpoch : Z;
  co_Metadata : string;
  co_CommitTimestamp : Z
}.

Record MemberState := mkMember {
  ms_MemberID : string;
  ms_ClientID : string;
  ms_ClientHost : string;
  ms_SessionTimeoutMS : Z;
  ms_RebalanceTimeoutMS : Z;
  ms_Subscription : list byte;
  ms_Assignment : list byte;
  ms_Protocols : list string
}.

Record GroupState := mkGroup {
  gs_GroupID : string;
  gs_Generation : Z;                                   (* int32 *)
  gs_ProtocolType : string;
  gs_Protocol : string;
  gs_Members : gmap string MemberState;
  gs_Offsets : gmap string (gmap Z CommittedOffset);
  gs_Leader : string;
  gs_UpdatedAt : Z
}.

Record OffsetStore := mkStore {
  os_groups : gmap string GroupState;
  os_disk : gmap string (option GroupState)            (* file name under groups/ *)
}.

Definition set_groups (s : OffsetStore) (g : gmap string GroupState) : OffsetStore :=
  mkStore g (os_disk s).

Definition new_group (now : Z) (groupID : string) : GroupState :=
  mkGroup groupID 0 "" "" ∅ ∅ "" now.

Definition set_offsets (gs : GroupState) (o : gmap string (gmap Z CommittedOffset)) : GroupState :=
  mkGroup (gs_GroupID gs) (gs_Generation gs) (gs_ProtocolType gs) (gs_Protocol gs) (gs_Members gs) o
    (gs_Leader gs) (gs_UpdatedAt gs).
Definition set_updated (gs : GroupState) (now : Z) : GroupState :=
  mkGroup (gs_GroupID gs) (gs_Generation gs) (gs_ProtocolType gs) (gs_Protocol gs) (gs_Members gs)
    (gs_Offsets gs) (gs_Leader gs) now.
Definition set_GroupID (gs : GroupState) (id : string) : GroupState :=
  mkGroup id (gs_Generation gs) (gs_ProtocolType gs) (gs_Protocol gs) (gs_Members gs)
    (gs_Offsets gs) (gs_Leader gs) (gs_UpdatedAt gs).

(** ** The JSON text *)

Definition json_committed (c : CommittedOffset) : CommittedOffset :=
  mkCommitted (co_Offset c) (co_LeaderEpoch c) (json_string (co_Metadata c)) (co_CommitTimestamp c).
Definition json_member (m : MemberState) : MemberState :=
  mkMember (json_string (ms_MemberID m)) (json_string (ms_ClientID m)) (json_string (ms_ClientHost m))
    (ms_SessionTimeoutMS m) (ms_RebalanceTimeoutMS m) (ms_Subscription m) (ms_Assignment m)
    (map json_string (ms_Protocols m)).

(** A group's state as [json.MarshalIndent] writes it and [json.Unmarshal] reads
    it: the strings coerced to UTF-8, the byte slices in base64, the partition
    numbers as decimal keys. *)
Definition json_group (gs : GroupState) : GroupState :=
  mkGroup (json_string (gs_GroupID gs)) (gs_Generation gs) (json_string (gs_ProtocolType gs))
    (json_string (gs_Protocol gs)) (json_map json_member (gs_Members gs))
    (json_map (fmap json_committed) (gs_Offsets gs)) (json_string (gs_Leader gs)) (gs_UpdatedAt gs).

(** ** Loading *)

(** The loop of [NewOffsetStore] over the directory entries. *)
Fixpoint load_groups (entries : list (string * option GroupState)) (groups : gmap string GroupState)
  : res (gmap string GroupState) :=
  match entries with
  | [] => Ok groups
  | (name, content) :: rest =>
      if negb (has_suffix name ".json") then load_groups rest groups
      else match content with
      | None => Err (EMsg "offsets: parse")
      | Some gs =>
          let gs := if String.eqb (gs_GroupID gs) "" then set_GroupID gs (trim_suffix name ".json") else gs in
          load_groups rest (<[gs_GroupID gs := gs]> groups)
      end
  end.

Definition NewOffsetStore (entries : list (string * option GroupState)) : res OffsetStore :=
  groups ← load_groups entries ∅;
  Ok (mkStore groups (list_to_map entries)).

(** ** Operations *)

Definition OffsetStore_Get (now : Z) (s : OffsetStore) (groupID : string) : OffsetStore * GroupState :=
  match os_groups s !! groupID with
  | Some gs => (s, gs)
  | None => let gs := new_group now groupID in (set_groups s (<[groupID := gs]> (os_groups s)), gs)
  end.

Definition OffsetStore_All (s : OffsetStore) : list GroupState := (map_to_list (os_groups s)).*2.

(** How writing the temporary file and renaming it go. *)
Inductive persist_outcome := PersistOk | PersistWriteFails | PersistRenameFails.

(** [Persist(gs)] where [gs] is the object stored under [groupID]. *)
Definition Persist (now : Z) (w : persist_outcome) (s : OffsetStore) (groupID : string) : OffsetStore * res unit :=
  match os_groups s !! groupID with
  | None => (s, Panic)
  | Some gs =>
      let gs := set_updated gs now in
      let groups := <[groupID := gs]> (os_groups s) in
      let final := gs_GroupID gs +:+ ".json" in
      match w with
      | PersistOk => (mkStore groups (<[final := Some (json_group gs)]> (os_disk s)), Ok tt)
      | PersistWriteFails => (mkStore groups (os_disk s), Err (EMsg "write tmp"))
      | PersistRenameFails => (mkStore groups (os_disk s), Err (EMsg "rename"))
      end
  end.

Definition CommitOffset (now : Z) (w : persist_outcome) (s : OffsetStore)
    (groupID topic : string) (partition offset leaderEpoch : Z) (metadata : string) : OffsetStore * res unit :=
  match ValidateName "group" groupID with
  | Ok _ =>
      match ValidateName "topic" topic with
      | Ok _ =>
          let '(s, gs) := OffsetStore_Get now s groupID in
          let parts := default ∅ (gs_Offsets gs !! topic) in
          let parts := <[partition := mkCommitted offset leaderEpoch metadata now]> parts in
          let gs := set_offsets gs (<[topic := parts]> (gs_Offsets gs)) in
          Persist now w (set_groups s (<[groupID := gs]> (os_groups s))) groupID
      | r => (s, r)
      end
  | r => (s, r)
  end.

Definition no_offset : CommittedOffset := mkCommitted (-1) 0 "" 0.

Definition FetchOffset (s : OffsetStore) (groupID topic : string) (partition : Z) : CommittedOffset :=
  match os_groups s !! groupID with
  | None => no_offset
  | Some gs =>
      match gs_Offsets gs !! topic with
      | None => no_offset
      | Some parts => default no_offset (parts !! partition)
      end
  end.

Definition AllOffsets (s : OffsetStore) (groupID : string) : gmap string (gmap Z CommittedOffset) :=
  match os_groups s !! groupID with
  | None => ∅
  | Some gs => gs_Offsets gs
  end.

(** ** The invariant *)

(** Groups are stored under their own ids, in memory and on disk. *)
Definition store_wf (s : OffsetStore) : Prop :=
  (forall id gs, os_groups s !! id = Some gs -> gs_GroupID gs = id) /\
  (forall f c, os_disk s !! f = Some c ->
     exists gs, c = Some gs /\ f = gs_GroupID gs +:+ ".json" /\ gs_GroupID gs <> "").

Lemma string_app_cons c (s t : string) : String c s +:+ t = String c (s +:+ t).
Proof. done. Qed.

Lemma string_app_length (s t : string) : String.length (s +:+ t) = (String.length s + String.length t)%nat.
Proof. induction s as [|c s IH]; [done|]. rewrite string_app_cons. simpl. by rewrite IH. Qed.

Lemma substring_app (s t : string) :
  String.substring (String.length s) (String.length t) (s +:+ t) = t.
Proof.
  induction s as [|c s IH]; [|by rewrite string_app_cons].
  change ("" +:+ t) with t. induction t as [|c t IHt]; simpl in *; congruence.
Qed.

Lemma has_suffix_app (s suf : string) : has_suffix (s +:+ suf) suf = true.
Proof.
  unfold has_suffix. rewrite string_app_length.
  rewrite (proj2 (Nat.leb_le _ _)) by lia. simpl.
  replace (String.length s + String.length suf - String.length suf)%nat with (String.length s) by lia.
  rewrite substring_app. apply String.eqb_refl.
Qed.

Lemma string_app_inj_r (a b s : string) : a +:+ s = b +:+ s -> a = b.
Proof.
  intros H. assert (String.length a = String.length b) as Hl.
  { apply (f_equal String.length) in H. rewrite !string_app_length in H. lia. }
  revert b H Hl. induction a as [|c a IH]; intros [|d b]; rewrite ?string_app_cons; simpl; intros H Hl; simplify_eq; [done|].
  f_equal. by apply IH.
Qed.

(** Loading back what the store wrote. *)
Lemma load_groups_wf entries : forall groups,
  (forall f c, (f, c) ∈ entries -> exists gs, c = Some gs /\ f = gs_GroupID gs +:+ ".json" /\ gs_GroupID gs <> "") ->
  NoDup entries.*1 ->
  exists groups', load_groups entries groups = Ok groups' /\
    (forall gs, (gs_GroupID gs +:+ ".json", Some gs) ∈ entries -> groups' !! gs_GroupID gs = Some gs) /\
    (forall id, (id +:+ ".json") ∉ entries.*1 -> groups' !! id = groups !! id).
Proof.
  induction entries as [|[f c] entries IH]; intros groups Hwf Hnd; cbn [load_groups].
  { exists groups. split_and!; [done| |done]. intros gs H. by apply not_elem_of_nil in H. }
  cbn [fmap list_fmap fst] in Hnd. apply NoDup_cons in Hnd as [Hf Hnd].
  destruct (Hwf f c) as (gs & -> & -> & Hne); [by left|].
  rewrite has_suffix_app. cbn [negb]. rewrite (proj2 (String.eqb_neq _ _)) by done.
  destruct (IH (<[gs_GroupID gs := gs]> groups)) as (groups' & E & Hin & Hout); [|done|].
  { intros f' c' H. apply Hwf. by right. }
  exists groups'. split_and!; [done| |].
  - intros gs' [Heq|H]%elem_of_cons; [|by apply Hin].
    simplify_eq. rewrite Hout by done. by rewrite lookup_insert_eq.
  - intros id. cbn [fmap list_fmap fst]. intros [Hid Hid2]%not_elem_of_cons. rewrite Hout by done.
    rewrite lookup_insert_ne; [done|]. intros E2. apply Hid. by rewrite E2.
Qed.

(** Every operation keeps the invariant. *)
Lemma Get_wf now s id : store_wf s -> store_wf (OffsetStore_Get now s id).1 /\
  os_groups (OffsetStore_Get now s id).1 !! id = Some (OffsetStore_Get now s id).2 /\
  gs_GroupID (OffsetStore_Get now s id).2 = id /\
  (forall id', id' <> id -> os_groups (OffsetStore_Get now s id).1 !! id' = os_groups s !! id').
Proof.
  intros [H1 H2]. unfold OffsetStore_Get. destruct (os_groups s !! id) as [gs|] eqn:E; cbn.
  { split_and!; [by split|done|by apply H1|done]. }
  rewrite lookup_insert_eq. split_and!; [|done|done|intros; by rewrite lookup_insert_ne].
  split; [|done]. cbn. intros id' gs' [[<- <-]|[_ ?]]%lookup_insert_Some; [done|by apply H1].
Qed.

Lemma insert_wf s id gs : store_wf s -> gs_GroupID gs = id -> store_wf (set_groups s (<[id := gs]> (os_groups s))).
Proof.
  intros [H1 H2] Hid. split; [|done].
  cbn. intros id' gs' [[<- <-]|[_ ?]]%lookup_insert_Some; [done|by apply H1].
Qed.

(** A name under which a group is found again: not empty, and left alone by the
    JSON text. *)
Definition group_name_ok (id : string) : Prop := id <> "" /\ json_string id = id.

Lemma valid_group_name kind id : ValidateName kind id = Ok tt -> group_name_ok id.
Proof. intros H. split; [by apply ValidateName_Ok in H as (? & _)|by eapply json_string_name]. Qed.

Lemma Persist_wf now w s id :
  store_wf s -> group_name_ok id -> store_wf (Persist now w s id).1.
Proof.
  intros [H1 H2] [Hne Hjs]. unfold Persist. destruct (os_groups s !! id) as [gs|] eqn:E; [|done].
  pose proof (H1 _ _ E) as Hid.
  destruct w; (split; cbn; [intros id' gs' [[<- <-]|[_ ?]]%lookup_insert_Some; [done|by apply H1]|]); try done.
  intros f c [[<- <-]|[_ ?]]%lookup_insert_Some; [|by apply H2].
  eexists. split_and!; [done|cbn; by rewrite Hid, Hjs|]. cbn. by rewrite Hid, Hjs.
Qed.

Lemma CommitOffset_wf now w s g t p o e m : store_wf s -> store_wf (CommitOffset now w s g t p o e m).1.
Proof.
  intros Hwf. unfold CommitOffset.
  destruct (ValidateName "group" g) as [[]| | |] eqn:Eg; [|done..].
  destruct (ValidateName "topic" t) as [[]| | |]; [|done..].
  destruct (Get_wf now s g Hwf) as (Hwf' & _ & Hid & _).
  destruct (OffsetStore_Get now s g) as [s' gs]; cbn in *.
  apply Persist_wf; [|by eapply valid_group_name]. by apply insert_wf.
Qed.

(** What a commit leaves in memory, persisted or not. *)
Lemma CommitOffset_lookup now w s g t p o e m :
  store_wf s -> ValidateName "group" g = Ok tt -> ValidateName "topic" t = Ok tt ->
  exists s' r gs, CommitOffset now w s g t p o e m = (s', r) /\ (r = Ok tt <-> w = PersistOk) /\
    os_groups s' !! g = Some gs /\ gs_GroupID gs = g /\
    gs_Offsets gs !! t = Some (<[p := mkCommitted o e m now]>
      (default ∅ (AllOffsets s g !! t))) /\
    (forall t', t' <> t -> gs_Offsets gs !! t' = AllOffsets s g !! t') /\
    (forall g', g' <> g -> os_groups s' !! g' = os_groups s !! g') /\
    (w = PersistOk -> os_disk s' = <[g +:+ ".json" := Some (json_group gs)]> (os_disk s)) /\
    (w <> PersistOk -> os_disk s' = os_disk s /\ exists err, r = Err err).
Proof.
  intros Hwf Hg Ht. unfold CommitOffset. rewrite Hg, Ht.
  destruct (Get_wf now s g Hwf) as (Hwf' & Hl & Hid & Ho).
  assert (gs_Offsets (OffsetStore_Get now s g).2 = AllOffsets s g) as Hoff.
  { unfold OffsetStore_Get, AllOffsets. by destruct (os_groups s !! g). }
  assert (os_disk (OffsetStore_Get now s g).1 = os_disk s) as Hd.
  { unfold OffsetStore_Get. by destruct (os_groups s !! g). }
  destruct (OffsetStore_Get now s g) as [s' gs]; cbn in *. rewrite Hoff.
  unfold Persist. cbn. rewrite lookup_insert_eq. cbn. rewrite Hid, Hd.
  assert (forall x y g', g' <> g -> <[g := x]> (<[g := y]> (os_groups s')) !! g' = os_groups s !! g') as Hg'.
  { intros. rewrite !lookup_insert_ne by done. by apply Ho. }
  destruct w; (eexists _, _, _; split; [done|]; cbn; rewrite lookup_insert_eq; split_and!; try done;
    cbn; [by rewrite lookup_insert_eq|intros; by rewrite lookup_insert_ne|intros; by apply Hg'|..]; eauto).
Qed.

(** ** Commits *)

(** The next fetch after a commit, and the offsets it leaves alone. *)
Lemma CommitOffset_fetch now w s g t p o e m s' :
  store_wf s -> ValidateName "group" g = Ok tt -> ValidateName "topic" t = Ok tt ->
  (CommitOffset now w s g t p o e m).1 = s' ->
  FetchOffset s' g t p = mkCommitted o e m now /\
  (forall g' t' p', (g', t', p') <> (g, t, p) -> FetchOffset s' g' t' p' = FetchOffset s g' t' p').
Proof.
  intros Hwf Hg Ht <-.
  destruct (CommitOffset_lookup now w s g t p o e m Hwf Hg Ht) as (s2 & r & gs & -> & _ & Hgs & Hid & Hoff & Hoth & Hgrp & _).
  cbn. split; [unfold FetchOffset; by rewrite Hgs, Hoff, lookup_insert_eq|].
  intros g' t' p' Hne. unfold FetchOffset. destruct (decide (g' = g)) as [->|Hg']; [|by rewrite Hgrp].
  rewrite Hgs. unfold AllOffsets in *. destruct (decide (t' = t)) as [->|Ht'].
  - rewrite Hoff, lookup_insert_ne by congruence. by destruct (os_groups s !! _) as [x|]; [destruct (gs_Offsets x !! t)|].
  - rewrite Hoth by done. by destruct (os_groups s !! _).
Qed.

Lemma CommitOffset_ok now s g t p o e m :
  store_wf s -> ValidateName "group" g = Ok tt -> ValidateName "topic" t = Ok tt ->
  exists s', CommitOffset now PersistOk s g t p o e m = (s', Ok tt) /\
    FetchOffset s' g t p = mkCommitted o e m now /\
    (forall g' t' p', (g', t', p') <> (g, t, p) -> FetchOffset s' g' t' p' = FetchOffset s g' t' p').
Proof.
  intros Hwf Hg Ht. destruct (CommitOffset now PersistOk s g t p o e m) as [s' r] eqn:E.
  exists s'. destruct (CommitOffset_fetch now PersistOk s g t p o e m s' Hwf Hg Ht) as [H1 H2]; [by rewrite E|].
  split_and!; [|done..]. unfold CommitOffset in E. rewrite Hg, Ht in E. destruct (OffsetStore_Get _ _ _) as [s1 gs].
  unfold Persist in E. cbn [set_groups os_groups] in E. rewrite lookup_insert_eq in E. by simplify_eq.
Qed.

(** C30: A successful offset commit is what the next fetch of that group, topic
    and partition returns, changes no other committed offset, and survives a
    restart of the process: a store loaded from the directory, in whatever order
    its files are listed, returns its offset, epoch and time, and its metadata as
    encoding/json leaves it: every byte that is not part of valid UTF-8 replaced
    by U+FFFD, so unchanged for valid UTF-8.  The commit is one whose file is
    written and renamed with no other write of that group's file in between. *)
Theorem CommitOffset_durable now s g t p o e m s' entries :
  store_wf s -> CommitOffset now PersistOk s g t p o e m = (s', Ok tt) ->
  entries ≡ₚ map_to_list (os_disk s') ->
  FetchOffset s' g t p = mkCommitted o e m now /\
  (forall g' t' p', (g', t', p') <> (g, t, p) -> FetchOffset s' g' t' p' = FetchOffset s g' t' p') /\
  exists s'', NewOffsetStore entries = Ok s'' /\ FetchOffset s'' g t p = mkCommitted o e (json_string m) now /\
    (utf8_ValidString m = true -> FetchOffset s'' g t p = mkCommitted o e m now).
Proof.
  intros Hwf E Hperm.
  assert (ValidateName "group" g = Ok tt /\ ValidateName "topic" t = Ok tt) as [Hg Ht].
  { unfold CommitOffset in E. destruct (ValidateName "group" g) as [[]| | |]; try done.
    by destruct (ValidateName "topic" t) as [[]| | |]. }
  pose proof (CommitOffset_wf now PersistOk s g t p o e m Hwf) as Hwf'. rewrite E in Hwf'. cbn in Hwf'.
  destruct (CommitOffset_fetch now PersistOk s g t p o e m s' Hwf Hg Ht) as [Hf1 Hf2]; [by rewrite E|].
  destruct (CommitOffset_lookup now PersistOk s g t p o e m Hwf Hg Ht)
    as (s2 & r & gs & E2 & _ & Hgs & Hid & Hoff & Hoth & Hgrp & Hdisk & _).
  rewrite E in E2. simplify_eq. specialize (Hdisk eq_refl). split; [exact Hf1|]. split; [exact Hf2|].
  destruct (load_groups_wf entries ∅) as (groups & El & Hin & _).
  { intros f c H. rewrite Hperm in H. apply elem_of_map_to_list in H. by apply (proj2 Hwf') in H. }
  { rewrite Hperm. apply NoDup_fst_map_to_list. }
  assert (groups !! gs_GroupID gs = Some (json_group gs)) as Hl.
  { pose proof (json_string_name _ _ Hg) as Hjs. rewrite <- Hjs at 1. apply (Hin (json_group gs)).
    cbn. rewrite Hjs, Hperm. apply elem_of_map_to_list. by rewrite Hdisk, lookup_insert_eq. }
  assert (FetchOffset (mkStore groups (list_to_map entries)) (gs_GroupID gs) t p = mkCommitted o e (json_string m) now) as Hf.
  { unfold FetchOffset. cbn [os_groups]. rewrite Hl. cbn [gs_Offsets json_group].
    rewrite json_map_lookup by (by eapply json_string_name || (intros; by eapply json_string_name_inj)).
    rewrite Hoff. cbn. by rewrite lookup_fmap, lookup_insert_eq. }
  exists (mkStore groups (list_to_map entries)). unfold NewOffsetStore. rewrite El. split_and!; [done|done|].
  intros Hm. by rewrite Hf, json_string_valid.
Qed.

Definition empty_store : OffsetStore := mkStore ∅ ∅.
Definition committed_store : OffsetStore :=
  (CommitOffset 5 PersistOk empty_store "workers" "orders" 0 42 0 "" ).1.

Lemma CommitOffset_durable_witness :
  FetchOffset committed_store "workers" "orders" 0 = mkCommitted 42 0 "" 5 /\
  (forall g' t' p', (g', t', p') <> ("workers", "orders", 0) ->
     FetchOffset committed_store g' t' p' = FetchOffset empty_store g' t' p') /\
  exists s'', NewOffsetStore (map_to_list (os_disk committed_store)) = Ok s'' /\
    FetchOffset s'' "workers" "orders" 0 = mkCommitted 42 0 (json_string "") 5 /\
    (utf8_ValidString "" = true -> FetchOffset s'' "workers" "orders" 0 = mkCommitted 42 0 "" 5).
Proof.
  apply (CommitOffset_durable 5 empty_store "workers" "orders" 0 42 0 "" committed_store
           (map_to_list (os_disk committed_store))).
  - split; intros ? ? H; discriminate H.
  - reflexivity.
  - reflexivity.
Defined.

(** Metadata that is not UTF-8 comes back changed: the client committed the byte
    0xff and finds U+FFFD after a restart. *)
Example metadata_replaced :
  let s := (CommitOffset 5 PersistOk empty_store "workers" "orders" 0 42 0 (String "255" "")).1 in
  co_Metadata (FetchOffset s "workers" "orders" 0) = String "255" "" /\
  exists s', NewOffsetStore (map_to_list (os_disk s)) = Ok s' /\
    co_Metadata (FetchOffset s' "workers" "orders" 0) = replacement.
Proof. split; [vm_compute; reflexivity|]. eexists. split; vm_compute; reflexivity. Qed.

(** A commit whose file cannot be written reports an error but is already
    visible to fetches in this process, and is gone after a restart: what is on
    disk is unchanged.  A commit with an invalid group or topic name changes
    nothing. *)
Theorem CommitOffset_failed now w s g t p o e m :
  store_wf s -> w <> PersistOk ->
  exists s' err, CommitOffset now w s g t p o e m = (s', Err err) /\ os_disk s' = os_disk s /\
    (if is_ok (ValidateName "group" g) && is_ok (ValidateName "topic" t)
     then FetchOffset s' g t p = mkCommitted o e m now
     else s' = s /\ errors_is err ErrInvalidName = true).
Proof.
  intros Hwf Hw.
  destruct (ValidateName_total "group" g) as [Hg|(e1 & Hg & He1)].
  2: { exists s, e1. unfold CommitOffset. by rewrite Hg. }
  destruct (ValidateName_total "topic" t) as [Ht|(e1 & Ht & He1)].
  2: { exists s, e1. unfold CommitOffset. by rewrite Hg, Ht. }
  destruct (CommitOffset_lookup now w s g t p o e m Hwf Hg Ht)
    as (s' & r & gs & E & _ & Hgs & _ & Hoff & _ & _ & _ & Hfail).
  destruct (Hfail Hw) as [Hd [err ->]].
  exists s', err. rewrite Hg, Ht. cbn. split_and!; try done.
  unfold FetchOffset. by rewrite Hgs, Hoff, lookup_insert_eq.
Qed.

Lemma CommitOffset_failed_witness :
  exists s' err, CommitOffset 5 PersistRenameFails empty_store "../etc" "orders" 0 42 0 "" = (s', Err err) /\
    os_disk s' = os_disk empty_store /\
    (if is_ok (ValidateName "group" "../etc") && is_ok (ValidateName "topic" "orders")
     then FetchOffset s' "../etc" "orders" 0 = mkCommitted 42 0 "" 5
     else s' = empty_store /\ errors_is err ErrInvalidName = true).
Proof.
  apply CommitOffset_failed.
  - split; intros ? ? H; discriminate H.
  - discriminate.
Defined.
