(* ===== verification/Group.v ===== *)
(** * The consumer-group coordinator (internal/broker/group.go)

    The handlers run under one mutex but [JoinGroup] and [SyncGroup] release
    it to wait on a channel of the current round.  Each is split there: the
    [_enter] half up to the wait, the [_wake] half behind it.  Rounds are heap
    objects, because a waiter keeps a pointer to its round after the group has
    moved on to another; [r_closed] and [r_synced] stand for the closed state
    of the two channels.  The group's [persisted] pointer is the entry of the
    offset store with the same id, so it is looked up there.  Go's map
    iteration order, the clock, the random part of a member id and the outcome
    of a file write are arguments. *)

From S2P Require Import Prelude Bytes Names Offsets.

Inductive GroupStatus := GroupEmpty | GroupPreparingRebalance | GroupCompletingRebalance | GroupStable | GroupDead.

#[export] Instance GroupStatus_eq_dec : EqDecision GroupStatus.
Proof. solve_decision. Defined.

Definition GroupStatus_String (g : GroupStatus) : string :=
  match g with
  | GroupEmpty => "Empty"
  | GroupPreparingRebalance => "PreparingRebalance"
  | GroupCompletingRebalance => "CompletingRebalance"
  | GroupStable => "Stable"
  | GroupDead => "Dead"
  end.

Record GroupProtocol := mkProto { gp_Name : string; gp_Metadata : list byte }.

Record JoinGroupResult := mkJoinResult {
  jr_GroupID : string;
  jr_Generation : Z;
  jr_ProtocolType : string;
  jr_Protocol : string;
  jr_LeaderID : string;
  jr_MemberID : string;
  jr_IsLeader : bool;
  jr_Members : list (string * list byte);
  jr_ErrorCode : Z;
  jr_NeedRejoin : bool
}.

Record rebalanceRound := mkRound {
  r_results : gmap string JoinGroupResult;
  r_joined : gset string;
  r_expected : gset string;
  r_deadline : Z;
  r_closed : bool;
  r_synced : bool
}.

Record liveGroup := mkLive {
  lg_state : GroupStatus;
  lg_heartbeats : gmap string Z;
  lg_leader : string;
  lg_protocolType : string;
  lg_protocols : list GroupProtocol;
  lg_round : option nat
}.

Record GroupCoordinator := mkCoord {
  gc_store : OffsetStore;
  gc_live : gmap string liveGroup;
  gc_rounds : list rebalanceRound
}.

(** Durations and instants are nanoseconds. *)
Definition millisecond : Z := 1000000.
Definition second : Z := 1000000000.
Definition initialRebalanceDelay : Z := 3 * second.
Definition maxRebalanceWait : Z := 60 * second.

Definition invalidGroupID : Z := 24.
Definition memberIDRequired : Z := 79.
Definition illegalGeneration : Z := 22.
Definition unknownMember : Z := 25.
Definition rebalanceInProgress : Z := 27.

Record JoinGroupArgs := mkJoinArgs {
  ja_GroupID : string;
  ja_MemberID : string;
  ja_ClientID : string;
  ja_ClientHost : string;
  ja_SessionTimeoutMS : Z;
  ja_RebalanceTimeoutMS : Z;
  ja_ProtocolType : string;
  ja_Protocols : list GroupProtocol;
  ja_APIVersion : Z
}.

(** ** Field updates *)

Definition set_members (gs : GroupState) (m : gmap string MemberState) : GroupState :=
  mkGroup (gs_GroupID gs) (gs_Generation gs) (gs_ProtocolType gs) (gs_Protocol gs) m (gs_Offsets gs)
    (gs_Leader gs) (gs_UpdatedAt gs).
Definition set_gs_Leader (gs : GroupState) (l : string) : GroupState :=
  mkGroup (gs_GroupID gs) (gs_Generation gs) (gs_ProtocolType gs) (gs_Protocol gs) (gs_Members gs) (gs_Offsets gs)
    l (gs_UpdatedAt gs).
Definition set_Assignment (m : MemberState) (a : list byte) : MemberState :=
  mkMember (ms_MemberID m) (ms_ClientID m) (ms_ClientHost m) (ms_SessionTimeoutMS m) (ms_RebalanceTimeoutMS m)
    (ms_Subscription m) a (ms_Protocols m).
Definition set_state (lg : liveGroup) (s : GroupStatus) : liveGroup :=
  mkLive s (lg_heartbeats lg) (lg_leader lg) (lg_protocolType lg) (lg_protocols lg) (lg_round lg).
Definition set_heartbeats (lg : liveGroup) (h : gmap string Z) : liveGroup :=
  mkLive (lg_state lg) h (lg_leader lg) (lg_protocolType lg) (lg_protocols lg) (lg_round lg).
Definition set_leader (lg : liveGroup) (l : string) : liveGroup :=
  mkLive (lg_state lg) (lg_heartbeats lg) l (lg_protocolType lg) (lg_protocols lg) (lg_round lg).

(** Replace one group: its live half and its persisted half. *)
Definition put_group (c : GroupCoordinator) (id : string) (lg : liveGroup) (gs : GroupState) : GroupCoordinator :=
  mkCoord (set_groups (gc_store c) (<[id := gs]> (os_groups (gc_store c)))) (<[id := lg]> (gc_live c)) (gc_rounds c).
Definition put_round (c : GroupCoordinator) (r : nat) (rd : rebalanceRound) : GroupCoordinator :=
  mkCoord (gc_store c) (gc_live c) (<[r := rd]> (gc_rounds c)).
Definition put_live (c : GroupCoordinator) (id : string) (lg : liveGroup) : GroupCoordinator :=
  mkCoord (gc_store c) (<[id := lg]> (gc_live c)) (gc_rounds c).

(** The live half and the persisted half of a group ([g.live[id]] and its
    [persisted] pointer). *)
Definition get_group (c : GroupCoordinator) (id : string) : option (liveGroup * GroupState) :=
  match gc_live c !! id, os_groups (gc_store c) !! id with
  | Some lg, Some gs => Some (lg, gs)
  | _, _ => None
  end.

Definition new_live : liveGroup := mkLive GroupEmpty ∅ "" "" [] None.

Definition NewGroupCoordinator (store : OffsetStore) : GroupCoordinator :=
  mkCoord store ((fun _ => new_live) <$> os_groups store) [].

Definition findOrCreate (now : Z) (c : GroupCoordinator) (id : string) : GroupCoordinator :=
  match gc_live c !! id with
  | Some _ => c
  | None => mkCoord (OffsetStore_Get now (gc_store c) id).1 (<[id := new_live]> (gc_live c)) (gc_rounds c)
  end.

(** ** Membership helpers *)

(** The body of the three loops that delete members: drop the members of
    [gone] with their heartbeats, and forget the leader if it is one. *)
Definition drop_members (gone : gset string) (lg : liveGroup) (gs : GroupState) : liveGroup * GroupState :=
  (set_leader (set_heartbeats lg (filter (fun kv => kv.1 ∉ gone) (lg_heartbeats lg)))
     (if bool_decide (lg_leader lg ∈ gone) then "" else lg_leader lg),
   set_members gs (filter (fun kv => kv.1 ∉ gone) (gs_Members gs))).

Definition fastEvictionThreshold : Z := 3 * second.

(** Whether [evictExpired] removes a member. *)
Definition expired (now : Z) (lg : liveGroup) (id : string) (m : MemberState) : bool :=
  match lg_heartbeats lg !! id with
  | None => true
  | Some hb =>
      let sto := ms_SessionTimeoutMS m * millisecond in
      let sto := if sto <=? 0 then 30 * second else sto in
      let evictAfter := if fastEvictionThreshold <? sto then fastEvictionThreshold else sto in
      now - hb >? evictAfter
  end.

Definition evictExpired (now : Z) (lg : liveGroup) (gs : GroupState) : liveGroup * GroupState :=
  drop_members (dom (filter (fun kv => expired now lg kv.1 kv.2 = true) (gs_Members gs))) lg gs.

Definition sanitize_char (c : ascii) : bool :=
  let c := code c in
  ((97 <=? c) && (c <=? 122)) || ((65 <=? c) && (c <=? 90)) || ((48 <=? c) && (c <=? 57))
  || (c =? 46) || (c =? 95) || (c =? 45).

Definition sanitizeClientID (s : string) : string :=
  if String.eqb s "" then "client"
  else let out := string_filter sanitize_char s in
       if String.eqb out "" then "client" else out.

Definition newMemberID (clientID rnd : string) : string := sanitizeClientID clientID +:+ "-" +:+ rnd.

Definition pickLeader (members : gmap string MemberState) : string :=
  match merge_sort String.le (map_to_list members).*1 with
  | [] => ""
  | id :: _ => id
  end.

Definition joinGroupSubscriptionBytes (protocols : list GroupProtocol) : list byte :=
  match protocols with
  | [] => []
  | p :: _ => gp_Metadata p
  end.

Definition allRejoined (r : rebalanceRound) : bool := bool_decide (r_expected r ⊆ r_joined r).

(** [pickCommonProtocol]: [ms] are the members in iteration order.  The inner
    loop counts a member's protocols once each, the outer one keeps the order
    in which names were first seen. *)
Definition count_name (st : gmap string nat * list string * gset string) (name : string)
  : gmap string nat * list string * gset string :=
  let '(counts, order, seen) := st in
  if bool_decide (name ∈ seen) then st
  else
    let n := default 0%nat (counts !! name) in
    (<[name := S n]> counts, if (n =? 0)%nat then order ++ [name] else order, {[name]} ∪ seen).

Definition count_member (st : gmap string nat * list string) (m : MemberState) : gmap string nat * list string :=
  let '(counts, order, _) := fold_left count_name (ms_Protocols m) (st.1, st.2, ∅) in (counts, order).

Definition pickCommonProtocol (ms : list MemberState) (protocols : list GroupProtocol) : string :=
  let '(counts, order) := fold_left count_member ms (∅, []) in
  match List.find (fun name => (default 0 (counts !! name) =? length ms)%nat) order with
  | Some name => name
  | None => match protocols with [] => "" | p :: _ => gp_Name p end
  end.

(** ** Closing a round *)

Definition member_le (a b : string * list byte) : Prop := String.le a.1 b.1.
#[export] Instance member_le_dec : RelDecision member_le.
Proof. intros a b. unfold member_le. apply _. Defined.

(** Go's iteration order over the member map, left open. *)
Definition iteration := gmap string MemberState -> list (string * MemberState).

(** The response to one member of a settled generation. *)
Definition round_result (gid : string) (gs : GroupState) (leader : string) (members : list (string * list byte))
    (id : string) : JoinGroupResult :=
  mkJoinResult gid (gs_Generation gs) (gs_ProtocolType gs) (gs_Protocol gs) leader id
    (bool_decide (id = leader)) (if bool_decide (id = leader) then members else []) 0 false.

(** The membership part of [closeRound]: who stays, who leads, under which
    generation and protocol. *)
Definition settle (iter : iteration) (lg : liveGroup) (gs : GroupState) (rd : rebalanceRound)
  : liveGroup * GroupState :=
  let '(lg, gs) := drop_members (dom (gs_Members gs) ∖ r_joined rd) lg gs in
  let leader := if String.eqb (lg_leader lg) "" || bool_decide (gs_Members gs !! lg_leader lg = None)
                then pickLeader (gs_Members gs) else lg_leader lg in
  let lg := set_leader lg leader in
  let gs := mkGroup (gs_GroupID gs) (i32 (gs_Generation gs + 1)) (lg_protocolType lg)
              (pickCommonProtocol (iter (gs_Members gs)).*2 (lg_protocols lg))
              (gs_Members gs) (gs_Offsets gs) leader (gs_UpdatedAt gs) in
  (set_state lg GroupCompletingRebalance, gs).

(** The member list handed to the leader. *)
Definition member_list (gs : GroupState) : list (string * list byte) :=
  merge_sort member_le ((fun kv => (ms_MemberID kv.2, ms_Subscription kv.2)) <$> map_to_list (gs_Members gs)).

Definition closeRound (iter : iteration) (now : Z) (w : persist_outcome) (c : GroupCoordinator)
    (gid : string) (r : nat) : GroupCoordinator :=
  match get_group c gid, gc_rounds c !! r with
  | Some (lg, gs), Some rd =>
      if r_closed rd then c
      else
        let '(lg, gs) := settle iter lg gs rd in
        let answered := filter (fun id => gs_Members gs !! id <> None) (r_joined rd) in
        let results := set_to_map (fun id => (id, round_result gid gs (lg_leader lg) (member_list gs) id)) answered in
        let rd := mkRound (results ∪ r_results rd) (r_joined rd) (r_expected rd) (r_deadline rd) true (r_synced rd) in
        let c := put_round (put_group c gid lg gs) r rd in
        mkCoord (Persist now w (gc_store c) gid).1 (gc_live c) (gc_rounds c)
  | _, _ => c
  end.

(** The timer of a round; it fires at or after the deadline. *)
Definition expireRound (iter : iteration) (now : Z) (w : persist_outcome) (c : GroupCoordinator)
    (gid : string) (r : nat) : GroupCoordinator :=
  match gc_live c !! gid with
  | None => c
  | Some lg => if bool_decide (lg_round lg = Some r) then closeRound iter now w c gid r else c
  end.

(** ** JoinGroup *)

Definition join_error (gid member : string) (code : Z) (rejoin : bool) : JoinGroupResult :=
  mkJoinResult gid 0 "" "" "" member false [] code rejoin.

(** A reply, or the round and member id the goroutine waits with. *)
Inductive join_out := JReply (r : JoinGroupResult) | JWait (round : nat) (member : string).

(** The round in flight, or a new one. *)
Definition open_round (now : Z) (args : JoinGroupArgs) (gs : GroupState) (lg : liveGroup)
    (rounds : list rebalanceRound) : liveGroup * list rebalanceRound * nat :=
  let fresh :=
    let d := ja_RebalanceTimeoutMS args * millisecond in
    let wait := if (ja_RebalanceTimeoutMS args >? 0) && (d <? initialRebalanceDelay)
                then d else initialRebalanceDelay in
    (mkLive GroupPreparingRebalance (lg_heartbeats lg) (lg_leader lg) (lg_protocolType lg) (lg_protocols lg)
       (Some (length rounds)),
     rounds ++ [mkRound ∅ ∅ (dom (gs_Members gs)) (now + wait) false false], length rounds) in
  match lg_round lg with
  | Some r => if default true (r_closed <$> rounds !! r) then fresh else (lg, rounds, r)
  | None => fresh
  end.

(** A member with no id is a fresh process: drop its earlier incarnations. *)
Definition drop_same_client (args : JoinGroupArgs) (lg : liveGroup) (gs : GroupState) : liveGroup * GroupState :=
  if String.eqb (ja_ClientID args) "" then (lg, gs)
  else drop_members (dom (filter (fun kv => ms_ClientID kv.2 = ja_ClientID args) (gs_Members gs))) lg gs.

(** Registering the member in the round: the new state, the round, and
    whether its whole previous membership is back. *)
Definition register (now : Z) (c : GroupCoordinator)
    (args : JoinGroupArgs) (memberID : string) (lg : liveGroup) (gs : GroupState)
  : GroupCoordinator * nat * bool :=
  let gid := ja_GroupID args in
  let '(lg, rounds, r) := open_round now args gs lg (gc_rounds c) in
  let m := mkMember memberID (ja_ClientID args) (ja_ClientHost args) (ja_SessionTimeoutMS args)
             (ja_RebalanceTimeoutMS args) (joinGroupSubscriptionBytes (ja_Protocols args)) []
             (gp_Name <$> ja_Protocols args) in
  let gs := set_members gs (<[memberID := m]> (gs_Members gs)) in
  let lg := mkLive (lg_state lg) (<[memberID := now]> (lg_heartbeats lg)) (lg_leader lg) (ja_ProtocolType args)
              (ja_Protocols args) (lg_round lg) in
  let c := put_group (mkCoord (gc_store c) (gc_live c) rounds) gid lg gs in
  match rounds !! r with
  | None => (c, r, false)
  | Some rd =>
      let rd := mkRound (r_results rd) ({[memberID]} ∪ r_joined rd) (r_expected rd) (r_deadline rd)
                  (r_closed rd) (r_synced rd) in
      (put_round c r rd, r, bool_decide (r_expected rd <> ∅) && allRejoined rd)
  end.

Definition join_round (iter : iteration) (now : Z) (w : persist_outcome) (c : GroupCoordinator)
    (args : JoinGroupArgs) (memberID : string) (lg : liveGroup) (gs : GroupState)
  : GroupCoordinator * join_out :=
  let '(c, r, back) := register now c args memberID lg gs in
  (if back then closeRound iter now w c (ja_GroupID args) r else c, JWait r memberID).

Definition JoinGroup_enter (iter : iteration) (now : Z) (rnd : string) (w : persist_outcome)
    (c : GroupCoordinator) (args : JoinGroupArgs) : GroupCoordinator * join_out :=
  let gid := ja_GroupID args in
  match ValidateName "group" gid with
  | Ok _ =>
      let c := findOrCreate now c gid in
      match get_group c gid with
      | None => (c, JReply (join_error gid "" invalidGroupID false))
      | Some (lg, gs) =>
          let '(lg, gs) := evictExpired now lg gs in
          if String.eqb (ja_MemberID args) "" then
            let '(lg, gs) := drop_same_client args lg gs in
            let memberID := newMemberID (ja_ClientID args) rnd in
            if ja_APIVersion args >=? 4
            then (put_group c gid lg gs, JReply (join_error gid memberID memberIDRequired true))
            else join_round iter now w c args memberID lg gs
          else join_round iter now w c args (ja_MemberID args) lg gs
      end
  | _ => (c, JReply (join_error "" "" invalidGroupID false))
  end.

(** Behind the wait: [timeout] when [maxRebalanceWait] passed first.  [None]
    while neither has happened. *)
Definition JoinGroup_wake (timeout : bool) (c : GroupCoordinator) (gid : string) (r : nat) (member : string)
  : option JoinGroupResult :=
  let again := join_error gid member rebalanceInProgress false in
  if timeout then Some again
  else match gc_rounds c !! r with
  | Some rd => if r_closed rd then Some (default again (r_results rd !! member)) else None
  | None => None
  end.

(** ** SyncGroup *)

Record SyncGroupArgs := mkSyncArgs {
  sa_GroupID : string;
  sa_Generation : Z;
  sa_MemberID : string;
  sa_Assignments : gmap string (list byte)
}.

Record SyncGroupResult := mkSyncResult { sr_Assignment : list byte; sr_ErrorCode : Z }.

Inductive sync_out := SReply (r : res SyncGroupResult) | SWait (round : nat).

Definition sync_error (code : Z) : SyncGroupResult := mkSyncResult [] code.

Definition assign_members (assignments : gmap string (list byte)) (members : gmap string MemberState)
  : gmap string MemberState :=
  map_imap (fun id m => Some (match assignments !! id with Some a => set_Assignment m a | None => m end)) members.

Definition mark_synced (c : GroupCoordinator) (r : option nat) : GroupCoordinator :=
  match r with
  | None => c
  | Some r =>
      match gc_rounds c !! r with
      | None => c
      | Some rd => put_round c r (mkRound (r_results rd) (r_joined rd) (r_expected rd) (r_deadline rd)
                                    (r_closed rd) true)
      end
  end.

Definition SyncGroup_enter (now : Z) (w : persist_outcome) (c : GroupCoordinator) (args : SyncGroupArgs)
  : GroupCoordinator * sync_out :=
  let gid := sa_GroupID args in
  match get_group c gid with
  | None => (c, SReply (Ok (sync_error invalidGroupID)))
  | Some (lg, gs) =>
      if negb (gs_Generation gs =? sa_Generation args) then (c, SReply (Ok (sync_error illegalGeneration)))
      else match gs_Members gs !! sa_MemberID args with
      | None => (c, SReply (Ok (sync_error unknownMember)))
      | Some m =>
          let lg := set_heartbeats lg (<[sa_MemberID args := now]> (lg_heartbeats lg)) in
          if String.eqb (sa_MemberID args) (lg_leader lg) then
            let gs := set_members gs (assign_members (sa_Assignments args) (gs_Members gs)) in
            let lg := set_state lg GroupStable in
            let c := put_group c gid lg gs in
            match Persist now w (gc_store c) gid with
            | (store, Ok _) =>
                let c := mark_synced (mkCoord store (gc_live c) (gc_rounds c)) (lg_round lg) in
                (c, SReply (Ok (mkSyncResult (match gs_Members gs !! sa_MemberID args with
                                              | Some m => ms_Assignment m | None => [] end) 0)))
            | (store, Err e) => (mkCoord store (gc_live c) (gc_rounds c), SReply (Err e))
            | (store, _) => (mkCoord store (gc_live c) (gc_rounds c), SReply Panic)
            end
          else
            let c := put_group c gid lg gs in
            match lg_round lg with
            | None => (c, SReply (Ok (mkSyncResult (ms_Assignment m) 0)))
            | Some r =>
                if default false (r_synced <$> gc_rounds c !! r)
                then (c, SReply (Ok (mkSyncResult (ms_Assignment m) 0)))
                else (c, SWait r)
            end
      end
  end.

Definition SyncGroup_wake (timeout : bool) (c : GroupCoordinator) (args : SyncGroupArgs) (r : nat)
  : option SyncGroupResult :=
  if timeout then Some (sync_error rebalanceInProgress)
  else if default false (r_synced <$> gc_rounds c !! r) then
    match get_group c (sa_GroupID args) with
    | None => Some (sync_error illegalGeneration)
    | Some (lg, gs) =>
        if negb (gs_Generation gs =? sa_Generation args) then Some (sync_error illegalGeneration)
        else match gs_Members gs !! sa_MemberID args with
        | None => Some (sync_error unknownMember)
        | Some m => Some (mkSyncResult (ms_Assignment m) 0)
        end
    end
  else None.

(** ** Heartbeat and LeaveGroup *)

Definition Heartbeat (now : Z) (c : GroupCoordinator) (gid member : string) (generation : Z) : GroupCoordinator * Z :=
  match get_group c gid with
  | None => (c, invalidGroupID)
  | Some (lg, gs) =>
      if negb (gs_Generation gs =? generation) then (c, illegalGeneration)
      else match gs_Members gs !! member with
      | None => (c, unknownMember)
      | Some _ =>
          (put_live c gid (set_heartbeats lg (<[member := now]> (lg_heartbeats lg))),
           if bool_decide (lg_state lg = GroupPreparingRebalance) then rebalanceInProgress else 0)
      end
  end.

Definition LeaveGroup (now : Z) (w : persist_outcome) (c : GroupCoordinator) (gid member : string)
  : GroupCoordinator * Z :=
  match get_group c gid with
  | None => (c, invalidGroupID)
  | Some (lg, gs) =>
      match gs_Members gs !! member with
      | None => (c, unknownMember)
      | Some _ =>
          let gs := set_members gs (delete member (gs_Members gs)) in
          let lg := set_heartbeats lg (delete member (lg_heartbeats lg)) in
          let was_leader := String.eqb (lg_leader lg) member in
          let lg := if was_leader then set_leader lg (pickLeader (gs_Members gs)) else lg in
          let gs := if was_leader then set_gs_Leader gs (lg_leader lg) else gs in
          let lg := set_state lg (if bool_decide (gs_Members gs = ∅) then GroupEmpty
                                  else GroupPreparingRebalance) in
          let c := put_group c gid lg gs in
          (mkCoord (Persist now w (gc_store c) gid).1 (gc_live c) (gc_rounds c), 0)
      end
  end.
