(* ===== verification/GroupFacts.v ===== *)
(** * Correctness of the group coordinator

    The coordinator as a transition system over its handlers, the invariant of
    its reachable states, and the guarantees of the join barrier. *)

From S2P Require Import Prelude Bytes Names Offsets Group.

#[local] Set Warnings "-clear-no-such-hyp".

(** ** Leaders and membership *)

Lemma pickLeader_in (m : gmap string MemberState) : m <> ∅ -> is_Some (m !! pickLeader m).
Proof.
  intros Hne. unfold pickLeader.
  pose proof (merge_sort_Permutation String.le (map_to_list m).*1) as Hp.
  destruct (merge_sort _ _) as [|id rest].
  - apply Permutation_nil_l in Hp. destruct Hne. apply map_to_list_empty_iff. symmetry in Hp. by apply fmap_nil_inv in Hp.
  - assert (id ∈ (map_to_list m).*1) as Hin by (rewrite <- Hp; by left).
    apply list_elem_of_fmap in Hin as ([k v] & -> & Hkv%elem_of_map_to_list). eauto.
Qed.

(** The leader is the least member id. *)
Lemma pickLeader_least (m : gmap string MemberState) id :
  is_Some (m !! id) -> String.le (pickLeader m) id.
Proof.
  intros [v Hv]. unfold pickLeader.
  pose proof (merge_sort_Permutation String.le (map_to_list m).*1) as Hp.
  pose proof (StronglySorted_merge_sort String.le (map_to_list m).*1) as Hs.
  assert (id ∈ (map_to_list m).*1) as Hin.
  { apply list_elem_of_fmap. exists (id, v). split; [done|]. by apply elem_of_map_to_list. }
  rewrite <- Hp in Hin. destruct (merge_sort _ _) as [|x rest]; [by apply not_elem_of_nil in Hin|].
  apply StronglySorted_inv in Hs as [_ Hall]. rewrite Forall_forall in Hall.
  apply elem_of_cons in Hin as [->|Hin]; [reflexivity|auto].
Qed.

Definition members_ok (gs : GroupState) : Prop := forall k m, gs_Members gs !! k = Some m -> ms_MemberID m = k.

(** The leader, when there is one, is a member. *)
Definition leader_ok (lg : liveGroup) (gs : GroupState) : Prop :=
  lg_leader lg = "" \/ is_Some (gs_Members gs !! lg_leader lg).

Record group_ok (nrounds : nat) (lg : liveGroup) (gs : GroupState) : Prop := {
  go_status : lg_state lg <> GroupDead;
  go_leader : leader_ok lg gs;
  go_members : members_ok gs;
  go_round : forall r, lg_round lg = Some r -> (r < nrounds)%nat
}.

Lemma drop_members_lookup gone lg gs k :
  gs_Members (drop_members gone lg gs).2 !! k = if decide (k ∈ gone) then None else gs_Members gs !! k.
Proof.
  cbn. destruct (decide (k ∈ gone)) as [H|H].
  - apply map_lookup_filter_None. right. intros x _ Hx. by apply Hx.
  - destruct (gs_Members gs !! k) eqn:E.
    + by apply map_lookup_filter_Some.
    + apply map_lookup_filter_None. by left.
Qed.

Lemma drop_members_ok n gone lg gs :
  group_ok n lg gs -> group_ok n (drop_members gone lg gs).1 (drop_members gone lg gs).2.
Proof.
  intros [H1 H2 H3 H4]. constructor.
  - done.
  - unfold leader_ok. rewrite drop_members_lookup. cbn.
    case_bool_decide as Hin; [by left|]. rewrite decide_False by done. exact H2.
  - intros k m. rewrite drop_members_lookup. case_decide; [done|apply H3].
  - done.
Qed.

Lemma drop_members_frame gone lg gs :
  let '(lg', gs') := drop_members gone lg gs in
  gs_Generation gs' = gs_Generation gs /\ gs_GroupID gs' = gs_GroupID gs /\ gs_Offsets gs' = gs_Offsets gs /\
  lg_state lg' = lg_state lg /\ lg_round lg' = lg_round lg /\ lg_protocols lg' = lg_protocols lg.
Proof. done. Qed.

(** What [closeRound] decides: the members are those that joined, the leader
    is one of them, the generation advances. *)
Lemma settle_spec iter n lg gs rd :
  group_ok n lg gs ->
  let '(lg', gs') := settle iter lg gs rd in
  group_ok n lg' gs' /\
  (forall k, gs_Members gs' !! k = if decide (k ∈ r_joined rd) then gs_Members gs !! k else None) /\
  (gs_Members gs' <> ∅ -> is_Some (gs_Members gs' !! lg_leader lg')) /\
  gs_Generation gs' = i32 (gs_Generation gs + 1) /\ gs_Leader gs' = lg_leader lg' /\
  gs_GroupID gs' = gs_GroupID gs /\ gs_Offsets gs' = gs_Offsets gs /\
  lg_state lg' = GroupCompletingRebalance /\ lg_round lg' = lg_round lg.
Proof.
  intros Hok. unfold settle. set (gone := dom (gs_Members gs) ∖ r_joined rd).
  pose proof (drop_members_ok n gone lg gs Hok) as Hok'.
  pose proof (drop_members_lookup gone lg gs) as Hlk.
  pose proof (drop_members_frame gone lg gs) as Hfr.
  destruct (drop_members gone lg gs) as [lg1 gs1]; cbn [fst snd] in *.
  destruct Hfr as (F1 & F2 & F3 & F4 & F5 & F6). destruct Hok' as [H1 H2 H3 H4].
  set (leader := if _ || _ then _ else _).
  assert (gs_Members gs1 <> ∅ -> is_Some (gs_Members gs1 !! leader)) as Hl.
  { intros Hne. unfold leader. destruct (String.eqb _ _ || _) eqn:E; [by apply pickLeader_in|].
    apply orb_false_iff in E as [_ E]. zbool. by apply not_eq_None_Some. }
  cbn. split_and!; try done.
  - constructor; cbn; try done. unfold leader_ok. cbn. unfold leader.
    destruct (String.eqb _ _ || _) eqn:E.
    + destruct (decide (gs_Members gs1 = ∅)) as [->|Hne]; [by left|right; by apply pickLeader_in].
    + apply orb_false_iff in E as [_ E]. zbool. right. by apply not_eq_None_Some.
  - intros k. rewrite Hlk. unfold gone. destruct (decide (k ∈ r_joined rd)) as [Hj|Hj].
    + rewrite decide_False; [done|]. rewrite elem_of_difference. tauto.
    + case_decide as Hg; [done|]. apply not_elem_of_dom. set_solver.
  - by rewrite F1.
Qed.

(** ** Rounds *)

(** The answers of a closed round describe one generation: one leader, which
    is one of those answered, and which alone gets the list of all of them. *)
Definition round_ok (rd : rebalanceRound) : Prop :=
  if r_closed rd then
    exists gid gs leader members,
      (forall id res, r_results rd !! id = Some res -> res = round_result gid gs leader members id) /\
      (r_results rd <> ∅ -> is_Some (r_results rd !! leader)) /\
      members.*1 ≡ₚ elements (dom (r_results rd)) /\
      dom (r_results rd) ⊆ r_joined rd
  else r_results rd = ∅.

Record coord_wf (c : GroupCoordinator) : Prop := {
  cw_store : store_wf (gc_store c);
  cw_members : forall id gs, os_groups (gc_store c) !! id = Some gs -> group_name_ok id /\ members_ok gs;
  cw_live : forall id lg, gc_live c !! id = Some lg ->
    exists gs, os_groups (gc_store c) !! id = Some gs /\ group_ok (length (gc_rounds c)) lg gs;
  cw_rounds : forall r rd, gc_rounds c !! r = Some rd -> round_ok rd
}.

Lemma get_group_Some c id lg gs :
  get_group c id = Some (lg, gs) <-> gc_live c !! id = Some lg /\ os_groups (gc_store c) !! id = Some gs.
Proof.
  unfold get_group. destruct (gc_live c !! id), (os_groups (gc_store c) !! id); split; intros H; (by simplify_eq) || (destruct H; by simplify_eq).
Qed.

Lemma coord_wf_get c id lg gs :
  coord_wf c -> get_group c id = Some (lg, gs) ->
  group_ok (length (gc_rounds c)) lg gs /\ group_name_ok id /\ gs_GroupID gs = id.
Proof.
  intros Hwf [Hl Hg]%get_group_Some. destruct (cw_live _ Hwf _ _ Hl) as (gs' & Hg' & Hok). simplify_eq.
  split_and!; [done|by apply (cw_members _ Hwf _ _ Hg)|by apply (cw_store _ Hwf)].
Qed.

(** Replacing a group by one that satisfies the invariant. *)
Lemma put_group_wf c id lg gs :
  coord_wf c -> group_ok (length (gc_rounds c)) lg gs -> gs_GroupID gs = id -> group_name_ok id ->
  coord_wf (put_group c id lg gs).
Proof.
  intros [H1 H2 H3 H4] Hok Hid Hne. constructor; cbn.
  - by apply insert_wf.
  - intros id' gs' [[<- <-]|[? ?]]%lookup_insert_Some; [|by apply H2]. split; [done|by destruct Hok].
  - intros id' lg' [[<- <-]|[? ?]]%lookup_insert_Some.
    + exists gs. by rewrite lookup_insert_eq.
    + rewrite lookup_insert_ne by done. by apply H3.
  - done.
Qed.

Lemma put_round_wf c r rd : coord_wf c -> round_ok rd -> coord_wf (put_round c r rd).
Proof.
  intros [H1 H2 H3 H4] Hrd. constructor; cbn; try done.
  - intros id lg Hl. rewrite length_insert. by apply H3.
  - intros r' rd' Hl. destruct (decide (r' = r)) as [->|].
    + apply list_lookup_insert_Some in Hl as [(_ & <- & _)|[? _]]; done.
    + rewrite list_lookup_insert_ne in Hl by done. by eapply H4.
Qed.

(** Persisting changes no group but its timestamp. *)
Lemma Persist_groups now w s id gs :
  os_groups s !! id = Some gs -> os_groups (Persist now w s id).1 = <[id := set_updated gs now]> (os_groups s).
Proof. intros H. unfold Persist. rewrite H. by destruct w. Qed.

Lemma persist_wf now w c id gs :
  coord_wf c -> os_groups (gc_store c) !! id = Some gs ->
  coord_wf (mkCoord (Persist now w (gc_store c) id).1 (gc_live c) (gc_rounds c)).
Proof.
  intros [H1 H2 H3 H4] Hg. destruct (H2 _ _ Hg) as [Hne Hm]. constructor; cbn; try done.
  - by apply Persist_wf.
  - rewrite (Persist_groups _ _ _ _ _ Hg).
    intros id' gs' [[<- <-]|[? ?]]%lookup_insert_Some; [done|by apply H2].
  - rewrite (Persist_groups _ _ _ _ _ Hg). intros id' lg Hl. destruct (H3 _ _ Hl) as (gs' & Hg' & Hok).
    destruct (decide (id' = id)) as [->|]; [|rewrite lookup_insert_ne by done; by eauto].
    rewrite lookup_insert_eq. simplify_eq. eexists; split; [done|]. destruct Hok. by constructor.
Qed.

Lemma member_list_ids gs : members_ok gs -> (member_list gs).*1 ≡ₚ elements (dom (gs_Members gs)).
Proof.
  intros Hok. unfold member_list. rewrite merge_sort_Permutation, <- list_fmap_compose.
  assert ((fst ∘ (fun kv : string * MemberState => (ms_MemberID kv.2, ms_Subscription kv.2))) <$> map_to_list (gs_Members gs)
          = (map_to_list (gs_Members gs)).*1) as ->.
  { apply list_fmap_ext. intros i [k m] Hl. cbn. apply Hok.
    by apply elem_of_map_to_list, (list_elem_of_lookup_2 _ i). }
  apply NoDup_Permutation; [apply NoDup_fst_map_to_list|apply NoDup_elements|].
  intros k. rewrite elem_of_elements, elem_of_dom, list_elem_of_fmap. split.
  - intros ([? ?] & -> & H%elem_of_map_to_list). eauto.
  - intros [m Hm]. exists (k, m). split; [done|]. by apply elem_of_map_to_list.
Qed.

(** The round after [closeRound], and the group it settles. *)
Lemma closeRound_spec iter now w c gid r lg gs rd :
  coord_wf c -> get_group c gid = Some (lg, gs) -> gc_rounds c !! r = Some rd -> r_closed rd = false ->
  exists lg' gs' rd', closeRound iter now w c gid r =
      mkCoord (Persist now w (set_groups (gc_store c) (<[gid := gs']> (os_groups (gc_store c)))) gid).1
        (<[gid := lg']> (gc_live c)) (<[r := rd']> (gc_rounds c)) /\
    settle iter lg gs rd = (lg', gs') /\
    r_closed rd' = true /\ r_joined rd' = r_joined rd /\ r_synced rd' = r_synced rd /\ round_ok rd' /\
    (forall id, r_results rd' !! id =
       if decide (is_Some (gs_Members gs' !! id)) then Some (round_result gid gs' (lg_leader lg') (member_list gs') id)
       else None).
Proof.
  intros Hwf Hget Hr Hcl. destruct (coord_wf_get _ _ _ _ Hwf Hget) as (Hok & Hne & Hid).
  pose proof (settle_spec iter _ lg gs rd Hok) as Hs.
  unfold closeRound. rewrite Hget, Hr, Hcl. destruct (settle iter lg gs rd) as [lg' gs'] eqn:Es.
  destruct Hs as (Hok' & Hmem & Hlead & _).
  assert (r_results rd = ∅) as Hres by (pose proof (cw_rounds _ Hwf _ _ Hr) as H; unfold round_ok in H; by rewrite Hcl in H).
  set (answered := filter _ (r_joined rd)). set (results := set_to_map _ answered).
  assert (forall id, results !! id = if decide (is_Some (gs_Members gs' !! id))
            then Some (round_result gid gs' (lg_leader lg') (member_list gs') id) else None) as Hlk.
  { intros id. destruct (decide _) as [[m Hm]|Hn].
    - apply lookup_set_to_map; [done|]. exists id. split; [|done]. apply elem_of_filter. rewrite Hm.
      split; [done|]. rewrite Hmem in Hm. by destruct (decide (id ∈ r_joined rd)).
    - apply eq_None_not_Some. intros [x Hx]. apply lookup_set_to_map in Hx as (id' & Hin & ?); [|done].
      simplify_eq. apply elem_of_filter in Hin as [Hin _]. apply Hn. by apply not_eq_None_Some. }
  assert (dom results = dom (gs_Members gs')) as Hdom.
  { apply set_eq. intros id. rewrite !elem_of_dom, Hlk. case_decide; [|done]. split; eauto. }
  eexists lg', gs', (mkRound (results ∪ r_results rd) _ _ _ _ _). split; [done|].
  assert (results ∪ r_results rd = results) as Hu by (rewrite Hres; apply map_union_empty).
  split_and!; try done; [|intros id; cbn; rewrite Hu; exact (Hlk id)].
  exists gid, gs', (lg_leader lg'), (member_list gs'). cbn. rewrite Hu. split_and!.
  - intros id res. rewrite Hlk. by case_decide; intros; simplify_eq.
  - intros Hn. assert (gs_Members gs' <> ∅) as Hn'.
    { intros E. apply Hn, dom_empty_inv_L. by rewrite Hdom, E, dom_empty_L. }
    rewrite Hlk. rewrite decide_True by auto. eauto.
  - rewrite Hdom. apply member_list_ids. by destruct Hok'.
  - rewrite Hdom. intros id [m Hm]%elem_of_dom. rewrite Hmem in Hm. by destruct (decide _).
Qed.

(** ** The transition system *)

(** One handler invocation (or the half of one), a timer or an offset commit,
    from any environment. *)
Inductive step : GroupCoordinator -> GroupCoordinator -> Prop :=
| step_join iter now rnd w c args : step c (JoinGroup_enter iter now rnd w c args).1
| step_expire iter now w c gid r : step c (expireRound iter now w c gid r)
| step_sync now w c args : step c (SyncGroup_enter now w c args).1
| step_heartbeat now c gid member gen : step c (Heartbeat now c gid member gen).1
| step_leave now w c gid member : step c (LeaveGroup now w c gid member).1
| step_commit now w c g t p o e m :
    step c (mkCoord (CommitOffset now w (gc_store c) g t p o e m).1 (gc_live c) (gc_rounds c)).

Definition reachable (store : OffsetStore) (c : GroupCoordinator) : Prop :=
  rtc step (NewGroupCoordinator store) c.

(** What is assumed of the loaded files: usable ids, members under their
    own ids. *)
Definition store_ok (s : OffsetStore) : Prop :=
  store_wf s /\ forall id gs, os_groups s !! id = Some gs -> group_name_ok id /\ members_ok gs.

Lemma NewGroupCoordinator_wf s : store_ok s -> coord_wf (NewGroupCoordinator s).
Proof.
  intros [H1 H2]. constructor; cbn; try done.
  intros id lg Hl. apply lookup_fmap_Some in Hl as (gs & <- & Hg). exists gs. split; [done|].
  constructor; try done; [by left|by apply (H2 _ _ Hg)].
Qed.

Lemma findOrCreate_wf now c id :
  coord_wf c -> group_name_ok id -> coord_wf (findOrCreate now c id) /\
  gc_rounds (findOrCreate now c id) = gc_rounds c.
Proof.
  intros Hwf Hne. unfold findOrCreate. destruct (gc_live c !! id) as [lg|] eqn:El; [done|]. split; [|done].
  destruct Hwf as [H1 H2 H3 H4]. destruct (Get_wf now _ id H1) as (Hw & Hg & Hid & Hoth).
  assert (forall id' gs', os_groups (OffsetStore_Get now (gc_store c) id).1 !! id' = Some gs' ->
            group_name_ok id' /\ members_ok gs') as Hm.
  { intros id' gs'. destruct (decide (id' = id)) as [->|]; [|rewrite Hoth by done; apply H2].
    rewrite Hg. intros [= <-]. split; [done|]. unfold OffsetStore_Get.
    destruct (os_groups (gc_store c) !! id) as [gs|] eqn:E; [by apply (H2 _ _ E)|done]. }
  constructor; cbn; try done.
  intros id' lg' [[<- <-]|[? Hl]]%lookup_insert_Some.
  - eexists; split; [done|]. constructor; try done; [by left|by apply (Hm _ _ Hg)].
  - rewrite Hoth by done. by apply H3.
Qed.

Lemma closeRound_wf iter now w c gid r : coord_wf c -> coord_wf (closeRound iter now w c gid r).
Proof.
  intros Hwf. destruct (get_group c gid) as [[lg gs]|] eqn:Hget; [|unfold closeRound; by rewrite Hget].
  destruct (gc_rounds c !! r) as [rd|] eqn:Hr; [|unfold closeRound; by rewrite Hget, Hr].
  destruct (r_closed rd) eqn:Hcl; [unfold closeRound; by rewrite Hget, Hr, Hcl|].
  destruct (closeRound_spec iter now w c gid r lg gs rd Hwf Hget Hr Hcl)
    as (lg' & gs' & rd' & -> & Es & _ & _ & _ & Hrd & _).
  destruct (coord_wf_get _ _ _ _ Hwf Hget) as (Hok & Hne & Hid).
  pose proof (settle_spec iter _ lg gs rd Hok) as Hs. rewrite Es in Hs. destruct Hs as (Hok' & _ & _ & _ & _ & Hid' & _).
  apply (persist_wf now w (put_round (put_group c gid lg' gs') r rd') gid gs').
  - apply put_round_wf; [|done]. apply put_group_wf; try done. congruence.
  - cbn. apply lookup_insert_eq.
Qed.

(** A fresh round and the group that points to it. *)
Lemma open_round_ok now args gs lg rounds :
  (forall r rd, rounds !! r = Some rd -> round_ok rd) -> group_ok (length rounds) lg gs ->
  let '(lg', rounds', r) := open_round now args gs lg rounds in
  (forall r rd, rounds' !! r = Some rd -> round_ok rd) /\ group_ok (length rounds') lg' gs /\
  (length rounds <= length rounds')%nat /\ lg_round lg' = Some r /\
  exists rd, rounds' !! r = Some rd /\ r_closed rd = false.
Proof.
  intros Hrs Hok. unfold open_round.
  set (fresh := (_, _ ++ [_], _)).
  assert (let '(lg', rounds', r) := fresh in
    (forall r rd, rounds' !! r = Some rd -> round_ok rd) /\ group_ok (length rounds') lg' gs /\
    (length rounds <= length rounds')%nat /\ lg_round lg' = Some r /\
    exists rd, rounds' !! r = Some rd /\ r_closed rd = false) as Hfresh.
  { unfold fresh. rewrite length_app. cbn. split_and!; try done; try lia.
    - intros r rd. rewrite lookup_app_Some. intros [?|[_ Hr]]; [by eapply Hrs|].
      destruct (r - length rounds)%nat; [|done]. cbn in Hr. by simplify_eq.
    - destruct Hok as [H1 H2 H3 H4]. constructor; cbn; try done. intros r [= <-]. lia.
    - eexists. rewrite lookup_app_r by lia. by rewrite Nat.sub_diag. }
  destruct (lg_round lg) as [r|] eqn:Er; [|done].
  destruct (rounds !! r) as [rd|] eqn:Hrd; [|done]. cbn. destruct (r_closed rd) eqn:Hc; [done|].
  split_and!; try done; eauto.
Qed.

(** More rounds and longer round lists do not invalidate a group. *)
Lemma group_ok_mono n n' lg gs : group_ok n lg gs -> (n <= n')%nat -> group_ok n' lg gs.
Proof. intros [H1 H2 H3 H4] Hn. constructor; try done. intros r Hr. specialize (H4 r Hr). lia. Qed.

Lemma rounds_wf c rounds :
  coord_wf c -> (length (gc_rounds c) <= length rounds)%nat ->
  (forall r rd, rounds !! r = Some rd -> round_ok rd) -> coord_wf (mkCoord (gc_store c) (gc_live c) rounds).
Proof.
  intros [H1 H2 H3 H4] Hlen Hr. constructor; cbn; try done.
  intros id lg Hl. destruct (H3 _ _ Hl) as (gs & ? & ?). eauto using group_ok_mono.
Qed.

Lemma register_wf now c args member lg gs :
  coord_wf c -> group_ok (length (gc_rounds c)) lg gs -> gs_GroupID gs = ja_GroupID args ->
  group_name_ok (ja_GroupID args) -> coord_wf (register now c args member lg gs).1.1.
Proof.
  intros Hwf Hok Hid Hne. unfold register.
  pose proof (open_round_ok now args gs lg (gc_rounds c) (cw_rounds _ Hwf) Hok) as Hop.
  destruct (open_round now args gs lg (gc_rounds c)) as [[lg1 rounds] r].
  destruct Hop as (Hrs & Hok1 & Hlen & Hlr & rd & Hrd & Hcl).
  set (m := mkMember _ _ _ _ _ _ _ _). set (lg2 := mkLive _ _ _ _ _ _). set (gs2 := set_members gs _).
  assert (group_ok (length rounds) lg2 gs2) as Hok2.
  { destruct Hok1 as [H1 H2 H3 H4]. constructor; cbn; try done.
    - destruct H2 as [H2|H2]; [by left|right]. cbn.
      destruct (decide (member = lg_leader lg1)) as [->|]; [rewrite lookup_insert_eq; eauto|by rewrite lookup_insert_ne].
    - intros k m'. cbn. intros [[<- <-]|[_ ?]]%lookup_insert_Some; [done|by apply H3]. }
  rewrite Hrd. apply put_round_wf.
  - apply put_group_wf; [by apply rounds_wf|done|done|done].
  - pose proof (Hrs _ _ Hrd) as Hro. unfold round_ok in *. cbn. by rewrite Hcl in *.
Qed.

Lemma join_round_wf iter now w c args member lg gs :
  coord_wf c -> group_ok (length (gc_rounds c)) lg gs -> gs_GroupID gs = ja_GroupID args ->
  group_name_ok (ja_GroupID args) -> coord_wf (join_round iter now w c args member lg gs).1.
Proof.
  intros Hwf Hok Hid Hne. pose proof (register_wf now c args member lg gs Hwf Hok Hid Hne) as Hr.
  unfold join_round. destruct (register now c args member lg gs) as [[c' r] back].
  cbn [fst snd] in *. by destruct back; [apply closeRound_wf|].
Qed.

Lemma JoinGroup_enter_wf iter now rnd w c args : coord_wf c -> coord_wf (JoinGroup_enter iter now rnd w c args).1.
Proof.
  intros Hwf. unfold JoinGroup_enter.
  destruct (ValidateName "group" (ja_GroupID args)) as [[]| | |] eqn:Ev; [|done..].
  pose proof (valid_group_name _ _ Ev) as Hne.
  destruct (findOrCreate_wf now c _ Hwf Hne) as [Hwf1 _].
  set (c1 := findOrCreate _ _ _) in *. destruct (get_group c1 _) as [[lg gs]|] eqn:Hget; [|done].
  destruct (coord_wf_get _ _ _ _ Hwf1 Hget) as (Hok & _ & Hid). unfold evictExpired.
  pose proof (drop_members_ok _ (dom (filter (fun kv => expired now lg kv.1 kv.2 = true) (gs_Members gs))) lg gs Hok) as Hok1.
  set (p := drop_members _ lg gs) in *. assert (gs_GroupID p.2 = ja_GroupID args) as Hid1 by done.
  destruct p as [lg1 gs1]; cbn [fst snd] in *.
  destruct (String.eqb (ja_MemberID args) "") eqn:Em; [|by apply join_round_wf].
  assert (group_ok (length (gc_rounds c1)) (drop_same_client args lg1 gs1).1 (drop_same_client args lg1 gs1).2 /\
          gs_GroupID (drop_same_client args lg1 gs1).2 = ja_GroupID args) as [Hok2 Hid2].
  { unfold drop_same_client. destruct (String.eqb (ja_ClientID args) ""); [done|]. split; [by apply drop_members_ok|done]. }
  destruct (drop_same_client args lg1 gs1) as [lg2 gs2]; cbn [fst snd] in *.
  destruct (ja_APIVersion args >=? 4); [by apply put_group_wf|by apply join_round_wf].
Qed.

Lemma mark_synced_wf c r : coord_wf c -> coord_wf (mark_synced c r).
Proof.
  intros Hwf. unfold mark_synced. destruct r as [r|]; [|done].
  destruct (gc_rounds c !! r) as [rd|] eqn:E; [|done]. apply put_round_wf; [done|].
  exact (cw_rounds _ Hwf _ _ E).
Qed.

Lemma assign_members_lookup a m k :
  assign_members a m !! k =
    (fun x => match a !! k with Some b => set_Assignment x b | None => x end) <$> m !! k.
Proof. unfold assign_members. rewrite map_lookup_imap. by destruct (m !! k). Qed.

Lemma SyncGroup_enter_wf now w c args : coord_wf c -> coord_wf (SyncGroup_enter now w c args).1.
Proof.
  intros Hwf. unfold SyncGroup_enter.
  destruct (get_group c _) as [[lg gs]|] eqn:Hget; [|done].
  destruct (coord_wf_get _ _ _ _ Hwf Hget) as (Hok & Hne & Hid).
  destruct (negb _); [done|]. destruct (gs_Members gs !! sa_MemberID args) as [m|] eqn:Em; [|done].
  destruct (String.eqb _ _) eqn:El.
  - set (gs1 := set_members gs _). set (lg1 := set_state _ _).
    assert (group_ok (length (gc_rounds c)) lg1 gs1) as Hok1.
    { destruct Hok as [H1 H2 H3 H4]. constructor; cbn; try done.
      - destruct H2 as [H2|[x Hx]]; [by left|right]. cbn. rewrite assign_members_lookup, Hx. by eexists.
      - intros k m'. cbn. rewrite assign_members_lookup. destruct (gs_Members gs !! k) as [x|] eqn:Ex; [|done].
        cbn. intros [= <-]. pose proof (H3 _ _ Ex). by destruct (sa_Assignments args !! k). }
    pose proof (put_group_wf c _ lg1 gs1 Hwf Hok1 Hid Hne) as Hwf1.
    pose proof (persist_wf now w _ (sa_GroupID args) gs1 Hwf1 (lookup_insert_eq _ _ _)) as Hwf2.
    destruct (Persist _ _ _ _) as [store [[]| | |]]; cbn [fst] in *; [by apply mark_synced_wf|done..].
  - set (c1 := put_group _ _ _ _). assert (coord_wf c1) as Hwf1.
    { apply put_group_wf; try done. destruct Hok. by constructor. }
    cbn [lg_round set_heartbeats]. destruct (lg_round lg); [|done]. by destruct (default _ _).
Qed.

Lemma Heartbeat_wf now c gid member gen : coord_wf c -> coord_wf (Heartbeat now c gid member gen).1.
Proof.
  intros Hwf. unfold Heartbeat. destruct (get_group c _) as [[lg gs]|] eqn:Hget; [|done].
  destruct (coord_wf_get _ _ _ _ Hwf Hget) as (Hok & Hne & Hid).
  destruct (negb _); [done|]. destruct (gs_Members gs !! member); [|done]. cbn [fst].
  destruct Hwf as [H1 H2 H3 H4]. apply get_group_Some in Hget as [_ Hg]. constructor; cbn; try done.
  intros id' lg' [[<- <-]|[? ?]]%lookup_insert_Some; [|by apply H3].
  exists gs. split; [done|]. destruct Hok. by constructor.
Qed.

Lemma LeaveGroup_wf now w c gid member : coord_wf c -> coord_wf (LeaveGroup now w c gid member).1.
Proof.
  intros Hwf. unfold LeaveGroup. destruct (get_group c _) as [[lg gs]|] eqn:Hget; [|done].
  destruct (coord_wf_get _ _ _ _ Hwf Hget) as (Hok & Hne & Hid).
  destruct (gs_Members gs !! member) as [m|]; [|done]. cbn [fst].
  set (lg1 := set_state _ _). set (gs1 := if String.eqb _ _ then set_gs_Leader _ _ else _).
  apply (persist_wf now w (put_group c gid lg1 gs1) gid gs1); [|apply lookup_insert_eq].
  assert (gs_Members gs1 = delete member (gs_Members gs)) as Hm by (unfold gs1; by destruct (String.eqb _ _)).
  apply put_group_wf; try done; [|unfold gs1; by destruct (String.eqb _ _)].
  destruct Hok as [H1 H2 H3 H4]. constructor.
  - unfold lg1. cbn. by destruct (bool_decide _).
  - unfold leader_ok. rewrite Hm. unfold lg1. cbn. destruct (String.eqb_spec (lg_leader lg) member) as [E|E]; cbn.
    + destruct (decide (delete member (gs_Members gs) = ∅)) as [->|Hn]; [by left|right; by apply pickLeader_in].
    + destruct H2 as [?|?]; [by left|right]. by rewrite lookup_delete_ne.
  - intros k x. rewrite Hm. intros [_ ?]%lookup_delete_Some. by apply H3.
  - unfold lg1. cbn. by destruct (String.eqb _ _).
Qed.

Lemma CommitOffset_groups now w s g t p o e m id gs' :
  os_groups (CommitOffset now w s g t p o e m).1 !! id = Some gs' ->
  (exists gs, os_groups s !! id = Some gs /\ gs_Members gs' = gs_Members gs /\ gs_Generation gs' = gs_Generation gs) \/
  (id = g /\ group_name_ok id /\ os_groups s !! id = None /\ gs_Members gs' = ∅ /\ gs_Generation gs' = 0).
Proof.
  unfold CommitOffset. destruct (ValidateName "group" g) as [[]| | |] eqn:Eg; cbn [fst]; [|by eauto..].
  destruct (ValidateName "topic" t) as [[]| | |]; cbn [fst]; [|by eauto..].
  pose proof (valid_group_name _ _ Eg) as Hne. unfold OffsetStore_Get.
  destruct (os_groups s !! g) as [gs|] eqn:E; (rewrite Persist_groups with (gs := set_offsets _ _) by (cbn; apply lookup_insert_eq)); cbn.
  - intros [[<- <-]|[? H]]%lookup_insert_Some; [left; by eauto|]. rewrite lookup_insert_ne in H by done. eauto.
  - intros [[<- <-]|[? H]]%lookup_insert_Some; [by right|]. rewrite !lookup_insert_ne in H by done. eauto.
Qed.

(** A group the coordinator knows stays in the store across a commit. *)
Lemma CommitOffset_keeps now w s g t p o e m id gs :
  os_groups s !! id = Some gs ->
  exists gs', os_groups (CommitOffset now w s g t p o e m).1 !! id = Some gs' /\
    gs_Members gs' = gs_Members gs /\ gs_Generation gs' = gs_Generation gs.
Proof.
  intros H. unfold CommitOffset. destruct (ValidateName "group" g) as [[]| | |]; cbn [fst]; [|by eauto..].
  destruct (ValidateName "topic" t) as [[]| | |]; cbn [fst]; [|by eauto..]. unfold OffsetStore_Get.
  destruct (os_groups s !! g) as [gs0|] eqn:E; (rewrite Persist_groups with (gs := set_offsets _ _) by (cbn; apply lookup_insert_eq)); cbn;
    (destruct (decide (id = g)) as [->|]; [rewrite lookup_insert_eq|rewrite !lookup_insert_ne by done; by eauto]).
  - simplify_eq. eauto.
  - congruence.
Qed.

(** The invariant holds in every reachable state. *)
Lemma step_wf c c' : coord_wf c -> step c c' -> coord_wf c'.
Proof.
  intros Hwf Hs. destruct Hs.
  - by apply JoinGroup_enter_wf.
  - unfold expireRound. destruct (gc_live c !! gid); [|done]. case_bool_decide; [by apply closeRound_wf|done].
  - by apply SyncGroup_enter_wf.
  - by apply Heartbeat_wf.
  - by apply LeaveGroup_wf.
  - pose proof (CommitOffset_wf now w (gc_store c) g t p o e m) as Hw. destruct Hwf as [H1 H2 H3 H4].
    constructor; cbn; auto.
    + intros id gs' [(gs & Hg & Hm & _)|(-> & Hne & _ & Hm & _)]%CommitOffset_groups.
      * destruct (H2 _ _ Hg) as [? Hok]. split; [done|]. intros k x. rewrite Hm. apply Hok.
      * split; [done|]. intros k x. by rewrite Hm.
    + intros id lg Hl. destruct (H3 _ _ Hl) as (gs & Hg & Hok).
      destruct (CommitOffset_keeps now w _ g t p o e m _ _ Hg) as (gs' & Hg' & Hm & _).
      exists gs'. split; [done|]. destruct Hok as [? Hl' Hm' ?]. unfold leader_ok, members_ok in *.
      constructor; unfold leader_ok, members_ok; rewrite ?Hm; done.
Qed.

Lemma reachable_wf s c : store_ok s -> reachable s c -> coord_wf c.
Proof.
  intros Hs Hr. unfold reachable in Hr.
  assert (coord_wf (NewGroupCoordinator s)) as H0 by (by apply NewGroupCoordinator_wf).
  induction Hr as [|a b c Hab _ IH]; [done|]. apply IH. by eapply step_wf.
Qed.

(** ** The common protocol *)

(** The members that advertise a protocol. *)
Definition supporters (name : string) (ms : list MemberState) : nat :=
  length (filter (fun m => name ∈ ms_Protocols m) ms).

Definition counted (counts : gmap string nat) (name : string) : nat := default 0%nat (counts !! name).

Lemma count_name_spec ps : forall counts order seen counts' order' seen',
  fold_left count_name ps (counts, order, seen) = (counts', order', seen') ->
  (forall n, counted counts' n = counted counts n + (if decide (n ∈ ps /\ n ∉ seen) then 1 else 0))%nat /\
  ((forall n, n ∈ order <-> (0 < counted counts n)%nat) -> forall n, n ∈ order' <-> (0 < counted counts' n)%nat).
Proof.
  induction ps as [|p ps IH]; intros counts order seen counts' order' seen' E; cbn [fold_left] in E.
  { simplify_eq. split; [|done]. intros n. rewrite decide_False; [lia|]. intros [H _]. by apply not_elem_of_nil in H. }
  unfold count_name in E at 2. case_bool_decide as Hseen; apply IH in E as [H1 H2].
  { split; [|done]. intros n. rewrite H1. f_equal. repeat case_decide; try done; set_solver. }
  assert (forall n, counted (<[p := S (counted counts p)]> counts) n = (counted counts n + (if decide (n = p) then 1 else 0))%nat) as Hc.
  { intros n. unfold counted. destruct (decide (n = p)) as [->|]; [rewrite lookup_insert_eq; simpl; lia|].
    rewrite lookup_insert_ne by done. lia. }
  fold (counted counts p) in H1, H2. split.
  - intros n. rewrite H1, Hc. repeat case_decide; try lia; set_solver.
  - intros Ho n. apply H2. clear n. intros n. rewrite Hc.
    destruct (Nat.eqb_spec (counted counts p) 0) as [E0|E0].
    + rewrite elem_of_app, list_elem_of_singleton, Ho. case_decide.
      * subst. split; [lia|by right].
      * split; [intros [?|?]; [lia|done]|left; lia].
    + rewrite Ho. case_decide; subst; lia.
Qed.

Lemma count_member_spec ms : forall counts order counts' order',
  fold_left count_member ms (counts, order) = (counts', order') ->
  (forall n, counted counts' n = counted counts n + supporters n ms)%nat /\
  ((forall n, n ∈ order <-> (0 < counted counts n)%nat) -> forall n, n ∈ order' <-> (0 < counted counts' n)%nat).
Proof.
  induction ms as [|m ms IH]; intros counts order counts' order' E; cbn [fold_left] in E.
  { simplify_eq. split; [|done]. intros n. unfold supporters. simpl. lia. }
  unfold count_member in E at 2. cbn [fst snd] in E.
  destruct (fold_left count_name (ms_Protocols m) (counts, order, ∅)) as [[c1 o1] s1] eqn:E1.
  apply count_name_spec in E1 as [H1 H2]. apply IH in E as [H3 H4]. split; [|auto].
  intros n. rewrite H3, H1. unfold supporters. rewrite filter_cons.
  repeat case_decide; simpl; try lia; exfalso; set_solver.
Qed.

Lemma supporters_le name ms : (supporters name ms <= length ms)%nat.
Proof. apply length_filter. Qed.

Lemma supporters_all name ms :
  supporters name ms = length ms <-> forall m, m ∈ ms -> name ∈ ms_Protocols m.
Proof.
  induction ms as [|x ms IH]; [by split; [intros _ m ?%not_elem_of_nil|]|].
  unfold supporters in *. rewrite filter_cons. pose proof (supporters_le name ms). unfold supporters in *.
  case_decide as Hx; simpl; split.
  - intros E m [->|Hm]%elem_of_cons; [done|]. apply IH; [lia|done].
  - intros H1. f_equal. apply IH. intros m Hm. apply H1. by right.
  - lia.
  - intros H1. destruct Hx. apply H1. by left.
Qed.

Lemma find_order {A} (f : A -> bool) l x : x ∈ l -> f x = true -> exists y, List.find f l = Some y /\ f y = true.
Proof.
  induction l as [|z l IH]; [by intros ?%not_elem_of_nil|]. simpl. destruct (f z) eqn:E; [eauto|].
  intros [->|Hx]%elem_of_cons Hf; [congruence|auto].
Qed.

(** Whatever the iteration order, a protocol every member supports is chosen
    when there is one. *)
Lemma pickCommonProtocol_common ms protocols p :
  ms <> [] -> (forall m, m ∈ ms -> p ∈ ms_Protocols m) ->
  forall m, m ∈ ms -> pickCommonProtocol ms protocols ∈ ms_Protocols m.
Proof.
  intros Hne Hp m Hm. unfold pickCommonProtocol.
  destruct (fold_left count_member ms (∅, [])) as [counts order] eqn:E.
  apply count_member_spec in E as [Hc Ho].
  assert (forall n, counted counts n = supporters n ms) as Hcnt.
  { intros n. rewrite Hc. unfold counted. by rewrite lookup_empty. }
  assert (forall n, n ∈ order <-> (0 < counted counts n)%nat) as Ho'.
  { apply Ho. intros n. unfold counted. rewrite lookup_empty. simpl. split; [by intros ?%not_elem_of_nil|lia]. }
  destruct (find_order (fun name => (default 0 (counts !! name) =? length ms)%nat) order p) as (y & -> & Hy).
  - apply Ho'. rewrite Hcnt, (proj2 (supporters_all p ms)) by done. destruct ms; [done|simpl; lia].
  - apply Nat.eqb_eq. fold (counted counts p). rewrite Hcnt. by apply supporters_all.
  - apply Nat.eqb_eq in Hy. fold (counted counts y) in Hy. rewrite Hcnt in Hy.
    by apply (proj1 (supporters_all y ms) Hy).
Qed.
