(* ===== verification/GroupProps.v ===== *)
(** * What the group coordinator promises

    The theorems about consumer groups, their instances, and an interleaving
    in which a follower is answered without its leader. *)

From S2P Require Import Prelude Bytes Names Offsets Group GroupFacts.

(** ** Samples *)

Definition any_order : iteration := map_to_list.
Definition empty_coord : GroupCoordinator := NewGroupCoordinator empty_store.

Definition range_proto : GroupProtocol := mkProto "range" [x01].
Definition join_args (member client : string) : JoinGroupArgs :=
  mkJoinArgs "workers" member client "host" 10000 5000 "consumer" [range_proto] 3.

Definition join (now : Z) (member client : string) (c : GroupCoordinator) : GroupCoordinator :=
  (JoinGroup_enter any_order now client PersistOk c (join_args member client)).1.

(** Two consumers, [a] and [b], in an open first round. *)
Definition two_joined : GroupCoordinator := join 1 "b-1" "b" (join 0 "a-1" "a" empty_coord).
(** Their generation settled by the timer. *)
Definition gen_one : GroupCoordinator := expireRound any_order (3 * second) PersistOk two_joined "workers" 0.

Lemma empty_store_ok : store_ok empty_store.
Proof. split; [split|]; intros ? ? H; discriminate H. Qed.

Lemma two_joined_reachable : reachable empty_store two_joined.
Proof.
  eapply rtc_l; [apply (step_join any_order 0 "a" PersistOk _ (join_args "a-1" "a"))|].
  eapply rtc_l; [apply (step_join any_order 1 "b" PersistOk _ (join_args "b-1" "b"))|]. apply rtc_refl.
Qed.

Lemma gen_one_reachable : reachable empty_store gen_one.
Proof.
  eapply rtc_r; [apply two_joined_reachable|].
  apply (step_expire any_order (3 * second) PersistOk two_joined "workers" 0).
Qed.

(** ** The invariant *)

(** C21: In every state the coordinator can reach from a well-formed store,
    through any interleaving of handlers, timers and commits: a group is never
    Dead (no code path sets that state, although the comment above
    GroupCoordinator names two that would); its leader is none or one of its
    members; and the answers of every settled round name one leader, one
    generation and one protocol, with the complete list of the answered members
    in the leader's answer and in no other. *)
Theorem Group_invariant s c :
  store_ok s -> reachable s c ->
  (forall gid lg gs, get_group c gid = Some (lg, gs) ->
     lg_state lg <> GroupDead /\ (lg_leader lg = "" \/ is_Some (gs_Members gs !! lg_leader lg))) /\
  (forall r rd, gc_rounds c !! r = Some rd -> r_closed rd = true ->
     exists leader gen proto members,
       members.*1 ≡ₚ elements (dom (r_results rd)) /\ (r_results rd <> ∅ -> leader ∈ dom (r_results rd)) /\
       forall id res, r_results rd !! id = Some res ->
         jr_MemberID res = id /\ jr_LeaderID res = leader /\ jr_Generation res = gen /\ jr_Protocol res = proto /\
         (jr_IsLeader res = true <-> id = leader) /\ jr_Members res = if bool_decide (id = leader) then members else []).
Proof.
  intros Hs Hr. pose proof (reachable_wf _ _ Hs Hr) as Hwf. split.
  - intros gid lg gs Hg. destruct (coord_wf_get _ _ _ _ Hwf Hg) as ([H1 H2 _ _] & _). done.
  - intros r rd Hrd Hcl. pose proof (cw_rounds _ Hwf _ _ Hrd) as H. unfold round_ok in H. rewrite Hcl in H.
    destruct H as (gid & gs & leader & members & Hres & Hl & Hm & _).
    exists leader, (gs_Generation gs), (gs_Protocol gs), members. split; [done|]. split.
    { intros Hne. apply elem_of_dom. auto. }
    intros id res Hid. rewrite (Hres _ _ Hid). cbn. split_and!; try done. apply bool_decide_eq_true.
Qed.

Lemma Group_invariant_witness :
  (forall gid lg gs, get_group gen_one gid = Some (lg, gs) ->
     lg_state lg <> GroupDead /\ (lg_leader lg = "" \/ is_Some (gs_Members gs !! lg_leader lg))) /\
  (forall r rd, gc_rounds gen_one !! r = Some rd -> r_closed rd = true ->
     exists leader gen proto members,
       members.*1 ≡ₚ elements (dom (r_results rd)) /\ (r_results rd <> ∅ -> leader ∈ dom (r_results rd)) /\
       forall id res, r_results rd !! id = Some res ->
         jr_MemberID res = id /\ jr_LeaderID res = leader /\ jr_Generation res = gen /\ jr_Protocol res = proto /\
         (jr_IsLeader res = true <-> id = leader) /\ jr_Members res = if bool_decide (id = leader) then members else []).
Proof. exact (Group_invariant empty_store gen_one empty_store_ok gen_one_reachable). Defined.

(** ** The join barrier *)

(** C23: When the timer of a group's current round fires before every expected
    member has rejoined, the barrier opens for everyone: the generation advances
    by one, exactly the members that joined the round remain, the leader is one
    of them, and each of them that waits with a JoinGroup is answered with that
    generation and leader, is told whether it is the leader, and gets the list
    of the remaining members if and only if it is. *)
Theorem expireRound_settles iter now w s c gid lg gs r rd :
  store_ok s -> reachable s c ->
  get_group c gid = Some (lg, gs) -> lg_round lg = Some r -> gc_rounds c !! r = Some rd -> r_closed rd = false ->
  let c' := expireRound iter now w c gid r in
  exists lg' gs', get_group c' gid = Some (lg', gs') /\ lg_state lg' = GroupCompletingRebalance /\
    gs_Generation gs' = i32 (gs_Generation gs + 1) /\
    (forall id, gs_Members gs' !! id = if decide (id ∈ r_joined rd) then gs_Members gs !! id else None) /\
    (gs_Members gs' <> ∅ -> is_Some (gs_Members gs' !! lg_leader lg')) /\
    (forall id, is_Some (gs_Members gs' !! id) -> exists res, JoinGroup_wake false c' gid r id = Some res /\
       jr_ErrorCode res = 0 /\ jr_Generation res = gs_Generation gs' /\ jr_LeaderID res = lg_leader lg' /\
       jr_IsLeader res = bool_decide (id = lg_leader lg') /\
       jr_Members res = (if bool_decide (id = lg_leader lg') then member_list gs' else [])) /\
    (member_list gs').*1 ≡ₚ elements (dom (gs_Members gs')).
Proof.
  intros Hs Hr Hget Hlr Hrd Hcl. cbn zeta. pose proof (reachable_wf _ _ Hs Hr) as Hwf.
  pose proof Hget as [Hl Hg]%get_group_Some. unfold expireRound. rewrite Hl, bool_decide_true by done.
  destruct (closeRound_spec iter now w c gid r lg gs rd Hwf Hget Hrd Hcl)
    as (lg' & gs' & rd' & -> & Es & Hcl' & _ & _ & _ & Hres).
  destruct (coord_wf_get _ _ _ _ Hwf Hget) as (Hok & _). pose proof (settle_spec iter _ lg gs rd Hok) as Hset.
  rewrite Es in Hset. destruct Hset as ([_ _ Hmok _] & Hm & Hlead & Hgen & _ & _ & _ & Hst & _).
  exists lg', (set_updated gs' now). split_and!; try done.
  - apply get_group_Some. cbn. rewrite lookup_insert_eq. split; [done|].
    rewrite (Persist_groups _ _ _ _ gs') by (cbn; apply lookup_insert_eq). apply lookup_insert_eq.
  - intros id [m Hid]. exists (round_result gid gs' (lg_leader lg') (member_list gs') id).
    split; [|done]. unfold JoinGroup_wake. cbn.
    rewrite list_lookup_insert_eq by (eapply lookup_lt_Some; done). rewrite Hcl', Hres.
    rewrite decide_True by eauto. done.
  - by apply (member_list_ids gs').
Qed.

Definition gen_zero_group : liveGroup * GroupState := default (new_live, new_group 0 "") (get_group two_joined "workers").

Definition round_zero : rebalanceRound := mkRound ∅ {["b-1"; "a-1"]} ∅ (3 * second) false false.

Lemma expireRound_settles_witness :
  exists lg' gs', get_group gen_one "workers" = Some (lg', gs') /\ lg_state lg' = GroupCompletingRebalance /\
    gs_Generation gs' = i32 (gs_Generation gen_zero_group.2 + 1) /\
    (forall id, gs_Members gs' !! id =
       if decide (id ∈ r_joined round_zero) then gs_Members gen_zero_group.2 !! id else None) /\
    (gs_Members gs' <> ∅ -> is_Some (gs_Members gs' !! lg_leader lg')) /\
    (forall id, is_Some (gs_Members gs' !! id) -> exists res, JoinGroup_wake false gen_one "workers" 0 id = Some res /\
       jr_ErrorCode res = 0 /\ jr_Generation res = gs_Generation gs' /\ jr_LeaderID res = lg_leader lg' /\
       jr_IsLeader res = bool_decide (id = lg_leader lg') /\
       jr_Members res = (if bool_decide (id = lg_leader lg') then member_list gs' else [])) /\
    (member_list gs').*1 ≡ₚ elements (dom (gs_Members gs')).
Proof.
  apply (expireRound_settles any_order (3 * second) PersistOk empty_store two_joined "workers"
           gen_zero_group.1 gen_zero_group.2 0 round_zero).
  - exact empty_store_ok.
  - exact two_joined_reachable.
  - vm_compute. reflexivity.
  - vm_compute. reflexivity.
  - vm_compute. reflexivity.
  - reflexivity.
Defined.

(** ** Generations *)

Definition gen_of (c : GroupCoordinator) (gid : string) : option Z :=
  gs_Generation <$> os_groups (gc_store c) !! gid.

Definition gen_same (c c' : GroupCoordinator) : Prop :=
  forall gid g, gen_of c gid = Some g -> gen_of c' gid = Some g.

Lemma gen_same_trans a b c : gen_same a b -> gen_same b c -> gen_same a c.
Proof. unfold gen_same. eauto. Qed.

Lemma put_group_gen c gid lg gs gs0 :
  os_groups (gc_store c) !! gid = Some gs0 -> gs_Generation gs = gs_Generation gs0 ->
  gen_same c (put_group c gid lg gs).
Proof.
  intros H0 Hg gid' g. unfold gen_of. cbn. destruct (decide (gid' = gid)) as [->|].
  - rewrite lookup_insert_eq, H0. cbn. by rewrite Hg.
  - by rewrite lookup_insert_ne.
Qed.

Lemma persist_gen now w c gid l r : gen_same c (mkCoord (Persist now w (gc_store c) gid).1 l r).
Proof.
  intros gid' g. unfold gen_of. cbn. unfold Persist.
  destruct (os_groups (gc_store c) !! gid) as [gs|] eqn:E; [|done].
  assert (gs_Generation <$> <[gid := set_updated gs now]> (os_groups (gc_store c)) !! gid' =
          gs_Generation <$> os_groups (gc_store c) !! gid') as Hl.
  { destruct (decide (gid' = gid)) as [->|]; [by rewrite lookup_insert_eq, E|by rewrite lookup_insert_ne]. }
  destruct w; cbn; by rewrite Hl.
Qed.

(** At most one group moves, by one, and only when a round of it closes. *)
Definition gen_bump (c c' : GroupCoordinator) : Prop :=
  forall gid g, gen_of c gid = Some g -> exists g', gen_of c' gid = Some g' /\
    (g' = g \/ g' = i32 (g + 1) /\ exists r rd', gc_rounds c' !! r = Some rd' /\ r_closed rd' = true /\
       (forall rd, gc_rounds c !! r = Some rd -> r_closed rd = false)).

Lemma gen_same_bump c c' : gen_same c c' -> gen_bump c c'.
Proof. intros H gid g Hg. eauto. Qed.

Lemma closeRound_gen iter now w c gid r :
  coord_wf c -> gen_bump c (closeRound iter now w c gid r).
Proof.
  intros Hwf. destruct (get_group c gid) as [[lg gs]|] eqn:Hget;
    [|unfold closeRound; rewrite Hget; apply gen_same_bump; by intros ??].
  destruct (gc_rounds c !! r) as [rd|] eqn:Hr; [|unfold closeRound; rewrite Hget, Hr; apply gen_same_bump; by intros ??].
  destruct (r_closed rd) eqn:Hcl; [unfold closeRound; rewrite Hget, Hr, Hcl; apply gen_same_bump; by intros ??|].
  destruct (closeRound_spec iter now w c gid r lg gs rd Hwf Hget Hr Hcl)
    as (lg' & gs' & rd' & -> & Es & Hcl' & _).
  destruct (coord_wf_get _ _ _ _ Hwf Hget) as (Hok & _). pose proof (settle_spec iter _ lg gs rd Hok) as Hset.
  rewrite Es in Hset. destruct Hset as (_ & _ & _ & Hgen & _). apply get_group_Some in Hget as [_ Hg].
  intros gid' g. unfold gen_of at 1. intros H.
  destruct (decide (gid' = gid)) as [->|Hne].
  - rewrite Hg in H. cbn in H. simplify_eq. exists (i32 (gs_Generation gs + 1)). split.
    + apply (persist_gen now w (put_group c gid lg' gs')). unfold gen_of. cbn.
      rewrite lookup_insert_eq. cbn. by rewrite Hgen.
    + right. split; [done|]. exists r, rd'. cbn.
      rewrite list_lookup_insert_eq by (eapply lookup_lt_Some; done).
      split_and!; try done. intros rd0. rewrite Hr. by intros [= <-].
  - exists g. split; [|by left]. apply (persist_gen now w (put_group c gid lg' gs')). unfold gen_of. cbn.
    by rewrite lookup_insert_ne.
Qed.

(** Closed rounds stay closed. *)
Definition closed_stay (c c' : GroupCoordinator) : Prop :=
  forall r rd, gc_rounds c !! r = Some rd -> r_closed rd = true ->
    exists rd', gc_rounds c' !! r = Some rd' /\ r_closed rd' = true.

Lemma gen_bump_after c c1 c' : gen_same c c1 -> closed_stay c c1 -> gen_bump c1 c' -> gen_bump c c'.
Proof.
  intros Hs Hc Hb gid g Hg. destruct (Hb gid g (Hs _ _ Hg)) as (g' & Hg' & [->|(-> & r & rd' & Hr & Hcl & Hop)]).
  - eauto.
  - exists (i32 (g + 1)). split; [done|]. right. split; [done|]. exists r, rd'. split_and!; try done.
    intros rd Hrd. destruct (r_closed rd) eqn:E; [|done].
    destruct (Hc _ _ Hrd E) as (rd1 & Hrd1 & Hcl1). by rewrite (Hop _ Hrd1) in Hcl1.
Qed.

Lemma open_round_stay now args gs lg rounds r rd :
  rounds !! r = Some rd -> (open_round now args gs lg rounds).1.2 !! r = Some rd.
Proof.
  intros H. unfold open_round. destruct (lg_round lg) as [r'|]; [destruct (default _ _)|]; cbn; [|done|];
    by apply lookup_app_l_Some.
Qed.

Lemma register_gen now c args member lg gs gs0 :
  os_groups (gc_store c) !! ja_GroupID args = Some gs0 -> gs_Generation gs = gs_Generation gs0 ->
  gen_same c (register now c args member lg gs).1.1 /\ closed_stay c (register now c args member lg gs).1.1.
Proof.
  intros H0 Hg. unfold register. pose proof (open_round_stay now args gs lg (gc_rounds c)) as Hst.
  destruct (open_round now args gs lg (gc_rounds c)) as [[lg1 rounds] r]. cbn [fst snd] in Hst.
  assert (forall lg2 gs2, gs_Generation gs2 = gs_Generation gs0 -> forall rounds',
    gen_same c (mkCoord (gc_store (put_group c (ja_GroupID args) lg2 gs2))
                        (gc_live (put_group c (ja_GroupID args) lg2 gs2)) rounds')) as Hgen.
  { intros lg2 gs2 Hg2 rounds'. exact (put_group_gen c (ja_GroupID args) lg2 gs2 gs0 H0 Hg2). }
  destruct (rounds !! r) as [rd|] eqn:Hrd; (split; [by apply Hgen|]).
  - intros r' rd' Hr' Hcl. cbn. apply Hst in Hr'. destruct (decide (r' = r)) as [->|].
    + rewrite list_lookup_insert_eq by (eapply lookup_lt_Some; done). simplify_eq. by eexists.
    + rewrite list_lookup_insert_ne by done. eauto.
  - intros r' rd' Hr' Hcl. cbn. apply Hst in Hr'. eauto.
Qed.

Lemma join_round_gen iter now w c args member lg gs gs0 :
  coord_wf c -> group_ok (length (gc_rounds c)) lg gs -> gs_GroupID gs = ja_GroupID args -> group_name_ok (ja_GroupID args) ->
  os_groups (gc_store c) !! ja_GroupID args = Some gs0 -> gs_Generation gs = gs_Generation gs0 ->
  gen_bump c (join_round iter now w c args member lg gs).1.
Proof.
  intros Hwf Hok Hid Hne H0 Hg. pose proof (register_wf now c args member lg gs Hwf Hok Hid Hne) as Hr.
  destruct (register_gen now c args member lg gs gs0 H0 Hg) as [Hs Hc].
  unfold join_round. destruct (register now c args member lg gs) as [[c' r] back]. cbn [fst snd] in *.
  destruct back; [|by apply gen_same_bump].
  eapply gen_bump_after; [done..|]. by apply closeRound_gen.
Qed.

Lemma findOrCreate_gen now c gid : gen_same c (findOrCreate now c gid).
Proof.
  intros gid' g. unfold findOrCreate, gen_of. destruct (gc_live c !! gid); [done|]. cbn.
  unfold OffsetStore_Get. destruct (os_groups (gc_store c) !! gid) eqn:E; [done|]. cbn.
  destruct (decide (gid' = gid)) as [->|]; [by rewrite E|by rewrite lookup_insert_ne].
Qed.

Lemma JoinGroup_gen iter now rnd w c args :
  coord_wf c -> gen_bump c (JoinGroup_enter iter now rnd w c args).1.
Proof.
  intros Hwf. unfold JoinGroup_enter.
  destruct (ValidateName "group" (ja_GroupID args)) as [[]| | |] eqn:Ev; [|by apply gen_same_bump; intros ??..].
  pose proof (valid_group_name _ _ Ev) as Hne. destruct (findOrCreate_wf now c _ Hwf Hne) as [Hwf1 Hr1].
  eapply gen_bump_after; [apply (findOrCreate_gen now c (ja_GroupID args))| |].
  { intros r rd. rewrite Hr1. eauto. }
  set (c1 := findOrCreate _ _ _) in *. clearbody c1.
  destruct (get_group c1 _) as [[lg gs]|] eqn:Hget; [|by apply gen_same_bump; intros ??].
  destruct (coord_wf_get _ _ _ _ Hwf1 Hget) as (Hok & _ & Hid). apply get_group_Some in Hget as [_ Hg].
  unfold evictExpired. set (gone := dom (filter _ (gs_Members gs))).
  pose proof (drop_members_ok _ gone lg gs Hok) as Hok1.
  pose proof (drop_members_frame gone lg gs) as Hfr. destruct (drop_members gone lg gs) as [lg1 gs1].
  destruct Hfr as (Hgen & Hgid & _). cbn [fst snd] in *. rewrite Hid in Hgid.
  destruct (String.eqb (ja_MemberID args) ""); [|by eapply join_round_gen].
  assert (group_ok (length (gc_rounds c1)) (drop_same_client args lg1 gs1).1 (drop_same_client args lg1 gs1).2 /\
          gs_GroupID (drop_same_client args lg1 gs1).2 = ja_GroupID args /\
          gs_Generation (drop_same_client args lg1 gs1).2 = gs_Generation gs) as (Hok2 & Hid2 & Hg2).
  { unfold drop_same_client. destruct (String.eqb (ja_ClientID args) ""); [done|].
    split_and!; [by apply drop_members_ok|done|done]. }
  destruct (drop_same_client args lg1 gs1) as [lg2 gs2]; cbn [fst snd] in *.
  destruct (ja_APIVersion args >=? 4); [|by eapply join_round_gen].
  apply gen_same_bump. by eapply put_group_gen.
Qed.

Lemma SyncGroup_gen now w c args : gen_same c (SyncGroup_enter now w c args).1.
Proof.
  unfold SyncGroup_enter. destruct (get_group c _) as [[lg gs]|] eqn:Hget; [|by intros ??].
  apply get_group_Some in Hget as [_ Hg].
  destruct (negb _); [by intros ??|]. destruct (gs_Members gs !! sa_MemberID args) as [m|]; [|by intros ??].
  destruct (String.eqb _ _).
  - set (lg1 := set_state _ _). set (gs1 := set_members gs _).
    pose proof (put_group_gen c _ lg1 gs1 gs Hg eq_refl) as H1.
    pose proof (persist_gen now w (put_group c (sa_GroupID args) lg1 gs1) (sa_GroupID args)
                  (gc_live (put_group c (sa_GroupID args) lg1 gs1)) (gc_rounds c)) as H2.
    destruct (Persist _ _ _ _) as [store [[]| | |]]; cbn [fst] in *;
      try (eapply gen_same_trans; [exact H1|exact H2]).
    eapply gen_same_trans; [exact H1|]. eapply gen_same_trans; [exact H2|].
    unfold mark_synced. destruct (lg_round lg1) as [r|]; [|by intros ??]. by destruct (gc_rounds _ !! r); intros ??.
  - pose proof (put_group_gen c _ (set_heartbeats lg (<[sa_MemberID args := now]> (lg_heartbeats lg))) gs gs Hg eq_refl).
    destruct (lg_round _); [|done]. by destruct (default _ _).
Qed.

Lemma LeaveGroup_gen now w c gid member : gen_same c (LeaveGroup now w c gid member).1.
Proof.
  unfold LeaveGroup. destruct (get_group c _) as [[lg gs]|] eqn:Hget; [|by intros ??].
  apply get_group_Some in Hget as [_ Hg]. destruct (gs_Members gs !! member) as [m|]; [|by intros ??]. cbn [fst].
  eapply gen_same_trans; [|apply persist_gen]. eapply put_group_gen; [exact Hg|].
  by destruct (String.eqb _ _).
Qed.

(** The generation of a group never moves except that closing a round adds
    one to it (as a 32-bit integer): every other handler, timer and commit
    leaves it alone, and no step skips one. *)
Theorem generation_steps s c c' gid g :
  store_ok s -> reachable s c -> step c c' -> gen_of c gid = Some g ->
  exists g', gen_of c' gid = Some g' /\
    (g' = g \/ g' = i32 (g + 1) /\ exists r rd', gc_rounds c' !! r = Some rd' /\ r_closed rd' = true /\
       (forall rd, gc_rounds c !! r = Some rd -> r_closed rd = false)).
Proof.
  intros Hs Hr Hst. pose proof (reachable_wf _ _ Hs Hr) as Hwf. revert gid g. change (gen_bump c c').
  destruct Hst.
  - by apply JoinGroup_gen.
  - unfold expireRound. destruct (gc_live c !! gid); [|apply gen_same_bump; by intros ??].
    case_bool_decide; [by apply closeRound_gen|apply gen_same_bump; by intros ??].
  - apply gen_same_bump, SyncGroup_gen.
  - apply gen_same_bump. unfold Heartbeat. destruct (get_group c gid) as [[lg gs]|]; [|by intros ??].
    destruct (negb _); [by intros ??|]. by destruct (gs_Members gs !! member); intros ??.
  - apply gen_same_bump, LeaveGroup_gen.
  - apply gen_same_bump. intros gid g'. unfold gen_of. cbn.
    destruct (os_groups (gc_store c) !! gid) as [gs|] eqn:E; [|done]. cbn. intros [= <-].
    destruct (CommitOffset_keeps now w _ g t p o e m _ _ E) as (gs' & -> & _ & Hg). cbn. by rewrite Hg.
Qed.

Lemma generation_steps_witness :
  exists g', gen_of gen_one "workers" = Some g' /\
    (g' = 0 \/ g' = i32 (0 + 1) /\ exists r rd', gc_rounds gen_one !! r = Some rd' /\ r_closed rd' = true /\
       (forall rd, gc_rounds two_joined !! r = Some rd -> r_closed rd = false)).
Proof.
  apply (generation_steps empty_store two_joined gen_one "workers" 0).
  - exact empty_store_ok.
  - exact two_joined_reachable.
  - apply (step_expire any_order (3 * second) PersistOk two_joined "workers" 0).
  - vm_compute. reflexivity.
Defined.

(** C24: A member that speaks for another generation, or that the group does not
    know, is turned away and cannot touch the group: its heartbeat and its sync
    answer ILLEGAL_GENERATION, respectively UNKNOWN_MEMBER_ID when the generation
    is right, and leave the state exactly as it was. *)
Theorem stale_generation_rejected now w c gid lg gs member gen assignments :
  get_group c gid = Some (lg, gs) -> gs_Generation gs <> gen \/ gs_Members gs !! member = None ->
  let answer := if decide (gs_Generation gs = gen) then unknownMember else illegalGeneration in
  Heartbeat now c gid member gen = (c, answer) /\
  SyncGroup_enter now w c (mkSyncArgs gid gen member assignments) = (c, SReply (Ok (sync_error answer))).
Proof.
  intros Hget Hne. unfold Heartbeat, SyncGroup_enter. cbn. rewrite Hget. destruct (decide (gs_Generation gs = gen)) as [<-|Hg].
  - rewrite Z.eqb_refl. destruct Hne as [?|Hm]; [done|]. by rewrite Hm.
  - by rewrite (proj2 (Z.eqb_neq _ _)).
Qed.

Definition gen_one_group : liveGroup * GroupState := default (new_live, new_group 0 "") (get_group gen_one "workers").

(** A member of the group that is one generation late; a stranger in the right one. *)
Lemma stale_generation_rejected_witness :
  (Heartbeat 5 gen_one "workers" "a-1" 0 = (gen_one, illegalGeneration) /\
   SyncGroup_enter 5 PersistOk gen_one (mkSyncArgs "workers" 0 "a-1" ∅) =
     (gen_one, SReply (Ok (sync_error illegalGeneration)))) /\
  (Heartbeat 5 gen_one "workers" "z-9" 1 = (gen_one, unknownMember) /\
   SyncGroup_enter 5 PersistOk gen_one (mkSyncArgs "workers" 1 "z-9" ∅) =
     (gen_one, SReply (Ok (sync_error unknownMember)))).
Proof.
  split.
  - apply (stale_generation_rejected 5 PersistOk gen_one "workers" gen_one_group.1 gen_one_group.2 "a-1" 0 ∅).
    + vm_compute. reflexivity.
    + left. vm_compute. discriminate.
  - apply (stale_generation_rejected 5 PersistOk gen_one "workers" gen_one_group.1 gen_one_group.2 "z-9" 1 ∅).
    + vm_compute. reflexivity.
    + right. vm_compute. reflexivity.
Defined.

(** ** Distributing assignments *)

(** The state after a successful sync of the leader. *)
Lemma SyncGroup_leader now c gid lg gs r gen assignments m :
  get_group c gid = Some (lg, gs) -> gs_Generation gs = gen -> gs_Members gs !! lg_leader lg = Some m ->
  lg_round lg = Some r -> (r < length (gc_rounds c))%nat ->
  exists c' lg' gs', SyncGroup_enter now PersistOk c (mkSyncArgs gid gen (lg_leader lg) assignments) =
      (c', SReply (Ok (mkSyncResult (ms_Assignment (default m (assign_members assignments (gs_Members gs) !! lg_leader lg))) 0))) /\
    get_group c' gid = Some (lg', gs') /\ gs_Generation gs' = gen /\
    gs_Members gs' = assign_members assignments (gs_Members gs) /\
    lg_round lg' = Some r /\ lg_leader lg' = lg_leader lg /\ lg_state lg' = GroupStable /\
    r_synced <$> gc_rounds c' !! r = Some true.
Proof.
  intros Hget <- Hm Hr Hlen. unfold SyncGroup_enter. cbn. rewrite Hget, Z.eqb_refl, Hm. cbn.
  rewrite String.eqb_refl. unfold Persist. cbn. rewrite lookup_insert_eq, Hr. cbn.
  destruct (lookup_lt_is_Some_2 _ _ Hlen) as [rd Hrd]. rewrite Hrd.
  eexists _, _, _. split.
  - rewrite assign_members_lookup, Hm. done.
  - split; [apply get_group_Some; cbn; rewrite !lookup_insert_eq; done|]. cbn. split_and!; try done.
    by rewrite list_lookup_insert_eq.
Qed.



(** Whatever order Go iterates the members in, the protocol chosen for a
    generation is one that every member advertised, whenever there is one. *)
Theorem pickCommonProtocol_supported iter (members : gmap string MemberState) protocols p :
  (forall x, iter x ≡ₚ map_to_list x) -> members <> ∅ ->
  (forall id m, members !! id = Some m -> p ∈ ms_Protocols m) ->
  forall id m, members !! id = Some m -> pickCommonProtocol (iter members).*2 protocols ∈ ms_Protocols m.
Proof.
  intros Hit Hne Hp id m Hm.
  assert (forall x, x ∈ (iter members).*2 -> exists k, members !! k = Some x) as Hin.
  { intros x ([k y] & -> & Hk)%list_elem_of_fmap. rewrite Hit in Hk. exists k. by apply elem_of_map_to_list. }
  apply (pickCommonProtocol_common _ _ p).
  - intros E. apply fmap_nil_inv in E. specialize (Hit members). rewrite E in Hit.
    apply Permutation_nil_l in Hit. symmetry in Hit. by apply map_to_list_empty_iff in Hit.
  - intros x (k & Hk)%Hin. by eapply Hp.
  - apply list_elem_of_fmap. exists (id, m). split; [done|]. rewrite Hit. by apply elem_of_map_to_list.
Qed.

Definition mixed_members : gmap string MemberState :=
  {[ "a-1" := mkMember "a-1" "a" "h" 1 1 [] [] ["range"; "sticky"];
     "b-1" := mkMember "b-1" "b" "h" 1 1 [] [] ["sticky"; "roundrobin"] ]}.

Lemma pickCommonProtocol_supported_witness :
  pickCommonProtocol (map_to_list mixed_members).*2 [] ∈ ["sticky"; "roundrobin"].
Proof.
  apply (pickCommonProtocol_supported map_to_list mixed_members [] "sticky") with (id := "b-1")
    (m := mkMember "b-1" "b" "h" 1 1 [] [] ["sticky"; "roundrobin"]).
  - reflexivity.
  - intros H. apply (f_equal (fun x => x !! "a-1")) in H. vm_compute in H. discriminate H.
  - intros id m H. unfold mixed_members in H. apply lookup_insert_Some in H as [[_ <-]|[_ H]].
    + apply elem_of_cons. right. apply elem_of_cons. left. reflexivity.
    + apply lookup_singleton_Some in H as [_ <-]. apply elem_of_cons. left. reflexivity.
  - vm_compute. reflexivity.
Defined.

(** ** A sync that lands in the next round *)

(** [c] joins before the leader [a] of generation 1 has synced, which opens
    round 1; the leader's late sync of generation 1 then marks round 1 synced;
    [a] and [b] rejoin and settle generation 2. *)
Definition c_joined : GroupCoordinator := join (3 * second) "c-1" "c" gen_one.
Definition late_sync : GroupCoordinator :=
  (SyncGroup_enter (3 * second) PersistOk c_joined
     (mkSyncArgs "workers" 1 "a-1" {[ "a-1" := [x01]; "b-1" := [x02] ]})).1.
Definition gen_two : GroupCoordinator := join (3 * second) "a-1" "a" (join (3 * second) "b-1" "b" late_sync).

(** The sync barrier can be opened by the leader of the previous
    generation.  There is a run in which a follower of generation 2 gets an
    (empty) assignment back at once although no leader of generation 2 has
    synced, and in which the late sync also hides the rebalance in progress
    from heartbeats. *)
Theorem late_sync_opens_next_barrier :
  reachable empty_store gen_two /\ gen_of gen_two "workers" = Some 2 /\
  lg_round <$> gc_live gen_two !! "workers" = Some (Some 1%nat) /\
  r_synced <$> gc_rounds c_joined !! 1%nat = Some false /\ r_synced <$> gc_rounds gen_two !! 1%nat = Some true /\
  (SyncGroup_enter 0 PersistOk gen_two (mkSyncArgs "workers" 2 "c-1" ∅)).2 = SReply (Ok (mkSyncResult [] 0)) /\
  (Heartbeat 0 c_joined "workers" "b-1" 1).2 = rebalanceInProgress /\
  (Heartbeat 0 late_sync "workers" "b-1" 1).2 = 0.
Proof.
  split; [|vm_compute; split_and!; reflexivity].
  unfold reachable. apply (rtc_r _ (join (3 * second) "b-1" "b" late_sync) _).
  2: exact (step_join any_order (3 * second) "a" PersistOk (join (3 * second) "b-1" "b" late_sync) (join_args "a-1" "a")).
  apply (rtc_r _ late_sync _).
  2: exact (step_join any_order (3 * second) "b" PersistOk late_sync (join_args "b-1" "b")).
  apply (rtc_r _ c_joined _).
  2: exact (step_sync (3 * second) PersistOk c_joined (mkSyncArgs "workers" 1 "a-1" {[ "a-1" := [x01]; "b-1" := [x02] ]})).
  apply (rtc_r _ gen_one _).
  2: exact (step_join any_order (3 * second) "c" PersistOk gen_one (join_args "c-1" "c")).
  exact gen_one_reachable.
Qed.
