(* ===== verification/Frame.v ===== *)
(** * Request and response frames (internal/wire/frame.go)

    A connection is the list of bytes it will still deliver.  The table of
    flexible API versions belongs to the kmsg package and is an argument. *)

From S2P Require Import Prelude Bytes Names.

Definition maxFrameSize : Z := 16 * 1024 * 1024.

Record RequestHeader := mkReqHeader {
  APIKey : Z;
  APIVersion : Z;
  CorrelationID : Z;
  ClientID : list byte
}.

(** ** Unsigned varints *)

(** The loop of [uvarint] at index [i] with accumulator [x] and shift [s]. *)
Fixpoint uvarint_loop (b : list byte) (i x s : Z) : res (Z * Z) :=
  match b with
  | [] => Err (EMsg "truncated varint")
  | c :: b =>
      let c := b2z c in
      if (i =? 9) && (c >? 1) then Err (EMsg "varint overflows 64 bits")
      else if c <? 0x80 then Ok (Z.lor x (u64 (Z.shiftl c s)), i + 1)
      else uvarint_loop b (i + 1) (Z.lor x (u64 (Z.shiftl (Z.land c 0x7f) s))) (s + 7)
  end.

Definition uvarint (b : list byte) : res (Z * Z) := uvarint_loop b 0 0 0.

(** [b[off:]]; panics out of range. *)
Definition slice_from (b : list byte) (off : Z) : res (list byte) :=
  if (off <? 0) || (off >? zlen b) then Panic else Ok (drop (Z.to_nat off) b).

(** The loop of [skipTaggedFields]: [count] fields remain, the next one starts
    at [off].  The count is an arbitrary 64-bit number, so the loop has its own
    fuel. *)
Fixpoint skip_loop (fuel : nat) (b : list byte) (count off : Z) : res Z :=
  match fuel with
  | O => Diverge
  | S fuel =>
      if count <=? 0 then Ok off
      else
        rest ← slice_from b off;
        '(_, n) ← wrap_err "tagged field tag" (uvarint rest);
        let off := off + n in
        rest ← slice_from b off;
        '(size, n) ← wrap_err "tagged field size" (uvarint rest);
        let off := off + n in
        if u64 (u64 off + size) >? zlen b
        then Err (EMsg "tagged field runs past the end of the frame")
        else skip_loop fuel b (count - 1) (i64 (off + i64 size))
  end.

Definition skipTaggedFields (fuel : nat) (b : list byte) : res Z :=
  '(count, n) ← wrap_err "tagged fields" (uvarint b);
  skip_loop fuel b count n.

(** ** Requests *)

(** [io.ReadFull] of [n] bytes: the bytes and what is left of the stream. *)
Definition read_full (conn : list byte) (n : Z) : res (list byte * list byte) :=
  if zlen conn <? n
  then Err (if bool_decide (conn = []) then ESentinel ErrEOF else EMsg "unexpected EOF")
  else Ok (take (Z.to_nat n) conn, drop (Z.to_nat n) conn).

Definition readRequest (flexible : Z -> Z -> bool) (fuel : nat) (maxBytes : Z) (conn : list byte)
  : res (RequestHeader * list byte * list byte) :=
  '(sizeBuf, conn) ← read_full conn 4;
  let size := i32 (be_decode sizeBuf) in
  if size <=? 0 then Err (EMsg "invalid frame size")
  else if size >? maxBytes then Err (EMsg "frame size exceeds max")
  else if size >? maxFrameSize then Err (EMsg "frame size exceeds hard cap")
  else
    '(frame, conn) ← read_full conn size;
    if zlen frame <? 8 then Err (EMsg "frame shorter than fixed header")
    else
      let key := i16 (get_be frame 0 2) in
      let version := i16 (get_be frame 2 4) in
      let corr := i32 (get_be frame 4 8) in
      if zlen frame <? 10 then Err (EMsg "frame too short for client_id length")
      else
        let clientIDLen := i16 (get_be frame 8 10) in
        '(clientID, bodyStart) ←
          (if clientIDLen >=? 0 then
             let stop := 10 + clientIDLen in
             if stop >? zlen frame then Err (EMsg "frame too short for client_id bytes")
             else Ok (slice frame 10 stop, stop)
           else Ok ([], 10));
        let hdr := mkReqHeader key version corr clientID in
        bodyStart ←
          (if flexible key version then
             rest ← slice_from frame bodyStart;
             n ← wrap_err "api key" (skipTaggedFields fuel rest);
             Ok (bodyStart + n)
           else Ok bodyStart);
        body ← slice_from frame bodyStart;
        Ok (hdr, body, conn).

(** ** Responses *)

(** The bytes [writeResponse] puts on the connection. *)
Definition writeResponse (correlationID : Z) (body : list byte) (flexibleHeader : bool) : list byte :=
  let headerSize := if flexibleHeader then 5 else 4 in
  let totalSize := i32 (headerSize + zlen body) in
  be_encode 4 (u32 totalSize) ++ be_encode 4 (u32 correlationID) ++
  (if flexibleHeader then [x00] else []) ++ body.
