(* ===== verification/FrameProps.v ===== *)
(** * Correctness of the framing layer *)

From S2P Require Import Prelude Bytes Names Frame.

(** ** Varints *)

(** Bits above a number's size are free: or-ing there is adding. *)
Lemma lor_add x c s : 0 <= s -> 0 <= x < 2 ^ s -> Z.lor x (Z.shiftl c s) = x + c * 2 ^ s.
Proof.
  intros Hs Hx. rewrite <- Z.shiftl_mul_pow2 by done.
  assert (Z.land x (Z.shiftl c s) = 0) as H0; [|pose proof (Z.add_lor_land x (Z.shiftl c s)); lia].
  apply Z.bits_inj'. intros i Hi. rewrite Z.land_spec, Z.bits_0.
  destruct (Z.ltb_spec i s) as [H|H].
  - rewrite Z.shiftl_spec_low by done. apply andb_false_r.
  - rewrite <- (Z.mod_small x (2 ^ s)), Z.mod_pow2_bits_high by lia. done.
Qed.

Lemma lor_range n x y : 0 <= n -> 0 <= x < 2 ^ n -> 0 <= y < 2 ^ n -> 0 <= Z.lor x y < 2 ^ n.
Proof.
  intros Hn Hx Hy. assert (0 <= Z.lor x y) as H0 by (apply Z.lor_nonneg; lia). split; [done|].
  destruct (Z.eq_dec (Z.lor x y) 0) as [->|Hne]; [lia|].
  apply Z.log2_lt_pow2; [lia|]. rewrite Z.log2_lor by lia. apply Z.max_lub_lt.
  - destruct (Z.eq_dec x 0) as [->|]; [|apply Z.log2_lt_pow2; lia].
    destruct (Z.eq_dec n 0) as [->|]; [|simpl; lia].
    assert (y = 0) as -> by (simpl in Hy; lia). by rewrite Z.lor_0_l in Hne.
  - destruct (Z.eq_dec y 0) as [->|]; [|apply Z.log2_lt_pow2; lia].
    destruct (Z.eq_dec n 0) as [->|]; [|simpl; lia].
    assert (x = 0) as -> by (simpl in Hx; lia). by rewrite Z.lor_0_l in Hne.
Qed.

(** Decoding returns a 64-bit value and the number of bytes used, or one of
    its two errors. *)
Lemma uvarint_loop_cases b : forall i x s, 0 <= x < 2 ^ 64 ->
  (exists v n, uvarint_loop b i x s = Ok (v, i + n) /\ 0 <= v < 2 ^ 64 /\ 1 <= n <= zlen b) \/
  (exists e, uvarint_loop b i x s = Err e).
Proof.
  induction b as [|c b IH]; intros i x s Hx; cbn [uvarint_loop]; [eauto|].
  pose proof (zlen_nonneg b). rewrite zlen_cons.
  destruct ((i =? 9) && (b2z c >? 1)); [by eauto|]. destruct (b2z c <? 0x80).
  - left. eexists _, 1. split; [done|]. split; [|lia].
    apply lor_range; [lia|done|]. apply wrap_u_range. lia.
  - destruct (IH (i + 1) (Z.lor x (u64 (Z.shiftl (Z.land (b2z c) 0x7f) s))) (s + 7)) as [(v & n & -> & Hv & Hn)|[e ->]].
    + apply lor_range; [lia|done|]. apply wrap_u_range. lia.
    + left. exists v, (n + 1). split; [do 2 f_equal; lia|]. split; [done|lia].
    + by eauto.
Qed.

Lemma uvarint_cases b :
  (exists v n, uvarint b = Ok (v, n) /\ 0 <= v < 2 ^ 64 /\ 1 <= n <= zlen b) \/ (exists e, uvarint b = Err e).
Proof. apply (uvarint_loop_cases b 0 0 0). lia. Qed.

(** The canonical encoding, seven bits per byte, least significant first. *)
Fixpoint put_uvarint (fuel : nat) (v : Z) : list byte :=
  match fuel with
  | O => []
  | S fuel => if v <? 0x80 then [z2b v] else z2b (0x80 + v mod 0x80) :: put_uvarint fuel (v / 0x80)
  end.
Definition encode_uvarint (v : Z) : list byte := put_uvarint 10 v.

Lemma uvarint_loop_encode fuel : forall v i x rest,
  0 <= v -> 0 <= i <= 9 -> i + Z.of_nat fuel = 10 -> 0 <= x < 2 ^ (7 * i) -> v * 2 ^ (7 * i) < 2 ^ 64 -> v < 2 ^ (7 * Z.of_nat fuel) ->
  uvarint_loop (put_uvarint fuel v ++ rest) i x (7 * i) =
    Ok (x + v * 2 ^ (7 * i), i + zlen (put_uvarint fuel v)).
Proof.
  induction fuel as [|fuel IH]; intros v i x rest Hv Hi Hf Hx H64 Hlt; [lia|].
  assert (0 < 2 ^ (7 * i)) as Hp by (apply Z.pow_pos_nonneg; lia).
  assert (forall c, 0 <= c -> c <= v -> u64 (Z.shiftl c (7 * i)) = Z.shiftl c (7 * i)) as Hu.
  { intros c ??. rewrite Z.shiftl_mul_pow2 by lia. apply u64_small. nia. }
  cbn [put_uvarint]. destruct (Z.ltb_spec v 0x80) as [Hs|Hs]; cbn [app uvarint_loop].
  - rewrite b2z_z2b, Z.mod_small by lia.
    assert ((i =? 9) && (v >? 1) = false) as ->.
    { destruct (Z.eqb_spec i 9) as [->|]; [|done]. simpl in H64. rewrite Z.gtb_ltb. apply Z.ltb_ge. lia. }
    rewrite (proj2 (Z.ltb_lt _ _)) by lia. rewrite Hu, lor_add by lia. done.
  - assert (i < 9) as Hi9.
    { destruct (Z.lt_ge_cases i 9); [done|]. assert (i = 9) as -> by lia. simpl in H64. lia. }
    pose proof (Z.mod_pos_bound v 0x80 ltac:(lia)).
    rewrite b2z_z2b, Z.mod_small by lia.
    rewrite (proj2 (Z.eqb_neq _ _)), (proj2 (Z.ltb_ge _ _)) by lia. cbn [andb].
    assert (Z.land (128 + v mod 128) 127 = v mod 128) as ->.
    { change 127 with (Z.ones 7). rewrite Z.land_ones by lia. change (2 ^ 7) with 128.
      rewrite <- Z.add_mod_idemp_l by lia. rewrite Z.mod_same by lia. rewrite Z.add_0_l, Z.mod_mod by lia. done. }
    pose proof (Z.div_mod v 128 ltac:(lia)) as Hdm.
    rewrite Hu by (pose proof (Z.mod_le v 128); lia). rewrite lor_add by lia.
    assert (2 ^ (7 * (i + 1)) = 128 * 2 ^ (7 * i)) as Hpow.
    { replace (7 * (i + 1)) with (7 + 7 * i) by lia. rewrite Z.pow_add_r by lia. done. }
    replace (7 * i + 7) with (7 * (i + 1)) by lia.
    assert (v / 128 < 2 ^ (7 * Z.of_nat fuel)) as Hq.
    { apply Z.div_lt_upper_bound; [lia|]. rewrite Nat2Z.inj_succ in Hlt.
      replace (7 * Z.succ (Z.of_nat fuel)) with (7 + 7 * Z.of_nat fuel) in Hlt by lia.
      rewrite Z.pow_add_r in Hlt by lia. exact Hlt. }
    assert (0 <= v / 128) by (apply Z.div_pos; lia).
    rewrite IH; rewrite ?Hpow; [|lia|lia|lia|nia|nia|done].
    rewrite zlen_cons. do 2 f_equal; [|lia]. rewrite Hdm at 3. ring.
Qed.

Lemma uvarint_encode v rest :
  0 <= v < 2 ^ 64 -> uvarint (encode_uvarint v ++ rest) = Ok (v, zlen (encode_uvarint v)).
Proof.
  intros Hv. unfold uvarint, encode_uvarint. pose proof (uvarint_loop_encode 10 v 0 0 rest) as H.
  change (7 * 0) with 0 in H. rewrite H; [|lia|lia|lia|lia|lia|lia].
  do 2 f_equal; lia.
Qed.

(** ** Tagged fields *)

Lemma wrap_s_add_u w a b : 0 < w -> wrap_s w (a + wrap_s w b) = wrap_s w (a + b).
Proof.
  intros Hw. unfold wrap_s. f_equal. pose proof (Z.pow_pos_nonneg 2 w).
  replace (a + ((b + 2 ^ (w - 1)) mod 2 ^ w - 2 ^ (w - 1)) + 2 ^ (w - 1))
    with (a + (b + 2 ^ (w - 1)) mod 2 ^ w) by lia.
  rewrite Zplus_mod_idemp_r by lia. f_equal. lia.
Qed.

(** The new offset stays inside the buffer: the comparison wraps around, but
    so does the sum. *)
Lemma skip_next_offset off size len :
  0 <= off < 2 ^ 62 -> 0 <= len < 2 ^ 62 -> u64 (u64 off + size) <= len ->
  i64 (off + i64 size) = u64 (off + size) /\ 0 <= u64 (off + size) <= len.
Proof.
  intros Ho Hl Hle. rewrite (u64_small off) in Hle by lia.
  pose proof (wrap_u_range 64 ltac:(lia) (off + size)) as Hr. unfold in_u in Hr.
  split; [|lia]. rewrite wrap_s_add_u, <- wrap_s_u by lia. apply i64_small. lia.
Qed.

Lemma slice_from_ok b off : 0 <= off <= zlen b -> slice_from b off = Ok (drop (Z.to_nat off) b).
Proof.
  intros H. unfold slice_from. rewrite Z.gtb_ltb, !(proj2 (Z.ltb_ge _ _)) by lia. done.
Qed.

(** One turn of the loop, from any offset inside the buffer. *)
Lemma skip_loop_step fuel b count off :
  0 < count -> 0 <= off <= zlen b -> zlen b < 2 ^ 62 ->
  (exists e, skip_loop (S fuel) b count off = Err e) \/
  (exists off', 0 <= off' <= zlen b /\ forall f, skip_loop (S f) b count off = skip_loop f b (count - 1) off').
Proof.
  intros Hc Ho Hl. cbn [skip_loop]. rewrite (proj2 (Z.leb_gt _ _)) by done.
  rewrite slice_from_ok by done. cbn [mbind res_bind].
  pose proof (zlen_drop b off Ho) as Hd.
  destruct (uvarint_cases (drop (Z.to_nat off) b)) as [(tag & n & -> & _ & Hn)|[e ->]]; cbn; [|by eauto].
  rewrite slice_from_ok by lia. cbn. pose proof (zlen_drop b (off + n) ltac:(lia)) as Hd2.
  destruct (uvarint_cases (drop (Z.to_nat (off + n)) b)) as [(size & m & -> & Hs & Hm)|[e ->]]; cbn; [|by eauto].
  destruct (Z.gtb_spec (u64 (u64 (off + n + m) + size)) (zlen b)) as [|Hle]; [by eauto|].
  destruct (skip_next_offset (off + n + m) size (zlen b)) as [E Hr]; [lia|lia|done|].
  right. exists (u64 (off + n + m + size)). split; [done|]. intros f. by rewrite E.
Qed.

Lemma skip_loop_safe fuel : forall b count off,
  0 <= off <= zlen b -> zlen b < 2 ^ 62 ->
  (exists n, skip_loop fuel b count off = Ok n /\ 0 <= n <= zlen b) \/
  (exists e, skip_loop fuel b count off = Err e) \/
  (skip_loop fuel b count off = Diverge /\ Z.of_nat fuel <= Z.max 0 count).
Proof.
  induction fuel as [|fuel IH]; intros b count off Ho Hl; [right; right; split; [done|lia]|].
  destruct (Z.leb_spec count 0) as [Hc|Hc].
  { left. exists off. cbn [skip_loop]. by rewrite (proj2 (Z.leb_le _ _)). }
  destruct (skip_loop_step fuel b count off Hc Ho Hl) as [[e ->]|(off' & Ho' & E)]; [by eauto|].
  rewrite E. destruct (IH b (count - 1) off' Ho' Hl) as [?|[?|[? ?]]]; [by eauto..|].
  right; right. split; [done|lia].
Qed.

(** A tagged-fields section: its fields are tags with their data. *)
Definition encode_field (f : Z * list byte) : list byte :=
  encode_uvarint f.1 ++ encode_uvarint (zlen f.2) ++ f.2.
Definition encode_fields (fs : list (Z * list byte)) : list byte :=
  encode_uvarint (zlen fs) ++ concat (encode_field <$> fs).

Definition fields_ok (fs : list (Z * list byte)) : Prop :=
  Forall (fun f => 0 <= f.1 < 2 ^ 64) fs.

Lemma skip_loop_encode fs : forall fuel pre rest,
  (length fs < fuel)%nat -> fields_ok fs ->
  zlen (pre ++ concat (encode_field <$> fs) ++ rest) < 2 ^ 62 ->
  skip_loop fuel (pre ++ concat (encode_field <$> fs) ++ rest) (zlen fs) (zlen pre) =
    Ok (zlen pre + zlen (concat (encode_field <$> fs))).
Proof.
  induction fs as [|[tag data] fs IH]; intros fuel pre rest Hf Hok Hl; (destruct fuel as [|fuel]; [simpl in Hf; lia|]).
  { cbn. by rewrite Z.add_0_r. }
  apply Forall_cons in Hok as [Ht Hok]. cbn [fmap list_fmap concat] in *. cbn [fst] in Ht.
  set (tail := concat (encode_field <$> fs)) in *. set (t := encode_uvarint tag) in *.
  set (n := encode_uvarint (zlen data)) in *.
  assert (encode_field (tag, data) = t ++ n ++ data) as Hef by done. rewrite Hef in *. clear Hef.
  assert (forall r, uvarint (t ++ r) = Ok (tag, zlen t)) as Hut by (intros; by apply uvarint_encode).
  assert (forall r, uvarint (n ++ r) = Ok (zlen data, zlen n)) as Hun.
  { intros. apply uvarint_encode. repeat rewrite zlen_app in Hl.
    pose proof (zlen_nonneg pre). pose proof (zlen_nonneg t). pose proof (zlen_nonneg n). pose proof (zlen_nonneg data).
    pose proof (zlen_nonneg tail). pose proof (zlen_nonneg rest). lia. }
  cbn [skip_loop]. rewrite zlen_cons.
  pose proof (zlen_nonneg pre). pose proof (zlen_nonneg t). pose proof (zlen_nonneg n). pose proof (zlen_nonneg data).
  pose proof (zlen_nonneg tail). pose proof (zlen_nonneg rest). pose proof (zlen_nonneg fs).
  rewrite (proj2 (Z.leb_gt _ _)) by lia. repeat rewrite zlen_app in Hl.
  rewrite slice_from_ok by (repeat rewrite zlen_app; lia). cbn [mbind res_bind].
  assert (forall a b, drop (Z.to_nat (zlen a)) (a ++ b) = b :> list byte) as Hdrop.
  { intros a b. unfold zlen. by rewrite Nat2Z.id, drop_app_length. }
  rewrite Hdrop. rewrite <- !app_assoc. rewrite Hut. cbn [wrap_err mbind res_bind].
  rewrite slice_from_ok by (repeat rewrite zlen_app; lia). cbn [mbind res_bind].
  rewrite <- zlen_app. rewrite (app_assoc pre t), Hdrop. rewrite Hun. cbn [wrap_err mbind res_bind].
  rewrite u64_small by (rewrite u64_small; rewrite zlen_app; lia).
  rewrite (u64_small (zlen (pre ++ t) + zlen n)) by (rewrite zlen_app; lia).
  rewrite Z.gtb_ltb, (proj2 (Z.ltb_ge _ _)) by (repeat rewrite zlen_app; lia).
  rewrite !i64_small by (rewrite ?i64_small; rewrite ?zlen_app; lia).
  replace (zlen (pre ++ t) + zlen n + zlen data) with (zlen (pre ++ t ++ n ++ data)) by (repeat rewrite zlen_app; lia).
  replace (1 + zlen fs - 1) with (zlen fs) by lia.
  replace ((pre ++ t) ++ n ++ data ++ tail ++ rest) with ((pre ++ t ++ n ++ data) ++ tail ++ rest)
    by (by rewrite <- !app_assoc).
  rewrite IH; [|simpl in Hf; lia|done|repeat rewrite zlen_app; lia].
  f_equal. repeat rewrite zlen_app. lia.
Qed.

Lemma encode_uvarint_pos v : 1 <= zlen (encode_uvarint v).
Proof.
  unfold encode_uvarint. change (put_uvarint 10 v) with
    (if v <? 0x80 then [z2b v] else z2b (0x80 + v mod 0x80) :: put_uvarint 9 (v / 0x80)).
  destruct (v <? 0x80); rewrite zlen_cons; [done|]. pose proof (zlen_nonneg (put_uvarint 9 (v / 0x80))). lia.
Qed.

Lemma skipTaggedFields_encode fs rest fuel :
  (length fs < fuel)%nat -> fields_ok fs -> zlen (encode_fields fs ++ rest) < 2 ^ 62 ->
  skipTaggedFields fuel (encode_fields fs ++ rest) = Ok (zlen (encode_fields fs)).
Proof.
  intros Hf Hok Hl. unfold skipTaggedFields, encode_fields in *. rewrite <- app_assoc in *.
  assert (0 <= zlen fs < 2 ^ 64) as Hc.
  { split; [apply zlen_nonneg|]. assert (zlen fs <= zlen (concat (encode_field <$> fs))) as Hle.
    { clear. induction fs as [|f fs IH]; [done|]. rewrite fmap_cons. cbn [concat]. rewrite zlen_cons, zlen_app.
      unfold encode_field at 1. rewrite zlen_app. pose proof (encode_uvarint_pos f.1).
      pose proof (zlen_nonneg (encode_uvarint (zlen f.2) ++ f.2)). lia. }
    rewrite !zlen_app in Hl. pose proof (zlen_nonneg (encode_uvarint (zlen fs))). pose proof (zlen_nonneg rest). lia. }
  rewrite uvarint_encode by done. cbn [wrap_err mbind res_bind].
  rewrite skip_loop_encode by done. f_equal. by rewrite zlen_app.
Qed.

(** ** Requests *)

Lemma read_full_cases conn n :
  0 <= n ->
  (exists a b, read_full conn n = Ok (a, b) /\ conn = a ++ b /\ zlen a = n) \/ (exists e, read_full conn n = Err e).
Proof.
  intros Hn. unfold read_full. destruct (Z.ltb_spec (zlen conn) n); [eauto|]. left.
  eexists _, _. split; [done|]. split; [by rewrite take_drop|]. apply zlen_take. lia.
Qed.

Lemma read_full_app a b : read_full (a ++ b) (zlen a) = Ok (a, b).
Proof.
  unfold read_full. pose proof (zlen_nonneg b). rewrite (proj2 (Z.ltb_ge _ _)) by (rewrite zlen_app; lia).
  unfold zlen. by rewrite Nat2Z.id, take_app_length, drop_app_length.
Qed.

Lemma skipTaggedFields_safe fuel b :
  zlen b < 2 ^ 62 ->
  (exists n, skipTaggedFields fuel b = Ok n /\ 0 <= n <= zlen b) \/
  (exists e, skipTaggedFields fuel b = Err e) \/ skipTaggedFields fuel b = Diverge.
Proof.
  intros Hl. unfold skipTaggedFields.
  destruct (uvarint_cases b) as [(v & n & -> & Hv & Hn)|[e ->]]; cbn [wrap_err mbind res_bind]; [|by eauto].
  destruct (skip_loop_safe fuel b v n) as [?|[?|[? _]]]; [lia|done|eauto..].
Qed.

(** Whatever bytes a client sends, reading a request never indexes out of
    range.  A request that is accepted came from a frame no longer than both
    limits, its body is a suffix of that frame behind the fixed header, and the
    next request starts right behind the frame. *)
Theorem readRequest_safe flexible fuel maxBytes conn :
  readRequest flexible fuel maxBytes conn <> Panic /\
  forall hdr body rest, readRequest flexible fuel maxBytes conn = Ok (hdr, body, rest) ->
    exists sizeBuf pre, conn = sizeBuf ++ (pre ++ body) ++ rest /\ zlen sizeBuf = 4 /\
      zlen (pre ++ body) <= maxBytes /\ zlen (pre ++ body) <= maxFrameSize.
Proof.
  unfold readRequest.
  destruct (read_full_cases conn 4) as [(sz & c1 & -> & -> & Hsz)|[e ->]]; [lia| |done]. cbn [mbind res_bind].
  set (size := i32 (be_decode sz)).
  destruct (Z.leb_spec size 0); [done|]. rewrite Z.gtb_ltb. destruct (Z.ltb_spec maxBytes size); [done|].
  rewrite Z.gtb_ltb. destruct (Z.ltb_spec maxFrameSize size); [done|].
  destruct (read_full_cases c1 size) as [(frame & c2 & -> & -> & Hfr)|[e ->]]; [lia| |done]. cbn [mbind res_bind].
  destruct (zlen frame <? 8); [done|]. destruct (Z.ltb_spec (zlen frame) 10) as [|H10]; [done|].
  set (hdr := mkReqHeader _ _ _).
  set (client := if _ >=? 0 then _ else _).
  assert ((exists id start, client = Ok (id, start) /\ 10 <= start <= zlen frame) \/ exists e, client = Err e) as Hcl.
  { unfold client. rewrite Z.geb_leb. destruct (Z.leb_spec 0 (i16 (get_be frame 8 10))); [|left; eexists _, _; split; [done|lia]].
    rewrite Z.gtb_ltb. destruct (Z.ltb_spec (zlen frame) (10 + i16 (get_be frame 8 10))); [by eauto|].
    left. eexists _, _. split; [done|lia]. }
  destruct Hcl as [(id & start & -> & Hst)|[e ->]]; [|done]. cbn [mbind res_bind].
  set (tags := if flexible _ _ then _ else _).
  assert ((exists bs, tags = Ok bs /\ start <= bs <= zlen frame) \/ (exists e, tags = Err e) \/ tags = Diverge) as Htg.
  { unfold tags. destruct (flexible _ _); [|left; eexists; split; [done|lia]]. rewrite slice_from_ok by lia. cbn [mbind res_bind].
    pose proof (zlen_drop frame start ltac:(lia)) as Hd. unfold maxFrameSize in *.
    destruct (skipTaggedFields_safe fuel (drop (Z.to_nat start) frame)) as [(n & -> & Hn)|[[e ->]| ->]]; [lia|..]; cbn.
    - left. eexists. split; [done|lia].
    - eauto.
    - eauto. }
  destruct Htg as [(bs & -> & Hbs)|[[e ->]| ->]]; [|done..]. cbn [mbind res_bind].
  rewrite slice_from_ok by lia. cbn [mbind res_bind]. split; [done|].
  intros h b r [= <- <- <-]. exists sz, (take (Z.to_nat bs) frame). rewrite take_drop. split_and!; [done|done|lia|lia].
Qed.

(** A request as a client encodes it. *)
Definition encode_request (hdr : RequestHeader) (tags body : list byte) : list byte :=
  let frame := be_encode 2 (u16 (APIKey hdr)) ++ be_encode 2 (u16 (APIVersion hdr)) ++
               be_encode 4 (u32 (CorrelationID hdr)) ++ be_encode 2 (zlen (ClientID hdr)) ++ ClientID hdr ++ tags ++ body in
  be_encode 4 (zlen frame) ++ frame.

Lemma get_be_mid pre n v rest :
  get_be (pre ++ be_encode n v ++ rest) (zlen pre) (zlen pre + Z.of_nat n) = v mod 2 ^ (8 * Z.of_nat n).
Proof.
  unfold get_be. rewrite <- (zlen_be_encode n v) at 1. rewrite slice_mid. apply be_decode_encode.
Qed.

(** The fixed header of an encoded frame, field by field. *)
Lemma frame_header key version corr client more :
  in_s 16 key -> in_s 16 version -> in_s 32 corr -> zlen client < 2 ^ 15 ->
  let frame := be_encode 2 (u16 key) ++ be_encode 2 (u16 version) ++ be_encode 4 (u32 corr) ++
               be_encode 2 (zlen client) ++ client ++ more in
  i16 (get_be frame 0 2) = key /\ i16 (get_be frame 2 4) = version /\ i32 (get_be frame 4 8) = corr /\
  i16 (get_be frame 8 10) = zlen client /\ zlen frame = 10 + zlen client + zlen more /\
  slice frame 10 (10 + zlen client) = client /\
  (forall a b, more = a ++ b -> drop (Z.to_nat (10 + zlen client + zlen a)) frame = b).
Proof.
  intros Hk Hv Hc Hid. cbn zeta. pose proof (zlen_nonneg client).
  set (k2 := be_encode 2 (u16 key)). set (v2 := be_encode 2 (u16 version)). set (c4 := be_encode 4 (u32 corr)).
  set (l2 := be_encode 2 (zlen client)). set (tail := client ++ more).
  assert (zlen k2 = 2 /\ zlen v2 = 2 /\ zlen c4 = 4 /\ zlen l2 = 2) as (Lk & Lv & Lc & Ll)
    by (unfold k2, v2, c4, l2; by rewrite !zlen_be_encode).
  pose proof (get_be_mid [] 2 (u16 key) (v2 ++ c4 ++ l2 ++ tail)) as E1.
  pose proof (get_be_mid k2 2 (u16 version) (c4 ++ l2 ++ tail)) as E2.
  pose proof (get_be_mid (k2 ++ v2) 4 (u32 corr) (l2 ++ tail)) as E3.
  pose proof (get_be_mid (k2 ++ v2 ++ c4) 2 (zlen client) tail) as E4.
  rewrite ?zlen_app, ?Lk, ?Lv, ?Lc, <- ?app_assoc in *. fold k2 in E1. fold v2 in E2. fold c4 in E3. fold l2 in E4.
  cbn [app] in E1. rewrite zlen_nil in E1. change (0 + Z.of_nat 2) with 2 in E1. change (2 + Z.of_nat 2) with 4 in E2.
  change (2 + 2 + Z.of_nat 4) with 8 in E3. change (2 + 2) with 4 in E3.
  change (2 + (2 + 4) + Z.of_nat 2) with 10 in E4. change (2 + (2 + 4)) with 8 in E4.
  assert (zlen (k2 ++ v2 ++ c4 ++ l2) = 10) as H10 by (rewrite !zlen_app; lia).
  assert (k2 ++ v2 ++ c4 ++ l2 ++ tail = (k2 ++ v2 ++ c4 ++ l2) ++ tail) as Hsplit by (by rewrite <- !app_assoc).
  rewrite E1, E2, E3, E4.
  change (2 ^ (8 * Z.of_nat 2)) with (2 ^ 16). change (2 ^ (8 * Z.of_nat 4)) with (2 ^ 32).
  change (u16 key mod 2 ^ 16) with (u16 (u16 key)). change (u16 version mod 2 ^ 16) with (u16 (u16 version)).
  change (u32 corr mod 2 ^ 32) with (u32 (u32 corr)). change (zlen client mod 2 ^ 16) with (u16 (zlen client)).
  rewrite !wrap_s_u by lia. split_and!; try (by apply wrap_s_small).
  - apply wrap_s_small; unfold in_s; simpl; lia.
  - unfold tail. rewrite !zlen_app. lia.
  - rewrite Hsplit, <- H10. apply slice_mid.
  - intros a b ->. rewrite Hsplit. unfold tail. rewrite (app_assoc client), app_assoc. apply drop_app_length'.
    rewrite !length_app in *. unfold zlen in *. rewrite !length_app in H10. lia.
Qed.

(** Reading back an encoded request. *)
Lemma readRequest_encoded (flexible : Z -> Z -> bool) fuel maxBytes hdr fs body rest :
  let tags := if flexible (APIKey hdr) (APIVersion hdr) then encode_fields fs else [] in
  let frame_len := 10 + zlen (ClientID hdr) + zlen tags + zlen body in
  in_s 16 (APIKey hdr) -> in_s 16 (APIVersion hdr) -> in_s 32 (CorrelationID hdr) ->
  zlen (ClientID hdr) < 2 ^ 15 -> fields_ok fs -> (length fs < fuel)%nat ->
  frame_len <= maxBytes -> frame_len <= maxFrameSize ->
  readRequest flexible fuel maxBytes (encode_request hdr tags body ++ rest) = Ok (hdr, body, rest).
Proof.
  cbn zeta. set (tags := if flexible _ _ then _ else _). intros Hk Hv Hc Hid Hfs Hfuel Hmax Hcap.
  destruct hdr as [key version corr client]; cbn [APIKey APIVersion CorrelationID ClientID] in *.
  pose proof (zlen_nonneg client). pose proof (zlen_nonneg tags). pose proof (zlen_nonneg body).
  destruct (frame_header key version corr client (tags ++ body) Hk Hv Hc Hid) as (E1 & E2 & E3 & E4 & Hfr & Hcl & Hdr).
  unfold encode_request; cbn [APIKey APIVersion CorrelationID ClientID].
  set (frame := be_encode 2 _ ++ _) in *. clearbody frame.
  rewrite zlen_app in Hfr. unfold maxFrameSize in Hcap. unfold readRequest. rewrite <- app_assoc.
  pose proof (read_full_app (be_encode 4 (zlen frame)) (frame ++ rest)) as Hrf.
  rewrite zlen_be_encode in Hrf. change (Z.of_nat 4) with 4 in Hrf. rewrite Hrf. clear Hrf. cbn [mbind res_bind].
  rewrite be_decode_encode, Z.mod_small, i32_small by (simpl; lia).
  rewrite (proj2 (Z.leb_gt _ _)) by lia. rewrite Z.gtb_ltb, (proj2 (Z.ltb_ge _ _)) by lia.
  rewrite Z.gtb_ltb. unfold maxFrameSize. rewrite (proj2 (Z.ltb_ge _ _)) by lia.
  rewrite read_full_app. cbn [mbind res_bind]. rewrite !(proj2 (Z.ltb_ge _ _)) by lia.
  rewrite E1, E2, E3, E4, Z.geb_leb, (proj2 (Z.leb_le _ _)), Z.gtb_ltb, (proj2 (Z.ltb_ge _ _)) by lia.
  cbn [mbind res_bind]. rewrite Hcl.
  set (skip := if flexible key version then _ else _).
  assert (skip = Ok (10 + zlen client + zlen tags)) as ->.
  { unfold skip, tags. destruct (flexible key version); [|by rewrite zlen_nil, Z.add_0_r].
    rewrite slice_from_ok by lia. cbn [mbind res_bind].
    pose proof (Hdr [] (tags ++ body) eq_refl) as Hd. rewrite zlen_nil, Z.add_0_r in Hd. rewrite Hd. unfold tags.
    rewrite skipTaggedFields_encode; [done..|]. rewrite zlen_app. unfold tags in *. lia. }
  cbn [mbind res_bind]. rewrite slice_from_ok by lia. cbn [mbind res_bind]. by rewrite (Hdr tags body).
Qed.

(** What a client encodes is what the broker reads: header, client id and
    body come back exactly, any well-formed tagged-fields section of a flexible
    version is skipped, and the rest of the stream is untouched. *)
Theorem readRequest_roundtrip (flexible : Z -> Z -> bool) fuel maxBytes hdr fs body rest :
  let tags := if flexible (APIKey hdr) (APIVersion hdr) then encode_fields fs else [] in
  let frame_len := 10 + zlen (ClientID hdr) + zlen tags + zlen body in
  in_s 16 (APIKey hdr) -> in_s 16 (APIVersion hdr) -> in_s 32 (CorrelationID hdr) ->
  zlen (ClientID hdr) < 2 ^ 15 -> fields_ok fs -> (length fs < fuel)%nat ->
  frame_len <= maxBytes -> frame_len <= maxFrameSize ->
  readRequest flexible fuel maxBytes (encode_request hdr tags body ++ rest) = Ok (hdr, body, rest).
Proof. apply readRequest_encoded. Qed.

(** Samples: a flexible request with one tagged field. *)
Definition sample_hdr : RequestHeader := mkReqHeader 18 3 7 [x63; x6c; x69].
Definition all_flexible (key version : Z) : bool := true.

Definition sample_tags : list (Z * list byte) := [(5, [x01; x02])].

Lemma readRequest_roundtrip_witness :
  readRequest all_flexible 2 1000
    (encode_request sample_hdr
       (if all_flexible (APIKey sample_hdr) (APIVersion sample_hdr) then encode_fields sample_tags else [])
       [x0a; x0b] ++ [xff]) = Ok (sample_hdr, [x0a; x0b], [xff]).
Proof.
  apply (readRequest_roundtrip all_flexible 2 1000 sample_hdr sample_tags [x0a; x0b] [xff]).
  - vm_compute. split; [discriminate|reflexivity].
  - vm_compute. split; [discriminate|reflexivity].
  - vm_compute. split; [discriminate|reflexivity].
  - vm_compute. reflexivity.
  - apply Forall_cons_2; [vm_compute; split; [discriminate|reflexivity]|apply Forall_nil_2].
  - apply le_n.
  - vm_compute. discriminate.
  - vm_compute. discriminate.
Defined.

(** ** A section that sends the loop backwards *)

(** A count of 2^63 and one field whose size is 2^64 - 11: the wrapped
    comparison accepts it and the offset goes back to the field's own start. *)
Definition spin_section : list byte :=
  encode_uvarint (2 ^ 63) ++ encode_uvarint 0 ++ encode_uvarint (2 ^ 64 - 11).

(** A frame of a few dozen bytes keeps the tagged-field loop busy for 2^63
    rounds: for every number of rounds up to that count the loop has neither
    returned nor failed. *)
Theorem skipTaggedFields_spins fuel :
  Z.of_nat fuel <= 2 ^ 63 -> skipTaggedFields fuel spin_section = Diverge.
Proof.
  intros Hf. unfold skipTaggedFields.
  assert (uvarint spin_section = Ok (2 ^ 63, 10)) as -> by (vm_compute; reflexivity). cbn [wrap_err mbind res_bind].
  assert (forall n count, Z.of_nat n <= count -> skip_loop n spin_section count 10 = Diverge) as Hloop; [|by apply Hloop].
  clear. induction n as [|n IH]; intros count Hc; [done|]. cbn [skip_loop].
  rewrite (proj2 (Z.leb_gt _ _)) by lia.
  assert (slice_from spin_section 10 = Ok (drop 10 spin_section)) as -> by (vm_compute; reflexivity). cbn [mbind res_bind].
  assert (uvarint (drop 10 spin_section) = Ok (0, 1)) as -> by (vm_compute; reflexivity). cbn [wrap_err mbind res_bind].
  change (10 + 1) with 11.
  assert (slice_from spin_section 11 = Ok (drop 11 spin_section)) as -> by (vm_compute; reflexivity). cbn [mbind res_bind].
  assert (uvarint (drop 11 spin_section) = Ok (2 ^ 64 - 11, 10)) as -> by (vm_compute; reflexivity). cbn [wrap_err mbind res_bind].
  change (u64 (u64 (11 + 10) + (2 ^ 64 - 11)) >? zlen spin_section) with false. cbn [negb].
  change (i64 (11 + 10 + i64 (2 ^ 64 - 11))) with 10. apply IH. lia.
Qed.

Lemma skipTaggedFields_spins_witness : skipTaggedFields 1000 spin_section = Diverge.
Proof. apply skipTaggedFields_spins. vm_compute. discriminate. Defined.

(** ** Responses *)

(** A response frame is delimited by its own size prefix and echoes the
    correlation id, and its body is the encoded body, behind one zero byte when
    the header is flexible: a client that reads it like a request stream
    recovers all three. *)
Theorem writeResponse_frame corr body flex rest :
  in_s 32 corr -> zlen body < 2 ^ 31 - 5 ->
  exists sz frame, read_full (writeResponse corr body flex ++ rest) 4 = Ok (sz, frame ++ rest) /\
    i32 (be_decode sz) = zlen frame /\ i32 (get_be frame 0 4) = corr /\
    frame = slice frame 0 4 ++ (if flex then [x00] else []) ++ body.
Proof.
  intros Hc Hb. pose proof (zlen_nonneg body). unfold writeResponse.
  set (size := be_encode 4 (u32 _)). set (c4 := be_encode 4 (u32 corr)).
  assert (zlen size = 4 /\ zlen c4 = 4) as [Ls Lc] by (unfold size, c4; by rewrite !zlen_be_encode).
  set (tail := (if flex then [x00] else []) ++ body).
  assert (zlen tail = (if flex then 1 else 0) + zlen body) as Lt
    by (unfold tail; destruct flex; rewrite ?zlen_app, ?zlen_cons, ?zlen_nil; lia).
  exists size, (c4 ++ tail). split_and!.
  - rewrite <- app_assoc, <- Ls. apply read_full_app.
  - unfold size. rewrite be_decode_encode. change (2 ^ (8 * Z.of_nat 4)) with (2 ^ 32).
    change (?x mod 2 ^ 32) with (u32 x). rewrite zlen_app, Lc, Lt.
    rewrite !wrap_s_u by lia. rewrite !i32_small; destruct flex; rewrite ?i32_small; lia.
  - pose proof (get_be_mid [] 4 (u32 corr) tail) as E. cbn [app] in E. rewrite zlen_nil in E.
    change (0 + Z.of_nat 4) with 4 in E. fold c4 in E. rewrite E.
    change (2 ^ (8 * Z.of_nat 4)) with (2 ^ 32). change (u32 corr mod 2 ^ 32) with (u32 (u32 corr)).
    rewrite !wrap_s_u by lia. apply wrap_s_small; [lia|done].
  - fold tail. rewrite <- Lc at 1. by rewrite slice_prefix.
Qed.

Lemma writeResponse_frame_witness :
  exists sz frame, read_full (writeResponse 7 [x0a] true ++ [xff]) 4 = Ok (sz, frame ++ [xff]) /\
    i32 (be_decode sz) = zlen frame /\ i32 (get_be frame 0 4) = 7 /\
    frame = slice frame 0 4 ++ [x00] ++ [x0a].
Proof.
  apply (writeResponse_frame 7 [x0a] true [xff]).
  - vm_compute. split; [discriminate|reflexivity].
  - vm_compute. reflexivity.
Defined.
