(* ===== verification/Acl.v ===== *)
(** * Access control (internal/broker/acl.go)

    The persisted principals and the prefix authorizer. *)

From S2P Require Import Prelude Names.

Record PrefixACL := mkPrefix { pa_Prefix : string; pa_Ops : list string }.

Record Principal := mkPrincipal {
  pr_TenantID : option string;
  pr_TopicPrefixes : list PrefixACL;
  pr_Groups : list PrefixACL
}.

Definition OpRead : string := "read".
Definition OpWrite : string := "write".

(** The state and the contents of acls.json ([None] when absent). *)
Record ACLStore := mkAcl {
  acl_state : gmap string Principal;
  acl_file : option (gmap string Principal)
}.

(** [load]: null entries are dropped by the decoder. *)
Definition NewACLStore (file : option (gmap string Principal)) : ACLStore :=
  mkAcl (default ∅ file) file.

(** [Save]; [ok] is the outcome of the write and rename. *)
Definition Acl_Save (ok : bool) (s : ACLStore) : ACLStore * res unit :=
  if ok then (mkAcl (acl_state s) (Some (acl_state s)), Ok tt) else (s, Err (EMsg "write acls.json")).

Definition Configured (s : ACLStore) : bool := negb (bool_decide (acl_state s = ∅)).

Definition topic_ops_ok (p : Principal) : bool :=
  forallb (fun tp => forallb (fun op => String.eqb op OpRead || String.eqb op OpWrite) (pa_Ops tp)) (pr_TopicPrefixes p).
Definition group_ops_ok (p : Principal) : bool :=
  forallb (fun gp => forallb (fun op => String.eqb op OpRead) (pa_Ops gp)) (pr_Groups p).

Definition Acl_Upsert (ok : bool) (s : ACLStore) (name : string) (p : Principal) : ACLStore * res unit :=
  if String.eqb name "" then (s, Err (EMsg "acl: principal name required"))
  else if negb (topic_ops_ok p) then (s, Err (EMsg "acl: invalid topic op"))
  else if negb (group_ops_ok p) then (s, Err (EMsg "acl: invalid group op"))
  else Acl_Save ok (mkAcl (<[name := p]> (acl_state s)) (acl_file s)).

Definition Acl_Delete (ok : bool) (s : ACLStore) (name : string) : ACLStore * res unit :=
  Acl_Save ok (mkAcl (delete name (acl_state s)) (acl_file s)).

(** The two loops over a principal's grants. *)
Definition granted (grants : list PrefixACL) (name op : string) : bool :=
  existsb (fun g => String.prefix (pa_Prefix g) name && existsb (String.eqb op) (pa_Ops g)) grants.

Definition authorize (grants : Principal -> list PrefixACL) (s : ACLStore) (principal name op : string) : bool :=
  if negb (Configured s) then true
  else if String.eqb principal "" then false
  else match acl_state s !! principal with
  | None => false
  | Some p => granted (grants p) name op
  end.

Definition AuthorizeTopic : ACLStore -> string -> string -> string -> bool := authorize pr_TopicPrefixes.
Definition AuthorizeGroup : ACLStore -> string -> string -> string -> bool := authorize pr_Groups.

Definition TenantOf (s : ACLStore) (principal : string) : string :=
  if String.eqb principal "" then ""
  else match acl_state s !! principal with
  | None => ""
  | Some p => default "" (pr_TenantID p)
  end.

(** ** The authorizer fails closed *)

Lemma granted_spec grants name op :
  granted grants name op = true <->
  exists g, g ∈ grants /\ String.prefix (pa_Prefix g) name = true /\ op ∈ pa_Ops g.
Proof.
  unfold granted. rewrite existsb_exists. split.
  - intros (g & Hg & [Hp Ho]%andb_true_iff). exists g. split; [by apply list_elem_of_In|]. split; [done|].
    apply existsb_exists in Ho as (o & Ho & Heq%String.eqb_eq). subst. by apply list_elem_of_In.
  - intros (g & Hg & Hp & Ho). exists g. split; [by apply list_elem_of_In|]. rewrite Hp. simpl.
    apply existsb_exists. exists op. split; [by apply list_elem_of_In|apply String.eqb_refl].
Qed.

(** Once any principal is configured, an operation on a topic is allowed
    exactly when the connection's principal is known and one of its grants has
    a prefix of the topic's name and lists the operation; an unauthenticated
    connection or an unknown principal is always refused. *)
Theorem AuthorizeTopic_exact s principal topic op :
  Configured s = true ->
  AuthorizeTopic s principal topic op = true <->
  principal <> "" /\ exists p, acl_state s !! principal = Some p /\
    exists g, g ∈ pr_TopicPrefixes p /\ String.prefix (pa_Prefix g) topic = true /\ op ∈ pa_Ops g.
Proof.
  intros Hc. unfold AuthorizeTopic, authorize. rewrite Hc. simpl.
  destruct (String.eqb_spec principal "") as [->|Hne]; [by split; [|intros [? _]]|].
  destruct (acl_state s !! principal) as [p|] eqn:E.
  - rewrite granted_spec. split; [by eauto|]. intros (_ & p' & [= <-] & H). exact H.
  - split; [done|]. intros (_ & p & H & _). done.
Qed.

Definition sample_acl : ACLStore :=
  NewACLStore (Some {[ "svc" := mkPrincipal (Some "t1") [mkPrefix "tenant.t1." ["read"; "write"]] [] ]}).

Lemma AuthorizeTopic_exact_witness :
  AuthorizeTopic sample_acl "svc" "tenant.t1.orders" "write" = true <->
  "svc" <> "" /\ exists p, acl_state sample_acl !! "svc" = Some p /\
    exists g, g ∈ pr_TopicPrefixes p /\ String.prefix (pa_Prefix g) "tenant.t1.orders" = true /\ "write" ∈ pa_Ops g.
Proof. apply AuthorizeTopic_exact. vm_compute. reflexivity. Defined.

(** Removing the last principal turns enforcement off again. *)
Example last_delete_opens_up :
  let s := (Acl_Delete true sample_acl "svc").1 in
  AuthorizeTopic sample_acl "" "any" "write" = false /\ AuthorizeTopic s "" "any" "write" = true.
Proof. vm_compute. split; reflexivity. Qed.
