(* ===== verification/Manifest.v ===== *)
(** * The archive manifest (internal/tiering/manifest.go)

    Which segments are in cold storage, the uploads in flight, the object keys
    and the ownership signature. *)

From S2P Require Import Prelude Bytes Names Log LogRecover.
From stdpp Require Import pretty.

#[local] Open Scope Z_scope.

Record SegmentEntry := mkEntry {
  se_Topic : string;
  se_Partition : Z;
  se_BaseOffset : Z;
  se_NextOffset : Z;
  se_SizeBytes : Z;
  se_SHA256 : string;
  se_S3Key : string;
  se_UploadedAt : Z;
  se_TenantID : string;
  se_HMACSignature : string
}.

Record PendingUploadPart := mkPart { pp_PartNumber : Z; pp_ETag : string; pp_SizeBytes : Z }.

Record PendingUpload := mkPending {
  pu_Topic : string;
  pu_Partition : Z;
  pu_BaseOffset : Z;
  pu_NextOffset : Z;
  pu_TenantID : string;
  pu_SHA256 : string;
  pu_S3Key : string;
  pu_UploadID : string;
  pu_Parts : list PendingUploadPart;
  pu_StartedAt : Z
}.

(** The in-memory state and the two files that mirror it. *)
Record Manifest := mkManifest {
  mf_completed : list SegmentEntry;
  mf_pending : gmap string PendingUpload;
  mf_archive_file : option (list SegmentEntry);
  mf_pending_file : option (gmap string PendingUpload)
}.

(** The file on disk at boot: absent, parseable, or corrupt with the entries
    that can still be decoded from its head. *)
Inductive archive_file := FileAbsent | FileOk (es : list SegmentEntry) | FileCorrupt (salvaged : list SegmentEntry).
Inductive pending_file := PFileAbsent | PFileOk (ps : gmap string PendingUpload) | PFileCorrupt.

(** ** Flushing

    A flush replaces the file by a rename, so it either takes effect whole or,
    when the write or the rename fails ([ok] is false), not at all. *)

Definition flushCompleted (ok : bool) (m : Manifest) : Manifest * res unit :=
  if ok then (mkManifest (mf_completed m) (mf_pending m) (Some (mf_completed m)) (mf_pending_file m), Ok tt)
  else (m, Err (EMsg "write archive.json")).
Definition flushPending (ok : bool) (m : Manifest) : Manifest * res unit :=
  if ok then (mkManifest (mf_completed m) (mf_pending m) (mf_archive_file m) (Some (mf_pending m)), Ok tt)
  else (m, Err (EMsg "write archive_pending.json")).
Definition flushBoth (ok1 ok2 : bool) (m : Manifest) : Manifest * res unit :=
  match flushCompleted ok1 m with
  | (m, Ok _) => flushPending ok2 m
  | (m, r) => (m, r)
  end.

(** [load], in its two halves: a corrupt list of segments is replaced by the
    entries salvaged from it and rewritten, a corrupt list of uploads by the
    empty one. *)
Definition load_completed (ok : bool) (a : archive_file) (m : Manifest) : res Manifest :=
  match a with
  | FileAbsent => Ok m
  | FileOk es => Ok (mkManifest es (mf_pending m) (Some es) (mf_pending_file m))
  | FileCorrupt es =>
      match flushCompleted ok (mkManifest es (mf_pending m) (mf_archive_file m) (mf_pending_file m)) with
      | (m, Ok _) => Ok m
      | (_, r) => wrap_err "rewrite salvaged archive.json" (m' ← r; Ok m)
      end
  end.
Definition load_pending (ok : bool) (p : pending_file) (m : Manifest) : res Manifest :=
  match p with
  | PFileAbsent => Ok m
  | PFileOk ps => Ok (mkManifest (mf_completed m) ps (mf_archive_file m) (Some ps))
  | PFileCorrupt =>
      match flushPending ok (mkManifest (mf_completed m) ∅ (mf_archive_file m) (mf_pending_file m)) with
      | (m, Ok _) => Ok m
      | (_, r) => wrap_err "rewrite reset archive_pending.json" (m' ← r; Ok m)
      end
  end.
Definition OpenManifest (ok1 ok2 : bool) (a : archive_file) (p : pending_file) : res Manifest :=
  m ← load_completed ok1 a (mkManifest [] ∅ None None); load_pending ok2 p m.

(** ** Operations *)

(** Whether an old entry survives the arrival of [e]. *)
Definition keeps (e old : SegmentEntry) : bool :=
  let samePartition := String.eqb (se_Topic old) (se_Topic e) && (se_Partition old =? se_Partition e) in
  let overlaps := (se_BaseOffset old <? se_NextOffset e) && (se_BaseOffset e <? se_NextOffset old) in
  negb samePartition || (negb overlaps && negb (se_BaseOffset old =? se_BaseOffset e)).

Definition AddCompleted (ok1 ok2 : bool) (m : Manifest) (e : SegmentEntry) : Manifest * res unit :=
  flushBoth ok1 ok2 (mkManifest (List.filter (keeps e) (mf_completed m) ++ [e]) (delete (se_S3Key e) (mf_pending m))
                       (mf_archive_file m) (mf_pending_file m)).

Definition SetPending (ok : bool) (m : Manifest) (p : PendingUpload) : Manifest * res unit :=
  flushPending ok (mkManifest (mf_completed m) (<[pu_S3Key p := p]> (mf_pending m)) (mf_archive_file m) (mf_pending_file m)).

Definition GetPending (m : Manifest) (key : string) : option PendingUpload := mf_pending m !! key.

Definition PendingAll (m : Manifest) : list PendingUpload := (map_to_list (mf_pending m)).*2.

Definition AbortPending (ok : bool) (m : Manifest) (key : string) : Manifest * res unit :=
  flushPending ok (mkManifest (mf_completed m) (delete key (mf_pending m)) (mf_archive_file m) (mf_pending_file m)).

Definition at_segment (topic : string) (partition base : Z) (e : SegmentEntry) : bool :=
  String.eqb (se_Topic e) topic && (se_Partition e =? partition) && (se_BaseOffset e =? base).

Definition Manifest_Lookup (m : Manifest) (topic : string) (partition base : Z) : option SegmentEntry :=
  List.find (at_segment topic partition base) (mf_completed m).

Definition Holds (m : Manifest) (topic : string) (partition base next size : Z) : bool :=
  match Manifest_Lookup m topic partition base with
  | Some e => (se_NextOffset e >=? next) && (se_SizeBytes e >=? size)
  | None => false
  end.

Definition ForgetTopic (ok1 ok2 : bool) (m : Manifest) (topic : string) : Manifest * res unit :=
  flushBoth ok1 ok2 (mkManifest (List.filter (fun e => negb (String.eqb (se_Topic e) topic)) (mf_completed m))
                       (filter (fun kv => pu_Topic kv.2 <> topic) (mf_pending m))
                       (mf_archive_file m) (mf_pending_file m)).

Definition Manifest_All (m : Manifest) : list SegmentEntry := mf_completed m.

Definition AllForTopic (m : Manifest) (topic : string) : list SegmentEntry :=
  List.filter (fun e => String.eqb (se_Topic e) topic) (mf_completed m).

(** ** Object keys *)

(** [%020d]: the digits of a segment file's name. *)
Definition pad20 (z : Z) : string := String.string_of_list_byte (segmentFilename z []).

Definition trim_slash (s : string) : string := if has_suffix s "/" then trim_suffix s "/" else s.

Definition SegmentKeyTenant (pre tenantID topic : string) (partition baseOffset : Z) : string :=
  let pre := trim_slash pre in
  if String.eqb tenantID ""
  then pre +:+ "/" +:+ topic +:+ "/" +:+ pretty partition +:+ "/" +:+ pad20 baseOffset +:+ ".log"
  else pre +:+ "/tenants/" +:+ tenantID +:+ "/" +:+ topic +:+ "/" +:+ pretty partition +:+ "/" +:+ pad20 baseOffset +:+ ".log".

(** ** Signatures

    [mac key message] stands for the hexadecimal HMAC-SHA-256. *)

Definition signed_message (tenantID topic : string) (partition baseOffset : Z) (sha : string) : string :=
  "v1|" +:+ tenantID +:+ "|" +:+ topic +:+ "|" +:+ pretty partition +:+ "|" +:+ pretty baseOffset +:+ "|" +:+ sha.

Definition SegmentSignature (mac : list byte -> string -> string) (key : list byte)
    (tenantID topic : string) (partition baseOffset : Z) (sha : string) : string :=
  mac key (signed_message tenantID topic partition baseOffset sha).

Definition VerifySignature (mac : list byte -> string -> string) (key : list byte) (e : SegmentEntry) : bool :=
  if bool_decide (key = []) || String.eqb (se_HMACSignature e) "" then true
  else String.eqb (SegmentSignature mac key (se_TenantID e) (se_Topic e) (se_Partition e) (se_BaseOffset e) (se_SHA256 e))
         (se_HMACSignature e).

(** ** Entries of a partition never overlap *)

Definition compatible (a b : SegmentEntry) : Prop :=
  se_Topic a = se_Topic b -> se_Partition a = se_Partition b ->
  se_BaseOffset a <> se_BaseOffset b /\ (se_NextOffset a <= se_BaseOffset b \/ se_NextOffset b <= se_BaseOffset a).

Definition manifest_wf (m : Manifest) : Prop := ForallOrdPairs compatible (mf_completed m).

Lemma keeps_compatible e old : keeps e old = true -> compatible old e.
Proof.
  unfold keeps, compatible. intros H Ht Hp. rewrite Ht, Hp, String.eqb_refl, Z.eqb_refl in H. simpl in H.
  rewrite andb_true_iff, !negb_true_iff, andb_false_iff, Z.eqb_neq, !Z.ltb_ge in H. destruct H as [H1 H2].
  split; [done|lia].
Qed.

Lemma ForallOrdPairs_filter {A} (R : A -> A -> Prop) f l : ForallOrdPairs R l -> ForallOrdPairs R (List.filter f l).
Proof.
  induction 1 as [|x l Hx Hl IH]; simpl; [constructor|]. destruct (f x); [|done]. constructor; [|done].
  apply List.Forall_forall. intros y [Hy _]%filter_In. rewrite List.Forall_forall in Hx. auto.
Qed.

Lemma ForallOrdPairs_snoc {A} (R : A -> A -> Prop) l y :
  ForallOrdPairs R l -> Forall (fun x => R x y) l -> ForallOrdPairs R (l ++ [y]).
Proof.
  induction 1 as [|x l Hx Hl IH]; intros Hy; simpl; [repeat constructor|].
  apply Forall_cons in Hy as [Hxy Hy]. constructor; [|by apply IH].
  apply List.Forall_app. split; [done|]. by constructor.
Qed.

Lemma flushBoth_state ok1 ok2 m :
  mf_completed (flushBoth ok1 ok2 m).1 = mf_completed m /\ mf_pending (flushBoth ok1 ok2 m).1 = mf_pending m.
Proof. unfold flushBoth, flushCompleted, flushPending. by destruct ok1, ok2. Qed.

Lemma find_none_app {A} (f : A -> bool) l x : Forall (fun y => f y = false) l -> f x = true ->
  List.find f (l ++ [x]) = Some x.
Proof. induction 1 as [|y l Hy _ IH]; intros Hx; simpl; [by rewrite Hx|]. rewrite Hy. auto. Qed.

Lemma find_all_false {A} (f : A -> bool) l : Forall (fun y => f y = false) l -> List.find f l = None.
Proof. induction 1 as [|y l Hy _ IH]; simpl; [done|]. by rewrite Hy. Qed.

Lemma keeps_at_segment e x : keeps e x = true -> at_segment (se_Topic e) (se_Partition e) (se_BaseOffset e) x = false.
Proof.
  intros Hx%keeps_compatible. unfold at_segment.
  destruct (String.eqb_spec (se_Topic x) (se_Topic e)); [|done].
  destruct (Z.eqb_spec (se_Partition x) (se_Partition e)); [|done]. simpl. apply Z.eqb_neq. by apply Hx.
Qed.

Lemma AddCompleted_Lookup ok1 ok2 m e :
  Manifest_Lookup (AddCompleted ok1 ok2 m e).1 (se_Topic e) (se_Partition e) (se_BaseOffset e) = Some e.
Proof.
  unfold AddCompleted, Manifest_Lookup. rewrite (proj1 (flushBoth_state _ _ _)). cbn [mf_completed].
  apply find_none_app; [|unfold at_segment; by rewrite String.eqb_refl, !Z.eqb_refl].
  apply List.Forall_forall. intros x [_ Hx]%filter_In. by apply keeps_at_segment.
Qed.

(** Recording an upload keeps the archive free of overlaps: no two entries
    of a partition share a base offset or any offset.  The new entry is found
    under its base offset, and entries of other partitions are untouched. *)
Theorem AddCompleted_no_overlap ok1 ok2 m e :
  manifest_wf m -> se_BaseOffset e < se_NextOffset e ->
  let m' := (AddCompleted ok1 ok2 m e).1 in
  manifest_wf m' /\ Manifest_Lookup m' (se_Topic e) (se_Partition e) (se_BaseOffset e) = Some e /\
  (forall e', ~ (se_Topic e' = se_Topic e /\ se_Partition e' = se_Partition e) ->
     (In e' (mf_completed m') <-> In e' (mf_completed m))) /\
  (forall off a b, In a (mf_completed m') -> In b (mf_completed m') ->
     se_Topic a = se_Topic b -> se_Partition a = se_Partition b ->
     se_BaseOffset a <= off < se_NextOffset a -> se_BaseOffset b <= off < se_NextOffset b -> a = b).
Proof.
  intros Hwf He. cbn zeta. unfold AddCompleted, manifest_wf, Manifest_Lookup.
  rewrite (proj1 (flushBoth_state _ _ _)). cbn [mf_completed].
  set (kept := List.filter (keeps e) (mf_completed m)).
  assert (Forall (fun x => keeps e x = true) kept) as Hk.
  { apply List.Forall_forall. intros x [_ Hx]%filter_In. done. }
  assert (ForallOrdPairs compatible (kept ++ [e])) as Hall.
  { apply ForallOrdPairs_snoc; [by apply ForallOrdPairs_filter|].
    eapply Forall_impl; [exact Hk|]. intros x. apply keeps_compatible. }
  split_and!; [done| |..].
  { pose proof (AddCompleted_Lookup ok1 ok2 m e) as Hl. unfold AddCompleted, Manifest_Lookup in Hl.
    by rewrite (proj1 (flushBoth_state _ _ _)) in Hl. }
  - intros e' Hne. rewrite in_app_iff. unfold kept. rewrite filter_In. split.
    + intros [[? _]|[<-|[]]]; [done|]. by destruct Hne.
    + intros Hin. left. split; [done|]. unfold keeps.
      destruct (String.eqb_spec (se_Topic e') (se_Topic e)); [|done].
      destruct (Z.eqb_spec (se_Partition e') (se_Partition e)); [|done]. by destruct Hne.
  - intros off a b Ha Hb Ht Hp Hra Hrb.
    destruct (ForallOrdPairs_In Hall a b Ha Hb) as [?|[H|H]]; [done|..].
    + destruct (H Ht Hp) as [_ ?]. lia.
    + destruct (H (eq_sym Ht) (eq_sym Hp)) as [_ ?]. lia.
Qed.

Definition entry_0 : SegmentEntry := mkEntry "orders" 0 0 10 100 "ab" "k0" 7 "t1" "".
Definition entry_5 : SegmentEntry := mkEntry "orders" 0 5 20 200 "cd" "k5" 9 "t1" "".
Definition one_entry : Manifest := mkManifest [entry_0] ∅ None None.

Lemma AddCompleted_no_overlap_witness :
  let m' := (AddCompleted true true one_entry entry_5).1 in
  manifest_wf m' /\ Manifest_Lookup m' "orders" 0 5 = Some entry_5 /\
  (forall e', ~ (se_Topic e' = "orders" /\ se_Partition e' = 0) ->
     (In e' (mf_completed m') <-> In e' (mf_completed one_entry))) /\
  (forall off a b, In a (mf_completed m') -> In b (mf_completed m') ->
     se_Topic a = se_Topic b -> se_Partition a = se_Partition b ->
     se_BaseOffset a <= off < se_NextOffset a -> se_BaseOffset b <= off < se_NextOffset b -> a = b).
Proof.
  apply (AddCompleted_no_overlap true true one_entry entry_5).
  - apply FOP_cons; [apply Forall_nil_2|apply FOP_nil].
  - reflexivity.
Defined.

Lemma ForgetTopic_AllForTopic ok1 ok2 m topic : AllForTopic (ForgetTopic ok1 ok2 m topic).1 topic = [].
Proof.
  unfold ForgetTopic, AllForTopic. rewrite (proj1 (flushBoth_state _ _ _)). cbn.
  induction (mf_completed m) as [|x l IH]; [done|]. simpl.
  destruct (String.eqb (se_Topic x) topic) eqn:E; simpl; [done|]. by rewrite E.
Qed.

(** Forgetting a deleted topic leaves nothing of it: no segment of the name
    is archived or held, so a topic created later under it starts with an empty
    archive, and no upload of it is pending.  Every other topic keeps its
    entries, uploads and lookups. *)
Theorem ForgetTopic_clean ok1 ok2 m topic :
  let m' := (ForgetTopic ok1 ok2 m topic).1 in
  (forall p b n s, Manifest_Lookup m' topic p b = None /\ Holds m' topic p b n s = false) /\
  AllForTopic m' topic = [] /\
  (forall k u, GetPending m' k = Some u -> pu_Topic u <> topic) /\
  (forall t p b, t <> topic -> Manifest_Lookup m' t p b = Manifest_Lookup m t p b) /\
  (forall k u, GetPending m k = Some u -> pu_Topic u <> topic -> GetPending m' k = Some u).
Proof.
  cbn zeta. unfold ForgetTopic. set (m0 := mkManifest _ _ _ _).
  destruct (flushBoth_state ok1 ok2 m0) as [Hc Hp].
  assert (forall p b, Manifest_Lookup (flushBoth ok1 ok2 m0).1 topic p b = None) as Hnone.
  { intros p b. unfold Manifest_Lookup. rewrite Hc. apply find_all_false. cbn.
    apply List.Forall_forall. intros x [_ Hx]%filter_In.
    unfold at_segment. by destruct (String.eqb (se_Topic x) topic). }
  split_and!.
  - intros. unfold Holds. by rewrite Hnone.
  - apply ForgetTopic_AllForTopic.
  - intros k u. unfold GetPending. rewrite Hp. cbn. by intros [_ ?]%map_lookup_filter_Some.
  - intros t p b Hne. unfold Manifest_Lookup. rewrite Hc. cbn. clear - Hne.
    induction (mf_completed m) as [|x l IH]; [done|]. simpl.
    destruct (String.eqb_spec (se_Topic x) topic) as [E|E]; simpl.
    + assert (at_segment t p b x = false) as ->; [|exact IH].
      unfold at_segment. by rewrite (proj2 (String.eqb_neq _ _)) by congruence.
    + by rewrite IH.
  - intros k u Hu Hne. unfold GetPending in *. rewrite Hp. cbn. by apply map_lookup_filter_Some.
Qed.

(** ** Keys of different segments differ *)

Definition no_char (c : ascii) (s : string) : Prop := ~ string_In c s.

Lemma no_char_app c s t : no_char c (s +:+ t) <-> no_char c s /\ no_char c t.
Proof.
  unfold no_char. induction s as [|d s IH]; [simpl; tauto|].
  change (String d s +:+ t) with (String d (s +:+ t)). cbn [string_In]. tauto.
Qed.

(** Splitting at the first occurrence of a separator. *)
Lemma split_sep c a : forall b x y, no_char c a -> no_char c b ->
  a +:+ String c x = b +:+ String c y -> a = b /\ x = y.
Proof.
  induction a as [|d a IH]; intros [|e b] x y Ha Hb H.
  - by injection H as ->.
  - injection H as -> _. destruct Hb. by left.
  - injection H as -> _. destruct Ha. by left.
  - injection H as -> H. destruct (IH b x y) as [-> ->]; [intros ?; apply Ha; by right|intros ?; apply Hb; by right|done|done].
Qed.

Lemma split_none c a b y : no_char c a -> a = b +:+ String c y -> False.
Proof.
  intros Ha ->. apply no_char_app in Ha as [_ Ha]. apply Ha. by left.
Qed.

(** Decimal numbers have neither separator. *)
Lemma pretty_N_chars (x : N) : forall c, string_In c (pretty x) -> 48 <= code c <= 57.
Proof.
  unfold pretty, pretty_N. destruct (decide (x = 0%N)) as [_|_].
  { intros c [->|[]]. done. }
  assert (forall s, (forall c, string_In c s -> 48 <= code c <= 57) ->
            forall c, string_In c (pretty_N_go x s) -> 48 <= code c <= 57) as Hgo; [|apply Hgo; by intros c []].
  induction (N.lt_wf_0 x) as [x _ IH]. intros s Hs.
  destruct (decide (0 < x)%N) as [Hx|Hx].
  - rewrite pretty_N_go_step by done. apply IH; [apply N.div_lt; lia|].
    intros c [->|Hc]; [|by apply Hs].
    assert (x mod 10 < 10)%N as Hm by (by apply N.mod_lt).
    destruct (x mod 10)%N as [|p]; [done|].
    do 9 (destruct p as [p|p|]; try (vm_compute; split; discriminate); try lia).
  - assert (x = 0%N) as -> by lia. by rewrite pretty_N_go_0.
Qed.

Lemma pretty_Z_no_char c (z : Z) : code c = 47 \/ code c = 124 -> no_char c (pretty z).
Proof.
  intros Hc Hin. unfold pretty, pretty_Z in Hin. destruct z as [|p|p].
  - destruct Hin as [->|[]]. by destruct Hc.
  - apply pretty_N_chars in Hin. lia.
  - change (string_In c (String "-" (pretty (N.pos p)))) in Hin. destruct Hin as [->|Hin]; [by destruct Hc|].
    apply pretty_N_chars in Hin. lia.
Qed.

Lemma string_app_nil_l s : "" +:+ s = s.
Proof. done. Qed.

Lemma string_app_inj_l p x y : p +:+ x = p +:+ y -> x = y.
Proof. induction p as [|c p IH]; [done|]. intros H. injection H. apply IH. Qed.

(** The padded number and the suffix: no separator, and the number is
    recovered. *)
Lemma string_In_bytes c l : string_In c (String.string_of_list_byte l) -> exists b, In b l /\ c = ascii_of_byte b.
Proof.
  induction l as [|b l IH]; [done|]. intros [->|H]; [exists b; split; [by left|done]|].
  destruct (IH H) as (b' & ? & ?). exists b'. split; [by right|done].
Qed.

Lemma code_ascii_of_byte b : code (ascii_of_byte b) = b2z b.
Proof. by destruct b. Qed.

Lemma pad20_eq z : 0 <= z -> pad20 z = String.string_of_list_byte (dec_digits 20 z).
Proof. intros Hz. unfold pad20, segmentFilename. rewrite (proj2 (Z.ltb_ge _ _)) by lia. by rewrite app_nil_r. Qed.

Lemma pad20_no_slash z : 0 <= z -> no_char "/" (pad20 z +:+ ".log").
Proof.
  intros Hz. apply no_char_app. split.
  - rewrite pad20_eq by done. intros (b & Hb & Hc)%string_In_bytes.
    assert (is_digit b = true) as Hd.
    { pose proof (dec_digits_digits 20 z) as H. rewrite forallb_forall in H. by apply H. }
    unfold is_digit in Hd. rewrite <- code_ascii_of_byte, <- Hc in Hd. done.
  - vm_compute. intuition discriminate.
Qed.

Lemma pad20_inj a b x y : 0 <= a < 2 ^ 63 -> 0 <= b < 2 ^ 63 -> pad20 a +:+ x = pad20 b +:+ y -> a = b.
Proof.
  intros Ha Hb. rewrite !pad20_eq by lia.
  pose proof (dec_digits_length 20 a) as La. pose proof (dec_digits_length 20 b) as Lb.
  intros H. rewrite <- (dec_value_digits 20 a), <- (dec_value_digits 20 b) by (simpl; lia). f_equal.
  assert (length (dec_digits 20 a) = length (dec_digits 20 b)) as L by lia. clear - H L. revert L H.
  generalize (dec_digits 20 a) (dec_digits 20 b). induction l as [|c l IH]; intros [|d k] L H; try done.
  injection L as L. injection H as Hcd H. f_equal; [|by eapply IH].
  by rewrite <- (byte_of_ascii_of_byte c), <- (byte_of_ascii_of_byte d), Hcd.
Qed.

Lemma path_component_no_slash s : path_component s -> no_char "/" s.
Proof. intros (_ & _ & _ & H) Hin. by destruct (H _ Hin) as [[] _]. Qed.

(** The last three components of a key. *)
Definition key_tail (topic : string) (partition base : Z) : string :=
  topic +:+ String "/" (pretty partition +:+ String "/" (pad20 base +:+ ".log")).

Lemma key_tail_inj t1 p1 b1 t2 p2 b2 :
  no_char "/" t1 -> no_char "/" t2 -> 0 <= b1 < 2 ^ 63 -> 0 <= b2 < 2 ^ 63 ->
  key_tail t1 p1 b1 = key_tail t2 p2 b2 -> t1 = t2 /\ p1 = p2 /\ b1 = b2.
Proof.
  unfold key_tail. intros H1 H2 Hb1 Hb2 H.
  apply split_sep in H as [-> H]; [|done..].
  apply split_sep in H as [Hp H]; [|apply pretty_Z_no_char; by left..].
  apply (inj pretty) in Hp as ->. by apply pad20_inj in H as ->.
Qed.

(** A shared key is shorter than a tenant's by two components. *)
Lemma key_tail_tenant_neq topic1 p1 b1 c tenant topic2 p2 b2 :
  no_char "/" topic1 -> no_char "/" c -> no_char "/" tenant -> 0 <= b1 ->
  key_tail topic1 p1 b1 = c +:+ String "/" (tenant +:+ String "/" (key_tail topic2 p2 b2)) -> False.
Proof.
  unfold key_tail at 1. intros H1 Hc Ht Hb H.
  apply split_sep in H as [_ H]; [|done..].
  apply split_sep in H as [_ H]; [|done||apply pretty_Z_no_char; by left..].
  eapply split_none; [by apply pad20_no_slash|exact H].
Qed.

Lemma SegmentKeyTenant_tail pre tenant topic p b :
  SegmentKeyTenant pre tenant topic p b =
  trim_slash pre +:+ String "/" (if String.eqb tenant "" then key_tail topic p b
                                 else "tenants" +:+ String "/" (tenant +:+ String "/" (key_tail topic p b))).
Proof. unfold SegmentKeyTenant, key_tail. by destruct (String.eqb tenant ""). Qed.

(** Distinct segments never share an object in the store: when the topic is
    a single path component and the tenant is one or empty (which is what
    [ValidateName] accepts), the object key determines the tenant, the topic,
    the partition and the base offset, whatever the configured prefix.  A
    tenant's keys and the shared ones never meet. *)
Theorem SegmentKeyTenant_injective pre tn1 t1 p1 b1 tn2 t2 p2 b2 :
  (tn1 = "" \/ path_component tn1) -> (tn2 = "" \/ path_component tn2) ->
  path_component t1 -> path_component t2 -> 0 <= b1 < 2 ^ 63 -> 0 <= b2 < 2 ^ 63 ->
  SegmentKeyTenant pre tn1 t1 p1 b1 = SegmentKeyTenant pre tn2 t2 p2 b2 ->
  tn1 = tn2 /\ t1 = t2 /\ p1 = p2 /\ b1 = b2.
Proof.
  intros Hn1 Hn2 H1%path_component_no_slash H2%path_component_no_slash Hb1 Hb2.
  assert (no_char "/" "tenants") as Hw by (vm_compute; intuition discriminate).
  assert (forall s, s = "" \/ path_component s -> no_char "/" s) as Hn
    by (intros s [->|?]; [intros []|by apply path_component_no_slash]).
  rewrite !SegmentKeyTenant_tail. intros H%string_app_inj_l. injection H as H.
  destruct (String.eqb_spec tn1 "") as [->|], (String.eqb_spec tn2 "") as [->|].
  - split; [done|]. by apply key_tail_inj.
  - exfalso. eapply key_tail_tenant_neq, H; auto; lia.
  - exfalso. eapply key_tail_tenant_neq, (eq_sym H); auto; lia.
  - apply string_app_inj_l in H. injection H as H.
    apply split_sep in H as [-> H]; [|by apply Hn..]. split; [done|]. by apply key_tail_inj.
Qed.

Lemma ValidateName_component kind name : ValidateName kind name = Ok tt -> path_component name.
Proof.
  intros (? & _ & ? & ? & H)%ValidateName_Ok. split_and!; [done..|].
  intros c Hc. by eapply name_char_safe, string_forallb_In.
Qed.

Lemma SegmentKeyTenant_injective_witness :
  SegmentKeyTenant "seg/" "t1" "orders" 3 40 = "seg/tenants/t1/orders/3/00000000000000000040.log" /\
  ("t1" = "t1" /\ "orders" = "orders" /\ 3 = 3 /\ 40 = 40).
Proof.
  split; [vm_compute; reflexivity|].
  apply (SegmentKeyTenant_injective "seg/" "t1" "orders" 3 40 "t1" "orders" 3 40);
    [right|right| | |lia|lia|reflexivity];
    apply (ValidateName_component "topic"); vm_compute; reflexivity.
Defined.

(** Without the check the layout is ambiguous: the shared topic named
    [tenants/t1/orders] is stored under the key of tenant [t1]'s [orders]. *)
Example unvalidated_key_collision :
  SegmentKeyTenant "seg" "" "tenants/t1/orders" 0 0 = SegmentKeyTenant "seg" "t1" "orders" 0 0.
Proof. vm_compute. reflexivity. Qed.

(** ** Signatures bind the owner *)

Lemma signed_message_inj tn1 t1 p1 b1 s1 tn2 t2 p2 b2 s2 :
  no_char "|" tn1 -> no_char "|" tn2 -> no_char "|" t1 -> no_char "|" t2 ->
  signed_message tn1 t1 p1 b1 s1 = signed_message tn2 t2 p2 b2 s2 ->
  tn1 = tn2 /\ t1 = t2 /\ p1 = p2 /\ b1 = b2 /\ s1 = s2.
Proof.
  intros ???? H. unfold signed_message in H. apply string_app_inj_l in H.
  apply split_sep in H as [-> H]; [|done..].
  apply split_sep in H as [-> H]; [|done..].
  apply split_sep in H as [Hp H]; [|apply pretty_Z_no_char; by right..].
  apply split_sep in H as [Hb ->]; [|apply pretty_Z_no_char; by right..].
  apply (inj pretty) in Hp as ->. by apply (inj pretty) in Hb as ->.
Qed.

(** A signed entry proves who owns it: if the keyed hash has no collisions,
    then an entry that carries a signature made for a tenant, topic, partition,
    base offset and digest passes [VerifySignature] only if those five fields
    are unchanged, so editing any of them in the manifest is detected.  (The
    names have no separator, which is what [ValidateName] guarantees.) *)
Theorem VerifySignature_binds mac key e tenant topic p b sha :
  (forall x y, mac key x = mac key y -> x = y) -> key <> [] ->
  se_HMACSignature e = SegmentSignature mac key tenant topic p b sha -> se_HMACSignature e <> "" ->
  no_char "|" tenant -> no_char "|" topic -> no_char "|" (se_TenantID e) -> no_char "|" (se_Topic e) ->
  VerifySignature mac key e = true <->
  se_TenantID e = tenant /\ se_Topic e = topic /\ se_Partition e = p /\ se_BaseOffset e = b /\ se_SHA256 e = sha.
Proof.
  intros Hmac Hkey Hsig Hne ????. unfold VerifySignature.
  rewrite bool_decide_false, (proj2 (String.eqb_neq _ _) Hne) by done. cbn [orb].
  rewrite String.eqb_eq, Hsig.
  unfold SegmentSignature. split; [intros Heq%Hmac; by apply signed_message_inj|].
  by intros (-> & -> & -> & -> & ->).
Qed.

Definition toy_mac (key : list byte) (msg : string) : string := "mac:" +:+ msg.
Definition signed_entry (tenant : string) : SegmentEntry :=
  mkEntry "orders" 0 5 20 200 "cd" "k5" 9 tenant (SegmentSignature toy_mac [x01] "t1" "orders" 0 5 "cd").

Lemma VerifySignature_binds_witness :
  (VerifySignature toy_mac [x01] (signed_entry "t2") = true <->
   "t2" = "t1" /\ "orders" = "orders" /\ 0 = 0 /\ 5 = 5 /\ "cd" = "cd") /\
  VerifySignature toy_mac [x01] (signed_entry "t1") = true.
Proof.
  split; [|vm_compute; reflexivity].
  apply (VerifySignature_binds toy_mac [x01] (signed_entry "t2") "t1" "orders" 0 5 "cd");
    [intros x y H; injection H as H; exact H|discriminate|reflexivity|vm_compute; discriminate|..];
    vm_compute; intuition discriminate.
Defined.
