(* ===== verification/Cache.v ===== *)
(** * The restore cache and the restorer (internal/tiering/cache.go, restorer.go)

    Archived segments are downloaded into a bounded directory of files, each
    with the time of its last use, and served from there.  Paths are lists of
    components; hashing and the object store are arguments. *)

From S2P Require Import Prelude Bytes Names Log LogRecover Manifest.
From stdpp Require Import pretty.

#[local] Open Scope Z_scope.

(** ** Paths

    [filepath.Join] of an absolute directory and further elements: the elements
    are split at the separators and the result is cleaned, [".."] removing the
    component in front of it. *)

Fixpoint split_slash (s : string) : list string :=
  match s with
  | EmptyString => [""]
  | String c s =>
      if Ascii.eqb c "/" then "" :: split_slash s
      else match split_slash s with
      | [] => [String c ""]
      | w :: ws => String c w :: ws
      end
  end.

Definition clean_step (path : list string) (w : string) : list string :=
  if String.eqb w "" || String.eqb w "." then path
  else if String.eqb w ".." then take (length path - 1) path
  else path ++ [w].

Definition filepath_Join (dir : list string) (elems : list string) : list string :=
  foldl clean_step dir (elems ≫= split_slash).

(** ** The cache *)

Record cached := mkCached { c_data : list byte; c_time : Z }.

Record Cache := mkCache {
  cache_dir : list string;
  cache_maxBytes : Z;
  cache_files : gmap (list string) cached
}.

Definition set_files (c : Cache) (fs : gmap (list string) cached) : Cache :=
  mkCache (cache_dir c) (cache_maxBytes c) fs.

Definition NewCache (dir : list string) (maxBytes : Z) (fs : gmap (list string) cached) : Cache :=
  mkCache dir (if maxBytes <=? 0 then 2 * 1024 * 1024 * 1024 else maxBytes) fs.

Definition PathTenant (c : Cache) (tenant topic : string) (partition baseOffset : Z) : list string :=
  if String.eqb tenant ""
  then filepath_Join (cache_dir c) [topic; pretty partition; pad20 baseOffset +:+ ".log"]
  else filepath_Join (cache_dir c) ["tenants"; tenant; topic; pretty partition; pad20 baseOffset +:+ ".log"].

Definition Has (c : Cache) (topic : string) (partition baseOffset : Z) : bool :=
  bool_decide (is_Some (cache_files c !! PathTenant c "" topic partition baseOffset)).
Definition HasTenant (c : Cache) (tenant topic : string) (partition baseOffset : Z) : bool :=
  bool_decide (is_Some (cache_files c !! PathTenant c tenant topic partition baseOffset)).

(** [DropTopic]: the topic's directory at the top and under every tenant's
    directory goes, with everything below it. *)
Definition below (dir path : list string) : bool := bool_decide (dir `prefix_of` path).

Definition tenant_dirs (c : Cache) : list string :=
  omap (fun p => p !! S (length (cache_dir c)))
    (List.filter (fun p => below (cache_dir c ++ ["tenants"]) p && (length (cache_dir c) + 2 <? length p)%nat)
       (map_to_list (cache_files c)).*1).

Definition DropTopic (c : Cache) (topic : string) : Cache :=
  let dirs := filepath_Join (cache_dir c) [topic]
              :: map (fun t => filepath_Join (cache_dir c) ["tenants"; t; topic]) (tenant_dirs c) in
  set_files c (filter (fun kv => existsb (fun d => below d kv.1) dirs = false) (cache_files c)).

(** ** Eviction *)

Definition fileMeta : Type := list string * cached.
Definition fm_size (f : fileMeta) : Z := zlen (c_data f.2).
Definition older (a b : fileMeta) : Prop := c_time a.2 <= c_time b.2.
#[export] Instance older_dec a b : Decision (older a b) := Z_le_dec _ _.

Definition is_log (path : list string) : bool :=
  match last path with Some name => has_suffix name ".log" | None => false end.

Definition log_files (c : Cache) : list fileMeta :=
  List.filter (fun f => is_log f.1) (map_to_list (cache_files c)).

Definition total_size (fs : list fileMeta) : Z := foldr (fun f n => fm_size f + n) 0 fs.
Definition SizeBytes (c : Cache) : Z := total_size (log_files c).

Definition evictionGrace : Z := 60 * 1000000000.

(** The loop over the files, oldest first: a file used inside the grace period
    is passed over, any other is removed while the total is above the cap. *)
Fixpoint evict_loop (maxBytes cutoff total : Z) (fs : list fileMeta) (files : gmap (list string) cached)
  : gmap (list string) cached :=
  match fs with
  | [] => files
  | victim :: rest =>
      if total >? maxBytes then
        if c_time victim.2 >? cutoff then evict_loop maxBytes cutoff total rest files
        else evict_loop maxBytes cutoff (total - fm_size victim) rest (delete victim.1 files)
      else files
  end.

Definition evictLockedIfNeeded (now : Z) (c : Cache) : Cache :=
  let files := log_files c in
  let total := total_size files in
  if total <=? cache_maxBytes c then c
  else set_files c (evict_loop (cache_maxBytes c) (now - evictionGrace) total (merge_sort older files) (cache_files c)).

(** ** Storing and opening *)

Section hashed.
Context (sha256 : list byte -> string).   (* hexadecimal SHA-256 *)

(** [PutTenantStream] of a stream that yields [body] ([None]: it breaks off).
    The mismatch message slices both digests to twelve characters. *)
Definition PutTenantStream (now : Z) (c : Cache) (tenant topic : string) (partition baseOffset : Z)
    (body : option (list byte)) (expectedSha256 : string) : Cache * res Z :=
  let path := PathTenant c tenant topic partition baseOffset in
  match body with
  | None => (c, Err (EMsg "stream to cache tmp"))
  | Some data =>
      if negb (String.eqb expectedSha256 "") && negb (String.eqb (sha256 data) expectedSha256)
      then (c, if (String.length expectedSha256 <? 12)%nat then Panic else Err (EMsg "sha256 mismatch"))
      else (evictLockedIfNeeded now (set_files c (<[path := mkCached data now]> (cache_files c))), Ok (zlen data))
  end.

(** [PutTenant], the variant for a segment in memory; [ok] is that the directory,
    the temporary file and the rename succeed.  A temporary file that is left behind
    is not a segment. *)
Definition PutTenant (ok : bool) (now : Z) (c : Cache) (tenant topic : string) (partition baseOffset : Z)
    (data : list byte) (expectedSha256 : string) : Cache * res unit :=
  if negb (String.eqb expectedSha256 "") && negb (String.eqb (sha256 data) expectedSha256)
  then (c, if (String.length expectedSha256 <? 12)%nat then Panic else Err (EMsg "sha256 mismatch"))
  else if ok then
    (evictLockedIfNeeded now (set_files c (<[PathTenant c tenant topic partition baseOffset := mkCached data now]> (cache_files c))), Ok tt)
  else (c, Err (EMsg "write to cache")).

Definition Put (ok : bool) (now : Z) (c : Cache) (topic : string) (partition baseOffset : Z) (data : list byte) (expectedSha256 : string)
  : Cache * res unit := PutTenant ok now c "" topic partition baseOffset data expectedSha256.

(** A segment in memory is stored as a stream of it is. *)
Lemma PutTenant_stream now c tenant topic partition base data sha :
  PutTenant true now c tenant topic partition base data sha =
  (let (c', r) := PutTenantStream now c tenant topic partition base (Some data) sha in (c', _ ← r; Ok tt)).
Proof. unfold PutTenant, PutTenantStream. destruct (_ && _); [|done]. by destruct (_ <? _)%nat. Qed.

(** Opening touches the file's time. *)
Definition OpenTenant (now : Z) (c : Cache) (tenant topic : string) (partition baseOffset : Z) : Cache * res (list byte) :=
  let path := PathTenant c tenant topic partition baseOffset in
  match cache_files c !! path with
  | Some f => (set_files c (<[path := mkCached (c_data f) now]> (cache_files c)), Ok (c_data f))
  | None => (c, Err (EMsg "open: no such file or directory"))
  end.

Definition ReadAll (now : Z) (c : Cache) (topic : string) (partition baseOffset : Z) : Cache * res (list byte) :=
  OpenTenant now c "" topic partition baseOffset.

(** ** Restoring

    [get k key] is what the [k]-th download of [key] returns: an error, a stream
    that breaks off, or the object. *)

Context (mac : list byte -> string -> string) (hmacKey : list byte).

Definition downloadOnce (now : Z) (obj : res (option (list byte))) (c : Cache) (entry : SegmentEntry) : Cache * res unit :=
  match obj with
  | Ok body =>
      match PutTenantStream now c (se_TenantID entry) (se_Topic entry) (se_Partition entry) (se_BaseOffset entry)
              body (se_SHA256 entry) with
      | (c, Ok _) => (c, if (String.length (se_SHA256 entry) <? 12)%nat then Panic else Ok tt)
      | (c, Err e) => (c, Err (EWrap "cache put" e))
      | (c, _) => (c, Panic)
      end
  | Err e => (c, Err (EWrap "fetch archived segment" e))
  | _ => (c, Panic)
  end.

Fixpoint attempts (n k : nat) (now : Z) (get : nat -> string -> res (option (list byte))) (c : Cache) (entry : SegmentEntry)
    (lastErr : error) : Cache * res unit :=
  match n with
  | O => (c, Err lastErr)
  | S n =>
      match downloadOnce now (get k (se_S3Key entry)) c entry with
      | (c, Err e) => attempts n (S k) now get c entry e
      | r => r
      end
  end.

Definition doRestore (now : Z) (get : nat -> string -> res (option (list byte))) (c : Cache) (entry : SegmentEntry)
  : Cache * res unit :=
  if negb (VerifySignature mac hmacKey entry) then (c, Err (EMsg "manifest entry HMAC mismatch"))
  else attempts 3 0 now get c entry (EMsg "").

(** [Restore], when no download of the segment is in flight. *)
Definition Restore (now : Z) (get : nat -> string -> res (option (list byte))) (m : Manifest) (c : Cache)
    (topic : string) (partition baseOffset : Z) : Cache * res unit :=
  if Has c topic partition baseOffset then (c, Ok tt)
  else match Manifest_Lookup m topic partition baseOffset with
  | None => (c, Err (ESentinel ErrNotArchived))
  | Some entry => doRestore now get c entry
  end.

End hashed.

(** ** Paths of valid names *)

Lemma split_slash_none s : no_char "/" s -> split_slash s = [s].
Proof.
  induction s as [|c s IH]; [done|]. intros H. cbn [split_slash].
  destruct (Ascii.eqb_spec c "/") as [->|]; [destruct H; by left|].
  by rewrite IH by (intros ?; apply H; by right).
Qed.

Lemma clean_step_component path w : path_component w -> clean_step path w = path ++ [w].
Proof.
  intros (H1 & H2 & H3 & _). unfold clean_step.
  by rewrite (proj2 (String.eqb_neq _ _) H1), (proj2 (String.eqb_neq _ _) H2), (proj2 (String.eqb_neq _ _) H3).
Qed.

Lemma filepath_Join_components dir elems : Forall path_component elems -> filepath_Join dir elems = dir ++ elems.
Proof.
  unfold filepath_Join. intros H. revert dir. induction H as [|w ws Hw _ IH]; intros dir; [by rewrite app_nil_r|].
  cbn [mbind list_bind]. rewrite (split_slash_none w) by by apply path_component_no_slash. cbn [app foldl].
  by rewrite clean_step_component, IH, <- app_assoc.
Qed.

Ltac components := repeat (apply Forall_cons_2; [assumption|]); apply Forall_nil_2.

Lemma path_component_chars s : s <> "" -> s <> "." -> s <> ".." -> (forall c, string_In c s -> 45 <= code c <= 57 /\ code c <> 47 \/ 97 <= code c <= 122) ->
  path_component s.
Proof. intros ? ? ? H. split_and!; try done; intros c Hc; destruct (H c Hc); lia. Qed.

Lemma pretty_N_nonempty (x : N) : pretty x <> "".
Proof.
  unfold pretty, pretty_N. destruct (decide (x = 0%N)); [done|].
  rewrite pretty_N_go_step by lia. 
  assert (forall (y : N) s, s <> "" -> pretty_N_go y s <> "") as Hgo; [|by apply Hgo].
  clear. intros y. induction (N.lt_wf_0 y) as [y _ IH]. intros s Hs.
  destruct (decide (0 < y)%N) as [Hy|Hy].
  - rewrite pretty_N_go_step by done. apply IH; [apply N.div_lt; lia|done].
  - assert (y = 0%N) as -> by lia. by rewrite pretty_N_go_0.
Qed.

Lemma digits_not_dots s : s <> "" -> (forall c, string_In c s -> 48 <= code c <= 57) -> s <> "." /\ s <> "..".
Proof.
  intros _ H. split; intros ->; destruct (H "."%char) as [H1 H2]; try (by left); vm_compute in H1; done.
Qed.

Lemma pretty_Z_component (z : Z) : path_component (pretty z).
Proof.
  destruct z as [|p|p].
  - apply path_component_chars; try done. intros c [->|[]]. by left.
  - assert (forall c, string_In c (pretty (Z.pos p)) -> 48 <= code c <= 57) as Hd
      by (intros c; exact (pretty_N_chars (N.pos p) c)).
    pose proof (pretty_N_nonempty (N.pos p)) as Hne.
    destruct (digits_not_dots (pretty (Z.pos p)) Hne Hd). apply path_component_chars; try done.
    intros c Hc%Hd. lia.
  - change (pretty (Z.neg p)) with (String "-" (pretty (N.pos p))).
    apply path_component_chars; try done.
    intros c [->|Hc%pretty_N_chars]; [by left|]. lia.
Qed.

Lemma string_length_app a b : String.length (a +:+ b) = (String.length a + String.length b)%nat.
Proof. induction a as [|c a IH]; [done|]. change (String c a +:+ b) with (String c (a +:+ b)). simpl. by rewrite IH. Qed.

Lemma pad20_component z : 0 <= z -> path_component (pad20 z +:+ ".log").
Proof.
  intros Hz. assert (3 < String.length (pad20 z +:+ ".log"))%nat as Hl by (rewrite string_length_app; simpl; lia).
  apply path_component_chars; try (intros E; rewrite E in Hl; simpl in Hl; lia).
  intros c Hc. assert (string_In c (pad20 z) \/ string_In c ".log") as [H|H].
  { clear - Hc. revert Hc. generalize (pad20 z). intros s. induction s as [|d s IH]; [by right|].
    intros [->|H]; [left; by left|]. destruct (IH H); [left; by right|by right]. }
  - rewrite pad20_eq in H by done. apply string_In_bytes in H as (b & Hb & ->).
    pose proof (dec_digits_digits 20 z) as Hd. rewrite forallb_forall in Hd. specialize (Hd b Hb).
    unfold is_digit in Hd. rewrite code_ascii_of_byte. zbool. lia.
  - simpl in H. destruct H as [->|[->|[->|[->|[]]]]]; vm_compute; (left; intuition discriminate) || (right; intuition discriminate).
Qed.

Lemma tenants_component : path_component "tenants".
Proof. apply path_component_chars; try done. simpl. intros c Hc. right. intuition (subst; vm_compute; discriminate). Qed.

Definition valid_tenant (tenant : string) : Prop := tenant = "" \/ path_component tenant.

Lemma PathTenant_components c tenant topic p b :
  valid_tenant tenant -> path_component topic -> 0 <= b ->
  PathTenant c tenant topic p b =
    cache_dir c ++ (if String.eqb tenant "" then [] else ["tenants"; tenant]) ++ [topic; pretty p; pad20 b +:+ ".log"].
Proof.
  intros Hn Ht Hb. unfold PathTenant. pose proof tenants_component. pose proof (pretty_Z_component p).
  pose proof (pad20_component b Hb).
  destruct (String.eqb_spec tenant "") as [->|Hne].
  - by rewrite filepath_Join_components by components.
  - destruct Hn as [?|Hn]; [done|].
    by rewrite filepath_Join_components by components.
Qed.

(** ** Eviction keeps what is in use and removes the oldest first *)

Definition map_total (files : gmap (list string) cached) : Z :=
  total_size (List.filter (fun f => is_log f.1) (map_to_list files)).

Lemma total_size_perm l k : Permutation l k -> total_size l = total_size k.
Proof. induction 1; simpl; lia. Qed.

Lemma filter_perm {A} (f : A -> bool) l k : Permutation l k -> Permutation (List.filter f l) (List.filter f k).
Proof. induction 1; simpl; repeat case_match; eauto using Permutation. Qed.

Lemma map_total_delete files (f : fileMeta) :
  files !! f.1 = Some f.2 -> is_log f.1 = true -> map_total (delete f.1 files) = map_total files - fm_size f.
Proof.
  intros Hf Hl. unfold map_total.
  rewrite <- (total_size_perm _ _ (filter_perm _ _ _ (map_to_list_delete files f.1 f.2 Hf))).
  simpl. rewrite Hl. simpl. unfold fm_size. simpl. lia.
Qed.

Record evicted (maxBytes cutoff : Z) (fs : list fileMeta) (files files' : gmap (list string) cached) : Prop := {
  ev_sub : files' ⊆ files;
  ev_old : forall k x, files !! k = Some x -> files' !! k = None -> (k, x) ∈ fs /\ c_time x <= cutoff;
  ev_lru : forall f g, f ∈ fs -> g ∈ fs -> files' !! f.1 = None -> c_time g.2 < c_time f.2 -> files' !! g.1 = None;
  ev_cap : map_total files' <= maxBytes \/ (forall f, f ∈ fs -> is_Some (files' !! f.1) -> c_time f.2 > cutoff)
}.

Lemma evict_loop_spec maxBytes cutoff fs : forall files,
  NoDup fs.*1 -> (forall f, f ∈ fs -> files !! f.1 = Some f.2 /\ is_log f.1 = true) -> StronglySorted older fs ->
  evicted maxBytes cutoff fs files (evict_loop maxBytes cutoff (map_total files) fs files).
Proof.
  induction fs as [|v fs IH]; intros files Hnd Hin Hs; cbn [evict_loop].
  { split; try done; [intros k x ->; done|intros f g Hf; by apply elem_of_nil in Hf|].
    right. intros f Hf. by apply elem_of_nil in Hf. }
  apply NoDup_cons in Hnd as [Hv Hnd]. inversion Hs as [|? ? Hs' Hle]; subst. rewrite Forall_forall in Hle.
  destruct (Hin v) as [Hfv Hlv]; [by left|].
  rewrite Z.gtb_ltb. destruct (Z.ltb_spec maxBytes (map_total files)) as [Hgt|Hle'].
  2:{ split; [done|intros k x ->; done| |left; lia]. intros f g Hf _ Hnone. destruct (Hin f Hf). congruence. }
  rewrite Z.gtb_ltb. destruct (Z.ltb_spec cutoff (c_time v.2)) as [Hy|Ho].
  - destruct (IH files Hnd) as [H1 H2 H3 H4]; [intros f Hf; apply Hin; by right|done|]. split; [done| | |].
    + intros k x Hk Hn. destruct (H2 k x Hk Hn). split; [by right|done].
    + intros f g Hf Hg Hn Hlt. apply elem_of_cons in Hf as [->|Hf], Hg as [->|Hg]; [lia| | |by eapply (H3 f g)].
      * specialize (Hle g Hg). unfold older in Hle. lia.
      * destruct (Hin f) as [Hff _]; [by right|]. destruct (H2 _ _ Hff Hn) as [_ ?]. lia.
    + destruct H4 as [H4|H4]; [by left|right]. intros f Hf Hsome. apply elem_of_cons in Hf as [->|Hf]; [lia|by apply H4].
  - rewrite <- map_total_delete by done.
    destruct (IH (delete v.1 files) Hnd) as [H1 H2 H3 H4]; [|done|].
    { intros f Hf. rewrite lookup_delete_ne; [apply Hin; by right|]. intros E. apply Hv. rewrite E.
      by apply list_elem_of_fmap_2. }
    set (out := evict_loop _ _ _ _ _) in *.
    assert (out !! v.1 = None) as Hvn.
    { apply eq_None_not_Some. intros [x Hx]. eapply lookup_weaken in H1; [|exact Hx]. by rewrite lookup_delete_eq in H1. }
    split.
    + etrans; [exact H1|apply delete_subseteq].
    + intros k x Hk Hn. destruct (decide (k = v.1)) as [->|Hne].
      * assert (x = v.2) as -> by congruence. split; [|done]. destruct v. by left.
      * destruct (H2 k x) as [? ?]; [by rewrite lookup_delete_ne|done|]. split; [by right|done].
    + intros f g Hf Hg Hn Hlt. apply elem_of_cons in Hf as [->|Hf], Hg as [->|Hg]; try done; [|by eapply (H3 f g)].
      specialize (Hle g Hg). unfold older in Hle. lia.
    + destruct H4 as [H4|H4]; [by left|right]. intros f Hf Hsome. apply elem_of_cons in Hf as [->|Hf]; [|by apply H4].
      rewrite Hvn in Hsome. by destruct Hsome.
Qed.

#[local] Instance older_trans : Transitive older.
Proof. intros a b c. unfold older. lia. Qed.
#[local] Instance older_total : Total older.
Proof. intros a b. unfold older. lia. Qed.

Lemma log_files_spec c f : f ∈ log_files c <-> cache_files c !! f.1 = Some f.2 /\ is_log f.1 = true.
Proof.
  unfold log_files. rewrite list_elem_of_In, filter_In, <- list_elem_of_In. destruct f. by rewrite elem_of_map_to_list.
Qed.

Lemma NoDup_fst_filter {A B} (f : A * B -> bool) l : NoDup l.*1 -> NoDup (List.filter f l).*1.
Proof.
  induction l as [|x l IH]; simpl; [done|]. intros [Hx Hl]%NoDup_cons. destruct (f x); [|by apply IH].
  simpl. apply NoDup_cons. split; [|by apply IH]. intros Hin. apply Hx.
  apply list_elem_of_fmap in Hin as (y & -> & Hy). apply list_elem_of_fmap_2.
  rewrite list_elem_of_In, filter_In, <- list_elem_of_In in Hy. apply Hy.
Qed.

Lemma evict_files now c :
  evicted (cache_maxBytes c) (now - evictionGrace) (log_files c) (cache_files c) (cache_files (evictLockedIfNeeded now c)).
Proof.
  unfold evictLockedIfNeeded. destruct (Z.leb_spec (total_size (log_files c)) (cache_maxBytes c)) as [Hle|Hgt].
  { split; [done|intros k x ->; done| |by left]. intros f g Hf _ Hn. apply log_files_spec in Hf as [? _]. congruence. }
  pose proof (merge_sort_Permutation older (log_files c)) as Hp.
  assert (forall f, f ∈ log_files c <-> f ∈ merge_sort older (log_files c)) as He by (intros f; by rewrite Hp).
  destruct (evict_loop_spec (cache_maxBytes c) (now - evictionGrace) (merge_sort older (log_files c)) (cache_files c))
    as [H1 H2 H3 H4].
  - rewrite (fmap_Permutation fst _ _ Hp). apply NoDup_fst_filter, NoDup_fst_map_to_list.
  - intros f. rewrite <- He. apply log_files_spec.
  - apply (StronglySorted_merge_sort older).
  - change (total_size (log_files c)) with (map_total (cache_files c)). cbn [set_files cache_files].
    split; [done|intros k x Hk Hn; rewrite He; by apply H2| |].
    + intros f g. rewrite (He f), (He g). apply H3.
    + destruct H4 as [H4|H4]; [by left|right]. intros f. rewrite (He f). apply H4.
Qed.

(** The cache is a bounded least-recently-used store.  Eviction only removes
    segment files, never one used within the last minute, and when it removes a
    file it also removes every file used less recently; afterwards the cache is
    within its byte cap, or everything left in it is within the grace period. *)
Theorem evict_lru now c c' :
  evictLockedIfNeeded now c = c' ->
  cache_files c' ⊆ cache_files c /\
  (forall path f, cache_files c !! path = Some f -> is_log path = false \/ c_time f > now - evictionGrace ->
     cache_files c' !! path = Some f) /\
  (forall path f path' f', cache_files c !! path = Some f -> cache_files c' !! path = None ->
     cache_files c !! path' = Some f' -> is_log path' = true -> c_time f' < c_time f -> cache_files c' !! path' = None) /\
  (SizeBytes c' <= cache_maxBytes c \/
   forall path f, cache_files c' !! path = Some f -> is_log path = true -> c_time f > now - evictionGrace).
Proof.
  intros <-. destruct (evict_files now c) as [H1 H2 H3 H4]. split_and!.
  - exact H1.
  - intros path f Hf Hk. destruct (cache_files (evictLockedIfNeeded now c) !! path) as [g|] eqn:E.
    + by rewrite (lookup_weaken _ _ _ _ E H1) in Hf.
    + destruct (H2 _ _ Hf E) as [[_ Hl]%log_files_spec ?]. simpl in Hl. destruct Hk; [congruence|lia].
  - intros path f path' f' Hf Hn Hf' Hl Hlt. destruct (H2 _ _ Hf Hn) as [Hin _].
    apply (H3 (path, f) (path', f')); [done|by apply log_files_spec|done|done].
  - destruct H4 as [H4|H4]; [by left|right]. intros path f Hf Hl.
    apply (H4 (path, f)); [apply log_files_spec; split; [|done]; by eapply lookup_weaken|simpl; rewrite Hf; eauto].
Qed.

(** ** Restored segments are authentic *)

Section restore.
Context (sha256 : list byte -> string) (mac : list byte -> string -> string) (hmacKey : list byte).
Context (now : Z) (get : nat -> string -> res (option (list byte))).

Definition entry_path (c : Cache) (e : SegmentEntry) : list string :=
  PathTenant c (se_TenantID e) (se_Topic e) (se_Partition e) (se_BaseOffset e).

Lemma PutTenantStream_ok c tenant topic p b body sha c' n :
  sha <> "" -> PutTenantStream sha256 now c tenant topic p b body sha = (c', Ok n) ->
  exists data, body = Some data /\ sha256 data = sha /\ n = zlen data /\
    cache_files c' !! PathTenant c tenant topic p b = Some (mkCached data now) /\
    cache_files c' ⊆ <[PathTenant c tenant topic p b := mkCached data now]> (cache_files c).
Proof.
  intros Hne. unfold PutTenantStream. destruct body as [data|]; [|done].
  rewrite (proj2 (String.eqb_neq sha "") Hne). cbn [negb andb].
  destruct (String.eqb_spec (sha256 data) sha) as [Hsha|]; cbn [negb]; [|by destruct (_ <? _)%nat].
  intros [= <- <-]. exists data. set (c1 := set_files _ _).
  destruct (evict_files now c1) as [H1 H2 _ _]. split_and!; [done..| |exact H1].
  destruct (cache_files (evictLockedIfNeeded now c1) !! PathTenant c tenant topic p b) as [g|] eqn:E.
  - pose proof (lookup_weaken _ _ _ _ E H1) as Hl. subst c1. cbn in Hl. by rewrite lookup_insert_eq in Hl.
  - destruct (H2 (PathTenant c tenant topic p b) (mkCached data now)) as [_ Hold]; [|done|].
    { subst c1. cbn. apply lookup_insert_eq. } cbn in Hold. unfold evictionGrace in Hold. lia.
Qed.

Lemma PutTenantStream_err c tenant topic p b body sha c' e :
  PutTenantStream sha256 now c tenant topic p b body sha = (c', Err e) -> c' = c.
Proof.
  unfold PutTenantStream. destruct body; [|by intros [= <- _]].
  destruct (_ && _); [|done]. destruct (_ <? _)%nat; [done|]. by intros [= <- _].
Qed.

Lemma attempts_ok n : forall k c e le c',
  attempts sha256 n k now get c e le = (c', Ok tt) ->
  exists j data, (k <= j < k + n)%nat /\ get j (se_S3Key e) = Ok (Some data) /\ sha256 data = se_SHA256 e /\
    cache_files c' !! entry_path c e = Some (mkCached data now) /\
    cache_files c' ⊆ <[entry_path c e := mkCached data now]> (cache_files c).
Proof.
  induction n as [|n IH]; intros k c e le c'; cbn [attempts]; [done|].
  unfold downloadOnce. destruct (get k (se_S3Key e)) as [body|er| |] eqn:Eg; try done.
  2:{ intros H. apply IH in H as (j & data & ? & ?). exists j, data. split; [lia|done]. }
  destruct (PutTenantStream _ _ _ _ _ _ _ _ _) as [c1 [m|er| |]] eqn:Ep; try done.
  - destruct (Nat.ltb_spec (String.length (se_SHA256 e)) 12) as [|Hlen]; [done|]. intros [= <-].
    assert (se_SHA256 e <> "") as Hne by (intros H0; rewrite H0 in Hlen; simpl in Hlen; lia).
    apply PutTenantStream_ok in Ep as (data & -> & Hs & _ & Hc & Hsub); [|done].
    exists k, data. split_and!; try done; lia.
  - apply PutTenantStream_err in Ep as ->. intros H. apply IH in H as (j & data & ? & ?). exists j, data. split; [lia|done].
Qed.

(** A restore that reports success served only authentic bytes: the
    manifest entry's ownership signature verified, the file placed in the cache
    under the entry's tenant, topic, partition and offset is an object the store
    returned for the entry's key with exactly the recorded digest, and no other
    file was added or changed. *)
Theorem Restore_authentic m c topic p b e c' :
  Has c topic p b = false -> Manifest_Lookup m topic p b = Some e ->
  Restore sha256 mac hmacKey now get m c topic p b = (c', Ok tt) ->
  VerifySignature mac hmacKey e = true /\
  exists k data, (k < 3)%nat /\ get k (se_S3Key e) = Ok (Some data) /\ sha256 data = se_SHA256 e /\
    cache_files c' !! entry_path c e = Some (mkCached data now) /\
    (forall path f, path <> entry_path c e -> cache_files c' !! path = Some f -> cache_files c !! path = Some f).
Proof.
  intros Hhas Hl. unfold Restore. rewrite Hhas, Hl. unfold doRestore.
  destruct (VerifySignature mac hmacKey e); cbn [negb]; [|done]. intros H. split; [done|].
  apply attempts_ok in H as (k & data & Hk & Hg & Hs & Hc & Hsub). exists k, data. split_and!; try done; [lia|].
  intros path f Hne Hf. eapply lookup_weaken in Hf; [|exact Hsub]. by rewrite lookup_insert_ne in Hf.
Qed.

End restore.

(** ** Dropping a topic *)

Definition cache_wf (c : Cache) : Prop :=
  forall path, is_Some (cache_files c !! path) -> exists ws, path = cache_dir c ++ ws /\ Forall path_component ws.

Lemma tenant_dirs_In c t :
  In t (tenant_dirs c) <->
  exists x ws, is_Some (cache_files c !! (cache_dir c ++ "tenants" :: t :: x :: ws)).
Proof.
  unfold tenant_dirs. rewrite <- list_elem_of_In, list_elem_of_omap. split.
  - intros (p & Hp & Ht). rewrite list_elem_of_In, filter_In, <- list_elem_of_In in Hp. destruct Hp as [Hp Hb].
    apply list_elem_of_fmap in Hp as ([q f] & -> & Hq). apply elem_of_map_to_list in Hq. simpl in *.
    apply andb_true_iff in Hb as [Hb Hl]. unfold below in Hb. apply bool_decide_eq_true in Hb as [ws ->].
    rewrite <- app_assoc in *. apply Nat.ltb_lt in Hl. rewrite length_app in Hl. simpl in Hl.
    rewrite lookup_app_r in Ht by lia. replace (S (length (cache_dir c)) - length (cache_dir c))%nat with 1%nat in Ht by lia.
    destruct ws as [|t' [|x ws]]; simpl in *; try lia. simplify_eq. eauto.
  - intros (x & ws & f & Hf). exists (cache_dir c ++ "tenants" :: t :: x :: ws). split.
    + rewrite list_elem_of_In, filter_In, <- list_elem_of_In. split.
      * apply list_elem_of_fmap. exists (cache_dir c ++ "tenants" :: t :: x :: ws, f). split; [done|]. by apply elem_of_map_to_list.
      * apply andb_true_iff. split; [apply bool_decide_eq_true; exists (t :: x :: ws); by rewrite <- app_assoc|].
        apply Nat.ltb_lt. rewrite length_app. simpl. lia.
    + rewrite lookup_app_r by lia. by replace (S (length (cache_dir c)) - length (cache_dir c))%nat with 1%nat by lia.
Qed.

Lemma below_app dir u w : below (dir ++ u) (dir ++ w) = bool_decide (u `prefix_of` w).
Proof.
  unfold below. apply bool_decide_ext. split; [|apply prefix_app]. intros [k Hk]. exists k.
  rewrite <- app_assoc in Hk. by apply app_inv_head in Hk.
Qed.

(** Dropping a deleted topic leaves none of its restored segments in the
    cache, under any tenant, and every restored segment of the other topics. *)
Theorem DropTopic_clean c topic :
  cache_wf c -> path_component topic -> topic <> "tenants" ->
  (forall tenant p b, valid_tenant tenant -> 0 <= b -> HasTenant (DropTopic c topic) tenant topic p b = false) /\
  (forall tenant topic' p b, valid_tenant tenant -> path_component topic' -> topic' <> topic -> topic' <> "tenants" -> 0 <= b ->
     cache_files (DropTopic c topic) !! PathTenant c tenant topic' p b = cache_files c !! PathTenant c tenant topic' p b).
Proof.
  intros Hwf Ht Hnt. pose proof tenants_component as Hw. split.
  - intros tenant p b Hn Hb. apply bool_decide_eq_false. intros [f Hf].
    change (PathTenant (DropTopic c topic) tenant topic p b) with (PathTenant c tenant topic p b) in Hf.
    unfold DropTopic in Hf. cbn [set_files cache_files] in Hf.
    apply map_lookup_filter_Some in Hf as [Hf Hno]. cbn [fst] in Hno. cbn [existsb] in Hno.
    apply orb_false_iff in Hno as [Hno1 Hno2]. rewrite PathTenant_components in Hf, Hno1, Hno2 by done.
    destruct (String.eqb_spec tenant "") as [->|Hne].
    + rewrite filepath_Join_components, below_app in Hno1 by components. apply bool_decide_eq_false in Hno1.
      apply Hno1. by exists [pretty p; pad20 b +:+ ".log"].
    + destruct Hn as [|Hn]; [done|]. assert (In tenant (tenant_dirs c)) as Hin by (apply tenant_dirs_In; by exists topic, [pretty p; pad20 b +:+ ".log"], f).
      apply not_true_iff_false in Hno2. apply Hno2. apply existsb_exists.
      eexists. split; [by apply in_map|]. cbv beta.
      rewrite filepath_Join_components by components.
      rewrite below_app. apply bool_decide_eq_true. by exists [pretty p; pad20 b +:+ ".log"].
  - intros tenant topic' p b Hn Ht' Hne Hnt' Hb. unfold DropTopic. cbn [set_files cache_files].
    destruct (cache_files c !! PathTenant c tenant topic' p b) as [f|] eqn:Hf;
      [|apply map_lookup_filter_None; by left].
    apply map_lookup_filter_Some. split; [done|]. cbn [fst existsb]. rewrite PathTenant_components by done.
    apply orb_false_iff. split.
    + rewrite filepath_Join_components, below_app by components. apply bool_decide_eq_false.
      destruct (String.eqb tenant ""); intros [k [= ? ?]]; congruence.
    + apply not_true_iff_false. rewrite existsb_exists. intros (d & Hd & Hpre).
      apply in_map_iff in Hd as (t & <- & (x & ws & Hsome)%tenant_dirs_In).
      destruct (Hwf _ Hsome) as (vs & Heq%app_inv_head & Hvs). subst vs.
      apply Forall_cons in Hvs as [_ [Htc _]%Forall_cons].
      rewrite filepath_Join_components in Hpre by components.
      rewrite below_app in Hpre. apply bool_decide_eq_true in Hpre as [k Hk].
      destruct (String.eqb tenant ""); simpl in Hk; simplify_eq.
Qed.

(** ** Examples *)

Definition sample_sha (data : list byte) : string := "sha256:" +:+ pretty (zlen data) +:+ "-bytes".
Definition seg_file (name : string) (t : Z) (n : nat) : list string * cached :=
  (["cache"; "orders"; "0"; name +:+ ".log"], mkCached (replicate n x00) t).
Definition sample_cache : Cache :=
  mkCache ["cache"] 250 (list_to_map [seg_file "a" 0 100; seg_file "b" 1 100; seg_file "c" (100 * 1000000000) 100]).
Definition sample_entry : SegmentEntry := mkEntry "orders" 0 5 20 4 "sha256:4-bytes" "k5" 9 "t1" "".
Definition sample_manifest : Manifest := mkManifest [sample_entry] ∅ None None.
Definition sample_get (k : nat) (key : string) : res (option (list byte)) :=
  if (k =? 0)%nat then Err (EMsg "timeout") else Ok (Some [x01; x02; x03; x04]).

(** 300 bytes over a cap of 250: the least recently used file goes. *)
Example evict_oldest :
  (map_to_list (cache_files (evictLockedIfNeeded (100 * 1000000000) sample_cache))).*2 ≡ₚ
  [mkCached (replicate 100 x00) 1; mkCached (replicate 100 x00) (100 * 1000000000)].
Proof. vm_compute. apply perm_swap || reflexivity. Qed.

Lemma evict_lru_witness :
  let c := sample_cache in let c' := evictLockedIfNeeded (100 * 1000000000) c in let now := 100 * 1000000000 in
  cache_files c' ⊆ cache_files c /\
  (forall path f, cache_files c !! path = Some f -> is_log path = false \/ c_time f > now - evictionGrace ->
     cache_files c' !! path = Some f) /\
  (forall path f path' f', cache_files c !! path = Some f -> cache_files c' !! path = None ->
     cache_files c !! path' = Some f' -> is_log path' = true -> c_time f' < c_time f -> cache_files c' !! path' = None) /\
  (SizeBytes c' <= cache_maxBytes c \/
   forall path f, cache_files c' !! path = Some f -> is_log path = true -> c_time f > now - evictionGrace).
Proof.
  apply (evict_lru (100 * 1000000000) sample_cache (evictLockedIfNeeded (100 * 1000000000) sample_cache)). reflexivity.
Defined.

(** The first download fails, the second one is kept. *)
Lemma Restore_authentic_witness :
  let c' := (Restore sample_sha toy_mac [] 7 sample_get sample_manifest sample_cache "orders" 0 5).1 in
  VerifySignature toy_mac [] sample_entry = true /\
  exists k data, (k < 3)%nat /\ sample_get k (se_S3Key sample_entry) = Ok (Some data) /\
    sample_sha data = se_SHA256 sample_entry /\
    cache_files c' !! entry_path sample_cache sample_entry = Some (mkCached data 7) /\
    (forall path f, path <> entry_path sample_cache sample_entry -> cache_files c' !! path = Some f ->
       cache_files sample_cache !! path = Some f).
Proof.
  apply (Restore_authentic sample_sha toy_mac [] 7 sample_get sample_manifest sample_cache "orders" 0 5 sample_entry);
    vm_compute; reflexivity.
Defined.

(** The presence test looks at the shared path only: a tenant's segment is
    downloaded again although the cache holds it. *)
Example tenant_copy_ignored :
  let c := (Restore sample_sha toy_mac [] 7 sample_get sample_manifest sample_cache "orders" 0 5).1 in
  HasTenant c "t1" "orders" 0 5 = true /\
  (Restore sample_sha toy_mac [] 8 (fun _ _ => Err (EMsg "timeout")) sample_manifest c "orders" 0 5).2 =
    Err (EWrap "fetch archived segment" (EMsg "timeout")).
Proof. vm_compute. split; reflexivity. Qed.

Lemma DropTopic_clean_witness :
  (forall tenant p b, valid_tenant tenant -> 0 <= b -> HasTenant (DropTopic (NewCache ["cache"] 0 ∅) "orders") tenant "orders" p b = false) /\
  (forall tenant topic' p b, valid_tenant tenant -> path_component topic' -> topic' <> "orders" -> topic' <> "tenants" -> 0 <= b ->
     cache_files (DropTopic (NewCache ["cache"] 0 ∅) "orders") !! PathTenant (NewCache ["cache"] 0 ∅) tenant topic' p b =
     cache_files (NewCache ["cache"] 0 ∅) !! PathTenant (NewCache ["cache"] 0 ∅) tenant topic' p b).
Proof.
  apply (DropTopic_clean (NewCache ["cache"] 0 ∅) "orders").
  - intros path [f Hf]. cbn in Hf. rewrite lookup_empty in Hf. discriminate.
  - apply (ValidateName_component "topic"). vm_compute. reflexivity.
  - discriminate.
Defined.
