(* ===== verification/Flight.v ===== *)
(** * Concurrent restores (internal/tiering/restorer.go, [Restore])

    Every fetch below the local log runs [Restore] in its own goroutine.  The first
    one for an object downloads it; those that come meanwhile wait for its result.
    The steps are what happens under the mutex, one download, and the channel
    operations; between them the goroutines interleave freely. *)

From S2P Require Import Prelude Bytes Names Log LogRecover Manifest Cache.

#[local] Open Scope Z_scope.

(** A download in progress or finished; its result is set when the channel is closed. *)
Record restoreCall := mkCall { rc_key : string; rc_err : option (res unit) }.

(** Where a call of [Restore] is: before the cache is looked at, before the manifest
    is, before the mutex is taken, waiting, downloading, with the channel closed but
    the call still listed, or returned (with the entry, if one was found, and the
    download it led or waited for). *)
Inductive caller :=
| CLooking (topic : string) (partition base : Z)
| CMissed (topic : string) (partition base : Z)
| CEntering (e : SegmentEntry)
| CWaiting (e : SegmentEntry) (rc : nat)
| CDownloading (e : SegmentEntry) (rc : nat)
| CPublished (e : SegmentEntry) (rc : nat) (r : res unit)
| CReturned (e : option (SegmentEntry * nat)) (r : res unit).

Record flight := mkFlight {
  sf_inFlight : gmap string nat; sf_calls : list restoreCall; sf_callers : list caller; sf_cache : Cache
}.

Definition context_ended : res unit := Err (EMsg "context deadline exceeded").

Section flights.
Context (sha256 : list byte -> string) (mac : list byte -> string -> string) (hmacKey : list byte).

(** A download that was carried out: for which call, of which entry, with which answers
    of the store, on which cache, and what came of it. *)
Record restored := mkRestored {
  rd_call : nat; rd_entry : SegmentEntry; rd_now : Z; rd_get : nat -> string -> res (option (list byte));
  rd_before : Cache; rd_after : Cache; rd_result : res unit
}.

(** One step, and the download it carries out.  A panic of a download ends the process,
    and with it the flights. *)
Inductive flight_step : option restored -> flight -> flight -> Prop :=
| FArrive fl calls cs c topic p b : flight_step None (mkFlight fl calls cs c) (mkFlight fl calls (cs ++ [CLooking topic p b]) c)
| FHit fl calls cs c i topic p b : cs !! i = Some (CLooking topic p b) -> Has c topic p b = true ->
    flight_step None (mkFlight fl calls cs c) (mkFlight fl calls (<[i := CReturned None (Ok tt)]> cs) c)
| FMiss fl calls cs c i topic p b : cs !! i = Some (CLooking topic p b) -> Has c topic p b = false ->
    flight_step None (mkFlight fl calls cs c) (mkFlight fl calls (<[i := CMissed topic p b]> cs) c)
| FUnknown fl calls cs c i topic p b m : cs !! i = Some (CMissed topic p b) -> Manifest_Lookup m topic p b = None ->
    flight_step None (mkFlight fl calls cs c) (mkFlight fl calls (<[i := CReturned None (Err (ESentinel ErrNotArchived))]> cs) c)
| FFound fl calls cs c i topic p b m e : cs !! i = Some (CMissed topic p b) -> Manifest_Lookup m topic p b = Some e ->
    flight_step None (mkFlight fl calls cs c) (mkFlight fl calls (<[i := CEntering e]> cs) c)
| FJoin fl calls cs c i e rc : cs !! i = Some (CEntering e) -> fl !! se_S3Key e = Some rc ->
    flight_step None (mkFlight fl calls cs c) (mkFlight fl calls (<[i := CWaiting e rc]> cs) c)
| FLead fl calls cs c i e : cs !! i = Some (CEntering e) -> fl !! se_S3Key e = None ->
    flight_step None (mkFlight fl calls cs c)
      (mkFlight (<[se_S3Key e := length calls]> fl) (calls ++ [mkCall (se_S3Key e) None]) (<[i := CDownloading e (length calls)]> cs) c)
| FRestore fl calls cs c i e rc now get c' r : cs !! i = Some (CDownloading e rc) ->
    doRestore sha256 mac hmacKey now get c e = (c', r) -> r <> Panic ->
    flight_step (Some (mkRestored rc e now get c c' r)) (mkFlight fl calls cs c) (mkFlight fl (<[rc := mkCall (se_S3Key e) (Some r)]> calls) (<[i := CPublished e rc r]> cs) c')
| FAbandon fl calls cs c i e rc : cs !! i = Some (CDownloading e rc) ->   (* its own context ends *)
    flight_step None (mkFlight fl calls cs c)
      (mkFlight fl (<[rc := mkCall (se_S3Key e) (Some context_ended)]> calls) (<[i := CPublished e rc context_ended]> cs) c)
| FDelete fl calls cs c i e rc r : cs !! i = Some (CPublished e rc r) ->
    flight_step None (mkFlight fl calls cs c) (mkFlight (delete (se_S3Key e) fl) calls (<[i := CReturned (Some (e, rc)) r]> cs) c)
| FWake fl calls cs c i e rc k r : cs !! i = Some (CWaiting e rc) -> calls !! rc = Some (mkCall k (Some r)) ->
    flight_step None (mkFlight fl calls cs c) (mkFlight fl calls (<[i := CReturned (Some (e, rc)) r]> cs) c)
| FGiveUp fl calls cs c i e rc : cs !! i = Some (CWaiting e rc) ->        (* its own context ends *)
    flight_step None (mkFlight fl calls cs c) (mkFlight fl calls (<[i := CReturned (Some (e, rc)) context_ended]> cs) c)
| FOther fl calls cs c c' : flight_step None (mkFlight fl calls cs c) (mkFlight fl calls cs c').   (* reads and deletions of the cache *)

(** What has happened so far: the downloads that were carried out, and the present
    state. *)
Inductive flight_run (c : Cache) : list restored -> flight -> Prop :=
| RunStart : flight_run c [] (mkFlight ∅ [] [] c)
| RunStep tr s o s' : flight_run c tr s -> flight_step o s s' -> flight_run c (tr ++ option_list o) s'.

(** ** The invariant *)

(** The call a goroutine is in charge of, and its result once it is known. *)
Definition leads (c : caller) : option (SegmentEntry * nat * option (res unit)) :=
  match c with CDownloading e rc => Some (e, rc, None) | CPublished e rc r => Some (e, rc, Some r) | _ => None end.

(** Where a result comes from: the download of that call, of an entry with this key, or
    a context that ended. *)
Definition restored_by (tr : list restored) (rc : nat) (key : string) (r : res unit) : Prop :=
  r = context_ended \/ exists x, x ∈ tr /\ rd_call x = rc /\ rd_result x = r /\ se_S3Key (rd_entry x) = key.

Lemma restored_by_mono tr tr' rc key r : restored_by tr rc key r -> restored_by (tr ++ tr') rc key r.
Proof. intros [->|(x & Hx & ?)]; [by left|]. right. exists x. split; [apply elem_of_app; by left|done]. Qed.

Record flight_inv (tr : list restored) (s : flight) : Prop := {
  fi_listed : forall key rc, sf_inFlight s !! key = Some rc -> exists i c e o, sf_callers s !! i = Some c /\ leads c = Some (e, rc, o) /\ se_S3Key e = key;
  fi_leads : forall i c e rc o, sf_callers s !! i = Some c -> leads c = Some (e, rc, o) ->
    sf_inFlight s !! se_S3Key e = Some rc /\ sf_calls s !! rc = Some (mkCall (se_S3Key e) o);
  fi_one : forall i j c d e e' rc o o', sf_callers s !! i = Some c -> sf_callers s !! j = Some d ->
    leads c = Some (e, rc, o) -> leads d = Some (e', rc, o') -> i = j;
  fi_waits : forall i e rc, sf_callers s !! i = Some (CWaiting e rc) ->
    exists o, sf_calls s !! rc = Some (mkCall (se_S3Key e) o) /\
      (o = None -> exists j e', sf_callers s !! j = Some (CDownloading e' rc) /\ se_S3Key e' = se_S3Key e);
  fi_returned : forall i e rc r, sf_callers s !! i = Some (CReturned (Some (e, rc)) r) -> restored_by tr rc (se_S3Key e) r;
  fi_results : forall rc k r, sf_calls s !! rc = Some (mkCall k (Some r)) -> restored_by tr rc k r
}.

Lemma insert_cases (cs : list caller) i j x y : <[i := x]> cs !! j = Some y -> (j = i /\ y = x) \/ (j <> i /\ cs !! j = Some y).
Proof. intros [(-> & -> & _)|[? ?]]%list_lookup_insert_Some; auto. Qed.

Lemma insert_other (cs : list caller) i j c x y : cs !! i = Some c -> cs !! j = Some y -> c <> y -> <[i := x]> cs !! j = Some y.
Proof. intros Hi Hj Hne. rewrite list_lookup_insert_ne; [done|]. intros ->. congruence. Qed.

(** A goroutine that is in charge of nothing moves on. *)
Lemma move_inv tr fl calls cs c i x y : flight_inv tr (mkFlight fl calls cs c) -> cs !! i = Some x -> leads x = None -> leads y = None ->
  (forall e rc, y = CWaiting e rc -> fl !! se_S3Key e = Some rc) ->
  (forall e rc r, y = CReturned (Some (e, rc)) r -> restored_by tr rc (se_S3Key e) r) ->
  flight_inv tr (mkFlight fl calls (<[i := y]> cs) c).
Proof.
  intros [Hl Hle H1 Hw Hr Hc] Hi Hx Hy Hwait Hret. cbn [sf_inFlight sf_calls sf_callers] in *.
  assert (forall j d, cs !! j = Some d -> leads d <> None -> <[i := y]> cs !! j = Some d) as Hkeep.
  { intros j d Hj Hd. eapply insert_other; [done..|]. intros ->. done. }
  split; cbn [sf_inFlight sf_calls sf_callers].
  - intros key rc Hk. destruct (Hl key rc Hk) as (j & d & e & o & Hj & Hd & ?). exists j, d, e, o. split_and!; [|done..]. apply Hkeep; [done|congruence].
  - intros j d e rc o [[-> ->]|[_ Hj]]%insert_cases Hd; [congruence|by eapply Hle].
  - intros j k d d' e e' rc o o' [[-> ->]|[_ Hj]]%insert_cases [[-> ->]|[_ Hk]]%insert_cases Hd Hd'; try congruence. by eapply H1.
  - intros j e rc [[-> Hy']|[_ Hj]]%insert_cases.
    + symmetry in Hy'. destruct (Hl _ _ (Hwait _ _ Hy')) as (k & d & e' & o & Hk & Hd & He). destruct (Hle _ _ _ _ _ Hk Hd) as [_ Hcall].
      rewrite He in Hcall. exists o. split; [done|]. intros ->. exists k, e'. destruct d; try done. injection Hd as -> ->. split; [|done]. by apply Hkeep.
    + destruct (Hw _ _ _ Hj) as (o & Ho & Hn). exists o. split; [done|]. intros (k & e' & Hk & He)%Hn. exists k, e'. split; [by apply Hkeep|done].
  - intros j e rc r [[-> Hy']|[_ Hj]]%insert_cases; [by apply Hret|by eapply Hr].
  - done.
Qed.

(** The download ends, one way or the other. *)
Lemma download_ended_inv tr tr' fl calls cs c c' i e rc r : flight_inv tr (mkFlight fl calls cs c) -> cs !! i = Some (CDownloading e rc) ->
  restored_by (tr ++ tr') rc (se_S3Key e) r ->
  flight_inv (tr ++ tr') (mkFlight fl (<[rc := mkCall (se_S3Key e) (Some r)]> calls) (<[i := CPublished e rc r]> cs) c').
Proof.
  intros [Hl Hle H1 Hw Hr Hc] Hi Hby. cbn [sf_inFlight sf_calls sf_callers] in *.
  destruct (Hle _ _ _ _ _ Hi eq_refl) as [Hfl Hcall]. pose proof (lookup_lt_Some _ _ _ Hi) as Hilt. pose proof (lookup_lt_Some _ _ _ Hcall) as Hrlt.
  split; cbn [sf_inFlight sf_calls sf_callers].
  - intros key k Hk. destruct (Hl key k Hk) as (j & d & e' & o & Hj & Hd & He). destruct (decide (j = i)) as [->|Hne].
    + rewrite Hi in Hj. injection Hj as <-. injection Hd as <- <- <-. exists i. eexists _, e, (Some r). rewrite list_lookup_insert_eq by done. done.
    + exists j, d, e', o. by rewrite list_lookup_insert_ne.
  - intros j d e' k o [[-> ->]|[Hne Hj]]%insert_cases Hd.
    + injection Hd as <- <- <-. split; [done|]. by rewrite list_lookup_insert_eq.
    + destruct (Hle _ _ _ _ _ Hj Hd) as [? Hk]. split; [done|]. rewrite list_lookup_insert_ne; [done|]. intros <-.
      by pose proof (H1 _ _ _ _ _ _ _ _ _ Hi Hj eq_refl Hd).
  - intros j k d d' e1 e2 q o o' [[-> ->]|[Hj' Hj]]%insert_cases [[-> ->]|[Hk' Hk]]%insert_cases Hd Hd'; [done| | |by eapply H1].
    + injection Hd as <- <- <-. by pose proof (H1 _ _ _ _ _ _ _ _ _ Hi Hk eq_refl Hd').
    + injection Hd' as <- <- <-. by pose proof (H1 _ _ _ _ _ _ _ _ _ Hi Hj eq_refl Hd).
  - intros j e' k [[-> ?]|[_ Hj]]%insert_cases; [done|]. destruct (Hw _ _ _ Hj) as (o & Ho & Hn). destruct (decide (k = rc)) as [->|Hne].
    + rewrite Hcall in Ho. injection Ho as <- <-. exists (Some r). split; [by rewrite list_lookup_insert_eq|done].
    + exists o. split; [by rewrite list_lookup_insert_ne|]. intros (q & e2 & Hq & He)%Hn. exists q, e2. split; [|done].
      eapply insert_other; [done..|]. intros [= _ ->]. done.
  - intros j e' rc' r' [[-> ?]|[_ Hj]]%insert_cases; [done|by eapply restored_by_mono, Hr].
  - intros k key r' [(<- & [= <- <-] & _)|[_ Hk]]%list_lookup_insert_Some; [done|by eapply restored_by_mono, Hc].
Qed.

(** A download starts. *)
Lemma lead_inv tr fl calls cs c i e : flight_inv tr (mkFlight fl calls cs c) -> cs !! i = Some (CEntering e) -> fl !! se_S3Key e = None ->
  flight_inv tr (mkFlight (<[se_S3Key e := length calls]> fl) (calls ++ [mkCall (se_S3Key e) None]) (<[i := CDownloading e (length calls)]> cs) c).
Proof.
  intros [Hl Hle H1 Hw Hr Hc] Hi Hfl. cbn [sf_inFlight sf_calls sf_callers] in *. pose proof (lookup_lt_Some _ _ _ Hi) as Hilt.
  assert (forall j d e' k o, cs !! j = Some d -> leads d = Some (e', k, o) -> (k < length calls)%nat) as Hlt.
  { intros j d e' k o Hj Hd. destruct (Hle _ _ _ _ _ Hj Hd) as [_ ?]. by eapply lookup_lt_Some. }
  assert (forall j d, cs !! j = Some d -> d <> CEntering e -> <[i := CDownloading e (length calls)]> cs !! j = Some d) as Hkeep.
  { intros j d Hj Hd. by eapply insert_other. }
  split; cbn [sf_inFlight sf_calls sf_callers].
  - intros key k [[<- <-]|[_ Hk]]%lookup_insert_Some.
    + exists i. eexists _, e, None. by rewrite list_lookup_insert_eq.
    + destruct (Hl key k Hk) as (j & d & e' & o & Hj & Hd & ?). exists j, d, e', o. split_and!; [|done..]. apply Hkeep; [done|]. by intros ->.
  - intros j d e' k o [[-> ->]|[_ Hj]]%insert_cases Hd.
    + injection Hd as <- <- <-. by rewrite lookup_insert_eq, lookup_app_r, Nat.sub_diag.
    + destruct (Hle _ _ _ _ _ Hj Hd) as [Hk ?]. rewrite lookup_insert_ne by congruence. rewrite lookup_app_l by by eapply Hlt. done.
  - intros j k d d' e1 e2 q o o' [[-> ->]|[_ Hj]]%insert_cases [[-> ->]|[_ Hk]]%insert_cases Hd Hd'; [done| | |by eapply H1].
    + injection Hd as <- <- <-. pose proof (Hlt _ _ _ _ _ Hk Hd'). lia.
    + injection Hd' as <- <- <-. pose proof (Hlt _ _ _ _ _ Hj Hd). lia.
  - intros j e' k [[-> ?]|[_ Hj]]%insert_cases; [done|]. destruct (Hw _ _ _ Hj) as (o & Ho & Hn). exists o.
    split; [rewrite lookup_app_l; [done|by eapply lookup_lt_Some]|]. intros (q & e2 & Hq & He)%Hn. exists q, e2. split; [by apply Hkeep|done].
  - intros j e' rc' r' [[-> ?]|[_ Hj]]%insert_cases; [done|by eapply Hr].
  - intros k key r' Hk. apply lookup_app_Some in Hk as [Hk|[_ Hk]]; [by eapply Hc|]. destruct (k - length calls)%nat as [|[]]; done.
Qed.

(** The call is taken off the list. *)
Lemma delete_inv tr fl calls cs c i e rc r : flight_inv tr (mkFlight fl calls cs c) -> cs !! i = Some (CPublished e rc r) ->
  flight_inv tr (mkFlight (delete (se_S3Key e) fl) calls (<[i := CReturned (Some (e, rc)) r]> cs) c).
Proof.
  intros [Hl Hle H1 Hw Hr Hc] Hi. cbn [sf_inFlight sf_calls sf_callers] in *. destruct (Hle _ _ _ _ _ Hi eq_refl) as [Hfl Hcall].
  split; cbn [sf_inFlight sf_calls sf_callers].
  - intros key k [Hne Hk]%lookup_delete_Some. destruct (Hl key k Hk) as (j & d & e' & o & Hj & Hd & He). exists j, d, e', o. split_and!; [|done..].
    rewrite list_lookup_insert_ne; [done|]. intros ->. rewrite Hi in Hj. injection Hj as <-. injection Hd as <- <- <-. done.
  - intros j d e' k o [[-> ->]|[Hne Hj]]%insert_cases Hd; [done|]. destruct (Hle _ _ _ _ _ Hj Hd) as [Hk ?]. split; [|done].
    rewrite lookup_delete_ne; [done|]. intros Heq. rewrite Heq, Hk in Hfl. injection Hfl as ->.
    by pose proof (H1 _ _ _ _ _ _ _ _ _ Hi Hj eq_refl Hd).
  - intros j k d d' e1 e2 q o o' [[-> ->]|[_ Hj]]%insert_cases [[-> ->]|[_ Hk]]%insert_cases Hd Hd'; try done. by eapply H1.
  - intros j e' k [[-> ?]|[_ Hj]]%insert_cases; [done|]. destruct (Hw _ _ _ Hj) as (o & Ho & Hn). exists o. split; [done|].
    intros (q & e2 & Hq & He)%Hn. exists q, e2. split; [|done]. by eapply insert_other.
  - intros j e' rc' r' [(-> & [= -> -> ->])|[_ Hj]]%insert_cases; [by eapply Hc|by eapply Hr].
  - done.
Qed.

Lemma flight_step_inv tr o s s' : flight_inv tr s -> flight_step o s s' -> flight_inv (tr ++ option_list o) s'.
Proof.
  intros Hinv Hs. destruct Hs as [fl calls cs c topic p b| | | | |? ? ? ? ? ? ? Hi Hj| |? ? ? ? ? ? rc now get c' r| | |fl calls cs c i e rc k r Hi Hk| |];
    cbn [option_list]; rewrite ?app_nil_r.
  1:{ destruct Hinv as [Hl Hle H1 Hw Hr Hc]. cbn [sf_inFlight sf_calls sf_callers] in *.
      assert (forall j d, (cs ++ [CLooking topic p b]) !! j = Some d -> cs !! j = Some d \/ d = CLooking topic p b) as Hin.
      { intros j d [Hj|[_ Hj]]%lookup_app_Some; [by left|]. destruct (j - length cs)%nat as [|[]]; [by injection Hj as <-; right|done..]. }
      assert (forall j d, cs !! j = Some d -> (cs ++ [CLooking topic p b]) !! j = Some d) as Hout by (intros j d Hj; by apply lookup_app_l_Some).
      split; cbn [sf_inFlight sf_calls sf_callers].
      - intros key rc Hk. destruct (Hl key rc Hk) as (j & d & e & o & Hj & ?). exists j, d, e, o. split; [by apply Hout|done].
      - intros j d e rc o [Hj| ->]%Hin Hd; [by eapply Hle|done].
      - intros j k d d' e e' rc o o' [Hj| ->]%Hin [Hk| ->]%Hin Hd Hd'; try done. by eapply H1.
      - intros j e rc [Hj|?]%Hin; [|done]. destruct (Hw _ _ _ Hj) as (o & Ho & Hn). exists o. split; [done|].
        intros (q & e2 & Hq & He)%Hn. exists q, e2. split; [by apply Hout|done].
      - intros j e rc r [Hj|?]%Hin; [by eapply Hr|done].
      - done. }
  all: try (by eapply move_inv).
  - eapply move_inv; [done..| |done]. by intros e' rc' [= <- <-].
  - by apply lead_inv.
  - eapply download_ended_inv; [done..|]. right. eexists. split; [apply elem_of_app; right; by left|done].
  - rewrite <- (app_nil_r tr). eapply download_ended_inv; [done..|]. by left.
  - by eapply delete_inv.
  - eapply move_inv; [done..|]. intros e' rc' r' [= <- <- <-]. destruct (fi_waits _ _ Hinv _ _ _ Hi) as (o & Ho & _). cbn in Ho.
    rewrite Hk in Ho. injection Ho as -> <-. by eapply (fi_results _ _ Hinv).
  - eapply move_inv; [done..|]. intros e' rc' r' [= <- <- <-]. by left.
  - destruct Hinv. by split.
Qed.

(** Each call is downloaded once, and what is recorded is what was done. *)
Record events_inv (tr : list restored) (s : flight) : Prop := {
  ev_once : NoDup (rd_call <$> tr);
  ev_ended : forall x, x ∈ tr -> exists k r, sf_calls s !! rd_call x = Some (mkCall k (Some r));
  ev_done : forall x, x ∈ tr -> doRestore sha256 mac hmacKey (rd_now x) (rd_get x) (rd_before x) (rd_entry x) = (rd_after x, rd_result x)
}.

Lemma flight_step_events tr o s s' : flight_inv tr s -> events_inv tr s -> flight_step o s s' -> events_inv (tr ++ option_list o) s'.
Proof.
  intros Hinv [Ho He Hd] Hs.
  assert (forall calls' : list restoreCall, (forall rc k r, sf_calls s !! rc = Some (mkCall k (Some r)) -> exists k' r', calls' !! rc = Some (mkCall k' (Some r'))) ->
    forall x, x ∈ tr -> exists k r, calls' !! rd_call x = Some (mkCall k (Some r))) as Hkeep.
  { intros calls' Hc x (k & r & Hx)%He. by eapply Hc. }
  assert (forall i e rc, sf_callers s !! i = Some (CDownloading e rc) -> sf_calls s !! rc = Some (mkCall (se_S3Key e) None)) as Hnone.
  { intros i e rc Hi. by destruct (fi_leads _ _ Hinv _ _ _ _ _ Hi eq_refl). }
  destruct Hs as [| | | | | |fl calls cs c i e Hi Hf|fl calls cs c i e rc now get c' r Hi E Hp|fl calls cs c i e rc Hi| | | |];
    cbn [option_list sf_calls sf_callers] in *; rewrite ?app_nil_r; try (by split).
  - split; [done| |done]. apply Hkeep. intros rc k r Hk. exists k, r. cbn. by apply lookup_app_l_Some.
  - specialize (Hnone _ _ _ Hi). pose proof (lookup_lt_Some _ _ _ Hnone) as Hlt. split; cbn [sf_calls].
    + rewrite fmap_app. apply NoDup_app. split_and!; [done| |apply NoDup_singleton].
      intros q (x & -> & Hx)%list_elem_of_fmap Hq%list_elem_of_singleton. cbn in Hq. destruct (He x Hx) as (k & r' & Hk). cbn in Hk. congruence.
    + intros x [Hx| ->%list_elem_of_singleton]%elem_of_app.
      * revert x Hx. apply Hkeep. intros q k r' Hk. exists k, r'. rewrite list_lookup_insert_ne; [done|]. intros ->. congruence.
      * cbn. rewrite list_lookup_insert_eq by done. eauto.
    + intros x [Hx| ->%list_elem_of_singleton]%elem_of_app; [by apply Hd|done].
  - specialize (Hnone _ _ _ Hi). split; [done| |done]. apply Hkeep. intros q k r' Hk. exists k, r'. cbn.
    rewrite list_lookup_insert_ne; [done|]. intros ->. congruence.
Qed.

Lemma flight_reachable c tr s : flight_run c tr s -> flight_inv tr s /\ events_inv tr s.
Proof.
  induction 1 as [|tr s o s' _ [Hi He] Hs].
  - split; [by split; intros; cbn in * |]. split; [constructor|intros x Hx; by apply elem_of_nil in Hx..].
  - split; [by eapply flight_step_inv|by eapply flight_step_events].
Qed.

(** C32: Concurrent restores share downloads and lose no one.  Whatever the
    interleaving of any number of calls of [Restore], the ends of their contexts and
    other uses of the cache: two downloads that run at once are of different objects;
    a call that waits has its answer ready or a download of its own object running,
    so it never waits for nobody; every download is carried out once; and what a call
    returns for an entry is the result of the very download it led or waited for, which
    was one of an object with the same key, or that a context has ended.  When it is
    success, the signature of the restored entry verified, and that download put the
    bytes the store had answered, which have the recorded digest, in the cache. *)
Theorem restores_shared c tr s : flight_run c tr s ->
  (forall i j e e' rc rc', sf_callers s !! i = Some (CDownloading e rc) -> sf_callers s !! j = Some (CDownloading e' rc') ->
     i <> j -> se_S3Key e <> se_S3Key e') /\
  (forall i e rc, sf_callers s !! i = Some (CWaiting e rc) ->
     (exists r, sf_calls s !! rc = Some (mkCall (se_S3Key e) (Some r))) \/
     exists j e', sf_callers s !! j = Some (CDownloading e' rc) /\ se_S3Key e' = se_S3Key e) /\
  NoDup (rd_call <$> tr) /\
  (forall x, x ∈ tr -> doRestore sha256 mac hmacKey (rd_now x) (rd_get x) (rd_before x) (rd_entry x) = (rd_after x, rd_result x)) /\
  (forall i e rc r, sf_callers s !! i = Some (CReturned (Some (e, rc)) r) -> r = context_ended \/
     exists x, x ∈ tr /\ rd_call x = rc /\ rd_result x = r /\ se_S3Key (rd_entry x) = se_S3Key e /\
       (r = Ok tt -> VerifySignature mac hmacKey (rd_entry x) = true /\
          exists k data, rd_get x k (se_S3Key (rd_entry x)) = Ok (Some data) /\ sha256 data = se_SHA256 (rd_entry x) /\
            cache_files (rd_after x) !! entry_path (rd_before x) (rd_entry x) = Some (mkCached data (rd_now x)))).
Proof.
  intros [[Hl Hle H1 Hw Hr Hc] [Ho He Hd]]%flight_reachable. split_and!.
  - intros i j e e' rc rc' Hi Hj Hne Heq. destruct (Hle _ _ _ _ _ Hi eq_refl) as [H2 _], (Hle _ _ _ _ _ Hj eq_refl) as [H3 _].
    rewrite Heq, H3 in H2. injection H2 as ->. apply Hne. by eapply H1.
  - intros i e rc Hi. destruct (Hw _ _ _ Hi) as ([r|] & Hcall & Hn); [left; by exists r|right; by apply Hn].
  - exact Ho.
  - exact Hd.
  - intros i e rc r Hi. destruct (Hr _ _ _ _ Hi) as [->|(x & Hx & Hrc & Hres & Hk)]; [by left|]. right. exists x. split_and!; try done.
    intros ->. specialize (Hd x Hx). rewrite Hres in Hd. unfold doRestore in Hd.
    destruct (VerifySignature mac hmacKey (rd_entry x)); cbn [negb] in Hd; [|done]. split; [done|].
    apply attempts_ok in Hd as (k & data & _ & Hg & Hs & Hf & _). by exists k, data.
Qed.
End flights.

(** ** Two fetches of one segment *)

#[local] Abbreviation run := (flight_run sample_sha toy_mac [] sample_cache).

(** The first downloads, the second waits. *)
Definition both (c1 c2 : caller) (o : option (res unit)) (c : Cache) : flight :=
  mkFlight {[ se_S3Key sample_entry := 0%nat ]} [mkCall (se_S3Key sample_entry) o] [c1; c2] c.

(** A step that carries out no download. *)
Lemma run_quiet tr s s' : run tr s -> flight_step sample_sha toy_mac [] None s s' -> run tr s'.
Proof. intros Hr Hs. rewrite <- (app_nil_r tr). by eapply (RunStep _ _ _ _ tr s None). Qed.

Lemma both_start : run [] (both (CDownloading sample_entry 0) (CWaiting sample_entry 0) None sample_cache).
Proof.
  pose proof (RunStart sample_sha toy_mac [] sample_cache) as H.
  eassert (run _ _) as H1 by (eapply run_quiet; [exact H|apply (FArrive _ _ _ ∅ [] [] sample_cache "orders" 0 5)]). clear H.
  eassert (run _ _) as H2 by (eapply run_quiet; [exact H1|apply (FArrive _ _ _ ∅ [] _ sample_cache "orders" 0 5)]). clear H1.
  eassert (run _ _) as H3 by (eapply run_quiet; [exact H2|apply (FMiss _ _ _ ∅ [] _ _ 0 "orders" 0 5); reflexivity]). clear H2.
  eassert (run _ _) as H4 by (eapply run_quiet; [exact H3|apply (FMiss _ _ _ ∅ [] _ _ 1 "orders" 0 5); reflexivity]). clear H3.
  eassert (run _ _) as H5 by (eapply run_quiet; [exact H4|apply (FFound _ _ _ ∅ [] _ _ 0 "orders" 0 5 sample_manifest sample_entry); reflexivity]). clear H4.
  eassert (run _ _) as H6 by (eapply run_quiet; [exact H5|apply (FFound _ _ _ ∅ [] _ _ 1 "orders" 0 5 sample_manifest sample_entry); reflexivity]). clear H5.
  eassert (run _ _) as H7 by (eapply run_quiet; [exact H6|apply (FLead _ _ _ ∅ [] _ _ 0 sample_entry); reflexivity]). clear H6.
  eassert (run _ _) as Hend by (eapply run_quiet; [exact H7|apply (FJoin _ _ _ _ _ _ _ 1 sample_entry 0); reflexivity]). exact Hend.
Qed.

Definition both_cache : Cache := (doRestore sample_sha toy_mac [] 7 sample_get sample_cache sample_entry).1.
Definition both_download : restored := mkRestored 0 sample_entry 7 sample_get sample_cache both_cache (Ok tt).

Lemma both_restores : doRestore sample_sha toy_mac [] 7 sample_get sample_cache sample_entry = (both_cache, Ok tt).
Proof. vm_compute. reflexivity. Qed.

Lemma both_served :
  run [both_download] (both (CPublished sample_entry 0 (Ok tt)) (CReturned (Some (sample_entry, 0%nat)) (Ok tt)) (Some (Ok tt)) both_cache).
Proof.
  eassert (run _ _) as H by (eapply RunStep; [exact both_start|];
    apply (FRestore _ _ _ _ _ _ _ 0 sample_entry 0 7 sample_get both_cache (Ok tt)); [reflexivity|exact both_restores|discriminate]).
  eassert (run _ _) as Hend by (eapply run_quiet; [exact H|apply (FWake _ _ _ _ _ _ _ 1 sample_entry 0 (se_S3Key sample_entry) (Ok tt)); reflexivity]). exact Hend.
Qed.

Lemma restores_shared_witness : exists tr s, run tr s /\ sf_callers s !! 1%nat = Some (CReturned (Some (sample_entry, 0%nat)) (Ok tt)) /\
  exists x, x ∈ tr /\ rd_call x = 0%nat /\ VerifySignature toy_mac [] (rd_entry x) = true.
Proof.
  eexists _, _. split; [exact both_served|]. split; [reflexivity|].
  destruct (restores_shared sample_sha toy_mac [] sample_cache _ _ both_served) as (_ & _ & _ & _ & H).
  destruct (H 1%nat sample_entry 0%nat (Ok tt) eq_refl) as [E|(x & Hx & Hc & _ & _ & Hv)]; [discriminate E|].
  exists x. destruct (Hv eq_refl) as [Hs _]. split; [exact Hx|]. split; [exact Hc|exact Hs].
Defined.

(** The time of the first fetch is over: the second, which has time left, is
    answered that the deadline has passed. *)
Example deadline_of_another :
  run [] (both (CPublished sample_entry 0 context_ended) (CReturned (Some (sample_entry, 0%nat)) context_ended) (Some context_ended) sample_cache).
Proof.
  eassert (run _ _) as H by (eapply run_quiet; [exact both_start|apply (FAbandon _ _ _ _ _ _ _ 0 sample_entry 0); reflexivity]).
  eassert (run _ _) as Hend by (eapply run_quiet; [exact H|apply (FWake _ _ _ _ _ _ _ 1 sample_entry 0 (se_S3Key sample_entry) context_ended); reflexivity]). exact Hend.
Qed.
