(* ===== verification/Broker.v ===== *)
(** * The broker (internal/broker/topic.go, broker.go, restore_fetch.go, metadata.go)

    The topic registry, topic creation and deletion, the tenant gate, and the
    produce and fetch paths down to the logs and the archive.  The proofs are in
    BrokerFacts.v and BrokerProps.v. *)

From S2P Require Import Prelude Bytes OsFile RecordBatch Segment Log Names Offsets Group Acl Manifest Cache.
From stdpp Require Import pretty.

#[local] Open Scope string_scope.
#[local] Open Scope list_scope.
#[local] Open Scope Z_scope.

(** ** Topics *)

Record TopicConfig := mkTopicConfig {
  NumPartitions : Z;
  ReplicationFactor : Z;
  RetentionMS : Z;
  RetentionBytes : Z;
  tc_SegmentBytes : Z;
  OwnerTenantID : string
}.

(** Each log with the partition number it was opened for. *)
Record Topic := mkTopic {
  t_name : string;
  t_partitions : list (Z * Log);
  t_cfg : TopicConfig
}.

Definition Topic_NumPartitions (t : Topic) : Z := zlen (t_partitions t).

Definition Topic_Partition (t : Topic) (idx : Z) : option Log :=
  if (idx <? 0) || (idx >=? zlen (t_partitions t)) then None
  else snd <$> t_partitions t !! Z.to_nat idx.

Definition Topic_Logs (t : Topic) : list Log := (t_partitions t).*2.

(** The log at [idx] replaced by its new state. *)
Definition put_partition (t : Topic) (idx : Z) (l : Log) : Topic :=
  mkTopic (t_name t) (alter (fun p => (p.1, l)) (Z.to_nat idx) (t_partitions t)) (t_cfg t).

Definition Topic_Close (t : Topic) : Topic := mkTopic (t_name t) [] (t_cfg t).

(** ** The broker *)

Record BrokerConfig := mkBrokerConfig {
  BrokerID : Z;
  ClusterID : string;
  AdvertisedHost : string;
  AdvertisedPort : Z;
  MaxRequestBytes : Z;
  AutoCreateTopics : bool;
  DefaultPartitions : Z;
  DefaultRepFactor : Z
}.

Record Archive := mkArchive { ar_manifest : Manifest; ar_cache : Cache }.

Record Broker := mkBroker {
  b_cfg : BrokerConfig;
  b_store : Config;                        (* storage settings *)
  b_guard : option bool;                   (* the disk guard handed to new logs *)
  b_topics : gmap string Topic;
  b_topicsjson : option (gmap string TopicConfig);   (* metadata/topics.json *)
  b_disk : gmap string (gmap Z Dir);       (* partition directories no open log owns *)
  b_groups : GroupCoordinator;             (* with the offset store *)
  b_acl : ACLStore;
  b_archive : option Archive
}.

Definition set_topics (b : Broker) (ts : gmap string Topic) : Broker :=
  mkBroker (b_cfg b) (b_store b) (b_guard b) ts (b_topicsjson b) (b_disk b) (b_groups b) (b_acl b) (b_archive b).
Definition set_disk (b : Broker) (d : gmap string (gmap Z Dir)) : Broker :=
  mkBroker (b_cfg b) (b_store b) (b_guard b) (b_topics b) (b_topicsjson b) d (b_groups b) (b_acl b) (b_archive b).
Definition set_topicsjson (b : Broker) (j : option (gmap string TopicConfig)) : Broker :=
  mkBroker (b_cfg b) (b_store b) (b_guard b) (b_topics b) j (b_disk b) (b_groups b) (b_acl b) (b_archive b).
Definition set_archive (b : Broker) (a : option Archive) : Broker :=
  mkBroker (b_cfg b) (b_store b) (b_guard b) (b_topics b) (b_topicsjson b) (b_disk b) (b_groups b) (b_acl b) a.
Definition set_groupcoord (b : Broker) (g : GroupCoordinator) : Broker :=
  mkBroker (b_cfg b) (b_store b) (b_guard b) (b_topics b) (b_topicsjson b) (b_disk b) g (b_acl b) (b_archive b).

(** The files of a log as they stand on disk. *)
Definition log_dir (l : Log) : Dir :=
  mkDir (map (fun s => segmentFilename (baseOffset s) logSuffix) (segments l))
    (fun base => match List.find (fun s => baseOffset s =? base) (segments l) with
                 | Some s => seg_files s
                 | None => no_files 0
                 end).
Definition empty_partition (now : Z) : Dir := mkDir [] (fun _ => no_files now).

Definition dirs_of (parts : list (Z * Log)) : gmap Z Dir := list_to_map (prod_map id log_dir <$> parts).

(** How the file system behaves during an operation. *)
Record openenv := mkEnv {
  oe_wio : Z -> option Z * option Z;   (* index writes during recovery *)
  oe_now : Z;
  oe_mkdir : Z -> bool;                (* the partition directory can be made *)
  oe_persist : bool;                   (* topics.json can be replaced *)
  oe_flush : bool * bool;              (* the two archive manifest files *)
  oe_close : bool;                     (* closing the partitions succeeds *)
  oe_remove : bool                     (* the topic directory can be removed *)
}.

(** ** The registry *)

(** [PartitionDir], for an absolute data directory.  [filepath.Join] cleans the
    path, so a topic name with separators or dots can denote the directory of
    another topic. *)
Definition PartitionDir (c : Config) (topic : string) (partition : Z) : list string :=
  filepath_Join [] [DataDir c; "topics"; topic; pretty partition].

(** Every partition directory of the broker with its path: those no open log owns,
    and those of the open logs.  A log of the model has its files to itself; that
    two open logs write to the files of one directory is not followed further,
    and [plain] of BrokerFacts.v is what rules it out. *)
Definition partition_dirs (b : Broker) : list (list string * Dir) :=
  (map_to_list (b_disk b) ≫= fun td => (fun pd => (PartitionDir (b_store b) td.1 pd.1, pd.2)) <$> map_to_list td.2) ++
  (map_to_list (b_topics b) ≫= fun tt => (fun pl => (PartitionDir (b_store b) tt.1 pl.1, log_dir pl.2)) <$> t_partitions tt.2).

Definition dir_at (b : Broker) (path : list string) : option Dir :=
  snd <$> List.find (fun x => bool_decide (x.1 = path)) (partition_dirs b).

Definition Storage_OpenLog (e : openenv) (b : Broker) (topic : string) (partition : Z) : res Log :=
  if negb (oe_mkdir e partition) then Err (EMsg "storage: mkdir partition")
  else OpenLog (oe_wio e) (oe_now e) (b_store b) (b_guard b)
         (default (empty_partition (oe_now e)) (dir_at b (PartitionDir (b_store b) topic partition))).

Fixpoint open_partitions (open : Z -> res Log) (i : Z) (n : nat) : list (Z * Log) * res unit :=
  match n with
  | O => ([], Ok tt)
  | S n =>
      match open i with
      | Ok l => let '(ls, r) := open_partitions open (i + 1) n in ((i, l) :: ls, r)
      | Err e => ([], Err (EWrap "open partition" e))
      | Panic => ([], Panic)
      | Diverge => ([], Diverge)
      end
  end.

(** [Create]; on a failure the partitions opened so far are closed and their
    files stay. *)
Definition Registry_Create (e : openenv) (b : Broker) (name : string) (cfg : TopicConfig) : Broker * res unit :=
  if String.eqb name "" then (b, Err (EMsg "topic name required"))
  else
    let np := if NumPartitions cfg <=? 0 then 1 else NumPartitions cfg in
    let rf := if ReplicationFactor cfg <=? 0 then 1 else ReplicationFactor cfg in
    let cfg := mkTopicConfig np rf (RetentionMS cfg) (RetentionBytes cfg) (tc_SegmentBytes cfg) (OwnerTenantID cfg) in
    match b_topics b !! name with
    | Some _ => (b, Err (ESentinel ErrTopicExists))
    | None =>
        let old := default ∅ (b_disk b !! name) in
        match open_partitions (Storage_OpenLog e b name) 0 (Z.to_nat np) with
        | (parts, Ok _) =>
            (set_disk (set_topics b (<[name := mkTopic name parts cfg]> (b_topics b)))
               (<[name := filter (fun kv => kv.1 < 0 \/ np <= kv.1) old]> (b_disk b)), Ok tt)
        | (parts, r) => (set_disk b (<[name := dirs_of parts ∪ old]> (b_disk b)), r)
        end
    end.

(** [Delete]: the logs are closed, their files stay.  When closing fails the
    topic stays registered, without its partitions. *)
Definition Registry_Delete (e : openenv) (b : Broker) (name : string) : Broker * res unit :=
  match b_topics b !! name with
  | None => (b, Err (ESentinel ErrUnknownTopic))
  | Some t =>
      let b := set_disk b (<[name := dirs_of (t_partitions t) ∪ default ∅ (b_disk b !! name)]> (b_disk b)) in
      if oe_close e then (set_topics b (delete name (b_topics b)), Ok tt)
      else (set_topics b (<[name := Topic_Close t]> (b_topics b)), Err (EMsg "close"))
  end.

Definition persistTopicsLocked (ok : bool) (b : Broker) : Broker * res unit :=
  if ok then (set_topicsjson b (Some (t_cfg <$> b_topics b)), Ok tt) else (b, Err (EMsg "write topics.json")).

(** ** Topic operations *)

Definition EnsureTopicForTenant (e : openenv) (b : Broker) (name : string) (partitions : Z) (tenantID : string)
  : Broker * res unit :=
  match b_topics b !! name with
  | Some _ => (b, Ok tt)
  | None =>
      if negb (AutoCreateTopics (b_cfg b)) then (b, Err (ESentinel ErrUnknownTopic))
      else
        let partitions := if partitions <=? 0 then DefaultPartitions (b_cfg b) else partitions in
        let cfg := mkTopicConfig partitions (DefaultRepFactor (b_cfg b)) (-1) (-1) (SegmentBytes (b_store b)) tenantID in
        match Registry_Create e b name cfg with
        | (b, Ok _) => persistTopicsLocked (oe_persist e) b
        | (b, r) => (b, r)
        end
  end.

Definition CreateTopic (e : openenv) (b : Broker) (name : string) (partitions replicationFactor : Z) : Broker * res unit :=
  match ValidateName "topic" name with
  | Ok _ =>
      if partitions >? MaxPartitionsPerTopic
      then (b, Err (EWrap "too many partitions requested" (ESentinel ErrInvalidName)))
      else
        let cfg := mkTopicConfig partitions replicationFactor (-1) (-1) (SegmentBytes (b_store b)) "" in
        match Registry_Create e b name cfg with
        | (b, Ok _) => persistTopicsLocked (oe_persist e) b
        | (b, r) => (b, r)
        end
  | r => (b, r)
  end.

(** [errors.Join]: nil when there is none. *)
Definition errors_Join (errs : list error) : res unit :=
  match errs with [] => Ok tt | e :: _ => Err (EWrap "joined" e) end.

Definition forget_archive (e : openenv) (a : option Archive) (name : string) : option Archive * list error :=
  match a with
  | None => (None, [])
  | Some a =>
      match ForgetTopic (oe_flush e).1 (oe_flush e).2 (ar_manifest a) name with
      | (m, Err er) => (Some (mkArchive m (DropTopic (ar_cache a) name)), [EWrap "forgetting the archive of topic" er])
      | (m, _) => (Some (mkArchive m (DropTopic (ar_cache a) name)), [])
      end
  end.

(** [DeleteTopic]: past the metadata every step runs even if an earlier one
    fails. *)
Definition DeleteTopic (e : openenv) (b : Broker) (name : string) : Broker * res unit :=
  match ValidateName "topic" name with
  | Ok _ =>
      match Registry_Delete e b name with
      | (b, Ok _) =>
          match persistTopicsLocked (oe_persist e) b with
          | (b, Ok _) =>
              let '(a, errs) := forget_archive e (b_archive b) name in
              let b := set_archive b a in
              if oe_remove e then (set_disk b (delete name (b_disk b)), errors_Join errs)
              else (b, errors_Join (errs ++ [EMsg "remove topic directory"]))
          | (b, r) => (b, r)
          end
      | (b, r) => (b, r)
      end
  | r => (b, r)
  end.

Definition TenantOfTopic (b : Broker) (topic : string) : string :=
  match b_topics b !! topic with Some t => OwnerTenantID (t_cfg t) | None => "" end.

(** ** Produce *)

Definition verifyTopicTenant (t : Topic) (principalTenant : string) : res unit :=
  if String.eqb principalTenant "" then Ok tt
  else
    let tenantOwner := OwnerTenantID (t_cfg t) in
    if String.eqb tenantOwner "" then Err (ESentinel ErrUnauthorizedTopic)
    else if negb (String.eqb tenantOwner principalTenant) then Err (ESentinel ErrUnauthorizedTopic)
    else Ok tt.

(** The topic found, or created for the principal's tenant. *)
Definition resolve_topic (e : openenv) (b : Broker) (topic principalTenant : string) : Broker * res Topic :=
  match b_topics b !! topic with
  | Some t => (b, Ok t)
  | None =>
      match EnsureTopicForTenant e b topic (DefaultPartitions (b_cfg b)) principalTenant with
      | (b, Ok _) => (b, match b_topics b !! topic with Some t => Ok t | None => Panic end)
      | (b, Err er) => (b, Err er)
      | (b, _) => (b, Panic)
      end
  end.

Definition AppendBatchesAuthorized (e : openenv) (o : nat -> io) (b : Broker) (topic : string) (partition : Z)
    (batches : list (list byte)) (principalTenant : string) : Broker * res Z :=
  match resolve_topic e b topic principalTenant with
  | (b, Ok t) =>
      match verifyTopicTenant t principalTenant with
      | Ok _ =>
          match Topic_Partition t partition with
          | None => (b, Err (ESentinel ErrUnknownPartition))
          | Some l =>
              let '(l, r) := Log_Append o l batches in
              (set_topics b (<[topic := put_partition t partition l]> (b_topics b)), r)
          end
      | Err er => (b, Err er)
      | _ => (b, Panic)
      end
  | (b, Err er) => (b, Err er)
  | (b, _) => (b, Panic)
  end.

Definition AppendBatches (e : openenv) (o : nat -> io) (b : Broker) (topic : string) (partition : Z)
    (batches : list (list byte)) : Broker * res Z :=
  AppendBatchesAuthorized e o b topic partition batches "".

(** ** Fetch *)

(** The scan of an archived segment for the batch with [fetchOffset]; the
    header buffer is reused, so a short read leaves the previous tail in it. *)
Fixpoint archive_scan (fuel : nat) (data : list byte) (fetchOffset : Z) (header : list byte) (pos : Z) : res (option Z) :=
  match fuel with
  | O => Diverge
  | S fuel =>
      if pos <? zlen data then
        let rd := take 61 (drop (Z.to_nat pos) data) in
        let header := rd ++ drop (length rd) header in
        match ParseBatchHeader header with
        | Ok h =>
            if (fetchOffset >=? BaseOffset h) && (fetchOffset <=? LastOffset h) then Ok (Some pos)
            else archive_scan fuel data fetchOffset header (pos + TotalSize h)
        | Err e => Err (EWrap "parse archived batch" e)
        | _ => Panic
        end
      else Ok None
  end.

(** Reading the cached file [data] from the batch found on. *)
Definition read_archived (data : list byte) (fetchOffset maxBytes : Z) : res (list byte * Z) :=
  found ← archive_scan (S (length data)) data fetchOffset (replicate 61 x00) 0;
  match found with
  | None => Err (ESentinel ErrOffsetOutOfRange)
  | Some startPos =>
      let totalSize := zlen data in
      let want := if startPos + maxBytes >? totalSize then totalSize - startPos else maxBytes in
      if want <? 0 then Panic
      else
        let buf := slice data startPos (startPos + want) in
        trimmed ← trimToBatchBoundary buf;
        if bool_decide (trimmed = []) then
          hdr ← ParseBatchHeader buf;
          let need := TotalSize hdr in
          if startPos + need >? totalSize then Err (ESentinel ErrOffsetOutOfRange)
          else Ok (slice data startPos (startPos + need), BaseOffset hdr)
        else Ok (trimmed, BaseOffset (decode_header trimmed))
  end.

Section archive.
Context (sha256 : list byte -> string) (mac : list byte -> string -> string) (hmacKey : list byte).

(** The world outside during a fetch: the clock and the object store. *)
Record fetchenv := mkFetchEnv { fe_now : Z; fe_get : nat -> string -> res (option (list byte)) }.

(** The archived segment of the partition whose range holds the offset. *)
Definition archived_at (m : Manifest) (topic : string) (partition fetchOffset : Z) : option SegmentEntry :=
  List.find (fun e => (se_Partition e =? partition) && (fetchOffset >=? se_BaseOffset e) && (fetchOffset <? se_NextOffset e))
    (AllForTopic m topic).

Definition fetchFromArchive (fe : fetchenv) (b : Broker) (topic : string) (partition fetchOffset maxBytes : Z)
    (requesterTenant : string) : Broker * res (list byte * Z) :=
  match b_archive b with
  | None => (b, Err (ESentinel ErrOffsetOutOfRange))
  | Some a =>
      match archived_at (ar_manifest a) topic partition fetchOffset with
      | None => (b, Err (ESentinel ErrOffsetOutOfRange))
      | Some e =>
          if negb (String.eqb requesterTenant "") && negb (String.eqb (se_TenantID e) requesterTenant)
          then (b, Err (ESentinel ErrUnauthorizedTopic))
          else
            let '(c, r) := Restore sha256 mac hmacKey (fe_now fe) (fe_get fe) (ar_manifest a) (ar_cache a)
                             topic partition (se_BaseOffset e) in
            let b := set_archive b (Some (mkArchive (ar_manifest a) c)) in
            match r with
            | Ok _ =>
                let '(c, f) := OpenTenant (fe_now fe) c (se_TenantID e) topic partition (se_BaseOffset e) in
                let b := set_archive b (Some (mkArchive (ar_manifest a) c)) in
                (b, data ← wrap_err "open cached segment" f; read_archived data fetchOffset maxBytes)
            | Err er => (b, Err (EWrap "restore" er))
            | _ => (b, Panic)
            end
      end
  end.

(** What [Fetch] returns: high watermark, log start, and the bytes with the
    offset of the first batch, or the error. *)
Record FetchResult := mkFetchResult { fr_hwm : Z; fr_logStart : Z; fr_data : res (list byte * Z) }.

Definition fetchInternal (fe : fetchenv) (b : Broker) (topic : string) (partition fetchOffset maxBytes : Z)
    (principalTenant : string) : Broker * FetchResult :=
  match b_topics b !! topic with
  | None => (b, mkFetchResult 0 0 (Err (ESentinel ErrUnknownTopic)))
  | Some t =>
      match Topic_Partition t partition with
      | None => (b, mkFetchResult 0 0 (Err (ESentinel ErrUnknownPartition)))
      | Some l =>
          let hwm := HighWatermark l in
          let logStart := LogStartOffset l in
          match FetchAt l fetchOffset maxBytes with
          | Err er =>
              if errors_is er ErrOffsetOutOfRange && bool_decide (is_Some (b_archive b)) then
                match fetchFromArchive fe b topic partition fetchOffset maxBytes principalTenant with
                | (b, Err aer) =>
                    (b, mkFetchResult hwm logStart
                          (Err (if errors_is aer ErrUnauthorizedTopic then ESentinel ErrUnauthorizedTopic else er)))
                | (b, r) => (b, mkFetchResult hwm logStart r)
                end
              else (b, mkFetchResult hwm logStart (Err er))
          | r => (b, mkFetchResult hwm logStart r)
          end
      end
  end.

Definition FetchAuthorized (fe : fetchenv) (b : Broker) (topic : string) (partition fetchOffset maxBytes : Z)
    (principalTenant : string) : Broker * FetchResult :=
  match b_topics b !! topic with
  | None => (b, mkFetchResult 0 0 (Err (ESentinel ErrUnknownTopic)))
  | Some t =>
      match verifyTopicTenant t principalTenant with
      | Ok _ => fetchInternal fe b topic partition fetchOffset maxBytes principalTenant
      | Err er => (b, mkFetchResult 0 0 (Err er))
      | _ => (b, mkFetchResult 0 0 Panic)
      end
  end.

Definition Fetch (fe : fetchenv) (b : Broker) (topic : string) (partition fetchOffset maxBytes : Z) : Broker * FetchResult :=
  fetchInternal fe b topic partition fetchOffset maxBytes "".

End archive.

(** ** ListOffsets: (offset, timestamp) *)
Definition ListOffsets (b : Broker) (topic : string) (partition timestamp : Z) : res (Z * Z) :=
  match b_topics b !! topic with
  | None => Err (ESentinel ErrUnknownTopic)
  | Some t =>
      match Topic_Partition t partition with
      | None => Err (ESentinel ErrUnknownPartition)
      | Some l =>
          if timestamp =? -2 then Ok (EarliestOffset l, -1)
          else if timestamp =? -1 then Ok (LatestOffset l, -1)
          else
            '(off, ok) ← Log_LookupOffsetByTimestamp l timestamp;
            if (ok : bool) then Ok (off, timestamp) else Ok (-1, -1)
      end
  end.

(** ** Start and stop *)

Definition New_config (c : BrokerConfig) : BrokerConfig :=
  mkBrokerConfig (BrokerID c) (ClusterID c) (AdvertisedHost c) (AdvertisedPort c)
    (if MaxRequestBytes c <=? 0 then 4 * 1024 * 1024 else MaxRequestBytes c) true
    (if DefaultPartitions c <=? 0 then 1 else DefaultPartitions c)
    (if DefaultRepFactor c <=? 0 then 1 else DefaultRepFactor c).

(** The data directory at boot. *)
Record DataDir := mkDataDir {
  dd_clusterID : option string;                  (* of cluster.json *)
  dd_topicsjson : option (gmap string TopicConfig);
  dd_topics : gmap string (gmap Z Dir);          (* topics/<name>/<partition> *)
  dd_groups : list (string * option GroupState);
  dd_acl : option (gmap string Principal)
}.

Definition set_ClusterID (c : BrokerConfig) (id : string) : BrokerConfig :=
  mkBrokerConfig (BrokerID c) id (AdvertisedHost c) (AdvertisedPort c) (MaxRequestBytes c) (AutoCreateTopics c)
    (DefaultPartitions c) (DefaultRepFactor c).

Definition part_le (a b : Z * Log) : Prop := a.1 <= b.1.
#[export] Instance part_le_dec a b : Decision (part_le a b) := Z_le_dec _ _.

(** Open the partition directories of a topic. *)
Fixpoint adopt_partitions (open : Dir -> res Log) (dirs : list (Z * Dir)) : res (list (Z * Log)) :=
  match dirs with
  | [] => Ok []
  | (i, d) :: rest =>
      l ← wrap_err "recover" (open d);
      ls ← adopt_partitions open rest;
      Ok ((i, l) :: ls)
  end.

Definition default_topic (c : BrokerConfig) (store : Config) : TopicConfig :=
  mkTopicConfig (DefaultPartitions c) (DefaultRepFactor c) (-1) (-1) (SegmentBytes store) "".

Definition set_NumPartitions (t : TopicConfig) (n : Z) : TopicConfig :=
  mkTopicConfig n (ReplicationFactor t) (RetentionMS t) (RetentionBytes t) (tc_SegmentBytes t) (OwnerTenantID t).

Definition adopt_topic (open : Dir -> res Log) (c : BrokerConfig) (store : Config)
    (persisted : gmap string TopicConfig) (name : string) (dirs : gmap Z Dir) : res Topic :=
  let tcfg := default (default_topic c store) (persisted !! name) in
  parts ← adopt_partitions open (map_to_list dirs);
  let parts := merge_sort part_le parts in
  let tcfg := if NumPartitions tcfg =? 0 then set_NumPartitions tcfg (zlen parts) else tcfg in
  Ok (mkTopic name parts tcfg).

Fixpoint adopt_topics (open : Dir -> res Log) (c : BrokerConfig) (store : Config)
    (persisted : gmap string TopicConfig) (entries : list (string * gmap Z Dir)) : res (gmap string Topic) :=
  match entries with
  | [] => Ok ∅
  | (name, dirs) :: rest =>
      t ← adopt_topic open c store persisted name dirs;
      ts ← adopt_topics open c store persisted rest;
      Ok (<[name := t]> ts)
  end.

Definition LoadState (wio : Z -> option Z * option Z) (now : Z) (c : BrokerConfig) (store : Config) (guard : option bool)
    (d : DataDir) : res Broker :=
  let c := New_config c in
  let c := match dd_clusterID d with
           | Some id => if String.eqb id "" then c else set_ClusterID c id
           | None => c
           end in
  topics ← adopt_topics (OpenLog wio now store guard) c store (default ∅ (dd_topicsjson d)) (map_to_list (dd_topics d));
  offsets ← NewOffsetStore (dd_groups d);
  Ok (mkBroker c store guard topics (dd_topicsjson d) ∅ (NewGroupCoordinator offsets) (NewACLStore (dd_acl d)) None).

(** [Drain]: sync every active segment, stopping at the first failure, then
    close the topics. *)
Fixpoint flush_parts (o : Z -> io) (parts : list (Z * Log)) : list (Z * Log) * res unit :=
  match parts with
  | [] => ([], Ok tt)
  | (i, l) :: rest =>
      match FlushAndSync (o i) l with
      | (l, Ok _) => let '(ls, r) := flush_parts o rest in ((i, l) :: ls, r)
      | (l, r) => ((i, l) :: rest, wrap_err "flush" r)
      end
  end.

Fixpoint flush_topics (o : string -> Z -> io) (ts : list (string * Topic)) : list (string * Topic) * res unit :=
  match ts with
  | [] => ([], Ok tt)
  | (name, t) :: rest =>
      match flush_parts (o name) (t_partitions t) with
      | (parts, Ok _) =>
          let '(ts, r) := flush_topics o rest in ((name, mkTopic (t_name t) parts (t_cfg t)) :: ts, r)
      | (parts, r) => ((name, mkTopic (t_name t) parts (t_cfg t)) :: rest, r)
      end
  end.

Definition Drain (o : string -> Z -> io) (b : Broker) : Broker * res unit :=
  match flush_topics o (map_to_list (b_topics b)) with
  | (ts, Ok _) =>
      let ts := list_to_map ts in
      (set_disk (set_topics b (Topic_Close <$> ts))
         (map_imap (fun name t => Some (dirs_of (t_partitions t) ∪ default ∅ (b_disk b !! name))) ts ∪ b_disk b), Ok tt)
  | (ts, r) => (set_topics b (list_to_map ts), r)
  end.
