(* ===== verification/BrokerFacts.v ===== *)
(** * Facts about the broker's operations *)

From S2P Require Import Prelude Bytes OsFile RecordBatch Index TimeIndex Segment SegmentFacts Log LogFacts LogRead LogRecover.
From S2P Require Import Names Offsets Group Acl Manifest Cache Broker.
From stdpp Require Import pretty.

#[local] Open Scope Z_scope.

(** ** The tenant gate *)

Lemma verifyTopicTenant_spec t tn :
  (verifyTopicTenant t tn = Ok tt /\ (tn = "" \/ OwnerTenantID (t_cfg t) = tn)) \/
  (verifyTopicTenant t tn = Err (ESentinel ErrUnauthorizedTopic) /\ tn <> "" /\ OwnerTenantID (t_cfg t) <> tn).
Proof.
  unfold verifyTopicTenant. destruct (String.eqb_spec tn "") as [->|Hne]; [left; by split; [|left]|].
  destruct (String.eqb_spec (OwnerTenantID (t_cfg t)) "") as [E|]; [right; rewrite E; by split_and!|].
  destruct (String.eqb_spec (OwnerTenantID (t_cfg t)) tn); [left; by split; [|right]|right; by split_and!].
Qed.

(** ** Directories *)

(** The directories of two topics have nothing in common: no partition directory
    of one is, or lies above or below, one of the other. *)
Definition apart (c : Config) (t1 t2 : string) : Prop := forall p1 p2,
  ~ PartitionDir c t1 p1 `prefix_of` PartitionDir c t2 p2 /\ ~ PartitionDir c t2 p2 `prefix_of` PartitionDir c t1 p1.

(** Every topic of the broker, and every topic directory left over, has a name
    that denotes an entry of the topics directory.  Names that pass [ValidateName]
    do; auto-created topics are not validated. *)
Definition plain (b : Broker) : Prop := forall name,
  is_Some (b_topics b !! name) \/ is_Some (b_disk b !! name) -> path_component name.

Lemma topics_component : path_component "topics".
Proof. apply path_component_chars; try done. simpl. intros c Hc. right. intuition (subst; vm_compute; intuition discriminate). Qed.

Lemma PartitionDir_plain c topic p : path_component topic ->
  PartitionDir c topic p = filepath_Join [] [Log.DataDir c] ++ ["topics"; topic; pretty p].
Proof.
  intros Ht. pose proof topics_component. pose proof (pretty_Z_component p).
  change (PartitionDir c topic p) with (foldl clean_step [] (split_slash (Log.DataDir c) ++ (["topics"; topic; pretty p] ≫= split_slash))).
  rewrite foldl_app.
  change (filepath_Join [] [Log.DataDir c]) with (foldl clean_step [] (split_slash (Log.DataDir c) ++ [])). rewrite app_nil_r.
  pose proof (filepath_Join_components (foldl clean_step [] (split_slash (Log.DataDir c))) ["topics"; topic; pretty p]) as Hj.
  apply Hj. by components.
Qed.

Lemma PartitionDir_inj c t1 t2 p1 p2 : path_component t1 -> path_component t2 ->
  PartitionDir c t1 p1 = PartitionDir c t2 p2 -> t1 = t2 /\ p1 = p2.
Proof.
  intros H1 H2. rewrite !PartitionDir_plain by done. intros E%app_inv_head.
  injection E as -> Hp. by apply (inj pretty) in Hp as ->.
Qed.

Lemma plain_apart c t1 t2 : path_component t1 -> path_component t2 -> t1 <> t2 -> apart c t1 t2.
Proof.
  intros H1 H2 Hne p1 p2. rewrite !PartitionDir_plain by done.
  split; intros [k E]; rewrite <- app_assoc in E; apply app_inv_head in E; by simplify_eq/=.
Qed.

(** With plain names a topic that is not registered finds its own leftover
    directory and no other. *)
Lemma dir_at_plain b topic p : plain b -> path_component topic -> b_topics b !! topic = None ->
  dir_at b (PartitionDir (b_store b) topic p) = b_disk b !! topic ≫= fun ds => ds !! p.
Proof.
  intros Hb Ht Hn. unfold dir_at. destruct (List.find _ _) as [[path d]|] eqn:E; cbn.
  - apply find_some in E as [Hin%list_elem_of_In E]. apply bool_decide_eq_true in E. cbn in E. subst path.
    unfold partition_dirs in Hin. apply elem_of_app in Hin as [Hin|Hin];
      apply list_elem_of_bind in Hin as ([t x] & Hin & Hx%elem_of_map_to_list);
      apply list_elem_of_fmap in Hin as ([q y] & [= E ->] & Hy); cbn in *;
      apply PartitionDir_inj in E as [-> ->]; try done; try (apply Hb; cbn; eauto).
    + apply elem_of_map_to_list in Hy. by rewrite Hx.
    + congruence.
  - destruct (b_disk b !! topic) as [ds|] eqn:Ed; [|done]. cbn. destruct (ds !! p) as [d|] eqn:Ep; [|done]. exfalso.
    eapply find_none in E; [|apply list_elem_of_In; unfold partition_dirs; apply elem_of_app; left;
      apply list_elem_of_bind; exists (topic, ds); split;
        [apply list_elem_of_fmap; exists (p, d); split; [done|by apply elem_of_map_to_list]|by apply elem_of_map_to_list]].
    cbn in E. by rewrite bool_decide_true in E.
Qed.

(** ** Frames of the registry operations *)

Definition same_but (name : string) (b b' : Broker) : Prop :=
  (forall t, t <> name -> b_topics b' !! t = b_topics b !! t) /\
  b_archive b' = b_archive b /\ b_groups b' = b_groups b /\ b_acl b' = b_acl b /\ b_cfg b' = b_cfg b /\
  b_store b' = b_store b /\ b_guard b' = b_guard b /\ (forall t, t <> name -> b_disk b' !! t = b_disk b !! t).

Lemma same_but_plain name b b' : path_component name -> plain b -> same_but name b b' -> plain b'.
Proof.
  intros Hn Hb (Ht & _ & _ & _ & _ & _ & _ & Hd) n Hs. destruct (decide (n = name)) as [->|]; [done|].
  apply Hb. by rewrite <- Ht, <- Hd.
Qed.

Lemma same_but_refl name b : same_but name b b.
Proof. by split_and!. Qed.

Lemma same_but_trans name b1 b2 b3 : same_but name b1 b2 -> same_but name b2 b3 -> same_but name b1 b3.
Proof.
  intros (H1 & H2 & H3 & H4 & H5 & H6 & H7 & H8) (K1 & K2 & K3 & K4 & K5 & K6 & K7 & K8).
  split_and!; try congruence; intros t Ht; [by rewrite K1, H1|by rewrite K8, H8].
Qed.

Lemma Registry_Create_spec e b name cfg b' r :
  Registry_Create e b name cfg = (b', r) ->
  same_but name b b' /\
  (r = Ok tt -> b_topics b !! name = None /\ exists t, b_topics b' !! name = Some t /\
     OwnerTenantID (t_cfg t) = OwnerTenantID cfg /\
     open_partitions (Storage_OpenLog e b name) 0
       (Z.to_nat (if NumPartitions cfg <=? 0 then 1 else NumPartitions cfg)) = (t_partitions t, Ok tt)) /\
  (r <> Ok tt -> b_topics b' = b_topics b).
Proof.
  unfold Registry_Create. destruct (String.eqb name ""); [intros [= <- <-]; by split_and!|].
  destruct (b_topics b !! name) as [t|] eqn:Et; [intros [= <- <-]; by split_and!|].
  destruct (open_partitions _ _ _) as [parts r0] eqn:Eo.
  destruct r0 as [[]|er| |]; intros [= <- <-]; (split; [|split]); try done.
  all: try (split_and!; try done; intros t' Ht; cbn; by rewrite ?lookup_insert_ne by done).
  intros _. split; [done|]. eexists. cbn. rewrite lookup_insert_eq. split; [done|]. split; done.
Qed.

Lemma persistTopics_spec ok b b' r :
  persistTopicsLocked ok b = (b', r) -> b_topics b' = b_topics b /\ (forall name, same_but name b b') /\
  (r = Ok tt -> b_topicsjson b' = Some (t_cfg <$> b_topics b)).
Proof. unfold persistTopicsLocked. destruct ok; intros [= <- <-]; by split_and!. Qed.

Lemma EnsureTopic_spec e b name n tn b' r :
  EnsureTopicForTenant e b name n tn = (b', r) ->
  same_but name b b' /\
  (forall t, b_topics b' !! name = Some t -> b_topics b !! name = Some t \/ OwnerTenantID (t_cfg t) = tn) /\
  (r = Ok tt -> is_Some (b_topics b' !! name)).
Proof.
  unfold EnsureTopicForTenant. destruct (b_topics b !! name) as [t|] eqn:Et.
  { intros [= <- <-]. split; [apply same_but_refl|]. split; [intros t' Ht'; left; congruence|rewrite Et; by eauto]. }
  destruct (AutoCreateTopics (b_cfg b)); cbn [negb].
  2:{ intros [= <- <-]. split; [apply same_but_refl|]. split; [|done]. intros t. by rewrite Et. }
  destruct (Registry_Create _ _ _ _) as [b1 r1] eqn:Ec.
  apply Registry_Create_spec in Ec as (Hs & Hok & Hno).
  destruct r1 as [[]|er| |].
  { intros Hp. apply persistTopics_spec in Hp as (Ht & Hs' & _). destruct (Hok eq_refl) as (_ & t & Hbt & Ho & _).
    split; [|split].
    - eapply same_but_trans; [exact Hs|apply Hs'].
    - intros t'. rewrite Ht, Hbt. intros [= <-]. by right.
    - intros _. rewrite Ht, Hbt. eauto. }
  all: intros [= <- <-]; (split; [exact Hs|]); (split; [|done]); intros t; rewrite Hno by done; by rewrite Et.
Qed.

(** ** Partitions *)

Lemma Topic_Partition_put t p l l' :
  Topic_Partition t p = Some l -> Topic_Partition (put_partition t p l') p = Some l'.
Proof.
  unfold Topic_Partition, put_partition. cbn. unfold zlen. rewrite length_alter.
  destruct (_ || _) eqn:E; [done|]. rewrite list_lookup_alter, decide_True by done.
  by destruct (t_partitions t !! Z.to_nat p).
Qed.

Lemma Topic_Partition_put_ne t p q l' :
  0 <= p -> q <> p -> Topic_Partition (put_partition t p l') q = Topic_Partition t q.
Proof.
  intros Hp Hne. unfold Topic_Partition, put_partition. cbn. unfold zlen. rewrite length_alter.
  rewrite Z.geb_leb. destruct (Z.ltb_spec q 0); [done|]. cbn [orb]. destruct (_ <=? _); [done|].
  by rewrite list_lookup_alter_ne by lia.
Qed.

Lemma Topic_Partition_range t p l : Topic_Partition t p = Some l -> 0 <= p < zlen (t_partitions t).
Proof.
  unfold Topic_Partition. rewrite Z.geb_leb. destruct (Z.ltb_spec p 0); [done|]. cbn [orb].
  destruct (Z.leb_spec (zlen (t_partitions t)) p); [done|]. lia.
Qed.

(** ** Reading archived segments *)

(** A segment holding the batches of an archived file, with no index. *)
Definition archived_segment (base : Z) (bs : list (list byte)) : Segment :=
  mkSegment base (mkFile (concat bs) (zlen (concat bs)) 0) (zlen (concat bs)) 0 (OpenIndex [] 0) (OpenTimeIndex [] 0)
    (base + recs bs) 0 0 true false.

Lemma archived_segment_wf base bs : 0 <= base < 2 ^ 63 -> chain base bs -> seg_wf bs (archived_segment base bs).
Proof. intros Hb Hc. constructor; cbn; try done. by apply index_wf_nil. Qed.

Lemma archive_scan_ok rest : forall fuel data t header pre o,
  data = concat pre ++ concat rest -> length header = 61%nat -> chain o rest -> 0 <= o -> o <= t < o + recs rest ->
  (length rest < fuel)%nat ->
  exists mid b post, rest = mid ++ b :: post /\
    archive_scan fuel data t header (zlen (concat pre)) = Ok (Some (zlen (concat (pre ++ mid)))) /\
    o + recs mid <= t < o + recs mid + records b.
Proof.
  induction rest as [|b rest IH]; intros fuel data t header pre o Hd Hh Hc Ho Ht Hf; [simpl in Ht; lia|].
  destruct fuel as [|fuel]; [simpl in Hf; lia|].
  destruct Hc as [Hst Hc]. cbn [recs foldr] in Ht. fold (recs rest) in Ht.
  destruct (stored_inv _ _ Hst) as (Hpa & Hl & _ & Hbo & Hr & Hn & Hb61).
  destruct (readat_header (mkFile data 0 0) (concat pre) b (concat rest)) as [Hrl Hrp];
    [done|unfold v2HeaderSize; lia|].
  cbn [archive_scan]. pose proof (zlen_nonneg (concat rest)).
  rewrite (proj2 (Z.ltb_lt _ _)) by (rewrite Hd; cbn [concat]; rewrite !zlen_app; lia).
  change (take 61 (drop (Z.to_nat (zlen (concat pre))) data)) with (file_readat (mkFile data 0 0) (zlen (concat pre)) v2HeaderSize).
  set (rd := file_readat _ _ _) in *.
  assert (length rd = 61%nat) as Hrd by (unfold zlen, v2HeaderSize in Hrl; lia).
  rewrite (drop_ge header), app_nil_r, Hrp, Hpa by lia.
  rewrite (stored_LastOffset _ _ Ho Hst), Hbo, Z.geb_leb.
  rewrite (proj2 (Z.leb_le o t)) by lia. cbn [andb].
  destruct (Z.leb_spec t (o + records b - 1)).
  - exists [], b, rest. rewrite app_nil_r. simpl. split_and!; [done..|lia|lia].
  - destruct (IH fuel data t rd (pre ++ [b]) (o + records b)) as (mid & b' & post & -> & Hfl & Hr');
      [|done|done|lia|lia|simpl in Hf; lia|].
    { rewrite Hd, concat_app. simpl. by rewrite app_nil_r, <- app_assoc. }
    exists (b :: mid), b', post. split; [done|]. split; [|simpl; lia].
    replace (zlen (concat pre) + TotalSize (decode_header b)) with (zlen (concat (pre ++ [b])))
      by (rewrite concat_app, zlen_app; simpl; rewrite app_nil_r; lia).
    rewrite Hfl. by rewrite <- app_assoc.
Qed.

(** The window [fetchFromArchive] reads is what the segment would return. *)
Lemma archive_window bs base pos n :
  0 <= base < 2 ^ 63 -> chain base bs -> 0 <= pos < zlen (concat bs) -> 0 <= n ->
  let want := if pos + n >? zlen (concat bs) then zlen (concat bs) - pos else n in
  0 <= want /\ Segment_ReadAt (archived_segment base bs) pos n = Ok (slice (concat bs) pos (pos + want)).
Proof.
  intros Hb Hc Hp Hn. cbn zeta. rewrite Z.gtb_ltb.
  destruct (Z.ltb_spec (zlen (concat bs)) (pos + n)); (split; [lia|]);
    rewrite (Segment_ReadAt_ok bs) by (done || apply archived_segment_wf; done); unfold slice;
    f_equal; rewrite ?Z.add_simpl_l; [|done].
  rewrite !take_ge; [done|..]; rewrite length_drop; unfold zlen in *; lia.
Qed.

Lemma read_archived_ok base bs off maxBytes :
  0 <= base < 2 ^ 63 -> chain base bs -> base <= off < base + recs bs -> v2HeaderSize <= maxBytes ->
  exists data first, read_archived (concat bs) off maxBytes = Ok (data, first) /\
    fetched bs base off maxBytes data first.
Proof.
  intros Hb Hc Hoff Hmax. pose proof (archived_segment_wf base bs Hb Hc) as Hs.
  pose proof (chain_length _ _ Hc) as Hcl.
  destruct (archive_scan_ok bs (S (length (concat bs))) (concat bs) off (replicate 61 x00) [] base)
    as (pre & b & post & -> & Hscan & Hin); try done; [lia|unfold zlen in Hcl; lia|].
  destruct (fetch_tail pre b post _ maxBytes Hs Hmax) as (buf & tr & Erd & Hne & Etr & Hbuf & Hcases).
  pose proof Hc as [_ Hch]%chain_app. pose proof Hch as [(_ & Hl & _ & Ho & _ & _ & H61)%stored_inv _].
  assert (zlen (concat (pre ++ b :: post)) = zlen (concat pre) + zlen b + zlen (concat post)) as Hz
    by (rewrite concat_app, zlen_app; cbn [concat]; rewrite zlen_app; lia).
  pose proof (zlen_nonneg (concat pre)). pose proof (zlen_nonneg (concat post)). unfold v2HeaderSize in *.
  destruct (archive_window _ base (zlen (concat pre)) maxBytes Hb Hc) as [Hw Ew]; [lia|lia|].
  rewrite Ew in Erd. injection Erd as <-.
  unfold read_archived. cbn [app concat] in Hscan. rewrite zlen_nil in Hscan. rewrite Hscan. cbn [mbind res_bind].
  rewrite (proj2 (Z.ltb_ge _ _)) by done. rewrite Etr. cbn [mbind res_bind].
  destruct Hcases as [(mid & post' & -> & -> & Hle)|(-> & Hlt & Hp & Hfull)].
  - assert (chain (base + recs pre) (b :: mid)) as Hc2.
    { change (b :: mid ++ post') with ((b :: mid) ++ post') in Hch. by apply chain_app in Hch as [? _]. }
    rewrite bool_decide_false, (decode_concat _ _ _ Hc2).
    2: { intros E. apply (f_equal length) in E. cbn [concat] in E. rewrite length_app in E. unfold zlen in H61. simpl in E. lia. }
    eexists _, _; split; [done|]. exists pre, b, mid, post'. split_and!; try done; try lia.
  - rewrite bool_decide_true, Hp by done. cbn [mbind res_bind]. rewrite Z.gtb_ltb, (proj2 (Z.ltb_ge _ _)), Ho by lia.
    destruct (archive_window _ base (zlen (concat pre)) (TotalSize (decode_header b)) Hb Hc) as [_ Ew2]; [lia|lia|].
    rewrite Z.gtb_ltb, (proj2 (Z.ltb_ge _ _)) in Ew2 by lia. rewrite Ew2 in Hfull. injection Hfull as ->.
    eexists _, _; split; [done|]. exists pre, b, [], post. cbn [concat]. rewrite app_nil_r.
    split_and!; try done; try lia. by left.
Qed.

(** ** The frame of a fetch *)

(** Fetching touches the cache only. *)
Definition only_cache (b b' : Broker) : Prop := exists a, b' = set_archive b a.

#[export] Instance only_cache_preorder : PreOrder only_cache.
Proof.
  split; [intros b; exists (b_archive b); by destruct b|].
  intros b1 b2 b3 [a ->] [a' ->]. by exists a'.
Qed.

Lemma fetchFromArchive_frame sha256 mac key fe b topic p off maxBytes tn b' r :
  fetchFromArchive sha256 mac key fe b topic p off maxBytes tn = (b', r) -> only_cache b b'.
Proof.
  unfold fetchFromArchive. destruct (b_archive b) as [a|]; [|intros [= <- _]; reflexivity].
  destruct (archived_at _ _ _ _) as [e|]; [|intros [= <- _]; reflexivity].
  destruct (_ && _); [intros [= <- _]; reflexivity|].
  destruct (Restore _ _ _ _ _ _ _ _ _ _) as [c r1]. destruct r1; [|intros [= <- _]; by eexists..].
  destruct (OpenTenant _ _ _ _ _ _) as [c2 f]. intros [= <- _]. by eexists.
Qed.

Lemma FetchAuthorized_frame sha256 mac key fe b topic p off maxBytes tn b' r :
  FetchAuthorized sha256 mac key fe b topic p off maxBytes tn = (b', r) -> only_cache b b'.
Proof.
  assert (only_cache b b) as Hrefl by reflexivity.
  unfold FetchAuthorized, fetchInternal. destruct (b_topics b !! topic) as [t|]; [|by intros [= <- _]].
  destruct (verifyTopicTenant t tn); try by intros [= <- _].
  destruct (Topic_Partition t p) as [l|]; [|by intros [= <- _]].
  destruct (FetchAt l off maxBytes) as [?|er| |]; try by intros [= <- _].
  destruct (_ && _); [|by intros [= <- _]].
  destruct (fetchFromArchive _ _ _ _ _ _ _ _ _ _) as [b1 r1] eqn:E. apply fetchFromArchive_frame in E.
  destruct r1; by intros [= <- _].
Qed.
