(* ===== verification/BrokerProps.v ===== *)
(** * What the broker promises

    Tenant isolation on the produce and fetch paths, produce followed by fetch,
    fetches served from the archive, and deletion. *)

From S2P Require Import Prelude Bytes OsFile RecordBatch Index TimeIndex Segment SegmentFacts Log LogFacts LogRead LogRecover Samples.
From S2P Require Import Names Offsets Group Acl Manifest Cache Broker BrokerFacts.

#[local] Open Scope Z_scope.

(** ** Tenant isolation *)

Lemma resolve_topic_spec e b topic tn b' r :
  resolve_topic e b topic tn = (b', r) ->
  same_but topic b b' /\ (forall t, r = Ok t -> b_topics b' !! topic = Some t) /\
  ((exists t, b_topics b !! topic = Some t /\ b' = b /\ r = Ok t) \/
   (b_topics b !! topic = None /\ forall t, b_topics b' !! topic = Some t -> OwnerTenantID (t_cfg t) = tn)).
Proof.
  unfold resolve_topic. destruct (b_topics b !! topic) as [t|] eqn:Et.
  { intros [= <- <-]. split; [apply same_but_refl|]. split; [intros; congruence|left; eauto]. }
  destruct (EnsureTopicForTenant _ _ _ _ _) as [b1 r1] eqn:Ee.
  apply EnsureTopic_spec in Ee as (Hs & Ho & Hok). rewrite Et in Ho.
  assert (forall t, b_topics b1 !! topic = Some t -> OwnerTenantID (t_cfg t) = tn) as Hnew
    by (intros t Ht; by destruct (Ho t Ht)).
  destruct r1 as [[]|er| |]; intros [= <- <-]; (split; [exact Hs|]); (split; [|by right]); try done.
  destruct (Hok eq_refl) as [t Ht]. rewrite Ht. by intros t' [= ->].
Qed.

(** C18: A produce request of a tenant writes only to topics the tenant owns, on
    a broker whose topic names are plain and for a plain topic name (an entry of
    the topics directory: no separator, not a dot name; auto-creation does not
    check this, see [alias_reads_other_tenant]).  On another tenant's (or a
    shared) topic it fails with the authorization error and changes nothing; a
    topic it creates belongs to the tenant; whatever the outcome, every other
    topic, the groups, the grants and the archive are untouched, and no directory
    of another topic is shared with the topic's own. *)
Theorem AppendBatchesAuthorized_isolated e o b topic p batches tn b' r :
  tn <> "" -> plain b -> path_component topic -> AppendBatchesAuthorized e o b topic p batches tn = (b', r) ->
  (forall t, t <> topic -> b_topics b' !! t = b_topics b !! t) /\
  b_archive b' = b_archive b /\ b_groups b' = b_groups b /\ b_acl b' = b_acl b /\
  (forall t, b_topics b !! topic = Some t -> OwnerTenantID (t_cfg t) <> tn ->
     b' = b /\ r = Err (ESentinel ErrUnauthorizedTopic)) /\
  (forall t, b_topics b !! topic = None -> b_topics b' !! topic = Some t -> OwnerTenantID (t_cfg t) = tn) /\
  (forall off, r = Ok off -> exists t, b_topics b' !! topic = Some t /\ OwnerTenantID (t_cfg t) = tn) /\
  (forall t, t <> topic -> is_Some (b_topics b !! t) \/ is_Some (b_disk b !! t) -> apart (b_store b) topic t).
Proof.
  intros Htn Hpl Hpc. assert (forall t, t <> topic -> is_Some (b_topics b !! t) \/ is_Some (b_disk b !! t) -> apart (b_store b) topic t)
    as Hap by (intros t Hne Hin; apply plain_apart; [done|by apply Hpl|done]).
  unfold AppendBatchesAuthorized.
  destruct (resolve_topic e b topic tn) as [b1 r1] eqn:Er.
  apply resolve_topic_spec in Er as ((Hs & Ha & Hg & Hacl & _) & Hok & Hcase).
  destruct r1 as [t|er| |].
  2-4: intros [= <- <-]; split_and!; try done; destruct Hcase as [(? & ? & ? & [=])|[Hn Ho]];
    [congruence|by intros ? _; apply Ho].
  specialize (Hok t eq_refl).
  destruct (verifyTopicTenant_spec t tn) as [[-> [?|Hown]]|(-> & _ & Hown)]; [done| |].
  - assert (forall t', b_topics b !! topic = Some t' -> OwnerTenantID (t_cfg t') = tn) as Hold.
    { intros t' Ht'. destruct Hcase as [(? & ? & -> & _)|[? _]]; congruence. }
    destruct (Topic_Partition t p) as [l|].
    2:{ intros [= <- <-]. split_and!; try done; [intros t' Ht' Hne; by destruct Hne; apply Hold|].
        intros t' _. rewrite Hok. by intros [= <-]. }
    destruct (Log_Append o l batches) as [l' r'] eqn:El. intros [= <- <-].
    split_and!; try done.
    + intros t' Hne. cbn. by rewrite lookup_insert_ne, Hs.
    + intros t' Ht' Hne. by destruct Hne; apply Hold.
    + intros t' _. cbn. rewrite lookup_insert_eq. by intros [= <-].
    + intros off _. cbn. rewrite lookup_insert_eq. by eexists.
  - intros [= <- <-]. split_and!; try done.
    + intros t' Ht' _. by destruct Hcase as [(? & ? & -> & _)|[? _]]; [|congruence].
    + intros t' Hn Ht'. destruct Hcase as [(? & ? & _)|[_ Ho]]; [congruence|by apply Ho].
Qed.

(** C19: A fetch of a tenant returns only the tenant's records, on a broker whose
    topic names are plain.  On a topic of another owner it fails and nothing is
    read or restored; bytes it returns come from the partition's local log of a
    topic the tenant owns, whose directory no other topic's shares, or from the
    cached copy of an archived segment of that topic and partition which covers
    the offset and is itself tagged with the tenant.  Without plain names the
    directory can be another topic's ([alias_reads_other_tenant]). *)
Theorem FetchAuthorized_isolated sha256 mac key fe b topic p off maxBytes tn b' r :
  tn <> "" -> plain b -> FetchAuthorized sha256 mac key fe b topic p off maxBytes tn = (b', r) ->
  (TenantOfTopic b topic <> tn -> b' = b /\ exists e, fr_data r = Err e) /\
  (forall data first, fr_data r = Ok (data, first) ->
     exists t l, b_topics b !! topic = Some t /\ OwnerTenantID (t_cfg t) = tn /\ Topic_Partition t p = Some l /\
       (forall t', t' <> topic -> is_Some (b_topics b !! t') \/ is_Some (b_disk b !! t') -> apart (b_store b) topic t') /\
       (FetchAt l off maxBytes = Ok (data, first) \/
        exists a e f, b_archive b' = Some a /\ In e (mf_completed (ar_manifest a)) /\
          se_Topic e = topic /\ se_Partition e = p /\ se_TenantID e = tn /\ se_BaseOffset e <= off < se_NextOffset e /\
          cache_files (ar_cache a) !! entry_path (ar_cache a) e = Some f /\
          read_archived (c_data f) off maxBytes = Ok (data, first))).
Proof.
  intros Htn Hpl. unfold FetchAuthorized, TenantOfTopic.
  destruct (b_topics b !! topic) as [t|] eqn:Et; [|intros [= <- <-]; split; [by eauto|done]].
  destruct (verifyTopicTenant_spec t tn) as [[-> [?|Hown]]|(-> & _ & Hown)]; [done| |intros [= <- <-]; split; [by eauto|done]].
  intros H. split; [done|]. intros data first Hd. exists t.
  unfold fetchInternal in H. rewrite Et in H.
  destruct (Topic_Partition t p) as [l|]; [|by simplify_eq]. exists l. split_and!; try done.
  { intros t' Hne Hin. apply plain_apart; [apply Hpl; left; by eexists|by apply Hpl|done]. }
  destruct (FetchAt l off maxBytes) as [[d0 f0]|er| |] eqn:Ef; [left|right|by simplify_eq|by simplify_eq].
  { injection H as <- <-. exact Hd. }
  destruct (_ && _); [|by simplify_eq].
  destruct (fetchFromArchive _ _ _ _ _ _ _ _ _ _) as [b1 r1] eqn:Ea.
  assert (b1 = b' /\ r1 = Ok (data, first)) as [-> ->].
  { destruct r1 as [[d1 f1]|er1| |]; simplify_eq/=; done. }
  clear H. unfold fetchFromArchive in Ea. destruct (b_archive b) as [a|]; [|done].
  destruct (archived_at (ar_manifest a) topic p off) as [e|] eqn:Ee; [|done].
  rewrite (proj2 (String.eqb_neq tn "") Htn) in Ea. cbn [negb andb] in Ea.
  destruct (String.eqb_spec (se_TenantID e) tn) as [Het|]; cbn [negb] in Ea; [|done].
  apply find_some in Ee as [Hin He]. apply filter_In in Hin as [Hin Htop]. apply String.eqb_eq in Htop.
  rewrite Z.geb_leb in He. zbool.
  destruct (Restore _ _ _ _ _ _ _ _ _ _) as [c [[]|er1| |]]; try done.
  unfold OpenTenant in Ea. set (path := PathTenant _ _ _ _ _) in Ea.
  destruct (cache_files c !! path) as [f|] eqn:Ec; [|done].
  injection Ea as <- Hread. eexists _, e, (mkCached (c_data f) (fe_now fe)).
  split; [done|]. cbn. split_and!; try done; try congruence; try lia.
  replace (entry_path _ e) with path by (subst; reflexivity).
  apply lookup_insert_eq.
Qed.

(** ** Produce, then fetch *)

(** What was produced is what is fetched: an accepted produce request is
    acknowledged with the old high watermark, and a fetch from that offset by
    anyone the topic admits returns the stored batches from the first one on,
    byte for byte as sent apart from the offset and leader-epoch fields, under
    the new high watermark. *)
Theorem produce_then_fetch sha256 mac key e o fe b topic t p l start bs batches tn maxBytes :
  b_topics b !! topic = Some t -> Topic_Partition t p = Some l -> (tn = "" \/ OwnerTenantID (t_cfg t) = tn) ->
  log_wf start bs l -> diskGuard l <> Some true -> batches <> [] -> Forall acceptable batches ->
  HighWatermark l + recs batches < 2 ^ 63 -> (forall k, io_log (o k) = None) -> (forall k, sync_good (o k)) ->
  v2HeaderSize <= maxBytes ->
  exists b' sent rest data, AppendBatchesAuthorized e o b topic p batches tn = (b', Ok (HighWatermark l)) /\
    Forall2 same_outside_patch batches (sent ++ rest) /\ sent <> [] /\ data = concat sent /\
    FetchAuthorized sha256 mac key fe b' topic p (HighWatermark l) maxBytes tn =
      (b', mkFetchResult (HighWatermark l + recs batches) (LogStartOffset l) (Ok (data, HighWatermark l))).
Proof.
  intros Ht Hp Hown Hwf Hg Hne Hacc Hroom Hio Hsync Hmax.
  destruct (Log_Append_spec o start bs l batches) as (l' & r & u & E & Happ & Hr); [done..|].
  destruct Hr as [(-> & -> & _)|(er & _ & Hng)]; [|done].
  destruct Happ as (got & lft & bs' & -> & Hbs & H2 & Hrec & Hwf' & Hls & Hok & _).
  destruct Hok as [[_ ->]|(er & ? & _)]; [|done]. rewrite app_nil_r in *.
  destruct (verifyTopicTenant_spec t tn) as [[Hv _]|(_ & ? & ?)]; [|by destruct Hown].
  pose proof (log_wf_chain _ _ _ Hwf) as (_ & Hh & _). pose proof (log_wf_chain _ _ _ Hwf') as (Hc' & Hh' & _).
  rewrite recs_app in Hh'.
  assert (chain (start + recs bs) bs') as Hcb by (by apply chain_app in Hc' as [_ ?]).
  assert (1 <= recs bs') as Hpos.
  { destruct bs' as [|x xs]; [by apply Forall2_nil_inv_r in H2|]. destruct Hcb as [(_ & _ & _ & _ & ? & _)%stored_inv Hx].
    apply chain_recs_nonneg in Hx. simpl. lia. }
  destruct (FetchAt_ok _ _ _ (HighWatermark l) maxBytes Hwf') as (data & first & Ef & pre & x & mid & post & Hsp & -> & -> & Hin & _);
    [destruct (log_wf_chain _ _ _ Hwf) as (Hc & _ & _); pose proof (chain_recs_nonneg _ _ Hc); lia|done|].
  assert (pre = bs /\ bs' = (x :: mid) ++ post) as [-> ->].
  { destruct bs' as [|y ys]; [simpl in Hpos; lia|].
    destruct (chain_split_unique bs start y ys pre x (mid ++ post)) as [-> Heq]; [done|by rewrite Hsp|lia|].
    split; [done|]. by rewrite <- Heq. }
  exists (set_topics b (<[topic := put_partition t p l']> (b_topics b))), (x :: mid), post, (concat (x :: mid)).
  split_and!; try done.
  - unfold AppendBatchesAuthorized, resolve_topic. by rewrite Ht, Hv, Hp, E.
  - unfold FetchAuthorized, fetchInternal. cbn [set_topics b_topics]. rewrite lookup_insert_eq.
    replace (verifyTopicTenant (put_partition t p l') tn) with (verifyTopicTenant t tn) by done.
    rewrite Hv, (Topic_Partition_put _ _ _ _ Hp), Ef. do 2 f_equal; [lia|apply Hls|do 2 f_equal; lia].
Qed.

(** ** Fetches below the local log *)

(** The entry that covers an offset is the one filed under its base offset. *)
Lemma archived_at_Lookup m topic p off e :
  manifest_wf m -> archived_at m topic p off = Some e ->
  Manifest_Lookup m topic p (se_BaseOffset e) = Some e /\ se_Topic e = topic /\ se_Partition e = p /\
  se_BaseOffset e <= off < se_NextOffset e.
Proof.
  intros Hwf He. apply find_some in He as [Hin He]. apply filter_In in Hin as [Hin Htop]. apply String.eqb_eq in Htop.
  rewrite Z.geb_leb in He. zbool. split; [|by split_and!].
  unfold Manifest_Lookup. destruct (List.find _ _) as [e'|] eqn:Ef.
  - apply find_some in Ef as [Hin' Ha]. unfold at_segment in Ha. zbool. apply String.eqb_eq in H2.
    destruct (ForallOrdPairs_In Hwf e e' Hin Hin') as [->|[Hc|Hc]]; [done|exfalso..];
      (destruct Hc as [Hc _]; [congruence|congruence|]); congruence.
  - apply (List.find_none _ _ Ef) in Hin. unfold at_segment in Hin.
    by rewrite Htop, String.eqb_refl, H, !Z.eqb_refl in Hin.
Qed.

Lemma PutTenantStream_stores sha256 now c tenant topic p b data :
  exists c', PutTenantStream sha256 now c tenant topic p b (Some data) (sha256 data) = (c', Ok (zlen data)) /\
    cache_dir c' = cache_dir c /\ cache_files c' !! PathTenant c tenant topic p b = Some (mkCached data now).
Proof.
  unfold PutTenantStream. rewrite String.eqb_refl, andb_false_r. eexists. split; [done|].
  set (c1 := set_files _ _). split.
  { unfold evictLockedIfNeeded. by destruct (_ <=? _). }
  destruct (evict_files now c1) as [H1 H2 _ _].
  assert (cache_files c1 !! PathTenant c tenant topic p b = Some (mkCached data now)) as H0
    by (subst c1; cbn; apply lookup_insert_eq).
  destruct (cache_files (evictLockedIfNeeded now c1) !! PathTenant c tenant topic p b) as [g|] eqn:E.
  - rewrite <- H0. symmetry. by apply (lookup_weaken _ _ _ _ E).
  - destruct (H2 _ _ H0 E) as [_ Hold]. cbn in Hold. unfold evictionGrace in Hold. lia.
Qed.

(** Once the segment is in the cache, the fetch is answered from it. *)
Lemma Fetch_cached sha256 mac key fe b topic t p l start lbs tn a e bs off maxBytes c' f :
  b_topics b !! topic = Some t -> Topic_Partition t p = Some l -> (tn = "" \/ OwnerTenantID (t_cfg t) = tn) ->
  log_wf start lbs l -> off < start -> b_archive b = Some a -> manifest_wf (ar_manifest a) ->
  archived_at (ar_manifest a) topic p off = Some e -> (tn = "" \/ se_TenantID e = tn) ->
  Restore sha256 mac key (fe_now fe) (fe_get fe) (ar_manifest a) (ar_cache a) topic p (se_BaseOffset e) = (c', Ok tt) ->
  cache_files c' !! PathTenant c' (se_TenantID e) topic p (se_BaseOffset e) = Some f -> c_data f = concat bs ->
  0 <= se_BaseOffset e < 2 ^ 63 ->
  chain (se_BaseOffset e) bs -> se_NextOffset e = se_BaseOffset e + recs bs -> v2HeaderSize <= maxBytes ->
  exists b' data first,
    FetchAuthorized sha256 mac key fe b topic p off maxBytes tn =
      (b', mkFetchResult (HighWatermark l) (LogStartOffset l) (Ok (data, first))) /\
    fetched bs (se_BaseOffset e) off maxBytes data first.
Proof.
  intros Ht Hp Hown Hwf Hoff Ha Hm He Het Er Hfile Hf Hb Hc Hnext Hmax.
  destruct (archived_at_Lookup _ _ _ _ _ Hm He) as (Hl & Htop & Hpart & Hrange).
  destruct (read_archived_ok (se_BaseOffset e) bs off maxBytes Hb Hc ltac:(lia) Hmax) as (data & first & Hread & Hres).
  destruct (verifyTopicTenant_spec t tn) as [[Hvt _]|(_ & ? & ?)]; [|by destruct Hown].
  eexists _, data, first. split; [|exact Hres].
  unfold FetchAuthorized, fetchInternal. rewrite Ht, Hvt, Hp, (FetchAt_outside _ _ _ _ _ Hwf), (proj2 (Z.ltb_lt _ _)) by lia.
  cbn [errors_is]. rewrite bool_decide_true, Ha, bool_decide_true by eauto. cbn [andb].
  unfold fetchFromArchive. rewrite Ha, He.
  assert (negb (String.eqb tn "") && negb (String.eqb (se_TenantID e) tn) = false) as ->.
  { destruct Het as [->| ->]; [done|]. by rewrite String.eqb_refl, andb_false_r. }
  rewrite Er. unfold OpenTenant. rewrite Hfile. cbn [wrap_err mbind res_bind]. rewrite Hf, Hread. done.
Qed.

(** A restore that finds the object leaves it in the cache. *)
Lemma Restore_placed sha256 mac key now get m c topic p e data :
  manifest_wf m -> Manifest_Lookup m topic p (se_BaseOffset e) = Some e -> Has c topic p (se_BaseOffset e) = false ->
  se_Topic e = topic -> se_Partition e = p ->
  VerifySignature mac key e = true -> get 0%nat (se_S3Key e) = Ok (Some data) -> sha256 data = se_SHA256 e ->
  (12 <= String.length (se_SHA256 e))%nat ->
  exists c', Restore sha256 mac key now get m c topic p (se_BaseOffset e) = (c', Ok tt) /\
    cache_files c' !! PathTenant c' (se_TenantID e) topic p (se_BaseOffset e) = Some (mkCached data now).
Proof.
  intros Hm Hl Hhas Htop Hpart Hv Hget Hsha Hlen.
  destruct (PutTenantStream_stores sha256 now c (se_TenantID e) (se_Topic e) (se_Partition e) (se_BaseOffset e) data) as (c' & Eput & Hdir & Hfile).
  exists c'. split.
  - unfold Restore. rewrite Hhas, Hl. unfold doRestore. rewrite Hv. cbn [negb attempts].
    unfold downloadOnce. rewrite Hget, <- Hsha, Eput. by rewrite Hsha, (proj2 (Nat.ltb_ge _ _)).
  - rewrite <- Hfile. unfold PathTenant. by rewrite Hdir, Htop, Hpart.
Qed.


(** ** Deletion *)

Lemma OpenLog_empty wio now c guard :
  exists l, OpenLog wio now c guard (empty_partition now) = Ok l /\ log_wf 0 [] l.
Proof.
  eexists. split; [reflexivity|].
  eexists [], [], [], _. split; [reflexivity|]. split; [constructor|]. split; [|done].
  constructor; cbn; try done. by apply index_wf_nil.
Qed.

Lemma open_partitions_Forall (P : Log -> Prop) open n : forall i parts r,
  (forall i l, open i = Ok l -> P l) -> open_partitions open i n = (parts, r) -> Forall (fun p => P p.2) parts.
Proof.
  induction n as [|n IH]; intros i parts r HP; cbn [open_partitions]; [by intros [= <- _]|].
  destruct (open i) as [l|e| |] eqn:Eo; try (by intros [= <- _]).
  destruct (open_partitions open (i + 1) n) as [ls r'] eqn:En. intros [= <- _].
  constructor; [by eapply HP|by eapply IH].
Qed.

Lemma open_partitions_length open n : forall i parts,
  open_partitions open i n = (parts, Ok tt) -> length parts = n.
Proof.
  induction n as [|n IH]; intros i parts; cbn [open_partitions]; [by intros [= <-]|].
  destruct (open i) as [l|e| |]; try done. destruct (open_partitions open (i + 1) n) as [ls r'] eqn:En.
  intros [= <- ->]. simpl. f_equal. by eapply IH.
Qed.

Lemma Topic_Partition_in t p l : Topic_Partition t p = Some l -> exists i, (i, l) ∈ t_partitions t.
Proof.
  unfold Topic_Partition. destruct (_ || _); [done|]. intros (x & Hx & ->)%fmap_Some.
  exists x.1. apply list_elem_of_lookup_2 in Hx. by destruct x.
Qed.

Lemma Topic_Partition_total t p : 0 <= p < zlen (t_partitions t) -> is_Some (Topic_Partition t p).
Proof.
  intros Hp. unfold Topic_Partition. rewrite Z.geb_leb, (proj2 (Z.ltb_ge _ _)), (proj2 (Z.leb_gt _ _)) by lia. cbn [orb].
  destruct (lookup_lt_is_Some_2 (t_partitions t) (Z.to_nat p)) as [x ->]; [unfold zlen in Hp; lia|]. by eexists.
Qed.

(** A log without records returns no bytes, and neither does an archive without
    entries for the topic. *)
Lemma fetchInternal_empty sha256 mac key fe b name t p off maxBytes tn data first :
  b_topics b !! name = Some t -> Forall (fun p => log_wf 0 [] p.2) (t_partitions t) ->
  (forall a, b_archive b = Some a -> AllForTopic (ar_manifest a) name = []) ->
  fr_data (fetchInternal sha256 mac key fe b name p off maxBytes tn).2 = Ok (data, first) -> data = [].
Proof.
  intros Ht Hall Har. unfold fetchInternal. rewrite Ht.
  destruct (Topic_Partition t p) as [l|] eqn:Ep; [|done].
  destruct (Topic_Partition_in _ _ _ Ep) as [i Hi]. rewrite Forall_forall in Hall. specialize (Hall _ Hi).
  cbn [snd] in Hall. pose proof (log_wf_chain _ _ _ Hall) as (_ & Hh & _). cbn [recs foldr] in Hh.
  rewrite (FetchAt_outside _ _ _ _ _ Hall) by lia. destruct (off <? 0); [|by intros [= <- _]].
  destruct (_ && _); [|done]. unfold fetchFromArchive. destruct (b_archive b) as [a|]; [|done].
  unfold archived_at. by rewrite Har.
Qed.

Lemma DeleteTopic_Ok e b name b' :
  DeleteTopic e b name = (b', Ok tt) ->
  b_topics b' = delete name (b_topics b) /\ b_disk b' = delete name (b_disk b) /\
  b_topicsjson b' = Some (t_cfg <$> b_topics b') /\
  (forall a, b_archive b' = Some a -> AllForTopic (ar_manifest a) name = []).
Proof.
  unfold DeleteTopic, Registry_Delete. destruct (ValidateName _ _) as [[]| | |]; try done.
  destruct (b_topics b !! name) as [t|] eqn:Et; [|done].
  destruct (oe_close e); [|done]. unfold persistTopicsLocked. destruct (oe_persist e); [|done].
  cbn [set_topics set_disk set_topicsjson b_archive].
  destruct (forget_archive e (b_archive b) name) as [a errs] eqn:Ef.
  destruct (oe_remove e); [|by destruct errs]. intros [= <- Herr]. cbn. split_and!; try done.
  - by rewrite delete_insert_eq.
  - intros a' ->. unfold forget_archive in Ef. destruct (b_archive b) as [a0|]; [|done].
    pose proof (ForgetTopic_AllForTopic (oe_flush e).1 (oe_flush e).2 (ar_manifest a0) name) as HA.
    destruct (ForgetTopic _ _ _ _) as [m [| | |]]; simplify_eq; done.
Qed.

(** C34: A deleted topic's records never come back.  On a broker whose topics have
    names that are single path components, when the deletion of a topic has
    succeeded and right after it a topic of the same name has been created, the new
    one is shared, has the number of partitions asked for (at least one), each of
    them empty from offset 0 on, and no fetch from any partition at any offset with
    any budget returns a byte: not from the log, the archive or the cache.  All
    other topics are unchanged. *)
Theorem delete_then_create_empty e e' b b1 b2 name n rf :
  plain b -> DeleteTopic e b name = (b1, Ok tt) -> CreateTopic e' b1 name n rf = (b2, Ok tt) ->
  (forall t, t <> name -> b_topics b2 !! t = b_topics b !! t) /\ TenantOfTopic b2 name = "" /\
  (forall p, 0 <= p < Z.max 1 n -> exists t l, b_topics b2 !! name = Some t /\ Topic_Partition t p = Some l /\
     LogStartOffset l = 0 /\ HighWatermark l = 0) /\
  (forall sha256 mac key fe p off maxBytes data first,
     fr_data (Fetch sha256 mac key fe b2 name p off maxBytes).2 = Ok (data, first) -> data = []).
Proof.
  intros Hpl (Ht & Hd & _ & Har)%DeleteTopic_Ok. unfold CreateTopic.
  destruct (ValidateName _ _) as [[]| | |] eqn:Ev; try done. apply ValidateName_component in Ev as Hcomp. destruct (_ >? _); [done|].
  assert (plain b1) as Hpl1.
  { intros nm Hnm. apply Hpl. rewrite Ht, Hd in Hnm. destruct Hnm as [Hnm|Hnm]; [left|right];
      destruct Hnm as [x [_ Hx]%lookup_delete_Some]; by exists x. }
  assert (b_topics b1 !! name = None) as Hnone by (by rewrite Ht, lookup_delete_eq).
  destruct (Registry_Create _ _ _ _) as [b3 r3] eqn:Ec.
  pose proof Ec as ((Hs & Ha & _) & Hok & _)%Registry_Create_spec.
  destruct r3 as [[]| | |]; try done. intros Hp. apply persistTopics_spec in Hp as (Hpt & Hps & _).
  destruct (Hok eq_refl) as (_ & t & Hbt & Hown & Hopen). cbn [NumPartitions OwnerTenantID] in *.
  apply open_partitions_length in Hopen as Hlen.
  assert (Forall (fun p => log_wf 0 [] p.2 /\ LogStartOffset p.2 = 0) (t_partitions t)) as Hall.
  { eapply (open_partitions_Forall (fun l => log_wf 0 [] l /\ LogStartOffset l = 0)); [|exact Hopen].
    intros i l. unfold Storage_OpenLog. destruct (oe_mkdir e' i); cbn [negb]; [|done].
    rewrite dir_at_plain, Hd, lookup_delete_eq by done. cbn [mbind option_bind default].
    destruct (OpenLog_empty (oe_wio e') (oe_now e') (b_store b1) (b_guard b1)) as (l' & E & Hw).
    rewrite E. intros [= <-]. split; [done|]. clear - E. revert E. cbn. by intros [= <-]. }
  rewrite Hpt. split_and!.
  - intros t' Hne. by rewrite Hs, Ht, lookup_delete_ne by done.
  - unfold TenantOfTopic. by rewrite Hpt, Hbt.
  - intros p Hp. destruct (Topic_Partition_total t p) as [l Hl].
    { unfold zlen. rewrite Hlen. destruct (Z.leb_spec n 0); lia. }
    destruct (Topic_Partition_in _ _ _ Hl) as [i Hi]. rewrite Forall_forall in Hall. destruct (Hall _ Hi) as [Hw H0].
    exists t, l. split_and!; try done. cbn [snd] in *. by pose proof (log_wf_chain _ _ _ Hw) as (_ & -> & _).
  - intros sha256 mac key fe p off maxBytes data first. unfold Fetch. eapply fetchInternal_empty.
    + by rewrite Hpt.
    + eapply Forall_impl; [exact Hall|]. by intros ? [? _].
    + intros a Ha'. apply Har. destruct (Hps name) as (_ & Hpa & _). congruence.
Qed.

(** ** Concrete instances *)

Definition sample_env : openenv := mkEnv (fun _ => (None, None)) 0 (fun _ => true) true (true, true) true true.
Definition sample_io (k : nat) : io := good_io (Z.of_nat k).
Definition sample_store : Config := sample_cfg FsyncAlways.
Definition empty_broker : Broker :=
  mkBroker (mkBrokerConfig 1 "c1" "localhost" 9092 4194304 true 1 1) sample_store None ∅ None ∅
    (NewGroupCoordinator (mkStore ∅ ∅)) (mkAcl ∅ None) None.

(** One tenant topic whose only partition holds the three sample batches. *)
Definition orders : Topic := mkTopic "orders" [(0, sample_log FsyncAlways)] (mkTopicConfig 1 1 (-1) (-1) 100 "t1").
Definition orders_broker : Broker := set_topics empty_broker {["orders" := orders]}.

Definition no_store : fetchenv := mkFetchEnv 0 (fun _ _ => Err (EMsg "unreachable")).

Lemma orders_lookup : b_topics orders_broker !! "orders" = Some orders.
Proof. reflexivity. Qed.
Lemma orders_partition : Topic_Partition orders 0 = Some (sample_log FsyncAlways).
Proof. reflexivity. Qed.

(** Tenant [t2] is refused on tenant [t1]'s topic. *)
Lemma orders_component : path_component "orders".
Proof. exact (ValidateName_component "topic" "orders" eq_refl). Qed.

Lemma orders_plain b : dom (b_topics b) ⊆ {["orders"]} -> b_disk b = ∅ -> plain b.
Proof.
  intros Ht Hd name [H|H].
  - apply elem_of_dom in H. apply Ht, elem_of_singleton in H as ->. exact orders_component.
  - rewrite Hd in H. destruct H as [x H]. by rewrite lookup_empty in H.
Qed.

Lemma orders_broker_plain : plain orders_broker.
Proof. apply orders_plain; [|reflexivity]. cbn. rewrite dom_singleton_L. done. Qed.

(** Why the names have to be plain: the tenant t2 produces to a topic that it is
    free to name "x./../orders".  The topic is created for t2 over the directory of
    t1's topic orders, whose three batches (offsets 0 to 5) it finds there; t2's
    produce lands behind them, and t2's fetch returns what t1's fetch of orders
    does. *)
Definition alias_broker : Broker * res Z :=
  AppendBatchesAuthorized sample_env sample_io orders_broker "x./../orders" 0 [b1] "t2".

Example alias_reads_other_tenant :
  PartitionDir sample_store "x./../orders" 0 = PartitionDir sample_store "orders" 0 /\
  alias_broker.2 = Ok 6 /\ TenantOfTopic alias_broker.1 "x./../orders" = "t2" /\
  is_ok (fr_data (FetchAuthorized sample_sha toy_mac [] no_store alias_broker.1 "x./../orders" 0 0 200 "t2").2) = true /\
  fr_data (FetchAuthorized sample_sha toy_mac [] no_store alias_broker.1 "x./../orders" 0 0 200 "t2").2 =
  fr_data (FetchAuthorized sample_sha toy_mac [] no_store orders_broker "orders" 0 0 200 "t1").2.
Proof. vm_compute. split_and!; reflexivity. Qed.

Lemma AppendBatchesAuthorized_isolated_witness :
  AppendBatchesAuthorized sample_env sample_io orders_broker "orders" 0 [b1] "t2" =
    (orders_broker, Err (ESentinel ErrUnauthorizedTopic)).
Proof.
  destruct (AppendBatchesAuthorized sample_env sample_io orders_broker "orders" 0 [b1] "t2") as [b' r] eqn:E.
  destruct (AppendBatchesAuthorized_isolated sample_env sample_io orders_broker "orders" 0 [b1] "t2" b' r)
    as (_ & _ & _ & _ & H & _).
  - discriminate.
  - exact orders_broker_plain.
  - exact orders_component.
  - exact E.
  - destruct (H orders orders_lookup ltac:(discriminate)) as [H1 H2]. rewrite H1, H2. reflexivity.
Defined.

Lemma FetchAuthorized_isolated_witness :
  (FetchAuthorized sample_sha toy_mac [] no_store orders_broker "orders" 0 0 100 "t2").1 = orders_broker /\
  exists e, fr_data (FetchAuthorized sample_sha toy_mac [] no_store orders_broker "orders" 0 0 100 "t2").2 = Err e.
Proof.
  destruct (FetchAuthorized sample_sha toy_mac [] no_store orders_broker "orders" 0 0 100 "t2") as [b' r] eqn:E.
  destruct (FetchAuthorized_isolated sample_sha toy_mac [] no_store orders_broker "orders" 0 0 100 "t2" b' r) as [H _].
  - discriminate.
  - exact orders_broker_plain.
  - exact E.
  - apply H. discriminate.
Defined.

Lemma produce_then_fetch_witness :
  exists b' sent rest data,
    AppendBatchesAuthorized sample_env sample_io orders_broker "orders" 0 [b1; b2] "t1" =
      (b', Ok (HighWatermark (sample_log FsyncAlways))) /\
    Forall2 same_outside_patch [b1; b2] (sent ++ rest) /\ sent <> [] /\ data = concat sent /\
    FetchAuthorized sample_sha toy_mac [] no_store b' "orders" 0 (HighWatermark (sample_log FsyncAlways)) 1000 "t1" =
      (b', mkFetchResult (HighWatermark (sample_log FsyncAlways) + recs [b1; b2]) (LogStartOffset (sample_log FsyncAlways))
             (Ok (data, HighWatermark (sample_log FsyncAlways)))).
Proof.
  apply (produce_then_fetch sample_sha toy_mac [] sample_env sample_io no_store orders_broker "orders" orders 0
           (sample_log FsyncAlways) 0 sample_batches [b1; b2] "t1" 1000).
  - exact orders_lookup.
  - exact orders_partition.
  - right. reflexivity.
  - apply sample_log_wf.
  - vm_compute. discriminate.
  - discriminate.
  - exact (Forall_cons_2 _ _ _ b1_acceptable (Forall_cons_2 _ _ _ b2_acceptable (Forall_nil_2 _))).
  - vm_compute. reflexivity.
  - reflexivity.
  - repeat split.
  - vm_compute. discriminate.
Defined.

(** The same log after retention removed its first segment, with that segment's
    five records in the archive. *)
Definition trimmed_log : Log := (DeleteSegmentsBefore (fun _ => true) (sample_log FsyncNone) 5).1.1.
Definition archived_batches : list (list byte) := take 2 sample_batches.
Definition archived_entry : SegmentEntry :=
  mkEntry "orders" 0 0 (recs archived_batches) (zlen (concat archived_batches)) (sample_sha (concat archived_batches)) "k0" 9 "t1" "".
Definition archive_broker : Broker :=
  set_archive (set_topics empty_broker
      {["orders" := mkTopic "orders" [(0, trimmed_log)] (mkTopicConfig 1 1 (-1) (-1) 100 "t1")]})
    (Some (mkArchive (mkManifest [archived_entry] ∅ None None) (NewCache ["cache"] 0 ∅))).
Definition object_store : fetchenv := mkFetchEnv 7 (fun _ _ => Ok (Some (concat archived_batches))).

Lemma trimmed_log_wf : exists kept, log_wf 5 kept trimmed_log.
Proof.
  destruct (DeleteSegmentsBefore_spec (fun _ => true) 0 sample_batches (sample_log FsyncNone) 5)
    as (l' & n & gone & kept & E & _ & Hwf & _ & Hls & _); [apply sample_log_wf|reflexivity|].
  exists kept. assert (trimmed_log = l') as El by (unfold trimmed_log; rewrite E; reflexivity).
  assert (LogStartOffset trimmed_log = 5) as H5 by (vm_compute; reflexivity).
  rewrite El in *. rewrite <- Hls, H5 in Hwf. exact Hwf.
Qed.

Lemma archived_chain : chain 0 archived_batches.
Proof.
  destruct (log_wf_chain _ _ _ (sample_log_wf FsyncNone)) as (Hc & _).
  assert (sample_batches = archived_batches ++ drop 2 sample_batches) as E by (symmetry; apply take_drop).
  rewrite E in Hc. apply chain_app in Hc. exact (proj1 Hc).
Qed.


Lemma delete_then_create_empty_witness :
  let b1 := (DeleteTopic sample_env archive_broker "orders").1 in
  let b2 := (CreateTopic sample_env b1 "orders" 2 1).1 in
  (forall t, t <> "orders" -> b_topics b2 !! t = b_topics archive_broker !! t) /\ TenantOfTopic b2 "orders" = "" /\
  (forall p, 0 <= p < Z.max 1 2 -> exists t l, b_topics b2 !! "orders" = Some t /\ Topic_Partition t p = Some l /\
     LogStartOffset l = 0 /\ HighWatermark l = 0) /\
  (forall sha256 mac key fe p off maxBytes data first,
     fr_data (Fetch sha256 mac key fe b2 "orders" p off maxBytes).2 = Ok (data, first) -> data = []).
Proof.
  apply (delete_then_create_empty sample_env sample_env archive_broker
           (DeleteTopic sample_env archive_broker "orders").1 _ "orders" 2 1).
  - apply orders_plain; [|reflexivity]. cbn. rewrite dom_singleton_L. done.
  - etransitivity; [apply surjective_pairing|]. apply f_equal. vm_compute. reflexivity.
  - etransitivity; [apply surjective_pairing|]. apply f_equal. vm_compute. reflexivity.
Defined.
