(* ===== verification/BrokerRecover.v ===== *)
(** * Restarting the broker

    [LoadState] on what a crash leaves of the data directory brings back every
    topic and, in every partition, every batch that was durable. *)

From S2P Require Import Prelude Bytes OsFile RecordBatch Index TimeIndex Segment SegmentFacts Log LogFacts LogRead LogRecover Samples LogProps.
From S2P Require Import Names Offsets Group Acl Manifest Cache Broker BrokerFacts.

#[local] Open Scope Z_scope.

(** ** Partitions in order *)

Lemma seqZ_sorted n : forall m, StronglySorted Z.le (seqZ m (Z.of_nat n)).
Proof.
  induction n as [|n IH]; intros m; [constructor|].
  rewrite seqZ_cons by lia. replace (Z.pred (Z.of_nat (S n))) with (Z.of_nat n) by lia.
  constructor; [apply IH|]. apply Forall_seqZ. lia.
Qed.

Lemma part_le_trans : Transitive part_le.
Proof. intros a b c. unfold part_le. lia. Qed.
Lemma part_le_total : Total part_le.
Proof. intros a b. unfold part_le. lia. Qed.
#[local] Existing Instances part_le_trans part_le_total.

(** Sorting logs whose numbers are [0 .. n-1] puts each at its number. *)
Lemma sorted_positions (ls : list (Z * Log)) n :
  ls.*1 ≡ₚ seqZ 0 (Z.of_nat n) -> (merge_sort part_le ls).*1 = seqZ 0 (Z.of_nat n).
Proof.
  intros Hp. apply (StronglySorted_unique Z.le).
  - apply (StronglySorted_fmap fst part_le Z.le); [by intros ? ?|]. apply (StronglySorted_merge_sort part_le).
  - apply seqZ_sorted.
  - by rewrite (fmap_Permutation fst _ _ (merge_sort_Permutation part_le ls)).
Qed.

Lemma position_number (ls : list (Z * Log)) n i x :
  ls.*1 = seqZ 0 n -> ls !! i = Some x -> x.1 = Z.of_nat i.
Proof.
  intros Hk Hx. assert (ls.*1 !! i = Some x.1) as H by (by rewrite list_lookup_fmap, Hx).
  rewrite Hk in H. apply lookup_seqZ in H as [-> _]. lia.
Qed.

Lemma adopt_partitions_spec open dirs :
  (forall i d, (i, d) ∈ dirs -> exists l, open d = Ok l) ->
  exists ls, adopt_partitions open dirs = Ok ls /\ ls.*1 = dirs.*1 /\
    forall i l, (i, l) ∈ ls -> exists d, (i, d) ∈ dirs /\ open d = Ok l.
Proof.
  induction dirs as [|[i d] dirs IH]; intros H; cbn [adopt_partitions].
  { exists []. split_and!; try done. intros i l Hl. by apply elem_of_nil in Hl. }
  destruct (H i d) as [l El]; [by left|]. rewrite El. cbn [wrap_err mbind res_bind].
  destruct IH as (ls & -> & Hk & Hin); [intros j e Hj; apply (H j e); by right|]. cbn [mbind res_bind].
  exists ((i, l) :: ls). split_and!; [done|by rewrite !fmap_cons, Hk|].
  intros j l' [[= -> ->]|Hj]%elem_of_cons; [exists d; split; [by left|done]|].
  destruct (Hin _ _ Hj) as (d' & ? & ?). exists d'. split; [by right|done].
Qed.

Lemma adopt_topics_spec open c store persisted entries :
  NoDup entries.*1 ->
  (forall name ds, (name, ds) ∈ entries -> exists t, adopt_topic open c store persisted name ds = Ok t) ->
  exists ts, adopt_topics open c store persisted entries = Ok ts /\
    (forall name, is_Some (ts !! name) <-> name ∈ entries.*1) /\
    forall name ds, (name, ds) ∈ entries -> exists t, ts !! name = Some t /\ adopt_topic open c store persisted name ds = Ok t.
Proof.
  induction entries as [|[name ds] entries IH]; intros Hnd H; cbn [adopt_topics].
  { exists ∅. split_and!; try done; [|intros ? ? Hin; by apply elem_of_nil in Hin].
    intros n. rewrite lookup_empty. split; [by intros [? ?]|]. intros Hin. by apply elem_of_nil in Hin. }
  apply NoDup_cons in Hnd as [Hni Hnd].
  destruct (H name ds) as [t Et]; [by left|]. rewrite Et. cbn [mbind res_bind].
  destruct IH as (ts & -> & Hdom & Hin); [done|intros n e He; apply (H n e); by right|]. cbn [mbind res_bind].
  exists (<[name := t]> ts). split_and!; [done| |].
  - intros n. simpl. rewrite elem_of_cons, <- Hdom, lookup_insert_is_Some.
    split; [intros [->|[_ ?]]; auto|]. intros [->|?]; [auto|]. destruct (decide (name = n)); auto.
  - intros n e [[= -> ->]|He]%elem_of_cons; [exists t; by rewrite lookup_insert_eq|].
    destruct (Hin _ _ He) as (t' & Ht' & ?). exists t'. rewrite lookup_insert_ne; [done|].
    intros <-. apply Hni. apply list_elem_of_fmap. by exists (name, e).
Qed.

(** ** What is on disk *)

Record topic_wf (t : Topic) : Prop := {
  tw_numbers : (t_partitions t).*1 = seqZ 0 (Z.of_nat (length (t_partitions t)));
  tw_count : NumPartitions (t_cfg t) = zlen (t_partitions t);
  tw_logs : forall i l, (i, l) ∈ t_partitions t -> exists start bs, 0 <= start /\ log_wf start bs l /\ sealed_durable l
}.

(** The data directory after a crash: only directories of topics and partitions
    the broker created, and in each what is left of the segment files.  Nothing
    is said of topics.json. *)
Record crash_image (b : Broker) (d : DataDir) : Prop := {
  ci_dom : forall name, is_Some (dd_topics d !! name) -> is_Some (b_topics b !! name);
  ci_parts : forall name t ds, b_topics b !! name = Some t -> dd_topics d !! name = Some ds ->
    (forall i, is_Some (ds !! i) -> i ∈ (t_partitions t).*1) /\
    forall i l dir, (i, l) ∈ t_partitions t -> ds !! i = Some dir -> crash_dir l dir
}.

(** What the restart needs beyond the synced bytes, none of which the program
    fsyncs: topics.json as last written (its own loss is [topics_json_power_loss]
    of MetaStore.v), a directory under its own name for every topic and every
    partition, the names of the segment files, and no index file that outlives
    its log file. *)
Record names_kept (b : Broker) (d : DataDir) : Prop := {
  nk_json : dd_topicsjson d = Some (t_cfg <$> b_topics b);
  nk_dom : forall name, is_Some (b_topics b !! name) -> is_Some (dd_topics d !! name);
  nk_parts : forall name t ds, b_topics b !! name = Some t -> dd_topics d !! name = Some ds ->
    (forall i, i ∈ (t_partitions t).*1 -> is_Some (ds !! i)) /\
    forall i l dir, (i, l) ∈ t_partitions t -> ds !! i = Some dir -> entries_kept l dir /\ index_behind l dir
}.

Section recover.
Context (wio : Z -> option Z * option Z) (now : Z) (store : Config) (guard : option bool).

(** A topic comes back with its settings, each partition at its number. *)
Lemma adopt_topic_spec c persisted name t ds :
  topic_wf t -> persisted !! name = Some (t_cfg t) ->
  (forall i, is_Some (ds !! i) <-> i ∈ (t_partitions t).*1) ->
  (forall i l dir, (i, l) ∈ t_partitions t -> ds !! i = Some dir -> crash_dir l dir /\ entries_kept l dir /\ index_behind l dir) ->
  exists t', adopt_topic (OpenLog wio now store guard) c store persisted name ds = Ok t' /\ t_cfg t' = t_cfg t /\
    forall p l start bs, Topic_Partition t p = Some l -> log_wf start bs l -> 0 <= start -> sealed_durable l ->
      exists l' kept lost, Topic_Partition t' p = Some l' /\ bs = kept ++ lost /\ log_wf start kept l' /\
        LogStartOffset l' = start /\
          (forall b rest, lost = b :: rest -> exists s a, last (segments l) = Some s /\
            fdata (logFile s) = concat a ++ concat lost /\ fsynced (logFile s) < zlen (concat a) + zlen b).
Proof.
  intros [Hnum Hcnt Hlogs] Hper Hdom Hcrash.
  assert (forall i d, (i, d) ∈ map_to_list ds -> exists l, (i, l) ∈ t_partitions t /\
    crash_dir l d /\ entries_kept l d /\ index_behind l d) as Hdir.
  { intros i d Hd%elem_of_map_to_list.
    pose proof (proj1 (Hdom i) (mk_is_Some _ _ Hd)) as ([i' l] & -> & Hl)%list_elem_of_fmap.
    exists l. split; [done|]. by eapply Hcrash. }
  destruct (adopt_partitions_spec (OpenLog wio now store guard) (map_to_list ds)) as (ls & Els & Hk & Hin).
  { intros i d Hd. destruct (Hdir i d Hd) as (l & Hl & Hc & He & Hi). destruct (Hlogs i l Hl) as (st & bs & H0 & Hw & Hs).
    destruct (OpenLog_crash_spec wio now store guard st bs l d Hw H0 Hs Hc He Hi) as (l' & _ & _ & El & _). eauto. }
  assert (ls.*1 ≡ₚ seqZ 0 (Z.of_nat (length (t_partitions t)))) as Hperm.
  { rewrite Hk. apply NoDup_Permutation; [apply NoDup_fst_map_to_list|apply NoDup_seqZ|].
    intros i. rewrite <- Hnum, <- Hdom. rewrite list_elem_of_fmap. split.
    - intros ([j d] & -> & Hd%elem_of_map_to_list). by eexists.
    - intros [d Hd]. exists (i, d). split; [done|]. by apply elem_of_map_to_list. }
  pose proof (sorted_positions ls _ Hperm) as Hpos.
  assert (length (merge_sort part_le ls) = length (t_partitions t)) as Hlen.
  { apply (f_equal length) in Hpos. rewrite length_fmap, length_seqZ in Hpos. lia. }
  unfold adopt_topic. rewrite Els, Hper. cbn [mbind res_bind from_option id].
  assert ((if NumPartitions (t_cfg t) =? 0 then set_NumPartitions (t_cfg t) (zlen (merge_sort part_le ls)) else t_cfg t) = t_cfg t) as ->.
  { destruct (Z.eqb_spec (NumPartitions (t_cfg t)) 0) as [E|]; [|done]. unfold zlen in *. rewrite Hlen, <- Hcnt.
    by destruct (t_cfg t). }
  eexists. split; [done|]. split; [done|]. intros p l start bs Hp Hw H0 Hs. pose proof (Topic_Partition_range _ _ _ Hp) as Hr.
  destruct (lookup_lt_is_Some_2 (merge_sort part_le ls) (Z.to_nat p)) as [[j l'] Hl']; [unfold zlen in Hr; lia|].
  pose proof (position_number _ _ _ _ Hpos Hl') as Hj. cbn in Hj. rewrite Z2Nat.id in Hj by lia. subst j.
  assert ((p, l') ∈ ls) as Hin' by (rewrite <- (merge_sort_Permutation part_le ls); by eapply list_elem_of_lookup_2).
  destruct (Hin _ _ Hin') as (d & Hd%elem_of_map_to_list & El').
  assert ((p, l) ∈ t_partitions t) as Hpl.
  { unfold Topic_Partition in Hp. destruct (_ || _); [done|]. apply fmap_Some in Hp as ([i x] & Hx & ->).
    pose proof (position_number _ _ _ _ Hnum Hx) as Hi. cbn in Hi. rewrite Z2Nat.id in Hi by lia. subst i.
    by eapply list_elem_of_lookup_2. }
  destruct (Hcrash _ _ _ Hpl Hd) as (Hc & He & Hi).
  destruct (OpenLog_crash_spec wio now store guard start bs l d Hw H0 Hs Hc He Hi)
    as (l2 & kept & lost & El2 & Hbs & Hw' & Hst & _ & _ & Hlost).
  rewrite El' in El2. injection El2 as <-. exists l', kept, lost. split_and!; try done.
  unfold Topic_Partition. cbn [t_partitions]. unfold zlen in *. rewrite Hlen, Z.geb_leb.
  rewrite (proj2 (Z.ltb_ge _ _)), (proj2 (Z.leb_gt _ _)), Hl' by lia. done.
Qed.

(** C5: A restart after a machine crash brings the broker back: every topic
    returns under its name with its settings, owner included, every partition at
    its number, and in every partition the surviving batches are a prefix of what
    was stored, at the same offsets; the first batch that is missing, if one is,
    was not completely synced when the machine stopped, so every batch that was
    is back.  (The sealed segments are synced, as rolling leaves them.)  [crash_image] lets the crash cut every file anywhere behind its
    synced bytes.  [names_kept] is the proviso: topics.json is left as last
    written, the directory entries of topics, partitions and segments are left
    (the program fsyncs no directory, see [directory_entry_lost] and
    [topics_json_power_loss]) and no index file outlives its log file
    ([stale_index_misleads]); the groups file is readable. *)
Theorem LoadState_recovers c b d offsets :
  (forall name t, b_topics b !! name = Some t -> topic_wf t) -> crash_image b d -> names_kept b d ->
  NewOffsetStore (dd_groups d) = Ok offsets ->
  exists b', LoadState wio now c store guard d = Ok b' /\
    (forall name, is_Some (b_topics b' !! name) <-> is_Some (b_topics b !! name)) /\
    forall name t, b_topics b !! name = Some t -> exists t', b_topics b' !! name = Some t' /\ t_cfg t' = t_cfg t /\
      forall p l start bs, Topic_Partition t p = Some l -> log_wf start bs l -> 0 <= start -> sealed_durable l ->
        exists l' kept lost, Topic_Partition t' p = Some l' /\ bs = kept ++ lost /\ log_wf start kept l' /\
          LogStartOffset l' = start /\
          (forall b rest, lost = b :: rest -> exists s a, last (segments l) = Some s /\
            fdata (logFile s) = concat a ++ concat lost /\ fsynced (logFile s) < zlen (concat a) + zlen b).
Proof.
  intros Hwf [Hdom1 Hparts1] [Hj Hdom2 Hparts2] Hoff. unfold LoadState. rewrite Hj, Hoff. cbn [from_option id].
  set (c' := match dd_clusterID d with Some _ => _ | None => _ end). clearbody c'.
  assert (forall name t ds, b_topics b !! name = Some t -> dd_topics d !! name = Some ds ->
    exists t', adopt_topic (OpenLog wio now store guard) c' store (t_cfg <$> b_topics b) name ds = Ok t' /\ t_cfg t' = t_cfg t /\
      forall p l start bs, Topic_Partition t p = Some l -> log_wf start bs l -> 0 <= start -> sealed_durable l ->
        exists l' kept lost, Topic_Partition t' p = Some l' /\ bs = kept ++ lost /\ log_wf start kept l' /\
          LogStartOffset l' = start /\
          (forall b rest, lost = b :: rest -> exists s a, last (segments l) = Some s /\
            fdata (logFile s) = concat a ++ concat lost /\ fsynced (logFile s) < zlen (concat a) + zlen b)) as Htopic.
  { intros name t ds Ht Hds. destruct (Hparts1 _ _ _ Ht Hds) as [Hp1 Hc]. destruct (Hparts2 _ _ _ Ht Hds) as [Hp2 Hk].
    apply adopt_topic_spec; [by eapply Hwf|by rewrite lookup_fmap, Ht|by split; auto|].
    intros i l dir Hi Hdir. split; [by eapply Hc|by eapply Hk]. }
  assert (forall name, is_Some (dd_topics d !! name) <-> is_Some (b_topics b !! name)) as Hdom by (by split; auto).
  destruct (adopt_topics_spec (OpenLog wio now store guard) c' store (t_cfg <$> b_topics b) (map_to_list (dd_topics d)))
    as (ts & Ets & Htd & Hts).
  - apply NoDup_fst_map_to_list.
  - intros name ds Hds%elem_of_map_to_list. destruct (proj1 (Hdom name) (mk_is_Some _ _ Hds)) as [t Ht].
    destruct (Htopic _ _ _ Ht Hds) as (t' & ? & _). eauto.
  - rewrite Ets. cbn [mbind res_bind]. eexists. split; [done|]. cbn [b_topics]. split.
    + intros name. rewrite Htd, <- Hdom, list_elem_of_fmap. split.
      * intros ([n ds] & -> & Hds%elem_of_map_to_list). by eexists.
      * intros [ds Hds]. exists (name, ds). split; [done|]. by apply elem_of_map_to_list.
    + intros name t Ht. destruct (proj2 (Hdom name) (mk_is_Some _ _ Ht)) as [ds Hds].
      destruct (Htopic _ _ _ Ht Hds) as (t' & Et' & Hcfg & Hp).
      destruct (Hts name ds) as (t2 & Ht2 & Et2); [by apply elem_of_map_to_list|].
      exists t2. rewrite Et' in Et2. injection Et2 as <-. by split_and!.
Qed.
End recover.

(** ** A concrete restart *)

#[local] Opaque sample_log sample_dir.

Definition crashed_topic : Topic := mkTopic "orders" [(0, sample_log FsyncAlways)] (mkTopicConfig 1 1 (-1) (-1) 100 "t1").
Definition crashed_broker : Broker :=
  mkBroker (mkBrokerConfig 1 "c1" "localhost" 9092 4194304 true 1 1) (sample_cfg FsyncAlways) None
    {["orders" := crashed_topic]} None ∅ (NewGroupCoordinator (mkStore ∅ ∅)) (mkAcl ∅ None) None.
Definition left_on_disk : DataDir :=
  mkDataDir (Some "c1") (Some {["orders" := t_cfg crashed_topic]}) {["orders" := {[0 := sample_dir FsyncAlways]}]} [] None.

Lemma crashed_topic_wf name t : b_topics crashed_broker !! name = Some t -> topic_wf t.
Proof.
  intros H. cbn in H. apply lookup_singleton_Some in H as [_ <-]. split; [reflexivity|reflexivity|].
  cbn. intros i l Hin. apply list_elem_of_singleton in Hin. apply pair_eq in Hin as [-> ->].
  exists 0, sample_batches. split; [lia|]. split; [apply sample_log_wf|exact sample_sealed_durable].
Qed.

Lemma crashed_image : crash_image crashed_broker left_on_disk.
Proof.
  split.
  - intros name. cbn. by rewrite !lookup_singleton_is_Some.
  - intros name t ds Ht Hds. cbn in Ht, Hds.
    apply lookup_singleton_Some in Ht as [_ <-]. apply lookup_singleton_Some in Hds as [_ <-]. split.
    + intros i. rewrite lookup_singleton_is_Some. cbn. rewrite list_elem_of_singleton. done.
    + intros i l dir Hin Hd. cbn in Hin. apply list_elem_of_singleton in Hin. apply pair_eq in Hin as [-> ->].
      apply lookup_singleton_Some in Hd as [_ <-]. exact sample_dir_crash.
Qed.

Lemma crashed_names : names_kept crashed_broker left_on_disk.
Proof.
  split.
  - cbn. by rewrite map_fmap_singleton.
  - intros name. cbn. by rewrite !lookup_singleton_is_Some.
  - intros name t ds Ht Hds. cbn in Ht, Hds.
    apply lookup_singleton_Some in Ht as [_ <-]. apply lookup_singleton_Some in Hds as [_ <-]. split.
    + intros i. rewrite lookup_singleton_is_Some. cbn. rewrite list_elem_of_singleton. done.
    + intros i l dir Hin Hd. cbn in Hin. apply list_elem_of_singleton in Hin. apply pair_eq in Hin as [-> ->].
      apply lookup_singleton_Some in Hd as [_ <-]. split; [exact sample_dir_kept|exact sample_dir_behind].
Qed.

Lemma LoadState_recovers_witness :
  exists b', LoadState (fun _ => (None, None)) 0 (b_cfg crashed_broker) (sample_cfg FsyncAlways) None left_on_disk = Ok b'.
Proof.
  destruct (LoadState_recovers (fun _ => (None, None)) 0 (sample_cfg FsyncAlways) None (b_cfg crashed_broker) crashed_broker
              left_on_disk (mkStore ∅ ∅)) as (b' & E & _).
  - exact crashed_topic_wf.
  - exact crashed_image.
  - exact crashed_names.
  - reflexivity.
  - exists b'. exact E.
Defined.
