(* ===== verification/MetaStore.v ===== *)
(** * The metadata files (internal/broker/metadata.go)

    topics.json and cluster.json in a directory, replaced by writing a temporary
    file and renaming it.  A save is the sequence of its system calls, run by a
    goroutine of its own against a directory of names and the files behind them: no
    lock is held around a save, so the calls of two saves may interleave.  Saves that
    do not overlap replace the value or leave it, also when the process is killed half
    way, which is why the broker's model may keep the value of topics.json; two that
    overlap can leave a file that does not parse.  encoding/json is the class
    [MetaJson]. *)

From S2P Require Import Prelude Bytes OsFile RecordBatch Index TimeIndex Segment SegmentFacts Log LogFacts Names Offsets Group Acl Manifest Cache Broker.

#[local] Open Scope Z_scope.

Record clusterMetadata := mkCluster { cm_ClusterID : string; cm_BrokerID : Z; cm_Advertised : string; cm_Format : Z }.
Record topicsMetadata := mkTopicsMeta { tm_Format : Z; tm_Topics : option (gmap string TopicConfig) }.   (* a nil map is null *)

Definition metadataFormat : Z := 1.

Class MetaJson := {
  marshal_cluster : clusterMetadata -> option (list byte);
  unmarshal_cluster : list byte -> option clusterMetadata;
  marshal_topics : topicsMetadata -> option (list byte);
  unmarshal_topics : list byte -> option topicsMetadata
}.

(** Strings of ASCII characters are encoded without loss. *)
Definition ascii_text (s : string) : Prop := forall c, string_In c s -> code c < 128.
Definition ascii_topics (ts : gmap string TopicConfig) : Prop :=
  forall n t, ts !! n = Some t -> ascii_text n /\ ascii_text (OwnerTenantID t).

(** An encoded object decodes to itself; cut short, it does not decode. *)
Class MetaJsonLaws `{MetaJson} := {
  topics_roundtrip : forall f ts raw, ascii_topics ts -> marshal_topics (mkTopicsMeta f (Some ts)) = Some raw ->
    unmarshal_topics raw = Some (mkTopicsMeta f (Some ts));
  topics_truncated : forall t raw n, marshal_topics t = Some raw -> (n < length raw)%nat -> unmarshal_topics (take n raw) = None
}.

(** ** The directory *)

(** Names, and the files behind them by number. *)
Record mdir := mkDirectory { md_names : gmap string nat; md_files : list file }.
Definition no_metadata : mdir := mkDirectory ∅ [].

Definition md_data (d : mdir) (name : string) : option (list byte) :=
  i ← md_names d !! name; fdata <$> md_files d !! i.

(** [open] with [O_CREATE|O_TRUNC]: the file behind the name is emptied, whoever
    else has it open. *)
Definition open_trunc (d : mdir) (path : string) : mdir * nat :=
  match md_names d !! path with
  | Some i => (mkDirectory (md_names d) (<[i := mkFile [] 0 0]> (md_files d)), i)
  | None => (mkDirectory (<[path := length (md_files d)]> (md_names d)) (md_files d ++ [mkFile [] 0 0]), length (md_files d))
  end.

(** A write through a handle on file [i] at [pos]; nothing is synced. *)
Definition write_file (d : mdir) (i : nat) (pos : Z) (bytes : list byte) : mdir :=
  mkDirectory (md_names d) (alter (fun f => mkFile (write_at (fdata f) pos bytes) (pos + zlen bytes) 0) i (md_files d)).

Definition rename_file (d : mdir) (old new : string) : option mdir :=
  i ← md_names d !! old; Some (mkDirectory (<[new := i]> (delete old (md_names d))) (md_files d)).

(** ** A save and its system calls *)

Inductive call := COpen (path : string) | CWrite (bytes : list byte) | CRename (old new : string).

(** A goroutine in a save: the calls it still makes and its open handle. *)
Record saver := mkSaver { sr_todo : list call; sr_fd : option (nat * Z) }.

(** The next call, which succeeds; [os.WriteFile] may take several writes, and this
    one writes [k] bytes.  [None]: the call fails. *)
Definition sys_call (k : nat) (d : mdir) (s : saver) : option (mdir * saver) :=
  match sr_todo s, sr_fd s with
  | COpen path :: todo, _ => let '(d, i) := open_trunc d path in Some (d, mkSaver todo (Some (i, 0)))
  | CWrite raw :: todo, Some (i, pos) =>
      Some (write_file d i pos (take k raw),
            mkSaver (if bool_decide (drop k raw = []) then todo else CWrite (drop k raw) :: todo) (Some (i, pos + zlen (take k raw))))
  | CRename old new :: todo, fd => d ← rename_file d old new; Some (d, mkSaver todo fd)
  | _, _ => None
  end.

(** How an undisturbed save goes: the open, the write (an error after some bytes), the
    rename. *)
Record save_env := mkSave { sa_open : bool; sa_write : option nat; sa_rename : bool }.

Fixpoint run_calls (e : save_env) (d : mdir) (fd : option (nat * Z)) (todo : list call) : mdir * res unit :=
  match todo with
  | [] => (d, Ok tt)
  | c :: rest =>
      let goes := match c with COpen _ => sa_open e | CWrite _ => bool_decide (sa_write e = None) | CRename _ _ => sa_rename e end in
      match goes, c, fd with
      | true, CWrite raw, _ =>
          match sys_call (length raw) d (mkSaver todo fd) with Some (d, s) => run_calls e d (sr_fd s) rest | None => (d, Err (EMsg "write")) end
      | true, _, _ =>
          match sys_call 0 d (mkSaver todo fd) with Some (d, s) => run_calls e d (sr_fd s) rest | None => (d, Err (EMsg "rename")) end
      | false, CWrite raw, Some (i, pos) => (write_file d i pos (take (default 0%nat (sa_write e)) raw), Err (EMsg "write"))
      | false, _, _ => (d, Err (EMsg "io"))
      end
  end.

Section store.
Context `{MetaJson}.

(** [data] is the encoded value, or the failure to encode it. *)
Definition MetadataStore_atomicWrite (name : string) (data : option (list byte)) : res (list call) :=
  match data with
  | None => Err (EWrap "marshal" (EMsg name))
  | Some raw =>
      let tmp := name +:+ ".tmp" in
      Ok [COpen tmp; CWrite raw; CRename tmp name]
  end.

Definition run_save (e : save_env) (d : mdir) (calls : res (list call)) : mdir * res unit :=
  match calls with
  | Ok calls => run_calls e d None calls
  | Err er => (d, Err er)
  | _ => (d, Panic)
  end.

(** [readable]: the file can be read when it is there. *)
Definition ReadFile (readable : bool) (d : mdir) (name : string) : res (option (list byte)) :=
  match md_data d name with
  | None => Ok None
  | Some raw => if readable then Ok (Some raw) else Err (EMsg "read")
  end.

Definition LoadCluster (readable : bool) (d : mdir) : res (option clusterMetadata) :=
  raw ← ReadFile readable d "cluster.json";
  match raw with
  | None => Ok None
  | Some raw => match unmarshal_cluster raw with Some c => Ok (Some c) | None => Err (EWrap "parse cluster.json" (EMsg "json")) end
  end.

Definition SaveCluster (c : clusterMetadata) : res (list call) :=
  MetadataStore_atomicWrite "cluster.json" (marshal_cluster (mkCluster (cm_ClusterID c) (cm_BrokerID c) (cm_Advertised c) metadataFormat)).

Definition LoadTopics (readable : bool) (d : mdir) : res (gmap string TopicConfig) :=
  raw ← ReadFile readable d "topics.json";
  match raw with
  | None => Ok ∅
  | Some raw => match unmarshal_topics raw with Some tm => Ok (default ∅ (tm_Topics tm)) | None => Err (EWrap "parse topics.json" (EMsg "json")) end
  end.

Definition SaveTopics (topics : gmap string TopicConfig) : res (list call) :=
  MetadataStore_atomicWrite "topics.json" (marshal_topics (mkTopicsMeta metadataFormat (Some topics))).

(** ** Saves in a running process *)

(** What a goroutine saves. *)
Inductive job := JTopics (ts : gmap string TopicConfig) | JCluster (c : clusterMetadata).
Definition job_calls (j : job) : res (list call) := match j with JTopics ts => SaveTopics ts | JCluster c => SaveCluster c end.

(** The directory, the saves under way, the topics of the last save that reported
    success, and those of the saves begun since. *)
Record meta_state := mkMeta {
  me_dir : mdir;
  me_savers : gmap nat (job * saver);
  me_acked : gmap string TopicConfig;
  me_since : list (gmap string TopicConfig)
}.

(** The goroutine [g] begins a save, makes its next call, gives up at a call that fails;
    the process is killed.  With [serial] a save begins only when none is under way. *)
Inductive meta_step (serial : bool) : meta_state -> meta_state -> Prop :=
| MStart g j calls d savers acked since :
    savers !! g = None -> (serial = true -> savers = ∅) -> job_calls j = Ok calls ->
    match j with JTopics ts => ascii_topics ts | JCluster _ => True end ->
    meta_step serial (mkMeta d savers acked since)
      (mkMeta d (<[g := (j, mkSaver calls None)]> savers) acked (match j with JTopics ts => ts :: since | JCluster _ => since end))
| MCall g j s k d savers acked since d' s' :
    savers !! g = Some (j, s) -> sys_call k d s = Some (d', s') -> sr_todo s' <> [] ->
    meta_step serial (mkMeta d savers acked since) (mkMeta d' (<[g := (j, s')]> savers) acked since)
| MDone g j s k d savers acked since d' s' :
    savers !! g = Some (j, s) -> sys_call k d s = Some (d', s') -> sr_todo s' = [] ->
    meta_step serial (mkMeta d savers acked since)
      (mkMeta d' (delete g savers) (match j with JTopics ts => ts | JCluster _ => acked end) (match j with JTopics _ => [] | JCluster _ => since end))
| MFail g d savers acked since :
    meta_step serial (mkMeta d savers acked since) (mkMeta d (delete g savers) acked since)
| MKill d savers acked since :
    meta_step serial (mkMeta d savers acked since) (mkMeta d ∅ acked since).
End store.

(** ** Files behind names *)

(** Every name has a file, and a file of its own. *)
Record mdir_wf (d : mdir) : Prop := {
  mw_file : forall n i, md_names d !! n = Some i -> (i < length (md_files d))%nat;
  mw_inj : forall n n' i, md_names d !! n = Some i -> md_names d !! n' = Some i -> n = n'
}.

Lemma tmp_ne name : name +:+ ".tmp" <> name.
Proof. intros E. apply (f_equal String.length) in E. rewrite string_length_app in E. cbn in E. lia. Qed.

Lemma write_at_prefix (raw : list byte) n k :
  write_at (take n raw) (Z.of_nat (length (take n raw))) (take k (drop n raw)) = take (n + k) raw.
Proof.
  change (Z.of_nat (length (take n raw))) with (zlen (take n raw)). rewrite write_at_end. by rewrite take_take_drop.
Qed.

(** Opening for writing empties that file and changes no other. *)
Lemma open_trunc_spec d path d' i : mdir_wf d -> open_trunc d path = (d', i) ->
  mdir_wf d' /\ md_names d' !! path = Some i /\ fdata <$> md_files d' !! i = Some [] /\
  forall n, n <> path -> md_names d' !! n = md_names d !! n /\ md_data d' n = md_data d n.
Proof.
  intros [Hf Hi]. unfold open_trunc, md_data. destruct (md_names d !! path) as [j|] eqn:Ep; intros [= <- <-]; cbn.
  - pose proof (Hf _ _ Ep) as Hl. split_and!; [split; cbn; [intros n i; rewrite length_insert; apply Hf|done]|done|by rewrite list_lookup_insert_eq|].
    intros n Hn. split; [done|]. destruct (md_names d !! n) as [k|] eqn:En; [|done]. cbn.
    rewrite list_lookup_insert_ne; [done|]. intros ->. by apply Hn, (Hi _ _ k).
  - split_and!.
    + split; cbn.
      * intros n i. rewrite length_app. cbn. destruct (decide (n = path)) as [->|].
        -- rewrite lookup_insert_eq. intros [= <-]. lia.
        -- rewrite lookup_insert_ne by done. intros ?%Hf. lia.
      * intros n n' i. destruct (decide (n = path)) as [->|], (decide (n' = path)) as [->|];
          rewrite ?lookup_insert_eq, ?lookup_insert_ne by done; try done.
        -- intros [= <-] ?%Hf. lia.
        -- intros ?%Hf [= <-]. lia.
        -- apply Hi.
    + apply lookup_insert_eq.
    + by rewrite lookup_app_r, Nat.sub_diag by lia.
    + intros n Hn. rewrite lookup_insert_ne by done. split; [done|]. destruct (md_names d !! n) as [k|] eqn:En; [|done]. cbn.
      rewrite lookup_app_l by (by eapply Hf). done.
Qed.

Lemma write_file_spec d path i pos bytes : mdir_wf d -> md_names d !! path = Some i ->
  let d' := write_file d i pos bytes in
  mdir_wf d' /\ md_names d' = md_names d /\
  fdata <$> md_files d' !! i = (fun x => write_at x pos bytes) <$> (fdata <$> md_files d !! i) /\
  forall n, n <> path -> md_data d' n = md_data d n.
Proof.
  intros [Hf Hi] Hp. unfold write_file, md_data. cbn. split_and!.
  - split; cbn; [intros n k; rewrite length_alter; apply Hf|done].
  - done.
  - rewrite list_lookup_alter_eq. by destruct (md_files d !! i).
  - intros n Hn. destruct (md_names d !! n) as [k|] eqn:En; [|done]. cbn. rewrite list_lookup_alter_ne; [done|].
    intros ->. by apply Hn, (Hi _ _ k).
Qed.

Lemma rename_file_spec d old new d' i : mdir_wf d -> old <> new -> md_names d !! old = Some i -> rename_file d old new = Some d' ->
  mdir_wf d' /\ md_data d' new = md_data d old /\ forall n, n <> old -> n <> new -> md_data d' n = md_data d n.
Proof.
  intros [Hf Hi] Hne Ho. unfold rename_file, md_data. rewrite Ho. cbn. intros [= <-]. cbn. split_and!.
  - split; cbn.
    + intros n k. destruct (decide (n = new)) as [->|]; [rewrite lookup_insert_eq; intros [= <-]; by eapply Hf|].
      rewrite lookup_insert_ne by done. intros [_ ?]%lookup_delete_Some. by eapply Hf.
    + intros n n' k. destruct (decide (n = new)) as [->|], (decide (n' = new)) as [->|];
        rewrite ?lookup_insert_eq, ?lookup_insert_ne by done; try done.
      * intros [= <-] [? H]%lookup_delete_Some. by destruct (Hi _ _ _ Ho H).
      * intros [? H]%lookup_delete_Some [= <-]. by destruct (Hi _ _ _ Ho H).
      * intros [_ ?]%lookup_delete_Some [_ ?]%lookup_delete_Some. by eapply Hi.
  - by rewrite lookup_insert_eq.
  - intros n H1 H2. by rewrite lookup_insert_ne, lookup_delete_ne.
Qed.

(** ** One save *)

(** Where a save is: nothing done yet; the handle is on the temporary file, which holds
    the part written so far. *)
Definition stage (d : mdir) (name : string) (raw : list byte) (s : saver) : Prop :=
  let tmp := name +:+ ".tmp" in
  s = mkSaver [COpen tmp; CWrite raw; CRename tmp name] None \/
  exists i n, md_names d !! tmp = Some i /\ fdata <$> md_files d !! i = Some (take n raw) /\
    (s = mkSaver [CWrite (drop n raw); CRename tmp name] (Some (i, zlen (take n raw))) \/
     (length raw <= n)%nat /\ s = mkSaver [CRename tmp name] (Some (i, zlen (take n raw)))).

(** Every call before the last keeps what is behind the names but the temporary one; the
    last puts the whole encoding behind the name. *)
Lemma sys_call_stage d name raw s k d' s' :
  mdir_wf d -> stage d name raw s -> sys_call k d s = Some (d', s') ->
  mdir_wf d' /\ (forall n, n <> name -> n <> name +:+ ".tmp" -> md_data d' n = md_data d n) /\
  (if decide (sr_todo s' = []) then md_data d' name = Some raw else stage d' name raw s' /\ md_data d' name = md_data d name).
Proof.
  intros Hwf Hst. pose proof (tmp_ne name) as Ht. unfold stage in *. cbn zeta in *. set (tmp := name +:+ ".tmp") in *.
  destruct Hst as [->|(i & n & Hi & Hd & [->|[Hn ->]])]; unfold sys_call; cbn [sr_todo sr_fd].
  - destruct (open_trunc d tmp) as [d1 i] eqn:E. apply open_trunc_spec in E as (Hwf1 & Hi & Hd & Ho); [|done].
    intros [= <- <-]. split_and!; [done|intros n _ Hn; by apply Ho|]. cbn. split; [|by apply Ho].
    right. exists i, 0%nat. split_and!; [done|done|by left].
  - intros [= <- <-]. pose proof (write_file_spec d tmp i (zlen (take n raw)) (take k (drop n raw)) Hwf Hi) as (Hwf1 & Hnm & Hd1 & Ho).
    split_and!; [done|intros x _ Hx; by apply Ho|].
    rewrite Hd in Hd1. cbn in Hd1. change (zlen (take n raw)) with (Z.of_nat (length (take n raw))) in Hd1 at 2. rewrite write_at_prefix in Hd1.
    assert (zlen (take n raw) + zlen (take k (drop n raw)) = zlen (take (n + k) raw)) as Hz by (by rewrite <- take_take_drop, zlen_app).
    rewrite Hz, drop_drop. cbn [sr_todo]. destruct (bool_decide_reflect (drop (n + k) raw = [])) as [Hnil|Hnil];
      (rewrite decide_False by done); (split; [|by apply Ho]).
    + right. exists i, (n + k)%nat. rewrite Hnm. split_and!; [done|done|]. right. split; [|done].
      apply (f_equal length) in Hnil. rewrite length_drop in Hnil. simpl in Hnil. lia.
    + right. exists i, (n + k)%nat. rewrite Hnm. split_and!; [done|done|by left].
  - destruct (rename_file d tmp name) as [d1|] eqn:E; [|done]. cbn. intros [= <- <-].
    destruct (rename_file_spec _ _ _ _ _ Hwf Ht Hi E) as (Hwf1 & Hnew & Ho). split_and!; [done|intros x ? ?; by apply Ho|].
    cbn. rewrite Hnew. unfold md_data. rewrite Hi. cbn. by rewrite Hd, take_ge.
Qed.

(** A whole save with nothing in between: the file is replaced or left. *)
Lemma run_save_spec `{MetaJson} e d name data d' r : mdir_wf d -> run_save e d (MetadataStore_atomicWrite name data) = (d', r) ->
  mdir_wf d' /\ (forall n, n <> name -> n <> name +:+ ".tmp" -> md_data d' n = md_data d n) /\
  (r = Ok tt -> exists raw i f, data = Some raw /\ md_names d' !! name = Some i /\ md_files d' !! i = Some f /\ fdata f = raw /\ fsynced f = 0) /\
  (r <> Ok tt -> md_data d' name = md_data d name).
Proof.
  intros Hwf. unfold run_save, MetadataStore_atomicWrite. destruct data as [raw|]; [|intros [= <- <-]; by split_and!].
  pose proof (tmp_ne name) as Ht. cbn zeta. set (tmp := name +:+ ".tmp") in *. cbn [run_calls].
  destruct (sa_open e); [|intros [= <- <-]; by split_and!]. cbn [sys_call sr_todo sr_fd].
  destruct (open_trunc d tmp) as [d1 i] eqn:E. apply open_trunc_spec in E as (Hwf1 & Hi & Hd & Ho); [|done]. cbn [sr_fd].
  assert (forall n, n <> tmp -> md_data d1 n = md_data d n) as Ho1 by (intros n Hn; by apply Ho).
  destruct (bool_decide (sa_write e = None)); cbn [sys_call sr_todo sr_fd].
  2:{ intros [= <- <-]. pose proof (write_file_spec d1 tmp i 0 (take (default 0%nat (sa_write e)) raw) Hwf1 Hi) as (Hwf2 & _ & _ & Ho2).
      split_and!; [done|intros n _ Hn; by rewrite Ho2, Ho1|done|intros _; by rewrite Ho2, Ho1]. }
  pose proof (write_file_spec d1 tmp i 0 (take (length raw) raw) Hwf1 Hi) as (Hwf2 & Hnm & Hd2 & Ho2).
  assert (exists f, md_files (write_file d1 i 0 (take (length raw) raw)) !! i = Some f /\ fdata f = raw /\ fsynced f = 0) as (f & Hf & Hfd & Hfs).
  { cbn. rewrite list_lookup_alter_eq. destruct (md_files d1 !! i) as [f0|]; [|done]. cbn in Hd |- *. injection Hd as Hd.
    eexists. split; [done|]. cbn. rewrite Hd, firstn_all. split; [|done]. apply (write_at_end [] raw). }
  set (d2 := write_file d1 i 0 _) in *. clearbody d2.
  destruct (sa_rename e).
  2:{ intros [= <- <-]. split_and!; [done|intros n _ Hn; by rewrite Ho2, Ho1|done|intros _; by rewrite Ho2, Ho1]. }
  rewrite <- Hnm in Hi. destruct (rename_file d2 tmp name) as [d3|] eqn:E3; [|unfold rename_file in E3; by rewrite Hi in E3]. cbn.
  intros [= <- <-]. destruct (rename_file_spec _ _ _ _ _ Hwf2 Ht Hi E3) as (Hwf3 & _ & Ho3).
  split_and!; [done|intros n H1 H2; by rewrite Ho3, Ho2, Ho1| |done].
  intros _. exists raw, i, f. unfold rename_file in E3. rewrite Hi in E3. injection E3 as <-. cbn. by rewrite lookup_insert_eq.
Qed.

(** ** Histories *)

Section history.
Context `{MetaJsonLaws}.

Lemma LoadTopics_same d d' : md_data d' "topics.json" = md_data d "topics.json" -> LoadTopics true d' = LoadTopics true d.
Proof. intros E. unfold LoadTopics, ReadFile. by rewrite E. Qed.

Lemma LoadTopics_saved d ts raw : ascii_topics ts -> marshal_topics (mkTopicsMeta metadataFormat (Some ts)) = Some raw ->
  md_data d "topics.json" = Some raw -> LoadTopics true d = Ok ts.
Proof. intros Ha Hm Hd. unfold LoadTopics, ReadFile. rewrite Hd. cbn [mbind res_bind]. by rewrite (topics_roundtrip _ _ _ Ha Hm). Qed.

(** What a save under way has to do with the directory. *)
Definition job_ok (d : mdir) (since : list (gmap string TopicConfig)) (j : job) (s : saver) : Prop :=
  match j with
  | JTopics ts => ascii_topics ts /\ ts ∈ since /\
      exists raw, marshal_topics (mkTopicsMeta metadataFormat (Some ts)) = Some raw /\ stage d "topics.json" raw s
  | JCluster _ => exists raw, stage d "cluster.json" raw s
  end.

Record meta_inv (s : meta_state) : Prop := {
  mi_wf : mdir_wf (me_dir s);
  mi_one : forall g g' x x', me_savers s !! g = Some x -> me_savers s !! g' = Some x' -> g = g';
  mi_jobs : forall g j sv, me_savers s !! g = Some (j, sv) -> job_ok (me_dir s) (me_since s) j sv;
  mi_load : exists ts, LoadTopics true (me_dir s) = Ok ts /\ ts ∈ me_acked s :: me_since s
}.

Lemma job_ok_start d j calls since : job_calls j = Ok calls -> match j with JTopics ts => ascii_topics ts | JCluster _ => True end ->
  job_ok d (match j with JTopics ts => ts :: since | JCluster _ => since end) j (mkSaver calls None).
Proof.
  destruct j as [ts|c]; cbn; unfold SaveTopics, SaveCluster, MetadataStore_atomicWrite.
  - destruct (marshal_topics _) as [raw|] eqn:Em; [|done]. intros [= <-] Ha. split_and!; [done|by left|]. exists raw. split; [done|by left].
  - destruct (marshal_cluster _) as [raw|]; [|done]. intros [= <-] _. exists raw. by left.
Qed.

(** A call of a save under way. *)
Lemma job_ok_call d since j s k d' s' : mdir_wf d -> job_ok d since j s -> sys_call k d s = Some (d', s') ->
  mdir_wf d' /\
  (if decide (sr_todo s' = []) then
     match j with JTopics ts => LoadTopics true d' = Ok ts | JCluster _ => LoadTopics true d' = LoadTopics true d end
   else job_ok d' since j s' /\ LoadTopics true d' = LoadTopics true d).
Proof.
  intros Hwf Hj E. destruct j as [ts|c]; cbn in Hj.
  - destruct Hj as (Ha & Hin & raw & Hm & Hst). destruct (sys_call_stage _ _ _ _ _ _ _ Hwf Hst E) as (Hwf' & _ & Hend).
    split; [done|]. destruct (decide _).
    + by eapply LoadTopics_saved.
    + destruct Hend as [Hst' Hsame]. split; [|by apply LoadTopics_same]. split_and!; [done|done|by exists raw].
  - destruct Hj as (raw & Hst). destruct (sys_call_stage _ _ _ _ _ _ _ Hwf Hst E) as (Hwf' & Ho & Hend).
    split; [done|]. assert (LoadTopics true d' = LoadTopics true d) as Hl by (apply LoadTopics_same, Ho; done).
    destruct (decide _); [done|]. destruct Hend as [Hst' _]. split; [by exists raw|done].
Qed.

Lemma meta_step_inv s s' : meta_inv s -> meta_step true s s' -> meta_inv s'.
Proof.
  intros [Hwf Hone Hjobs (ts0 & Hl & Hin)] Hs.
  destruct Hs as [g j calls d savers acked since Hg Hse Hc Ha|g j s k d savers acked since d' s' Hg E Ht
    |g j s k d savers acked since d' s' Hg E Ht|g d savers acked since|d savers acked since]; cbn in *.
  - rewrite (Hse eq_refl) in *. split; cbn; [done| | |].
    + intros g1 g2 x1 x2 [<- _]%lookup_singleton_Some [<- _]%lookup_singleton_Some. done.
    + intros g1 j1 s1 [_ [= <- <-]]%lookup_singleton_Some. by apply job_ok_start.
    + exists ts0. split; [done|]. destruct j; [|done]. apply elem_of_cons in Hin as [->|?]; [by left|by right; right].
  - destruct (job_ok_call _ _ _ _ _ _ _ Hwf (Hjobs _ _ _ Hg) E) as [Hwf' Hend]. rewrite decide_False in Hend by done. destruct Hend as [Hj' Hl'].
    split; cbn; [done| | |].
    + assert (forall g1 x1, <[g:=(j, s')]> savers !! g1 = Some x1 -> g1 = g) as Hu.
      { intros g1 x1 [[-> _]|[_ Hx]]%lookup_insert_Some; [done|]. by eapply Hone. }
      intros g1 g2 x1 x2 ->%Hu ->%Hu. done.
    + intros g1 j1 s1 [[<- [= <- <-]]|[Hne Hx]]%lookup_insert_Some; [done|]. destruct Hne. by eapply Hone.
    + exists ts0. by rewrite Hl'.
  - destruct (job_ok_call _ _ _ _ _ _ _ Hwf (Hjobs _ _ _ Hg) E) as [Hwf' Hend]. rewrite decide_True in Hend by done.
    assert (delete g savers = ∅) as ->.
    { apply map_empty. intros g1. destruct (delete g savers !! g1) as [x|] eqn:Ex; [|done].
      apply lookup_delete_Some in Ex as [Hne Hx]. destruct Hne. by eapply Hone. }
    split; cbn; [done|by intros ? ? ? ?; rewrite lookup_empty|by intros ? ? ?; rewrite lookup_empty|].
    destruct j as [ts|c]; [exists ts; split; [done|by left]|exists ts0; by rewrite Hend].
  - split; cbn; [done| | |by exists ts0].
    + intros g1 g2 x1 x2 [_ ?]%lookup_delete_Some [_ ?]%lookup_delete_Some. by eapply Hone.
    + intros g1 j1 s1 [_ ?]%lookup_delete_Some. by eapply Hjobs.
  - split; cbn; [done|by intros ? ? ? ?; rewrite lookup_empty|by intros ? ? ?; rewrite lookup_empty|by exists ts0].
Qed.

(** C6: topics.json is replaced atomically, by saves that do not overlap.  The saves run
    call by call (open and truncate the temporary file, write it in pieces, rename it),
    give up at any call, or are killed with the process at any moment; as long as a save
    begins only when none is under way, and topic names and owners are ASCII, booting
    reads a whole file: the topics of the last save that reported success, or those of a
    save begun after it; never a mixture, never an error.  The program does not ensure
    that saves do not overlap ([topics_json_race]), and a power loss is another matter
    ([topics_json_power_loss]). *)
Theorem topics_json_atomic d ts0 s :
  mdir_wf d -> LoadTopics true d = Ok ts0 -> rtc (meta_step true) (mkMeta d ∅ ts0 []) s ->
  exists ts, LoadTopics true (me_dir s) = Ok ts /\ ts ∈ me_acked s :: me_since s.
Proof.
  intros Hwf Hl Hs. apply mi_load. assert (meta_inv (mkMeta d ∅ ts0 [])) as Hi.
  { split; cbn; [done|by intros ? ? ? ?; rewrite lookup_empty|by intros ? ? ?; rewrite lookup_empty|exists ts0; split; [done|by left]]. }
  revert Hi. generalize (mkMeta d ∅ ts0 []) Hs. intros s0 Hs0. induction Hs0 as [|s1 s2 s3 Hstep _ IH]; [done|].
  intros Hi. apply IH; [done|by eapply meta_step_inv].
Qed.

(** The broker's value is what the file holds: [persistTopicsLocked] on the broker and
    an undisturbed [SaveTopics] on the directory agree, whatever fails. *)
Theorem persistTopics_refines e d b d' r :
  mdir_wf d -> LoadTopics true d = Ok (default ∅ (b_topicsjson b)) -> ascii_topics (t_cfg <$> b_topics b) ->
  run_save e d (SaveTopics (t_cfg <$> b_topics b)) = (d', r) ->
  let '(b', r') := persistTopicsLocked (is_ok r) b in
  LoadTopics true d' = Ok (default ∅ (b_topicsjson b')) /\ is_ok r' = is_ok r.
Proof.
  intros Hwf Hl Ha E. apply run_save_spec in E as (_ & _ & Hok & Hko); [|done]. unfold persistTopicsLocked. destruct r as [[]| | |]; cbn [is_ok].
  - destruct (Hok eq_refl) as (raw & i & f & Hm & Hi & Hf & Hd & _). split; [|done]. cbn. eapply LoadTopics_saved; [done|done|].
    unfold md_data. rewrite Hi. cbn. by rewrite Hf, <- Hd.
  - split; [|done]. rewrite <- Hl. apply LoadTopics_same, Hko. done.
  - split; [|done]. rewrite <- Hl. apply LoadTopics_same, Hko. done.
  - split; [|done]. rewrite <- Hl. apply LoadTopics_same, Hko. done.
Qed.

(** A machine that loses power may lose what was renamed but never synced: the file is
    then cut short, which [LoadTopics] reports and does not guess around. *)
Theorem topics_json_power_loss e d ts d' raw n :
  mdir_wf d -> marshal_topics (mkTopicsMeta metadataFormat (Some ts)) = Some raw -> run_save e d (SaveTopics ts) = (d', Ok tt) -> (n < length raw)%nat ->
  exists i f, md_names d' !! "topics.json" = Some i /\ md_files d' !! i = Some f /\ crash_of f (take n raw) /\
  LoadTopics true (mkDirectory (md_names d') (<[i := file_open (take n raw)]> (md_files d'))) = Err (EWrap "parse topics.json" (EMsg "json")).
Proof.
  intros Hwf Hm E Hn. apply run_save_spec in E as (Hwf' & _ & Hok & _); [|done].
  destruct (Hok eq_refl) as (raw' & i & f & Hm' & Hi & Hf & Hd & Hs). rewrite Hm in Hm'. injection Hm' as <-.
  exists i, f. split_and!; [done|done| |].
  - exists (Z.of_nat n). rewrite Nat2Z.id, Hd, Hs. split; [lia|done].
  - unfold LoadTopics, ReadFile, md_data. cbn. rewrite Hi. cbn. rewrite list_lookup_insert_eq by (by eapply mw_file). cbn.
    by rewrite (topics_truncated _ _ _ Hm Hn).
Qed.
End history.

(** ** An encoding that is whole or nothing

    Any value of a countable type as the digits of its number and an end mark. *)

Fixpoint pos_bytes (p : positive) : list byte :=
  match p with xH => [xff] | xO p => x00 :: pos_bytes p | xI p => x01 :: pos_bytes p end.
Fixpoint pos_of_bytes (l : list byte) : option positive :=
  match l with
  | [] => None
  | xff :: [] => Some xH
  | x00 :: l => xO <$> pos_of_bytes l
  | x01 :: l => xI <$> pos_of_bytes l
  | _ => None
  end.

Lemma pos_of_bytes_eq p : pos_of_bytes (pos_bytes p) = Some p.
Proof. induction p as [p IH|p IH|]; cbn; by rewrite ?IH. Qed.

Lemma pos_of_bytes_short p : forall n, (n < length (pos_bytes p))%nat -> pos_of_bytes (take n (pos_bytes p)) = None.
Proof. induction p as [p IH|p IH|]; intros [|n] Hn; cbn in *; try done; [rewrite IH by lia; done..|lia]. Qed.

#[export] Instance TopicConfig_eq_dec : EqDecision TopicConfig.
Proof. solve_decision. Defined.

#[export] Instance TopicConfig_countable : Countable TopicConfig :=
  inj_countable' (fun t => (NumPartitions t, ReplicationFactor t, RetentionMS t, RetentionBytes t, tc_SegmentBytes t, OwnerTenantID t))
    (fun '(a, b, c, d, e, f) => mkTopicConfig a b c d e f) (fun '(mkTopicConfig _ _ _ _ _ _) => eq_refl).

#[export] Instance binary_json : MetaJson := {|
  marshal_cluster := fun c => Some (pos_bytes (encode (cm_ClusterID c, cm_BrokerID c, cm_Advertised c, cm_Format c)));
  unmarshal_cluster := fun raw => p ← pos_of_bytes raw; '(a, b, c, d) ← decode p; Some (mkCluster a b c d);
  marshal_topics := fun t => Some (pos_bytes (encode (tm_Format t, tm_Topics t)));
  unmarshal_topics := fun raw => p ← pos_of_bytes raw; '(a, b) ← decode p; Some (mkTopicsMeta a b)
|}.

#[export] Instance binary_json_laws : MetaJsonLaws.
Proof.
  split.
  - intros f ts raw _ [= <-]. cbn. rewrite pos_of_bytes_eq. cbn. by rewrite decode_encode.
  - intros t raw n [= <-] Hn. cbn in *. by rewrite pos_of_bytes_short.
Qed.

(** One topic is saved; the process is killed while it saves that there is none. *)
Definition one_topic : gmap string TopicConfig := {["orders" := mkTopicConfig 1 1 (-1) (-1) 100 "t1"]}.

Lemma one_topic_ascii : ascii_topics one_topic.
Proof.
  intros n t Hn. unfold one_topic in Hn. apply lookup_singleton_Some in Hn as [<- <-]. split; intros c Hc; cbn in Hc; repeat (destruct Hc as [->|Hc]; [vm_compute; reflexivity|]); done.
Qed.

Lemma no_topic_ascii : ascii_topics ∅.
Proof. intros n t Hn. rewrite lookup_empty in Hn. discriminate Hn. Qed.

Lemma no_metadata_wf : mdir_wf no_metadata.
Proof. split; cbn; [intros n i Hn|intros n n' i Hn]; rewrite lookup_empty in Hn; discriminate Hn. Qed.

(** The state of the process after a goroutine's next call. *)
Definition after_call (g k : nat) (s : meta_state) : meta_state :=
  match me_savers s !! g with
  | Some (j, sv) =>
      match sys_call k (me_dir s) sv with
      | Some (d, sv') =>
          if bool_decide (sr_todo sv' = []) then
            mkMeta d (delete g (me_savers s)) (match j with JTopics ts => ts | JCluster _ => me_acked s end)
              (match j with JTopics _ => [] | JCluster _ => me_since s end)
          else mkMeta d (<[g := (j, sv')]> (me_savers s)) (me_acked s) (me_since s)
      | None => s
      end
  | None => s
  end.
Definition after_start (g : nat) (ts : gmap string TopicConfig) (s : meta_state) : meta_state :=
  match SaveTopics ts with
  | Ok calls => mkMeta (me_dir s) (<[g := (JTopics ts, mkSaver calls None)]> (me_savers s)) (me_acked s) (ts :: me_since s)
  | _ => s
  end.

Lemma after_call_steps serial g k s : rtc (meta_step serial) s (after_call g k s).
Proof.
  destruct s as [d savers acked since]. unfold after_call. cbn. destruct (savers !! g) as [[j sv]|] eqn:Eg; [|apply rtc_refl].
  destruct (sys_call k d sv) as [[d' sv']|] eqn:E; [|apply rtc_refl]. destruct (bool_decide_reflect (sr_todo sv' = [])); apply rtc_once.
  - by eapply (MDone serial g j sv k).
  - by eapply (MCall serial g j sv k).
Qed.

Lemma after_start_steps serial g ts s : ascii_topics ts -> me_savers s !! g = None -> (serial = true -> me_savers s = ∅) ->
  rtc (meta_step serial) s (after_start g ts s).
Proof.
  intros Ha Hg Hse. destruct s as [d savers acked since]. unfold after_start. cbn [me_dir me_savers me_acked me_since] in *.
  destruct (SaveTopics ts) as [calls| | |] eqn:E; try apply rtc_refl. apply rtc_once. by apply (MStart serial g (JTopics ts) calls).
Qed.

Definition booted : meta_state := mkMeta no_metadata ∅ ∅ [].
Definition saved_one : meta_state := after_call 0 0 (after_call 0 1000 (after_call 0 0 (after_start 0 one_topic booted))).
Definition killed_half : meta_state :=
  let s := after_call 0 3 (after_call 0 0 (after_start 0 ∅ saved_one)) in mkMeta (me_dir s) ∅ (me_acked s) (me_since s).

Lemma killed_half_steps : rtc (meta_step true) booted killed_half.
Proof.
  unfold killed_half. cbn zeta. eapply rtc_r; [|apply MKill].
  assert (rtc (meta_step true) booted saved_one) as H1.
  { unfold saved_one. do 3 (etrans; [|apply after_call_steps]). apply after_start_steps; [exact one_topic_ascii|reflexivity|reflexivity]. }
  etrans; [exact H1|]. match goal with |- rtc _ _ (mkMeta (me_dir ?s) _ _ _) => replace (mkMeta (me_dir s) (me_savers s) (me_acked s) (me_since s)) with s by (by destruct s) end.
  do 2 (etrans; [|apply after_call_steps]). apply after_start_steps; [exact no_topic_ascii|vm_compute; reflexivity|vm_compute; reflexivity].
Qed.

Lemma topics_json_atomic_witness :
  exists ts, LoadTopics true (me_dir killed_half) = Ok ts /\ ts ∈ me_acked killed_half :: me_since killed_half.
Proof.
  apply (topics_json_atomic no_metadata ∅ killed_half).
  - exact no_metadata_wf.
  - reflexivity.
  - exact killed_half_steps.
Defined.

(** Two saves at the same time, for example of two CreateTopic requests: both open the
    temporary file, the one writes the longer text, the other the shorter one over it,
    and the first renames it.  Nothing failed and nothing was killed; the first save
    reported success, the other finds no file to rename; and the next boot stops at a
    file that does not parse. *)
Definition raced : meta_state :=
  let both := after_start 1 ∅ (after_start 0 one_topic booted) in
  let opened := after_call 1 0 (after_call 0 0 both) in
  let written := after_call 1 1000 (after_call 0 1000 opened) in
  after_call 0 0 written.

Example topics_json_race :
  rtc (meta_step false) booted raced /\ me_acked raced = one_topic /\
  LoadTopics true (me_dir raced) = Err (EWrap "parse topics.json" (EMsg "json")) /\
  (forall k j sv, me_savers raced !! 1%nat = Some (j, sv) -> sys_call k (me_dir raced) sv = None).
Proof.
  split_and!.
  - unfold raced. cbn zeta. do 5 (etrans; [|apply after_call_steps]).
    etrans; [|apply after_start_steps; [exact no_topic_ascii|vm_compute; reflexivity|discriminate]].
    apply after_start_steps; [exact one_topic_ascii|reflexivity|discriminate].
  - vm_compute. reflexivity.
  - vm_compute. reflexivity.
  - intros k j sv E. vm_compute in E. injection E as <- <-. vm_compute. reflexivity.
Qed.
