(* ===== verification/Produce.v ===== *)
(** * The Produce handler (internal/wire/produce.go)

    Over decoded requests: the protocol codec belongs to a library. *)

From S2P Require Import Prelude Bytes OsFile RecordBatch Index TimeIndex Segment SegmentFacts Log LogFacts LogRead.
From S2P Require Import Names Offsets Group Acl Manifest Cache Broker BrokerFacts.

#[local] Open Scope Z_scope.

(** ** Error codes (internal/wire/dispatch.go) *)

Definition errCodeNone : Z := 0.
Definition errCodeOffsetOutOfRange : Z := 1.
Definition errCodeCorruptMessage : Z := 2.
Definition errCodeUnknownTopicOrPart : Z := 3.
Definition errCodeNotLeaderForPartition : Z := 6.
Definition errCodeInvalidTopic : Z := 17.
Definition errCodeTopicAuthorizationFailed : Z := 29.
Definition errCodeGroupAuthorizationFailed : Z := 30.
Definition errCodeUnsupportedSaslMech : Z := 33.
Definition errCodeUnsupportedVersion : Z := 35.
Definition errCodeTopicAlreadyExists : Z := 36.
Definition errCodeInvalidPartitions : Z := 37.
Definition errCodeSaslAuthFailed : Z := 58.

(** ** Requests and responses *)

Record ProducePart := mkProducePart { pp_Partition : Z; pp_Records : list byte }.
Record ProduceTopic := mkProduceTopic { pt_Topic : string; pt_Partitions : list ProducePart }.
Record ProducePartResp := mkProducePartResp { ppr_Partition : Z; ppr_ErrorCode : Z; ppr_BaseOffset : Z }.
Record ProduceTopicResp := mkProduceTopicResp { ptr_Topic : string; ptr_Partitions : list ProducePartResp }.

(** ** Splitting a Records blob *)

Fixpoint split_loop (fuel : nat) (data : list byte) (pos : Z) : res (list (list byte)) :=
  match fuel with
  | O => Diverge
  | S fuel =>
      if pos <? zlen data then
        if pos + 61 >? zlen data then Err (EMsg "trailing bytes shorter than batch header")
        else
          hdr ← ParseBatchHeader (slice data pos (pos + 61));
          let stop := pos + TotalSize hdr in
          if stop >? zlen data then Err (EMsg "batch overruns Records buffer")
          else out ← split_loop fuel data stop; Ok (slice data pos stop :: out)
      else Ok []
  end.

Definition splitBatches (data : list byte) : res (list (list byte)) := split_loop (S (length data)) data 0.

Definition mapAppendError (err : error) : Z :=
  if errors_is err ErrUnknownTopic then errCodeUnknownTopicOrPart
  else if errors_is err ErrUnknownPartition then errCodeUnknownTopicOrPart
  else if errors_is err ErrUnauthorizedTopic then errCodeTopicAuthorizationFailed
  else if errors_is err ErrUnauthorizedGroup then errCodeGroupAuthorizationFailed
  else if errors_is err ErrBrokerDraining then errCodeNotLeaderForPartition
  else errCodeCorruptMessage.

(** ** The handler

    [wenv] is how the file system behaves during one append.  A panic of the
    storage layer ends the process, so the handler's result is then [Panic]. *)

Definition wenv : Type := openenv * (nat -> io).

Definition produce_partition (w : wenv) (b : Broker) (tenant topic : string) (p : ProducePart)
  : Broker * res ProducePartResp :=
  let fail code := Ok (mkProducePartResp (pp_Partition p) code (-1)) in
  if bool_decide (pp_Records p = []) then (b, fail errCodeCorruptMessage)
  else match splitBatches (pp_Records p) with
  | Ok batches =>
      match AppendBatchesAuthorized w.1 w.2 b topic (pp_Partition p) batches tenant with
      | (b, Ok firstOffset) => (b, Ok (mkProducePartResp (pp_Partition p) errCodeNone firstOffset))
      | (b, Err e) => (b, fail (mapAppendError e))
      | (b, _) => (b, Panic)
      end
  | Err _ => (b, fail errCodeCorruptMessage)
  | _ => (b, Panic)
  end.

Fixpoint produce_partitions (w : nat -> wenv) (b : Broker) (tenant topic : string) (ps : list ProducePart)
  : Broker * res (list ProducePartResp) :=
  match ps with
  | [] => (b, Ok [])
  | p :: ps =>
      match produce_partition (w 0%nat) b tenant topic p with
      | (b, Ok r) =>
          let '(b, rs) := produce_partitions (fun k => w (S k)) b tenant topic ps in
          (b, rs ← rs; Ok (r :: rs))
      | (b, _) => (b, Panic)
      end
  end.

Definition produce_topic (w : nat -> wenv) (b : Broker) (principal tenant : string) (t : ProduceTopic)
  : Broker * res ProduceTopicResp :=
  if negb (AuthorizeTopic (b_acl b) principal (pt_Topic t) OpWrite)
  then (b, Ok (mkProduceTopicResp (pt_Topic t)
                 (map (fun p => mkProducePartResp (pp_Partition p) errCodeTopicAuthorizationFailed (-1)) (pt_Partitions t))))
  else
    let '(b, rs) := produce_partitions w b tenant (pt_Topic t) (pt_Partitions t) in
    (b, rs ← rs; Ok (mkProduceTopicResp (pt_Topic t) rs)).

Fixpoint produce_topics (w : nat -> nat -> wenv) (b : Broker) (principal tenant : string) (ts : list ProduceTopic)
  : Broker * res (list ProduceTopicResp) :=
  match ts with
  | [] => (b, Ok [])
  | t :: ts =>
      match produce_topic (w 0%nat) b principal tenant t with
      | (b, Ok r) =>
          let '(b, rs) := produce_topics (fun k => w (S k)) b principal tenant ts in
          (b, rs ← rs; Ok (r :: rs))
      | (b, _) => (b, Panic)
      end
  end.

(** [None]: with acks=0 no response is written. *)
Definition handleProduce (w : nat -> nat -> wenv) (b : Broker) (principal tenant : string) (acks : Z) (ts : list ProduceTopic)
  : Broker * res (option (list ProduceTopicResp)) :=
  let '(b, rs) := produce_topics w b principal tenant ts in
  (b, rs ← rs; Ok (if acks =? 0 then None else Some rs)).

(** ** Splitting is exact *)

(** One record batch and nothing else, by its own header. *)
Definition whole (b : list byte) : Prop :=
  ParseBatchHeader b = Ok (decode_header b) /\ zlen b = TotalSize (decode_header b).

Lemma whole_size b : whole b -> 61 <= zlen b.
Proof. intros [Hp ->]. pose proof (TotalSize_bounds _ _ Hp) as [H _]. exact H. Qed.

Lemma split_loop_complete bs : forall fuel pre,
  Forall whole bs -> (length (concat bs) < fuel)%nat ->
  split_loop fuel (pre ++ concat bs) (zlen pre) = Ok bs.
Proof.
  induction bs as [|b bs IH]; intros [|fuel] pre Hw Hf; try (exfalso; lia); cbn [split_loop concat].
  { rewrite app_nil_r. by rewrite Z.ltb_irrefl. }
  apply Forall_cons in Hw as [Hb Hbs]. pose proof (whole_size b Hb) as H61.
  pose proof (zlen_nonneg (concat bs)). rewrite !zlen_app.
  rewrite (proj2 (Z.ltb_lt _ _)), Z.gtb_ltb, (proj2 (Z.ltb_ge _ _)) by lia.
  change 61 with v2HeaderSize. rewrite header_slice, (proj1 Hb) by (unfold v2HeaderSize; lia). cbn [mbind res_bind].
  rewrite <- (proj2 Hb), Z.gtb_ltb, (proj2 (Z.ltb_ge _ _)), slice_mid by lia.
  rewrite (app_assoc pre b), <- zlen_app, IH; [done|done|].
  cbn [concat] in Hf. rewrite length_app in Hf. unfold zlen in H61. lia.
Qed.

Lemma split_loop_sound fuel : forall pre rest,
  (length rest < fuel)%nat ->
  (exists bs, split_loop fuel (pre ++ rest) (zlen pre) = Ok bs /\ Forall whole bs /\ concat bs = rest) \/
  (exists e, split_loop fuel (pre ++ rest) (zlen pre) = Err e).
Proof.
  induction fuel as [|fuel IH]; intros pre rest Hf; [lia|]. cbn [split_loop]. rewrite !zlen_app.
  pose proof (zlen_nonneg rest). destruct (Z.ltb_spec (zlen pre) (zlen pre + zlen rest)).
  2:{ left. exists []. rewrite (zlen_zero rest) by lia. by split_and!. }
  rewrite Z.gtb_ltb. destruct (Z.ltb_spec (zlen pre + zlen rest) (zlen pre + 61)); [eauto|].
  assert (slice (pre ++ rest) (zlen pre) (zlen pre + 61) = take 61 rest) as ->.
  { rewrite slice_app_r by lia. replace (zlen pre - zlen pre) with 0 by lia.
    replace (zlen pre + 61 - zlen pre) with 61 by lia. done. }
  assert (zlen (take 61 rest) = 61) as H61 by (apply (zlen_take rest 61); lia).
  pose proof (ParseBatchHeader_app (take 61 rest) (drop 61 rest)) as Happ. rewrite take_drop in Happ.
  unfold v2HeaderSize in Happ. rewrite <- Happ by lia.
  destruct (ParseBatchHeader rest) as [h|e| |] eqn:Ep; cbn [mbind res_bind]; [|eauto|exfalso..];
    [|unfold ParseBatchHeader in Ep; repeat (step_in Ep; try done)..].
  pose proof (TotalSize_bounds _ _ Ep) as [Hlo _]. apply ParseBatchHeader_Ok in Ep as Ep'. unfold v2HeaderSize in Hlo.
  rewrite Z.gtb_ltb. destruct (Z.ltb_spec (zlen pre + zlen rest) (zlen pre + TotalSize h)); [eauto|].
  set (b := take (Z.to_nat (TotalSize h)) rest). set (r := drop (Z.to_nat (TotalSize h)) rest).
  assert (rest = b ++ r) as Hr by (by rewrite <- (take_drop (Z.to_nat (TotalSize h)) rest)).
  assert (zlen b = TotalSize h) as Hb by (apply zlen_take; lia).
  rewrite Hr, <- Hb, slice_mid, (app_assoc pre), <- zlen_app.
  assert (whole b) as Hw.
  { pose proof (ParseBatchHeader_app b r) as Hpb. rewrite <- Hr, Ep in Hpb.
    specialize (Hpb ltac:(unfold v2HeaderSize; lia)). symmetry in Hpb.
    apply ParseBatchHeader_Ok in Hpb as Hh. destruct Hh as [Hh _].
    unfold whole. rewrite <- Hh. by split. }
  assert (length r < fuel)%nat as Hr' by (unfold r; rewrite length_drop; unfold zlen in *; lia).
  destruct (IH (pre ++ b) r Hr') as [(bs & -> & Hbs & <-)|(e & ->)]; cbn [mbind res_bind]; [left|by eauto].
  exists (b :: bs). split_and!; [done|by constructor|done].
Qed.

(** Splitting the records of a Produce request is exact and total: the
    handler gets the list of batches [bs] if and only if the blob is the
    concatenation of [bs] and each of them is one complete record batch by its
    own header; every other blob is refused with an error, never a panic. *)
Theorem splitBatches_exact data :
  (forall bs, splitBatches data = Ok bs <-> Forall whole bs /\ concat bs = data) /\
  ((exists bs, splitBatches data = Ok bs) \/ (exists e, splitBatches data = Err e)).
Proof.
  unfold splitBatches. pose proof (split_loop_sound (S (length data)) [] data) as Hs. cbn [app] in Hs.
  change (zlen []) with 0 in Hs. specialize (Hs ltac:(lia)). split.
  - intros bs. split.
    + intros H. destruct Hs as [(bs' & E & Hw & Hc)|(e & E)]; rewrite H in E; by simplify_eq.
    + intros [Hw <-]. by apply (split_loop_complete bs _ []); [|lia].
  - destruct Hs as [(bs & E & _)|(e & E)]; eauto.
Qed.
