(* ===== verification/FetchApi.v ===== *)
(** * The Fetch handler (internal/wire/fetch.go)

    One pass over the requested partitions, and the long-poll loop around it.
    Between two passes other connections act on the broker; what they do, the
    clock and the object store are arguments. *)

From S2P Require Import Prelude Bytes OsFile RecordBatch Segment Log Names Offsets Group Acl Manifest Cache Broker BrokerFacts Produce.

#[local] Open Scope Z_scope.

(** ** Requests and responses *)

Record FetchPart := mkFetchPart { fq_Partition : Z; fq_FetchOffset : Z; fq_PartitionMaxBytes : Z }.
Record FetchTopic := mkFetchTopic { fq_Topic : string; fq_Partitions : list FetchPart }.
Record FetchRequest := mkFetchRequest { fq_MinBytes : Z; fq_MaxWaitMillis : Z; fq_Topics : list FetchTopic }.

(** A nil [RecordBatches] is not the same on the wire as an empty one. *)
Record FetchPartResp := mkFetchPartResp {
  fp_Partition : Z;
  fp_ErrorCode : Z;
  fp_HighWatermark : Z;
  fp_LastStableOffset : Z;
  fp_LogStartOffset : Z;
  fp_PreferredReadReplica : Z;
  fp_RecordBatches : option (list byte)
}.
Record FetchTopicResp := mkFetchTopicResp { ft_Topic : string; ft_Partitions : list FetchPartResp }.

Definition fetch_error_code (err : error) : Z :=
  if errors_is err ErrUnknownTopic || errors_is err ErrUnknownPartition then errCodeUnknownTopicOrPart
  else if errors_is err ErrUnauthorizedTopic then errCodeTopicAuthorizationFailed
  else if errors_is err ErrOffsetOutOfRange then errCodeOffsetOutOfRange
  else errCodeCorruptMessage.

Section fetch.
Context (sha256 : list byte -> string) (mac : list byte -> string -> string) (hmacKey : list byte).
Context (principal tenant : string).

(** ** One pass *)

(** The response for one partition and the bytes it adds to the total. *)
Definition fetch_partition (fe : fetchenv) (b : Broker) (topic : string) (p : FetchPart) : Broker * res (FetchPartResp * Z) :=
  let '(b, r) := FetchAuthorized sha256 mac hmacKey fe b topic (fq_Partition p) (fq_FetchOffset p)
                   (fq_PartitionMaxBytes p) tenant in
  match fr_data r with
  | Ok (bytes, _) =>
      (b, Ok (mkFetchPartResp (fq_Partition p) errCodeNone (fr_hwm r) (fr_hwm r) (fr_logStart r) (-1) (Some bytes), zlen bytes))
  | Err e => (b, Ok (mkFetchPartResp (fq_Partition p) (fetch_error_code e) (fr_hwm r) 0 (fr_logStart r) 0 None, 0))
  | _ => (b, Panic)
  end.

Fixpoint fetch_partitions (fe : nat -> fetchenv) (b : Broker) (topic : string) (ps : list FetchPart)
  : Broker * res (list FetchPartResp * Z) :=
  match ps with
  | [] => (b, Ok ([], 0))
  | p :: ps =>
      match fetch_partition (fe 0%nat) b topic p with
      | (b, Ok (r, n)) =>
          let '(b, rs) := fetch_partitions (fun k => fe (S k)) b topic ps in
          (b, '(rs, m) ← rs; Ok (r :: rs, n + m))
      | (b, _) => (b, Panic)
      end
  end.

Definition fetch_topic (fe : nat -> fetchenv) (b : Broker) (t : FetchTopic) : Broker * res (FetchTopicResp * Z) :=
  if negb (AuthorizeTopic (b_acl b) principal (fq_Topic t) OpRead)
  then (b, Ok (mkFetchTopicResp (fq_Topic t)
                 (map (fun p => mkFetchPartResp (fq_Partition p) errCodeTopicAuthorizationFailed 0 0 0 0 None) (fq_Partitions t)), 0))
  else
    let '(b, rs) := fetch_partitions fe b (fq_Topic t) (fq_Partitions t) in
    (b, '(rs, n) ← rs; Ok (mkFetchTopicResp (fq_Topic t) rs, n)).

Fixpoint fetch_pass (fe : nat -> nat -> fetchenv) (b : Broker) (ts : list FetchTopic) : Broker * res (list FetchTopicResp * Z) :=
  match ts with
  | [] => (b, Ok ([], 0))
  | t :: ts =>
      match fetch_topic (fe 0%nat) b t with
      | (b, Ok (r, n)) =>
          let '(b, rs) := fetch_pass (fun k => fe (S k)) b ts in
          (b, '(rs, m) ← rs; Ok (r :: rs, n + m))
      | (b, _) => (b, Panic)
      end
  end.

(** ** The long poll *)

Definition firstDelay : Z := 10 * millisecond.
Definition nextDelay (pollDelay : Z) : Z := if pollDelay <? 250 * millisecond then pollDelay * 2 else pollDelay.

(** The world during a Fetch: pass [k] reads through [w_fetch k] and takes
    [w_busy k], with what the sleep before it overran; the others act while it
    sleeps. *)
Record world := mkWorld {
  w_start : Z;
  w_busy : nat -> Z;
  w_fetch : nat -> nat -> nat -> fetchenv;
  w_others : nat -> Broker -> Broker
}.

(** The response, how many times the partitions were scanned, and when. *)
Record polled := mkPolled { po_Topics : list FetchTopicResp; po_passes : nat; po_time : Z }.

Fixpoint poll_loop (fuel : nat) (w : world) (req : FetchRequest) (deadline : Z) (k : nat) (pollDelay now : Z) (b : Broker)
  : Broker * res polled :=
  match fuel with
  | O => (b, Diverge)
  | S fuel =>
      match fetch_pass (w_fetch w k) b (fq_Topics req) with
      | (b, Ok (rs, totalBytes)) =>
          let now := now + w_busy w k in
          if (fq_MinBytes req >? 0) && (totalBytes <? fq_MinBytes req) then
            let remaining := deadline - now in
            if remaining <=? 0 then (b, Ok (mkPolled rs (S k) now))
            else
              let sleep := if pollDelay >? remaining then remaining else pollDelay in
              poll_loop fuel w req deadline (S k) (nextDelay pollDelay) (now + sleep) (w_others w k b)
          else (b, Ok (mkPolled rs (S k) now))
      | (b, _) => (b, Panic)
      end
  end.

(** Passes enough for every wait: see [poll_loop_ends]. *)
Definition poll_fuel (req : FetchRequest) : nat := (7 + Z.to_nat (fq_MaxWaitMillis req / 320))%nat.

Definition handleFetch (w : world) (b : Broker) (req : FetchRequest) : Broker * res polled :=
  poll_loop (poll_fuel req) w req (w_start w + fq_MaxWaitMillis req * millisecond) 0 firstDelay (w_start w) b.

End fetch.
