(* ===== verification/FetchProps.v ===== *)
(** * The Fetch handler: bounds of the long poll, and what a response may hold *)

From S2P Require Import Prelude Bytes OsFile RecordBatch Segment Log Names Offsets Group Acl Manifest Cache Broker BrokerFacts Produce FetchApi.

#[local] Open Scope Z_scope.

(** ** The back-off *)

(** The delay before pass [k + 1] when the deadline is not nearer, and the sum
    of the delays before pass [k]. *)
Definition delay (k : nat) : Z := Nat.iter k nextDelay firstDelay.
Fixpoint slept (k : nat) : Z := match k with O => 0 | S k => slept k + delay k end.

Lemma delay_ceiling k : (5 <= k)%nat -> delay k = 320 * millisecond.
Proof.
  intros Hk. replace k with (k - 5 + 5)%nat by lia. generalize (k - 5)%nat. clear.
  induction n as [|n IH]; [done|]. change (delay (S n + 5)) with (nextDelay (delay (n + 5))). by rewrite IH.
Qed.

Lemma delay_pos k : 0 < delay k.
Proof.
  induction k as [|k IH]; [done|]. change (delay (S k)) with (nextDelay (delay k)). unfold nextDelay.
  destruct (_ <? _); lia.
Qed.

Lemma slept_mono k : 0 <= slept k.
Proof. induction k as [|k IH]; [done|]. cbn [slept]. pose proof (delay_pos k). lia. Qed.

Lemma slept_lower n : 310 * millisecond + 320 * millisecond * Z.of_nat n <= slept (5 + n).
Proof.
  induction n as [|n IH]; [done|].
  replace (5 + S n)%nat with (S (5 + n)) by lia. cbn [slept]. rewrite delay_ceiling by lia. lia.
Qed.

(** Past that many passes the deadline is gone. *)
Lemma slept_exceeds req k :
  (k >= 6 + Z.to_nat (fq_MaxWaitMillis req / 320))%nat -> fq_MaxWaitMillis req * millisecond <= slept k.
Proof.
  intros Hk. replace k with (5 + (k - 5))%nat by lia. pose proof (slept_lower (k - 5)) as H. unfold millisecond in *.
  pose proof (Z.div_mod (fq_MaxWaitMillis req) 320 ltac:(done)). pose proof (Z.mod_pos_bound (fq_MaxWaitMillis req) 320).
  lia.
Qed.

(** ** The loop *)

Definition response_bytes (rs : list FetchTopicResp) : Z :=
  foldr (fun t n => foldr (fun p n => zlen (default [] (fp_RecordBatches p)) + n) n (ft_Partitions t)) 0 rs.

Definition busy_until (w : world) (n : nat) : Z := foldr (fun k s => w_busy w k + s) 0 (seq 0 n).

Lemma busy_until_S w n : busy_until w (S n) = busy_until w n + w_busy w n.
Proof.
  unfold busy_until. rewrite seq_S, foldr_app. cbn [foldr Nat.add].
  generalize (seq 0 n). induction l as [|x l IH]; cbn [foldr]; lia.
Qed.

Lemma busy_until_nonneg w n : (forall k, 0 <= w_busy w k) -> 0 <= busy_until w n.
Proof. intros Hb. induction n as [|n IH]; [done|]. rewrite busy_until_S. specialize (Hb n). lia. Qed.

Section loop.
Context (sha256 : list byte -> string) (mac : list byte -> string -> string) (hmacKey : list byte).
Context (principal tenant : string).

Lemma bind_pair_ok {A B C} (m : res (A * B)) (f : A -> B -> C) (x : C) :
  ('(a, c) ← m; Ok (f a c)) = Ok x -> exists a c, m = Ok (a, c) /\ x = f a c.
Proof. destruct m as [[a c]| | |]; cbn; intros H; simplify_eq; eauto. Qed.

Definition part_bytes (rs : list FetchPartResp) : Z :=
  foldr (fun p n => zlen (default [] (fp_RecordBatches p)) + n) 0 rs.

Lemma fetch_partitions_total ps : forall fe b topic b' rs n,
  fetch_partitions sha256 mac hmacKey tenant fe b topic ps = (b', Ok (rs, n)) -> n = part_bytes rs.
Proof.
  induction ps as [|p ps IH]; intros fe b topic b' rs n; cbn [fetch_partitions]; [by intros [= _ <- <-]|].
  destruct (fetch_partition _ _ _ _ _ _ _ _) as [b1 r1] eqn:E1. destruct r1 as [[r n1]|?| |]; try done.
  destruct (fetch_partitions _ _ _ _ _ _ _ ps) as [b2 r2] eqn:E2. intros [= _ H].
  apply bind_pair_ok in H as (rs2 & m & -> & [= -> ->]). apply IH in E2 as ->. cbn [part_bytes foldr]. f_equal.
  unfold fetch_partition in E1. destruct (FetchAuthorized _ _ _ _ _ _ _ _ _ _) as [b3 fr].
  destruct (fr_data fr) as [[bytes ?]|?| |]; injection E1; intros; by subst.
Qed.

Lemma response_bytes_cons t rs : response_bytes (t :: rs) = part_bytes (ft_Partitions t) + response_bytes rs.
Proof.
  cbn [response_bytes foldr]. fold (response_bytes rs). generalize (response_bytes rs).
  induction (ft_Partitions t) as [|p ps IH]; intros z; cbn [foldr part_bytes]; [lia|].
  rewrite IH. unfold part_bytes. lia.
Qed.

Lemma part_bytes_nonneg rs : 0 <= part_bytes rs.
Proof.
  induction rs as [|p rs IH]; cbn [part_bytes foldr]; [done|]. fold (part_bytes rs).
  pose proof (zlen_nonneg (default [] (fp_RecordBatches p))). lia.
Qed.

Lemma response_bytes_nonneg rs : 0 <= response_bytes rs.
Proof.
  induction rs as [|t rs IH]; [done|]. rewrite response_bytes_cons. pose proof (part_bytes_nonneg (ft_Partitions t)). lia.
Qed.

(** The total the loop compares with MinBytes is what the response carries. *)
Lemma fetch_pass_total ts : forall fe b b' rs n,
  fetch_pass sha256 mac hmacKey principal tenant fe b ts = (b', Ok (rs, n)) -> n = response_bytes rs.
Proof.
  induction ts as [|t ts IH]; intros fe b b' rs n; cbn [fetch_pass]; [by intros [= _ <- <-]|].
  destruct (fetch_topic _ _ _ _ _ _ _ _) as [b1 r1] eqn:E1. destruct r1 as [[r n1]|?| |]; try done.
  destruct (fetch_pass _ _ _ _ _ _ _ ts) as [b2 r2] eqn:E2. intros [= _ H].
  apply bind_pair_ok in H as (rs2 & m & -> & [= -> ->]). apply IH in E2 as ->. rewrite response_bytes_cons. f_equal.
  unfold fetch_topic in E1. destruct (negb _).
  - injection E1 as _ <- <-. induction (fq_Partitions t); [done|]. cbn [map ft_Partitions part_bytes foldr]. done.
  - destruct (fetch_partitions _ _ _ _ _ _ _ _) as [b3 r3] eqn:E3. injection E1 as _ H1.
    apply bind_pair_ok in H1 as (rs3 & m3 & -> & [= -> ->]). by apply fetch_partitions_total in E3.
Qed.

Context (w : world) (req : FetchRequest).
Let deadline := w_start w + fq_MaxWaitMillis req * millisecond.

(** What a finished poll guarantees. *)
Definition poll_ok (p : polled) : Prop :=
  (po_passes p <= poll_fuel req)%nat /\
  (response_bytes (po_Topics p) < fq_MinBytes req -> deadline <= po_time p) /\
  po_time p <= Z.max (w_start w) deadline + busy_until w (po_passes p).

Lemma poll_loop_ends fuel : forall k now b b' r,
  (forall i, 0 <= w_busy w i) -> (fuel + k = poll_fuel req)%nat -> (0 < fuel)%nat ->
  deadline <= now \/ w_start w + slept k <= now ->
  now <= Z.max (w_start w) deadline + busy_until w k ->
  poll_loop sha256 mac hmacKey principal tenant fuel w req deadline k (delay k) now b = (b', r) ->
  r = Panic \/ exists p, r = Ok p /\ poll_ok p.
Proof.
  induction fuel as [|fuel IH]; intros k now b b' r Hb Hf Hpos Hlo Hup; [lia|]. cbn [poll_loop].
  destruct (fetch_pass _ _ _ _ _ _ _ _) as [b1 r1] eqn:Ep.
  destruct r1 as [[rs n]|?| |]; [|intros [= _ <-]; by left..]. apply fetch_pass_total in Ep as ->.
  pose proof (Hb k) as Hk. pose proof (busy_until_S w k) as HS. pose proof (busy_until_nonneg w (S k) Hb). pose proof (response_bytes_nonneg rs).
  rewrite Z.gtb_ltb. destruct (_ && _) eqn:Emin.
  - zbool. destruct (Z.leb_spec (deadline - (now + w_busy w k)) 0).
    { intros [= _ <-]. right. eexists. split; [done|]. split_and!; cbn [po_passes po_time po_Topics]; [lia|lia|lia]. }
    rewrite Z.gtb_ltb. change (nextDelay (delay k)) with (delay (S k)).
    assert (k < 6 + Z.to_nat (fq_MaxWaitMillis req / 320))%nat as Hlast.
    { destruct (Nat.lt_ge_cases k (6 + Z.to_nat (fq_MaxWaitMillis req / 320))) as [|Hge]; [done|].
      apply slept_exceeds in Hge. unfold deadline in *. lia. }
    unfold poll_fuel in *. pose proof (delay_pos k).
    intros E. eapply IH; [exact Hb| | | | |exact E]; [lia|lia| |];
      destruct (Z.ltb_spec (deadline - (now + w_busy w k)) (delay k)); cbn [slept]; lia.
  - intros [= _ <-]. right. eexists. split; [done|]. split_and!; cbn [po_passes po_time po_Topics]; [lia| |lia].
    intros Hlt. apply andb_false_iff in Emin as [?|?]; zbool; lia.
Qed.
End loop.

(** C25: The long poll is bounded: the handler answers (unless the storage layer
    panics) after at most 7 + MaxWait/320ms scans of the partitions.  An answer
    with fewer than MinBytes bytes comes only once MaxWait has passed, and the
    sleeps never go past the deadline, so it is late by no more than the time
    spent scanning. *)
Theorem handleFetch_bounded sha256 mac key principal tenant w b req b' r :
  (forall k, 0 <= w_busy w k) ->
  handleFetch sha256 mac key principal tenant w b req = (b', r) ->
  let deadline := w_start w + fq_MaxWaitMillis req * millisecond in
  r = Panic \/ exists p, r = Ok p /\
    (po_passes p <= 7 + Z.to_nat (fq_MaxWaitMillis req / 320))%nat /\
    (response_bytes (po_Topics p) < fq_MinBytes req -> deadline <= po_time p) /\
    po_time p <= Z.max (w_start w) deadline + busy_until w (po_passes p).
Proof.
  intros Hb E. eapply (poll_loop_ends sha256 mac key principal tenant w req (poll_fuel req) 0 (w_start w));
    [done|lia|unfold poll_fuel; lia|right; cbn; lia|cbn; lia|exact E].
Qed.

(** ** What a response holds *)

(** The answer to [t]: its partitions in order; nothing but the error when the
    principal may not read the topic. *)
Definition fetch_answer (allowed : bool) (t : FetchTopic) (r : FetchTopicResp) : Prop :=
  ft_Topic r = fq_Topic t /\ map fp_Partition (ft_Partitions r) = map fq_Partition (fq_Partitions t) /\
  (allowed = false -> Forall (fun p => fp_ErrorCode p = errCodeTopicAuthorizationFailed /\ fp_RecordBatches p = None)
                        (ft_Partitions r)).

Section answers.
Context (sha256 : list byte -> string) (mac : list byte -> string -> string) (hmacKey : list byte).
Context (principal tenant : string).

Lemma fetch_partition_answer fe b topic p b' r n :
  fetch_partition sha256 mac hmacKey tenant fe b topic p = (b', Ok (r, n)) ->
  only_cache b b' /\ fp_Partition r = fq_Partition p.
Proof.
  unfold fetch_partition. destruct (FetchAuthorized _ _ _ _ _ _ _ _ _ _) as [b1 fr] eqn:E. apply FetchAuthorized_frame in E.
  destruct (fr_data fr) as [[? ?]|?| |]; try done; by intros [= <- <- _].
Qed.

Lemma fetch_partitions_answer ps : forall fe b topic b' rs n,
  fetch_partitions sha256 mac hmacKey tenant fe b topic ps = (b', Ok (rs, n)) ->
  only_cache b b' /\ map fp_Partition rs = map fq_Partition ps.
Proof.
  induction ps as [|p ps IH]; intros fe b topic b' rs n; cbn [fetch_partitions]; [by intros [= <- <- _]|].
  destruct (fetch_partition _ _ _ _ _ _ _ _) as [b1 r1] eqn:E1. destruct r1 as [[r n1]|?| |]; try done.
  destruct (fetch_partitions _ _ _ _ _ _ _ ps) as [b2 r2] eqn:E2. intros [= -> H].
  apply bind_pair_ok in H as (rs2 & m & -> & [= -> ->]).
  apply fetch_partition_answer in E1 as [H1 Hp]. apply IH in E2 as [H2 Hps].
  split; [by etrans|]. cbn [map]. by rewrite Hp, Hps.
Qed.

Lemma fetch_topic_answer fe b t b' r n :
  fetch_topic sha256 mac hmacKey principal tenant fe b t = (b', Ok (r, n)) ->
  only_cache b b' /\ fetch_answer (AuthorizeTopic (b_acl b) principal (fq_Topic t) OpRead) t r.
Proof.
  unfold fetch_topic. destruct (AuthorizeTopic _ _ _ _); cbn [negb].
  - destruct (fetch_partitions _ _ _ _ _ _ _ _) as [b3 r3] eqn:E3. intros [= -> H].
    apply bind_pair_ok in H as (rs & m & -> & [= -> ->]). apply fetch_partitions_answer in E3 as [Ho Hp]. by split.
  - intros [= <- <- _]. split; [done|]. split_and!; [done| |].
    + cbn. by rewrite map_map.
    + intros _. apply Forall_map. by apply Forall_true.
Qed.

Lemma fetch_pass_answer ts : forall fe b b' rs n,
  fetch_pass sha256 mac hmacKey principal tenant fe b ts = (b', Ok (rs, n)) ->
  only_cache b b' /\ Forall2 (fun t r => fetch_answer (AuthorizeTopic (b_acl b) principal (fq_Topic t) OpRead) t r) ts rs.
Proof.
  induction ts as [|t ts IH]; intros fe b b' rs n; cbn [fetch_pass]; [intros [= <- <- _]; by split|].
  destruct (fetch_topic _ _ _ _ _ _ _ _) as [b1 r1] eqn:E1. destruct r1 as [[r n1]|?| |]; try done.
  destruct (fetch_pass _ _ _ _ _ _ _ ts) as [b2 r2] eqn:E2. intros [= -> H].
  apply bind_pair_ok in H as (rs2 & m & -> & [= -> ->]).
  apply fetch_topic_answer in E1 as [H1 Ht]. apply IH in E2 as [H2 Hts].
  split; [by etrans|]. constructor; [done|]. destruct H1 as [a ->]. exact Hts.
Qed.

Lemma poll_loop_answer w req fuel : forall deadline k d now b b' p,
  poll_loop sha256 mac hmacKey principal tenant fuel w req deadline k d now b = (b', Ok p) ->
  exists b1, only_cache b1 b' /\
    Forall2 (fun t r => fetch_answer (AuthorizeTopic (b_acl b1) principal (fq_Topic t) OpRead) t r)
      (fq_Topics req) (po_Topics p).
Proof.
  induction fuel as [|fuel IH]; intros deadline k d now b b' p; cbn [poll_loop]; [done|].
  destruct (fetch_pass _ _ _ _ _ _ _ _) as [b1 r1] eqn:Ep. destruct r1 as [[rs n]|?| |]; try done.
  apply fetch_pass_answer in Ep as [Ho Ha].
  destruct (_ && _); [destruct (_ <=? 0)|]; [| |]; try (intros [= <- <-]; by exists b). apply IH.
Qed.

(** With the others idle a whole poll touches the cache only, even one that ends
    in a panic. *)
Lemma fetch_partitions_frame ps : forall fe b topic b' r,
  fetch_partitions sha256 mac hmacKey tenant fe b topic ps = (b', r) -> only_cache b b'.
Proof.
  induction ps as [|p ps IH]; intros fe b topic b' r; cbn [fetch_partitions]; [by intros [= <- _]|].
  unfold fetch_partition. destruct (FetchAuthorized _ _ _ _ _ _ _ _ _ _) as [b1 fr] eqn:E. apply FetchAuthorized_frame in E.
  destruct (fr_data fr) as [[? ?]|?| |]; try by intros [= <- _].
  all: destruct (fetch_partitions _ _ _ _ _ _ _ ps) as [b2 r2] eqn:E2; apply IH in E2; intros [= <- _]; by etrans.
Qed.

Lemma fetch_pass_frame ts : forall fe b b' r,
  fetch_pass sha256 mac hmacKey principal tenant fe b ts = (b', r) -> only_cache b b'.
Proof.
  induction ts as [|t ts IH]; intros fe b b' r; cbn [fetch_pass]; [by intros [= <- _]|].
  destruct (fetch_topic _ _ _ _ _ _ _ _) as [b1 r1] eqn:E1.
  assert (only_cache b b1) as H1.
  { unfold fetch_topic in E1. destruct (negb _); [by injection E1 as <- _|].
    destruct (fetch_partitions _ _ _ _ _ _ _ _) as [b3 r3] eqn:E3. apply fetch_partitions_frame in E3. by injection E1 as <- _. }
  destruct r1 as [[? ?]|?| |]; try by intros [= <- _].
  destruct (fetch_pass _ _ _ _ _ _ _ ts) as [b2 r2] eqn:E2. apply IH in E2. intros [= <- _]. by etrans.
Qed.

Lemma poll_loop_frame w req fuel : forall deadline k d now b b' r,
  (forall i x, w_others w i x = x) ->
  poll_loop sha256 mac hmacKey principal tenant fuel w req deadline k d now b = (b', r) -> only_cache b b'.
Proof.
  induction fuel as [|fuel IH]; intros deadline k d now b b' r Ho; cbn [poll_loop]; [by intros [= <- _]|].
  destruct (fetch_pass _ _ _ _ _ _ _ _) as [b1 r1] eqn:Ep. apply fetch_pass_frame in Ep.
  destruct r1 as [[rs n]|?| |]; try by intros [= <- _].
  destruct (_ && _); [destruct (_ <=? 0)|]; try by intros [= <- _].
  rewrite Ho. intros H%IH; [by etrans|done].
Qed.
End answers.

(** A Fetch response answers exactly the topics and partitions asked for, in
    order, and carries no records of a topic the principal has no read grant on:
    every partition of such a topic gets the authorization error.  The grants are
    those at the last scan, on a state that differs from the final one in the
    restore cache only. *)
Theorem handleFetch_guarded sha256 mac key principal tenant w b req b' p :
  handleFetch sha256 mac key principal tenant w b req = (b', Ok p) ->
  exists b1, only_cache b1 b' /\
    Forall2 (fun t r => fetch_answer (AuthorizeTopic (b_acl b1) principal (fq_Topic t) OpRead) t r)
      (fq_Topics req) (po_Topics p).
Proof. apply poll_loop_answer. Qed.
