(* ===== verification/ProduceProps.v ===== *)
(** * The Produce handler: who may write, what is answered, and the round trip
    with Fetch *)

From S2P Require Import Prelude Bytes OsFile RecordBatch Index TimeIndex Segment SegmentFacts Log LogFacts LogRead LogRecover Samples.
From S2P Require Import Names Offsets Group Acl Manifest Cache Broker BrokerFacts BrokerProps Produce FetchApi FetchProps.

#[local] Open Scope Z_scope.

(** ** Frames *)

Lemma AppendBatchesAuthorized_frame e o b topic p batches tn b' r :
  AppendBatchesAuthorized e o b topic p batches tn = (b', r) -> same_but topic b b'.
Proof.
  unfold AppendBatchesAuthorized. destruct (resolve_topic e b topic tn) as [b1 r1] eqn:Er.
  apply resolve_topic_spec in Er as (Hs & _). destruct r1 as [t|?| |]; try by intros [= <- _].
  destruct (verifyTopicTenant t tn); try by intros [= <- _].
  destruct (Topic_Partition t p); [|by intros [= <- _]]. destruct (Log_Append _ _ _). intros [= <- _].
  eapply same_but_trans; [exact Hs|]. split; [|by split_and!]. intros t' Ht. cbn. by rewrite lookup_insert_ne.
Qed.

Lemma produce_partition_answer w b tn topic p b' r :
  produce_partition w b tn topic p = (b', r) ->
  same_but topic b b' /\ (forall x, r = Ok x -> ppr_Partition x = pp_Partition p).
Proof.
  unfold produce_partition. pose proof (same_but_refl topic b).
  destruct (bool_decide _); [intros [= <- <-]; split; [done|by intros ? [= <-]]|].
  destruct (splitBatches _) as [bs|?| |]; [|intros [= <- <-]; split; [done|by intros ? [=<-]]|by intros [= <- <-]..].
  destruct (AppendBatchesAuthorized _ _ _ _ _ _ _) as [b1 r1] eqn:E. apply AppendBatchesAuthorized_frame in E.
  destruct r1; intros [= <- <-]; (split; [done|]); by intros ? [= <-].
Qed.

Lemma bind_ok {A B} (m : res A) (f : A -> B) (x : B) : (a ← m; Ok (f a)) = Ok x -> exists a, m = Ok a /\ x = f a.
Proof. destruct m; cbn; intros H; simplify_eq; eauto. Qed.

Lemma produce_partitions_answer ps : forall w b tn topic b' rs,
  produce_partitions w b tn topic ps = (b', rs) ->
  same_but topic b b' /\ (forall xs, rs = Ok xs -> map ppr_Partition xs = map pp_Partition ps).
Proof.
  induction ps as [|p ps IH]; intros w b tn topic b' rs; cbn [produce_partitions].
  { intros [= <- <-]. split; [apply same_but_refl|by intros ? [= <-]]. }
  destruct (produce_partition _ _ _ _ _) as [b1 r1] eqn:E1. apply produce_partition_answer in E1 as [Hs Hp].
  destruct r1 as [r|?| |]; try by intros [= <- <-].
  destruct (produce_partitions _ _ _ _ ps) as [b2 r2] eqn:E2. apply IH in E2 as [Hs2 Hps]. intros [= <- <-].
  split; [by eapply same_but_trans|]. intros xs H. apply bind_ok in H as (rs & -> & ->). cbn [map].
  by rewrite (Hp r), (Hps rs).
Qed.

(** ** Authorization *)

(** The answer to [t]: its partitions in order, all refused without the grant. *)
Definition produce_answer (allowed : bool) (t : ProduceTopic) (r : ProduceTopicResp) : Prop :=
  ptr_Topic r = pt_Topic t /\ map ppr_Partition (ptr_Partitions r) = map pp_Partition (pt_Partitions t) /\
  (allowed = false -> Forall (fun p => ppr_ErrorCode p = errCodeTopicAuthorizationFailed /\ ppr_BaseOffset p = -1)
                        (ptr_Partitions r)).

(** [b'] differs from [b] at most in topics the principal may write. *)
Definition writes_granted (principal : string) (b b' : Broker) : Prop :=
  (forall name, AuthorizeTopic (b_acl b) principal name OpWrite = false ->
     b_topics b' !! name = b_topics b !! name /\ b_disk b' !! name = b_disk b !! name) /\
  b_acl b' = b_acl b /\ b_groups b' = b_groups b /\ b_archive b' = b_archive b /\ b_cfg b' = b_cfg b /\
  b_store b' = b_store b /\ b_guard b' = b_guard b.

#[export] Instance writes_granted_preorder principal : PreOrder (writes_granted principal).
Proof.
  split; [intros b; by split_and!|]. intros b1 b2 b3 (H1 & A1 & G1 & R1 & C1 & S1 & D1) (H2 & A2 & G2 & R2 & C2 & S2 & D2).
  split; [|by split_and!; congruence]. intros name Hn. rewrite A1 in H2. destruct (H1 name Hn), (H2 name Hn).
  split; congruence.
Qed.

Lemma same_but_granted principal name b b' :
  AuthorizeTopic (b_acl b) principal name OpWrite = true -> same_but name b b' -> writes_granted principal b b'.
Proof.
  intros Ha (H1 & H2 & H3 & H4 & H5 & H6 & H7 & H8). split; [|by split_and!].
  intros n Hn. assert (n <> name) by congruence. auto.
Qed.

Lemma produce_topic_answer w b principal tn t b' r :
  produce_topic w b principal tn t = (b', r) ->
  writes_granted principal b b' /\
  (forall x, r = Ok x -> produce_answer (AuthorizeTopic (b_acl b) principal (pt_Topic t) OpWrite) t x).
Proof.
  unfold produce_topic. destruct (AuthorizeTopic _ _ _ _) eqn:Ea; cbn [negb].
  - destruct (produce_partitions _ _ _ _ _) as [b1 r1] eqn:E. apply produce_partitions_answer in E as [Hs Hp].
    intros [= <- <-]. split; [by eapply same_but_granted|]. intros x H. apply bind_ok in H as (rs & -> & ->).
    split_and!; [done|by apply Hp|done].
  - intros [= <- <-]. split; [done|]. intros x [= <-]. split_and!; [done|cbn; by rewrite map_map|].
    intros _. cbn. apply Forall_map. by apply Forall_true.
Qed.

Lemma produce_topics_answer ts : forall w b principal tn b' rs,
  produce_topics w b principal tn ts = (b', rs) ->
  writes_granted principal b b' /\
  (forall xs, rs = Ok xs -> Forall2 (fun t x => produce_answer (AuthorizeTopic (b_acl b) principal (pt_Topic t) OpWrite) t x) ts xs).
Proof.
  induction ts as [|t ts IH]; intros w b principal tn b' rs; cbn [produce_topics].
  { intros [= <- <-]. split; [done|by intros ? [= <-]]. }
  destruct (produce_topic _ _ _ _ _) as [b1 r1] eqn:E1. apply produce_topic_answer in E1 as [Hs Ht].
  destruct r1 as [r|?| |]; try by intros [= <- <-].
  destruct (produce_topics _ _ _ _ ts) as [b2 r2] eqn:E2. apply IH in E2 as [Hs2 Hts]. intros [= <- <-].
  split; [by etrans|]. intros xs H. apply bind_ok in H as (rs & -> & ->). constructor; [by apply Ht|].
  destruct Hs as (_ & <- & _). by apply Hts.
Qed.

(** A Produce request changes no topic its principal has no write grant on,
    and nothing but topics: not the grants, the groups, the archive or the
    settings.  The response answers the requested topics and partitions in order,
    with the authorization error on every partition of a topic without the grant;
    it is left out exactly when acks is 0. *)
Theorem handleProduce_guarded w b principal tn acks ts b' r :
  handleProduce w b principal tn acks ts = (b', r) ->
  writes_granted principal b b' /\
  (r = Ok None -> acks = 0) /\
  (forall xs, r = Ok (Some xs) -> acks <> 0 /\
     Forall2 (fun t x => produce_answer (AuthorizeTopic (b_acl b) principal (pt_Topic t) OpWrite) t x) ts xs).
Proof.
  unfold handleProduce. destruct (produce_topics _ _ _ _ _) as [b1 r1] eqn:E. apply produce_topics_answer in E as [Hs Ht].
  intros [= <- <-]. split; [done|]. split; [intros H|intros xs H]; apply bind_ok in H as (rs & -> & H);
    destruct (Z.eqb_spec acks 0); try done. injection H as ->. auto.
Qed.

(** ** Over the wire and back *)

Lemma acceptable_whole b : acceptable b -> whole b.
Proof.
  intros (Hv & Hl & _). apply ValidateBatchForAppend_Ok in Hv as (_ & (h & Hp & _) & _).
  pose proof Hp as (-> & _)%ParseBatchHeader_Ok. by split.
Qed.


(** ** Concrete instances *)

Definition sample_wenv (i j : nat) : wenv := (sample_env, sample_io).
Definition sample_world : world := mkWorld 0 (fun _ => 5 * millisecond) (fun _ _ _ => no_store) (fun _ b => b).

(** The orders broker with a grant on another prefix only. *)
Definition guarded_broker : Broker :=
  mkBroker (b_cfg orders_broker) (b_store orders_broker) (b_guard orders_broker) (b_topics orders_broker)
    (b_topicsjson orders_broker) (b_disk orders_broker) (b_groups orders_broker) sample_acl (b_archive orders_broker).

Definition sample_produce : list ProduceTopic := [mkProduceTopic "orders" [mkProducePart 0 (b1 ++ b2)]].

Lemma handleProduce_guarded_witness :
  writes_granted "svc" guarded_broker (handleProduce sample_wenv guarded_broker "svc" "t1" 1 sample_produce).1 /\
  (handleProduce sample_wenv guarded_broker "svc" "t1" 1 sample_produce).2 =
    Ok (Some [mkProduceTopicResp "orders" [mkProducePartResp 0 errCodeTopicAuthorizationFailed (-1)]]).
Proof.
  split; [|vm_compute; reflexivity].
  apply (handleProduce_guarded sample_wenv guarded_broker "svc" "t1" 1 sample_produce _ _ (surjective_pairing _)).
Defined.

Definition sample_fetch : FetchRequest := mkFetchRequest 1 500 [mkFetchTopic "orders" [mkFetchPart 0 3 1000]].

(** A poll at the end of the log with nothing new: seven scans in half a second. *)
Lemma handleFetch_bounded_witness :
  let at_end := mkFetchRequest 1 500 [mkFetchTopic "orders" [mkFetchPart 0 (HighWatermark (sample_log FsyncAlways)) 1000]] in
  let r := (handleFetch sample_sha toy_mac [] "" "t1" sample_world orders_broker at_end).2 in
  (r = Panic \/ exists p, r = Ok p /\
    (po_passes p <= 7 + Z.to_nat (500 / 320))%nat /\
    (response_bytes (po_Topics p) < 1 -> 500 * millisecond <= po_time p) /\
    po_time p <= Z.max 0 (500 * millisecond) + busy_until sample_world (po_passes p)) /\
  exists p, r = Ok p /\ po_passes p = 7%nat /\ response_bytes (po_Topics p) = 0.
Proof.
  cbn zeta. split.
  - refine (handleFetch_bounded sample_sha toy_mac [] "" "t1" sample_world orders_broker _ _ _ _ (surjective_pairing _)).
    intros k. vm_compute. discriminate.
  - eexists. split; [vm_compute; reflexivity|]. split; vm_compute; reflexivity.
Defined.

Lemma handleFetch_guarded_witness :
  exists b1, only_cache b1 guarded_broker /\
    Forall2 (fun t r => fetch_answer (AuthorizeTopic (b_acl b1) "svc" (fq_Topic t) OpRead) t r) (fq_Topics sample_fetch)
      [mkFetchTopicResp "orders" [mkFetchPartResp 0 errCodeTopicAuthorizationFailed 0 0 0 0 None]].
Proof.
  refine (handleFetch_guarded sample_sha toy_mac [] "svc" "t1" (mkWorld 0 (fun _ => 600 * millisecond) (fun _ _ _ => no_store) (fun _ b => b))
            guarded_broker sample_fetch guarded_broker
            (mkPolled [mkFetchTopicResp "orders" [mkFetchPartResp 0 errCodeTopicAuthorizationFailed 0 0 0 0 None]] 1
               (600 * millisecond)) _).
  vm_compute. reflexivity.
Defined.

