(* ===== verification/TopicApi.v ===== *)
(** * The topic handlers (internal/wire/list_offsets.go, metadata.go,
    create_topics.go, describe_apis.go)

    ListOffsets, Metadata, CreateTopics, DeleteTopics and DescribeConfigs over
    decoded requests.  [e k] is how the file system behaves for the [k]-th topic
    of a request. *)

From S2P Require Import Prelude Bytes OsFile RecordBatch Segment Log Names Offsets Group Acl Manifest Cache Broker Produce.
From stdpp Require Import pretty.

#[local] Open Scope Z_scope.

(** ** ListOffsets *)

Record ListOffsetsPart := mkListOffsetsPart { lq_Partition : Z; lq_Timestamp : Z }.
Record ListOffsetsTopic := mkListOffsetsTopic { lq_Topic : string; lq_Partitions : list ListOffsetsPart }.
Record ListOffsetsPartResp := mkListOffsetsPartResp { lo_Partition : Z; lo_ErrorCode : Z; lo_Timestamp : Z; lo_Offset : Z }.
Record ListOffsetsTopicResp := mkListOffsetsTopicResp { lo_Topic : string; lo_Partitions : list ListOffsetsPartResp }.

Definition list_offsets_partition (b : Broker) (topic : string) (p : ListOffsetsPart) : res ListOffsetsPartResp :=
  match ListOffsets b topic (lq_Partition p) (lq_Timestamp p) with
  | Ok (off, ts) => Ok (mkListOffsetsPartResp (lq_Partition p) errCodeNone ts off)
  | Err err =>
      Ok (mkListOffsetsPartResp (lq_Partition p)
            (if errors_is err ErrUnknownTopic || errors_is err ErrUnknownPartition then errCodeUnknownTopicOrPart
             else errCodeCorruptMessage) 0 0)
  | _ => Panic
  end.

Fixpoint mapM_res {A B} (f : A -> res B) (l : list A) : res (list B) :=
  match l with
  | [] => Ok []
  | x :: l => y ← f x; ys ← mapM_res f l; Ok (y :: ys)
  end.

Definition handleListOffsets (b : Broker) (principal : string) (ts : list ListOffsetsTopic) : res (list ListOffsetsTopicResp) :=
  mapM_res (fun t =>
    if negb (AuthorizeTopic (b_acl b) principal (lq_Topic t) OpRead)
    then Ok (mkListOffsetsTopicResp (lq_Topic t)
               (map (fun p => mkListOffsetsPartResp (lq_Partition p) errCodeTopicAuthorizationFailed 0 0) (lq_Partitions t)))
    else rs ← mapM_res (list_offsets_partition b (lq_Topic t)) (lq_Partitions t); Ok (mkListOffsetsTopicResp (lq_Topic t) rs)) ts.

(** ** Metadata *)

(** A requested topic may have a null name. *)
Record MetadataRequest := mkMetadataRequest { mq_Topics : list (option string); mq_AllowAutoTopicCreation : bool }.

Record MetadataBroker := mkMetadataBroker { mb_NodeID : Z; mb_Host : string; mb_Port : Z }.
Record MetadataPart := mkMetadataPart { mp_Partition : Z; mp_Leader : Z; mp_Replicas : list Z; mp_ISR : list Z }.
Record MetadataTopic := mkMetadataTopic {
  mt_Topic : string; mt_ErrorCode : Z; mt_AuthorizedOperations : Z; mt_Partitions : list MetadataPart }.
Record MetadataResponse := mkMetadataResponse {
  mr_ClusterID : string; mr_ControllerID : Z; mr_Brokers : list MetadataBroker; mr_Topics : list MetadataTopic }.

Definition notIncluded : Z := -2147483648.

(** What the principal may see. *)
Definition visible (b : Broker) (principal name : string) : bool :=
  AuthorizeTopic (b_acl b) principal name OpRead || AuthorizeTopic (b_acl b) principal name OpWrite.

Definition metadata_of (b : Broker) (name : string) (t : option Topic) : MetadataTopic :=
  match t with
  | None => mkMetadataTopic name errCodeUnknownTopicOrPart 0 []
  | Some t =>
      let id := BrokerID (b_cfg b) in
      mkMetadataTopic name errCodeNone notIncluded
        (map (fun p => mkMetadataPart p.1 id [id] [id]) (t_partitions t))
  end.

(** The topic found or, with [autoCreate], created. *)
Definition find_or_create (e : openenv) (b : Broker) (autoCreate : bool) (name : string) : Broker * res (option Topic) :=
  match b_topics b !! name with
  | Some t => (b, Ok (Some t))
  | None =>
      if autoCreate then
        match EnsureTopicForTenant e b name 1 "" with
        | (b, Ok _) => (b, Ok (b_topics b !! name))
        | (b, Err _) => (b, Ok None)
        | (b, _) => (b, Panic)
        end
      else (b, Ok None)
  end.

Fixpoint metadata_loop (e : nat -> openenv) (b : Broker) (principal : string) (includeAll autoCreate : bool) (names : list string)
  : Broker * res (list MetadataTopic) :=
  match names with
  | [] => (b, Ok [])
  | name :: names =>
      if negb (visible b principal name) then
        if includeAll then metadata_loop (fun k => e (S k)) b principal includeAll autoCreate names
        else
          let '(b, rs) := metadata_loop (fun k => e (S k)) b principal includeAll autoCreate names in
          (b, rs ← rs; Ok (mkMetadataTopic name errCodeUnknownTopicOrPart notIncluded [] :: rs))
      else
        match find_or_create (e 0%nat) b autoCreate name with
        | (b, Ok t) =>
            let r := metadata_of b name t in
            let '(b, rs) := metadata_loop (fun k => e (S k)) b principal includeAll autoCreate names in
            (b, rs ← rs; Ok (r :: rs))
        | (b, _) => (b, Panic)
        end
  end.

Definition somes {A} (l : list (option A)) : list A := flat_map (fun o => match o with Some a => [a] | None => [] end) l.

(** [all]: the registered topics in Go's map iteration order. *)
Definition handleMetadata (e : nat -> openenv) (all : gmap string Topic -> list string) (b : Broker) (principal : string)
    (req : MetadataRequest) : Broker * res MetadataResponse :=
  let includeAll := bool_decide (mq_Topics req = []) in
  let names := if includeAll then all (b_topics b) else somes (mq_Topics req) in
  let autoCreate := mq_AllowAutoTopicCreation req && AutoCreateTopics (b_cfg b) in
  let c := b_cfg b in
  let '(b, rs) := metadata_loop e b principal includeAll autoCreate names in
  (b, rs ← rs; Ok (mkMetadataResponse (ClusterID c) (BrokerID c)
                     [mkMetadataBroker (BrokerID c) (AdvertisedHost c) (AdvertisedPort c)] rs)).

(** ** CreateTopics and DeleteTopics *)

Record CreateTopicReq := mkCreateTopicReq { cq_Topic : string; cq_NumPartitions : Z; cq_ReplicationFactor : Z }.
Record CreateTopicResp := mkCreateTopicResp { cr_Topic : string; cr_ErrorCode : Z; cr_NumPartitions : Z; cr_ReplicationFactor : Z }.

Definition create_error_code (err : error) : Z :=
  if errors_is err ErrTopicExists then errCodeTopicAlreadyExists
  else if errors_is err ErrInvalidName then errCodeInvalidTopic
  else errCodeInvalidPartitions.

Definition create_one (e : openenv) (b : Broker) (principal : string) (validateOnly : bool) (t : CreateTopicReq)
  : Broker * res CreateTopicResp :=
  let fail code := Ok (mkCreateTopicResp (cq_Topic t) code 0 0) in
  if negb (AuthorizeTopic (b_acl b) principal (cq_Topic t) OpWrite) then (b, fail errCodeTopicAuthorizationFailed)
  else
    let partitions := if cq_NumPartitions t <=? 0 then 1 else cq_NumPartitions t in
    let repFactor := if cq_ReplicationFactor t <=? 0 then 1 else cq_ReplicationFactor t in
    if validateOnly then (b, fail errCodeNone)
    else match CreateTopic e b (cq_Topic t) partitions repFactor with
    | (b, Ok _) => (b, Ok (mkCreateTopicResp (cq_Topic t) errCodeNone partitions repFactor))
    | (b, Err err) => (b, fail (create_error_code err))
    | (b, _) => (b, Panic)
    end.

Record DeleteTopicResp := mkDeleteTopicResp { dr_Topic : string; dr_ErrorCode : Z }.

Definition delete_one (e : openenv) (b : Broker) (principal : string) (name : string) : Broker * res DeleteTopicResp :=
  if negb (AuthorizeTopic (b_acl b) principal name OpWrite) then (b, Ok (mkDeleteTopicResp name errCodeTopicAuthorizationFailed))
  else match DeleteTopic e b name with
  | (b, Ok _) => (b, Ok (mkDeleteTopicResp name errCodeNone))
  | (b, Err err) =>
      (b, Ok (mkDeleteTopicResp name (if errors_is err ErrUnknownTopic then errCodeUnknownTopicOrPart else errCodeCorruptMessage)))
  | (b, _) => (b, Panic)
  end.

(** The [for] loop of both handlers: one step per element, stopping at a panic. *)
Fixpoint each {A B} (step : openenv -> Broker -> A -> Broker * res B) (e : nat -> openenv) (b : Broker) (l : list A)
  : Broker * res (list B) :=
  match l with
  | [] => (b, Ok [])
  | x :: l =>
      match step (e 0%nat) b x with
      | (b, Ok r) => let '(b, rs) := each step (fun k => e (S k)) b l in (b, rs ← rs; Ok (r :: rs))
      | (b, _) => (b, Panic)
      end
  end.

Definition handleCreateTopics (e : nat -> openenv) (b : Broker) (principal : string) (validateOnly : bool) (ts : list CreateTopicReq)
  : Broker * res (list CreateTopicResp) :=
  each (fun e b => create_one e b principal validateOnly) e b ts.

Definition handleDeleteTopics (e : nat -> openenv) (b : Broker) (principal : string) (topicNames : list string) (topics : list (option string))
  : Broker * res (list DeleteTopicResp) :=
  each (fun e b => delete_one e b principal) e b (topicNames ++ somes topics).

(** ** DescribeConfigs *)

Definition ConfigResourceTypeTopic : Z := 2.
Definition ConfigResourceTypeBroker : Z := 4.

Record ConfigResource := mkConfigResource { rq_ResourceType : Z; rq_ResourceName : string }.
Record ConfigResourceResp := mkConfigResourceResp {
  rr_ResourceType : Z; rr_ResourceName : string; rr_ErrorCode : Z; rr_Configs : list (string * string) }.

Definition describe_resource (b : Broker) (r : ConfigResource) : ConfigResourceResp :=
  let reply := mkConfigResourceResp (rq_ResourceType r) (rq_ResourceName r) in
  if rq_ResourceType r =? ConfigResourceTypeTopic then
    match b_topics b !! rq_ResourceName r with
    | None => reply errCodeUnknownTopicOrPart []
    | Some t =>
        let cfg := t_cfg t in
        reply errCodeNone
          [("retention.ms", pretty (RetentionMS cfg)); ("retention.bytes", pretty (RetentionBytes cfg));
           ("segment.bytes", pretty (tc_SegmentBytes cfg)); ("num.partitions", pretty (NumPartitions cfg));
           ("replication.factor", pretty (ReplicationFactor cfg))]
    end
  else if rq_ResourceType r =? ConfigResourceTypeBroker then
    let c := b_cfg b in
    reply errCodeNone
      [("broker.id", pretty (BrokerID c)); ("cluster.id", ClusterID c);
       ("auto.create.topics.enable", if AutoCreateTopics c then "true" else "false")]
  else reply errCodeUnsupportedVersion [].

Definition handleDescribeConfigs (b : Broker) (rs : list ConfigResource) : list ConfigResourceResp := map (describe_resource b) rs.
