(* ===== verification/TopicProps.v ===== *)
(** * The topic handlers: what a principal can learn and change *)

From S2P Require Import Prelude Bytes OsFile RecordBatch Index TimeIndex Segment SegmentFacts Log LogFacts LogRead LogRecover Samples.
From S2P Require Import Names Offsets Group Acl Manifest Cache Broker BrokerFacts BrokerProps Produce ProduceProps TopicApi.

#[local] Open Scope Z_scope.

(** ** Metadata discloses nothing outside the grants *)

(** Two brokers a principal cannot tell apart: they agree on the settings, the
    grants, and on every topic the principal may see. *)
Record agree (principal : string) (b1 b2 : Broker) : Prop := {
  agree_cfg : b_cfg b1 = b_cfg b2;
  agree_acl : b_acl b1 = b_acl b2;
  agree_store : b_store b1 = b_store b2;
  agree_guard : b_guard b1 = b_guard b2;
  agree_topics : forall name, visible b1 principal name = true -> b_topics b1 !! name = b_topics b2 !! name;
  agree_disk : forall name, visible b1 principal name = true -> b_disk b1 !! name = b_disk b2 !! name
}.

Lemma agree_visible principal b1 b2 name : agree principal b1 b2 -> visible b2 principal name = visible b1 principal name.
Proof. intros H. unfold visible. by rewrite (agree_acl _ _ _ H). Qed.

(** An operation on the topic [name] alone keeps the agreement. *)
Lemma agree_put principal name b1 b2 ts1 ts2 d1 d2 t d :
  agree principal b1 b2 -> ts1 = <[name := t]> (b_topics b1) -> ts2 = <[name := t]> (b_topics b2) ->
  d1 = <[name := d]> (b_disk b1) -> d2 = <[name := d]> (b_disk b2) ->
  agree principal (set_disk (set_topics b1 ts1) d1) (set_disk (set_topics b2 ts2) d2).
Proof.
  intros [] -> -> -> ->. split; cbn; [done..| |]; intros n Hn;
    (destruct (decide (n = name)) as [->|]; [by rewrite !lookup_insert_eq|rewrite !lookup_insert_ne by done; by auto]).
Qed.

Lemma agree_disk_put principal name b1 b2 d :
  agree principal b1 b2 ->
  agree principal (set_disk b1 (<[name := d]> (b_disk b1))) (set_disk b2 (<[name := d]> (b_disk b2))).
Proof.
  intros []. split; cbn; [done..| |]; intros n Hn; [by auto|].
  destruct (decide (n = name)) as [->|]; [by rewrite !lookup_insert_eq|rewrite !lookup_insert_ne by done; by auto].
Qed.

Lemma open_partitions_ext f g n : forall i, (forall p, f p = g p) -> open_partitions f i n = open_partitions g i n.
Proof. induction n as [|n IH]; intros i H; [done|]. cbn [open_partitions]. by rewrite H, IH. Qed.

Lemma Registry_Create_agree principal e name cfg b1 b2 :
  plain b1 -> plain b2 -> path_component name -> agree principal b1 b2 -> visible b1 principal name = true ->
  let r1 := Registry_Create e b1 name cfg in let r2 := Registry_Create e b2 name cfg in
  r1.2 = r2.2 /\ agree principal r1.1 r2.1.
Proof.
  intros Hp1 Hp2 Hc H Hv. cbn zeta. unfold Registry_Create. destruct (String.eqb name ""); [by split|].
  rewrite (agree_topics _ _ _ H name Hv). destruct (b_topics b2 !! name) eqn:E2; [by split|].
  pose proof (agree_topics _ _ _ H name Hv) as E1. rewrite E2 in E1.
  rewrite (open_partitions_ext (Storage_OpenLog e b1 name) (Storage_OpenLog e b2 name)).
  2:{ intros p. unfold Storage_OpenLog. rewrite !dir_at_plain by done.
      by rewrite (agree_disk _ _ _ H name Hv), (agree_store _ _ _ H), (agree_guard _ _ _ H). }
  rewrite (agree_disk _ _ _ H name Hv).
  destruct (open_partitions _ _ _) as [parts r]. destruct r; (split; [done|]).
  1: by eapply agree_put. all: by apply agree_disk_put.
Qed.

Lemma EnsureTopic_agree principal e name n tn b1 b2 :
  plain b1 -> plain b2 -> path_component name -> agree principal b1 b2 -> visible b1 principal name = true ->
  let r1 := EnsureTopicForTenant e b1 name n tn in let r2 := EnsureTopicForTenant e b2 name n tn in
  r1.2 = r2.2 /\ agree principal r1.1 r2.1.
Proof.
  intros Hp1 Hp2 Hc H Hv. cbn zeta. unfold EnsureTopicForTenant. rewrite (agree_topics _ _ _ H name Hv), (agree_cfg _ _ _ H), (agree_store _ _ _ H).
  destruct (b_topics b2 !! name); [by split|]. destruct (AutoCreateTopics _); [|by split]. cbn [negb].
  match goal with |- context [Registry_Create e b1 name ?c] => destruct (Registry_Create_agree principal e name c b1 b2 Hp1 Hp2 Hc H Hv) as [Hr Ha];
    destruct (Registry_Create e b1 name c) as [b1' r1], (Registry_Create e b2 name c) as [b2' r2] end.
  cbn in *. subst r2. destruct r1; try by split. unfold persistTopicsLocked. destruct (oe_persist e); [|by split].
  split; [done|]. destruct Ha. by split.
Qed.

Lemma find_or_create_plain e auto name b : plain b -> path_component name -> plain (find_or_create e b auto name).1.
Proof.
  intros Hp Hc. unfold find_or_create. destruct (b_topics b !! name); [done|]. destruct auto; [|done].
  destruct (EnsureTopicForTenant e b name 1 "") as [b' r] eqn:E. apply EnsureTopic_spec in E as (Hs & _).
  pose proof (same_but_plain _ _ _ Hc Hp Hs). by destruct r.
Qed.

Lemma find_or_create_agree principal e auto name b1 b2 :
  plain b1 -> plain b2 -> path_component name -> agree principal b1 b2 -> visible b1 principal name = true ->
  let r1 := find_or_create e b1 auto name in let r2 := find_or_create e b2 auto name in
  r1.2 = r2.2 /\ agree principal r1.1 r2.1 /\ (forall n, visible r1.1 principal n = visible b1 principal n).
Proof.
  intros Hp1 Hp2 Hc H Hv. cbn zeta. unfold find_or_create. rewrite (agree_topics _ _ _ H name Hv).
  destruct (b_topics b2 !! name); [by split_and!|]. destruct auto; [|by split_and!].
  pose proof (EnsureTopic_agree principal e name 1 "" b1 b2 Hp1 Hp2 Hc H Hv) as [Hr Ha].
  destruct (EnsureTopicForTenant e b1 name 1 "") as [b1' r1] eqn:E1, (EnsureTopicForTenant e b2 name 1 "") as [b2' r2].
  cbn in *. subst r2. apply EnsureTopic_spec in E1 as ((_ & _ & _ & Hacl & _) & _).
  assert (forall n, visible b1' principal n = visible b1 principal n) as Hvis by (intros; unfold visible; by rewrite Hacl).
  destruct r1; cbn; split_and!; try done. f_equal. apply (agree_topics _ _ _ Ha). by rewrite Hvis.
Qed.

Lemma metadata_loop_agree principal all auto names : Forall path_component names -> forall e b1 b2,
  plain b1 -> plain b2 -> agree principal b1 b2 ->
  (metadata_loop e b1 principal all auto names).2 = (metadata_loop e b2 principal all auto names).2.
Proof.
  induction 1 as [|name names Hc _ IH]; intros e b1 b2 Hp1 Hp2 H; cbn [metadata_loop]; [done|].
  rewrite (agree_visible _ _ _ name H). destruct (visible b1 principal name) eqn:Hv; cbn [negb].
  - destruct (find_or_create_agree principal (e 0%nat) auto name b1 b2 Hp1 Hp2 Hc H Hv) as (Hr & Ha & _).
    pose proof (find_or_create_plain (e 0%nat) auto name b1 Hp1 Hc) as Hq1.
    pose proof (find_or_create_plain (e 0%nat) auto name b2 Hp2 Hc) as Hq2.
    destruct (find_or_create _ b1 _ _) as [b1' r1], (find_or_create _ b2 _ _) as [b2' r2]. cbn in Hr, Ha, Hq1, Hq2. subst r2.
    destruct r1 as [t| | |]; try done. specialize (IH (fun k => e (S k)) _ _ Hq1 Hq2 Ha).
    destruct (metadata_loop _ b1' _ _ _ _), (metadata_loop _ b2' _ _ _ _). cbn in *. subst.
    unfold metadata_of. by rewrite (agree_cfg _ _ _ Ha).
  - specialize (IH (fun k => e (S k)) _ _ Hp1 Hp2 H). destruct all; [done|].
    destruct (metadata_loop _ b1 _ _ _ _), (metadata_loop _ b2 _ _ _ _). cbn in *. by subst.
Qed.

(** Listing every topic. *)
Lemma metadata_loop_all principal auto names : forall e b,
  Forall (fun n => is_Some (b_topics b !! n)) names ->
  metadata_loop e b principal true auto names =
    (b, Ok (map (fun n => metadata_of b n (b_topics b !! n)) (List.filter (visible b principal) names))).
Proof.
  induction names as [|n names IH]; intros e b H; [done|]. apply Forall_cons in H as [[t Ht] Hns].
  cbn [metadata_loop List.filter]. destruct (visible b principal n); cbn [negb map]; [|by apply IH].
  unfold find_or_create. rewrite Ht, IH by done. done.
Qed.

(** Go's iteration over the registry visits registered names. *)
Definition enumerates (all : gmap string Topic -> list string) : Prop :=
  forall ts, Forall (fun n => is_Some (ts !! n)) (all ts).

(** C20: Metadata cannot be used to probe for topics by plain names: on two
    brokers whose topic names are plain and that agree on the topics a principal
    has a grant on, a request for plain names gets the same answer, whatever other
    topics exist in one and not in the other, and whether or not topics are
    created on the way.  The file system is taken to answer alike on both, which
    for a plain name does not depend on the other topics' directories; a name with
    separators can denote a path inside one of them ([alias_reads_other_tenant]),
    and whether it can be created then tells.  For a request that lists all
    topics, the two registries need only be iterated in the same order on the
    topics the principal sees. *)
Theorem metadata_noninterference e all1 all2 b1 b2 principal req :
  plain b1 -> plain b2 -> Forall path_component (somes (mq_Topics req)) ->
  agree principal b1 b2 -> enumerates all1 -> enumerates all2 ->
  List.filter (visible b1 principal) (all1 (b_topics b1)) = List.filter (visible b1 principal) (all2 (b_topics b2)) ->
  (handleMetadata e all1 b1 principal req).2 = (handleMetadata e all2 b2 principal req).2.
Proof.
  intros Hp1 Hp2 Hnames H He1 He2 Hf. unfold handleMetadata. rewrite (agree_cfg _ _ _ H).
  destruct (decide (mq_Topics req = [])) as [->|Hne].
  - rewrite !bool_decide_true by done. rewrite !metadata_loop_all by auto. cbn. do 2 f_equal.
    rewrite (filter_ext (visible b2 principal) (visible b1 principal)) by (intros; by apply agree_visible).
    rewrite <- Hf. apply map_ext_in. intros n [_ Hv]%filter_In. rewrite (agree_topics _ _ _ H n Hv).
    unfold metadata_of. by rewrite (agree_cfg _ _ _ H).
  - rewrite !bool_decide_false by done.
    pose proof (metadata_loop_agree principal false (mq_AllowAutoTopicCreation req && AutoCreateTopics (b_cfg b2))
                  (somes (mq_Topics req)) Hnames e b1 b2 Hp1 Hp2 H) as Hl.
    destruct (metadata_loop _ b1 _ _ _ _), (metadata_loop _ b2 _ _ _ _). cbn in *. by subst.
Qed.

(** ** Creating and deleting *)

Definition archive_of (b : Broker) (name : string) : list SegmentEntry :=
  match b_archive b with Some a => AllForTopic (ar_manifest a) name | None => [] end.

(** [b'] differs from [b] at most in topics the principal may write: their
    partitions, their files and their archived segments. *)
Definition admin_granted (principal : string) (b b' : Broker) : Prop :=
  (forall name, AuthorizeTopic (b_acl b) principal name OpWrite = false ->
     b_topics b' !! name = b_topics b !! name /\ b_disk b' !! name = b_disk b !! name /\ archive_of b' name = archive_of b name) /\
  b_acl b' = b_acl b /\ b_groups b' = b_groups b /\ b_cfg b' = b_cfg b /\ b_store b' = b_store b.

#[export] Instance admin_granted_preorder principal : PreOrder (admin_granted principal).
Proof.
  split; [intros b; by split_and!|]. intros b1 b2 b3 (H1 & A1 & G1 & C1 & S1) (H2 & A2 & G2 & C2 & S2).
  split; [|by split_and!; congruence]. intros name Hn. rewrite A1 in H2.
  destruct (H1 name Hn) as (? & ? & ?), (H2 name Hn) as (? & ? & ?). split_and!; congruence.
Qed.

Lemma writes_admin principal b b' : writes_granted principal b b' -> admin_granted principal b b'.
Proof.
  intros (H & Ha & Hg & Har & Hc & Hs & _). split; [|done]. intros name Hn. destruct (H name Hn).
  unfold archive_of. by rewrite Har.
Qed.

Lemma CreateTopic_frame e b name n rf b' r : CreateTopic e b name n rf = (b', r) -> same_but name b b'.
Proof.
  unfold CreateTopic. pose proof (same_but_refl name b) as Hr. destruct (ValidateName _ _); try by intros [= <- _].
  destruct (_ >? _); [by intros [= <- _]|]. destruct (Registry_Create _ _ _ _) as [b1 r1] eqn:E.
  apply Registry_Create_spec in E as (Hs & _). destruct r1; try by intros [= <- _].
  intros Hp. apply persistTopics_spec in Hp as (_ & Hp & _). eapply same_but_trans; [exact Hs|apply Hp].
Qed.

Lemma ForgetTopic_other ok1 ok2 m topic t :
  t <> topic -> AllForTopic (ForgetTopic ok1 ok2 m topic).1 t = AllForTopic m t.
Proof.
  intros Hne. unfold ForgetTopic, AllForTopic. rewrite (proj1 (flushBoth_state _ _ _)). cbn.
  induction (mf_completed m) as [|e es IH]; [done|]. cbn [List.filter].
  destruct (String.eqb_spec (se_Topic e) topic) as [E|], (String.eqb_spec (se_Topic e) t) as [E'|]; cbn [negb List.filter];
    rewrite ?E', ?IH; try done; [congruence|by rewrite (proj2 (String.eqb_eq _ _))|by rewrite (proj2 (String.eqb_neq _ _))].
Qed.

(** What [DeleteTopic] leaves alone, whatever fails on the way. *)
Definition deleted_but (name : string) (b b' : Broker) : Prop :=
  (forall t, t <> name -> b_topics b' !! t = b_topics b !! t /\ b_disk b' !! t = b_disk b !! t /\ archive_of b' t = archive_of b t) /\
  b_acl b' = b_acl b /\ b_groups b' = b_groups b /\ b_cfg b' = b_cfg b /\ b_store b' = b_store b.

Lemma forget_archive_other e a name t a' errs :
  t <> name -> forget_archive e a name = (a', errs) ->
  match a' with Some a => AllForTopic (ar_manifest a) t | None => [] end =
  match a with Some a => AllForTopic (ar_manifest a) t | None => [] end.
Proof.
  intros Hne. unfold forget_archive. destruct a as [a|]; [|by intros [= <- _]].
  pose proof (ForgetTopic_other (oe_flush e).1 (oe_flush e).2 (ar_manifest a) name t Hne) as H.
  destruct (ForgetTopic _ _ _ _) as [m [| | |]]; by intros [= <- _].
Qed.

Lemma DeleteTopic_frame e b name b' r : DeleteTopic e b name = (b', r) -> deleted_but name b b'.
Proof.
  assert (deleted_but name b b) as Hrefl by (split; [intros t _; by split_and!|by split_and!]).
  unfold DeleteTopic, Registry_Delete. destruct (ValidateName _ _); try by intros [= <- _].
  destruct (b_topics b !! name) as [t|]; [|by intros [= <- _]].
  destruct (oe_close e).
  2:{ intros [= <- _]. split; [|by split_and!]. intros t' Ht. cbn. by rewrite !lookup_insert_ne. }
  unfold persistTopicsLocked. destruct (oe_persist e).
  2:{ intros [= <- _]. split; [|by split_and!]. intros t' Ht. cbn. by rewrite lookup_insert_ne, lookup_delete_ne. }
  cbn [set_topics set_disk set_topicsjson b_archive].
  destruct (forget_archive e (b_archive b) name) as [ar errs] eqn:Ef.
  destruct (oe_remove e); intros [= <- _]; (split; [|by split_and!]); intros t' Ht; cbn; unfold archive_of; cbn;
    rewrite (forget_archive_other _ _ _ _ _ _ Ht Ef);
    rewrite ?lookup_delete_ne, ?lookup_insert_ne by done; done.
Qed.

Lemma deleted_but_granted principal name b b' :
  AuthorizeTopic (b_acl b) principal name OpWrite = true -> deleted_but name b b' -> admin_granted principal b b'.
Proof. intros Ha (H & Hrest). split; [|done]. intros n Hn. apply H. congruence. Qed.

(** A loop of steps that each keep [R] keeps it; its answers are those of the
    steps, in order. *)
Lemma each_spec {A B} (step : openenv -> Broker -> A -> Broker * res B) (R : Broker -> Broker -> Prop) `{!PreOrder R}
    (Q : Broker -> A -> B -> Prop) :
  (forall e b x b' r, step e b x = (b', r) -> R b b' /\ (forall y, r = Ok y -> Q b x y)) ->
  (forall b b' x y, R b b' -> Q b' x y -> Q b x y) ->
  forall l e b b' rs, each step e b l = (b', rs) -> R b b' /\ (forall ys, rs = Ok ys -> Forall2 (Q b) l ys).
Proof.
  intros Hstep HQ. induction l as [|x l IH]; intros e b b' rs; cbn [each].
  { intros [= <- <-]. split; [done|]. by intros ? [= <-]. }
  destruct (step (e 0%nat) b x) as [b1 r1] eqn:E1. apply Hstep in E1 as [H1 Hq].
  destruct r1 as [y|?| |]; try by intros [= <- <-].
  destruct (each step _ b1 l) as [b2 r2] eqn:E2. apply IH in E2 as [H2 Hqs]. intros [= <- <-].
  split; [by etrans|]. intros ys H. apply bind_ok in H as (ys' & -> & ->). constructor; [by apply Hq|].
  eapply Forall2_impl; [by apply Hqs|]. intros ?? Hq'. by eapply HQ.
Qed.

Lemma create_one_spec principal v e b t b' r :
  create_one e b principal v t = (b', r) ->
  admin_granted principal b b' /\
  (forall y, r = Ok y -> cr_Topic y = cq_Topic t /\
     (AuthorizeTopic (b_acl b) principal (cq_Topic t) OpWrite = false -> cr_ErrorCode y = errCodeTopicAuthorizationFailed)).
Proof.
  unfold create_one. destruct (AuthorizeTopic _ _ _ _) eqn:Ea; cbn [negb].
  2:{ intros [= <- <-]. split; [done|]. by intros ? [= <-]. }
  destruct v; [intros [= <- <-]; split; [done|]; by intros ? [= <-]|].
  destruct (CreateTopic _ _ _ _ _) as [b1 r1] eqn:E. apply CreateTopic_frame in E.
  assert (admin_granted principal b b1) as Hg by (by apply writes_admin; eapply same_but_granted).
  destruct r1; intros [= <- <-]; (split; [exact Hg|]); by intros ? [= <-].
Qed.

Lemma delete_one_spec principal e b name b' r :
  delete_one e b principal name = (b', r) ->
  admin_granted principal b b' /\
  (forall y, r = Ok y -> dr_Topic y = name /\
     (AuthorizeTopic (b_acl b) principal name OpWrite = false -> dr_ErrorCode y = errCodeTopicAuthorizationFailed)).
Proof.
  unfold delete_one. destruct (AuthorizeTopic _ _ _ _) eqn:Ea; cbn [negb].
  2:{ intros [= <- <-]. split; [done|]. by intros ? [= <-]. }
  destruct (DeleteTopic _ _ _) as [b1 r1] eqn:E. apply DeleteTopic_frame in E.
  assert (admin_granted principal b b1) as Hg by (by eapply deleted_but_granted).
  destruct r1; intros [= <- <-]; (split; [exact Hg|]); by intros ? [= <-].
Qed.

Lemma create_granted e b principal v ts b' r :
  handleCreateTopics e b principal v ts = (b', r) ->
  admin_granted principal b b' /\
  (forall rs, r = Ok rs -> Forall2 (fun t y => cr_Topic y = cq_Topic t /\
     (AuthorizeTopic (b_acl b) principal (cq_Topic t) OpWrite = false -> cr_ErrorCode y = errCodeTopicAuthorizationFailed)) ts rs).
Proof.
  apply (each_spec _ (admin_granted principal) (fun b t y => cr_Topic y = cq_Topic t /\
    (AuthorizeTopic (b_acl b) principal (cq_Topic t) OpWrite = false -> cr_ErrorCode y = errCodeTopicAuthorizationFailed))).
  - intros *. apply create_one_spec.
  - intros b0 b1 x y (_ & -> & _). done.
Qed.

Lemma delete_granted e b principal names topics b' r :
  handleDeleteTopics e b principal names topics = (b', r) ->
  admin_granted principal b b' /\
  (forall rs, r = Ok rs -> Forall2 (fun name y => dr_Topic y = name /\
     (AuthorizeTopic (b_acl b) principal name OpWrite = false -> dr_ErrorCode y = errCodeTopicAuthorizationFailed))
     (names ++ somes topics) rs).
Proof.
  apply (each_spec _ (admin_granted principal) (fun b name y => dr_Topic y = name /\
    (AuthorizeTopic (b_acl b) principal name OpWrite = false -> dr_ErrorCode y = errCodeTopicAuthorizationFailed))).
  - intros *. apply delete_one_spec.
  - intros b0 b1 x y (_ & -> & _). done.
Qed.

(** CreateTopics and DeleteTopics reach only topics the principal has a
    write grant on: the partitions, files and archived segments of every other
    topic stay as they were, and so do the grants, the groups and the settings,
    whatever fails on the way.  Each requested topic is answered, in order, with
    the authorization error where the grant is missing. *)
Theorem topic_admin_guarded e b principal :
  (forall v ts b' r, handleCreateTopics e b principal v ts = (b', r) ->
     admin_granted principal b b' /\
     (forall rs, r = Ok rs -> Forall2 (fun t y => cr_Topic y = cq_Topic t /\
        (AuthorizeTopic (b_acl b) principal (cq_Topic t) OpWrite = false -> cr_ErrorCode y = errCodeTopicAuthorizationFailed)) ts rs)) /\
  (forall names topics b' r, handleDeleteTopics e b principal names topics = (b', r) ->
     admin_granted principal b b' /\
     (forall rs, r = Ok rs -> Forall2 (fun name y => dr_Topic y = name /\
        (AuthorizeTopic (b_acl b) principal name OpWrite = false -> dr_ErrorCode y = errCodeTopicAuthorizationFailed))
        (names ++ somes topics) rs)).
Proof. split; intros *; [apply create_granted|apply delete_granted]. Qed.

(** ** Concrete instances *)

Definition set_acl (b : Broker) (s : ACLStore) : Broker :=
  mkBroker (b_cfg b) (b_store b) (b_guard b) (b_topics b) (b_topicsjson b) (b_disk b) (b_groups b) s (b_archive b).

Definition no_topics : Broker := set_acl empty_broker sample_acl.
Definition registry_names (ts : gmap string Topic) : list string := (map_to_list ts).*1.

Lemma registry_names_enumerates : enumerates registry_names.
Proof.
  intros ts. apply Forall_forall. intros n (kv & -> & Hin)%list_elem_of_fmap. destruct kv as [k t].
  apply elem_of_map_to_list in Hin. by exists t.
Qed.

Lemma guarded_agree : agree "svc" guarded_broker no_topics.
Proof.
  split; try reflexivity. intros name Hv.
  change ((({["orders" := orders]} : gmap string Topic) !! name) = (∅ : gmap string Topic) !! name).
  destruct (decide (name = "orders")) as [->|Hne].
  - vm_compute in Hv. discriminate.
  - by rewrite lookup_singleton_ne, lookup_empty by done.
Qed.

Lemma guarded_plain : plain guarded_broker.
Proof. apply orders_plain; [|reflexivity]. cbn. rewrite dom_singleton_L. done. Qed.
Lemma no_topics_plain : plain no_topics.
Proof. apply orders_plain; [|reflexivity]. cbn. rewrite dom_empty_L. apply empty_subseteq. Qed.

(** Asked by name or listed, another tenant's topic is as if it did not exist. *)
Lemma metadata_noninterference_witness :
  (handleMetadata (fun _ => sample_env) registry_names guarded_broker "svc" (mkMetadataRequest [Some "orders"] true)).2 =
  (handleMetadata (fun _ => sample_env) registry_names no_topics "svc" (mkMetadataRequest [Some "orders"] true)).2.
Proof.
  apply metadata_noninterference.
  - exact guarded_plain.
  - exact no_topics_plain.
  - apply Forall_singleton, orders_component.
  - exact guarded_agree.
  - exact registry_names_enumerates.
  - exact registry_names_enumerates.
  - vm_compute. reflexivity.
Defined.

Lemma topic_admin_guarded_witness :
  admin_granted "svc" guarded_broker (handleDeleteTopics (fun _ => sample_env) guarded_broker "svc" ["orders"] [None]).1 /\
  (handleDeleteTopics (fun _ => sample_env) guarded_broker "svc" ["orders"] [None]).2 =
    Ok [mkDeleteTopicResp "orders" errCodeTopicAuthorizationFailed].
Proof.
  split; [|vm_compute; reflexivity].
  apply (proj2 (topic_admin_guarded (fun _ => sample_env) guarded_broker "svc") ["orders"] [None] _ _ (surjective_pairing _)).
Defined.

(** Metadata creates topics outside the tenant: after a tenant's client has
    asked for the metadata of a new topic, as clients do before they produce,
    the tenant's own Produce to it is refused; without that request it succeeds
    and the topic belongs to the tenant. *)
Example metadata_autocreate_locks_out_tenant :
  let produce b := (handleProduce sample_wenv b "svc" "t1" 1 [mkProduceTopic "tenant.t1.new" [mkProducePart 0 b1]]).2 in
  let asked := (handleMetadata (fun _ => sample_env) registry_names no_topics "svc" (mkMetadataRequest [Some "tenant.t1.new"] true)).1 in
  produce no_topics = Ok (Some [mkProduceTopicResp "tenant.t1.new" [mkProducePartResp 0 errCodeNone 0]]) /\
  produce asked = Ok (Some [mkProduceTopicResp "tenant.t1.new" [mkProducePartResp 0 errCodeTopicAuthorizationFailed (-1)]]).
Proof. vm_compute. split; reflexivity. Qed.

(** A principal with a read grant only, refused by CreateTopics, creates the
    topic by asking for its metadata. *)
Example metadata_creates_with_read_grant :
  let acl := NewACLStore (Some {[ "viewer" := mkPrincipal None [mkPrefix "logs." ["read"]] [] ]}) in
  let b := set_acl empty_broker acl in
  (handleCreateTopics (fun _ => sample_env) b "viewer" false [mkCreateTopicReq "logs.a" 1 1]).2 =
    Ok [mkCreateTopicResp "logs.a" errCodeTopicAuthorizationFailed 0 0] /\
  is_Some (b_topics (handleMetadata (fun _ => sample_env) registry_names b "viewer" (mkMetadataRequest [Some "logs.a"] true)).1 !! "logs.a").
Proof. split; [vm_compute; reflexivity|]. vm_compute. eexists. reflexivity. Qed.
