(* ===== verification/GroupApi.v ===== *)
(** * The group and offset handlers (internal/wire/group_apis.go,
    offset_apis.go, describe_apis.go)

    FindCoordinator, JoinGroup, SyncGroup, Heartbeat, LeaveGroup, OffsetCommit,
    OffsetFetch, DescribeGroups and ListGroups over decoded requests.  A handler
    that blocks in the coordinator lets the others act meanwhile: [ge_wait] is
    what they do, [ge_timeout] whether [maxRebalanceWait] passed first. *)

From S2P Require Import Prelude Bytes OsFile RecordBatch Segment Log Names Offsets Group Acl Manifest Cache Broker Produce.

#[local] Open Scope Z_scope.

Record groupenv := mkGroupEnv {
  ge_iter : iteration;
  ge_now : Z;
  ge_rnd : string;
  ge_persist : persist_outcome;
  ge_wait : Broker -> Broker;
  ge_timeout : bool;
  ge_noGeneration : Z            (* the generation kmsg puts in a fresh response *)
}.

(** ** FindCoordinator *)

Record Coordinator := mkCoordinator { fc_Key : string; fc_NodeID : Z; fc_Host : string; fc_Port : Z; fc_ErrorCode : Z }.

(** The top-level answer and the per-key list. *)
Definition handleFindCoordinator (b : Broker) (keys : list string) : Coordinator * list Coordinator :=
  let c := b_cfg b in
  let self key := mkCoordinator key (BrokerID c) (AdvertisedHost c) (AdvertisedPort c) errCodeNone in
  (self "", map self keys).

(** ** JoinGroup *)

Record JoinGroupRequest := mkJoinRequest {
  jq_Group : string;
  jq_MemberID : string;
  jq_SessionTimeoutMillis : Z;
  jq_RebalanceTimeoutMillis : Z;
  jq_ProtocolType : string;
  jq_Protocols : list GroupProtocol
}.

(** A null [ProtocolType] and [Protocol] are not the same as empty ones. *)
Record JoinGroupResponse := mkJoinResponse {
  jp_ErrorCode : Z;
  jp_Generation : Z;
  jp_ProtocolType : option string;
  jp_Protocol : option string;
  jp_LeaderID : string;
  jp_MemberID : string;
  jp_Members : list (string * list byte)
}.

Definition join_response (r : JoinGroupResult) : JoinGroupResponse :=
  mkJoinResponse (jr_ErrorCode r) (jr_Generation r)
    (if String.eqb (jr_ProtocolType r) "" then None else Some (jr_ProtocolType r)) (Some (jr_Protocol r))
    (jr_LeaderID r) (jr_MemberID r) (jr_Members r).

Definition handleJoinGroup (g : groupenv) (b : Broker) (principal clientID remote : string) (version : Z) (req : JoinGroupRequest)
  : Broker * res JoinGroupResponse :=
  if negb (AuthorizeGroup (b_acl b) principal (jq_Group req) OpRead)
  then (b, Ok (mkJoinResponse errCodeGroupAuthorizationFailed (ge_noGeneration g) None None "" "" []))
  else
    let args := mkJoinArgs (jq_Group req) (jq_MemberID req) clientID remote (jq_SessionTimeoutMillis req)
                  (jq_RebalanceTimeoutMillis req) (jq_ProtocolType req) (jq_Protocols req) version in
    match JoinGroup_enter (ge_iter g) (ge_now g) (ge_rnd g) (ge_persist g) (b_groups b) args with
    | (c, JReply r) => (set_groupcoord b c, Ok (join_response r))
    | (c, JWait round member) =>
        let b := ge_wait g (set_groupcoord b c) in
        match JoinGroup_wake (ge_timeout g) (b_groups b) (jq_Group req) round member with
        | Some r => (b, Ok (join_response r))
        | None => (b, Diverge)
        end
    end.

(** ** SyncGroup *)

Record SyncGroupRequest := mkSyncRequest {
  sq_Group : string; sq_Generation : Z; sq_MemberID : string; sq_GroupAssignment : list (string * list byte) }.

(** The assignments as a Go map: a later entry for a member wins. *)
Definition assignment_map (l : list (string * list byte)) : gmap string (list byte) :=
  fold_left (fun m a => <[a.1 := a.2]> m) l ∅.

Definition handleSyncGroup (g : groupenv) (b : Broker) (req : SyncGroupRequest) : Broker * res SyncGroupResult :=
  let args := mkSyncArgs (sq_Group req) (sq_Generation req) (sq_MemberID req) (assignment_map (sq_GroupAssignment req)) in
  match SyncGroup_enter (ge_now g) (ge_persist g) (b_groups b) args with
  | (c, SReply r) => (set_groupcoord b c, r)
  | (c, SWait round) =>
      let b := ge_wait g (set_groupcoord b c) in
      match SyncGroup_wake (ge_timeout g) (b_groups b) args round with
      | Some r => (b, Ok r)
      | None => (b, Diverge)
      end
  end.

(** ** Heartbeat and LeaveGroup *)

Definition handleHeartbeat (now : Z) (b : Broker) (group member : string) (generation : Z) : Broker * Z :=
  let '(c, code) := Heartbeat now (b_groups b) group member generation in (set_groupcoord b c, code).

Fixpoint leave_members (now : Z) (w : nat -> persist_outcome) (c : GroupCoordinator) (group : string) (members : list string)
  : GroupCoordinator * list (string * Z) :=
  match members with
  | [] => (c, [])
  | m :: members =>
      let '(c, code) := LeaveGroup now (w 0%nat) c group m in
      let '(c, rs) := leave_members now (fun k => w (S k)) c group members in
      (c, (m, code) :: rs)
  end.

(** The top-level code, and one per listed member. *)
Definition handleLeaveGroup (now : Z) (w : nat -> persist_outcome) (b : Broker) (group member : string) (members : list string)
  : Broker * (Z * list (string * Z)) :=
  let '(c, code) := if String.eqb member "" then (b_groups b, errCodeNone) else LeaveGroup now (w 0%nat) (b_groups b) group member in
  let '(c, rs) := leave_members now (fun k => w (S k)) c group members in
  (set_groupcoord b c, (code, rs)).

(** ** OffsetCommit *)

Record CommitPart := mkCommitPart { oq_Partition : Z; oq_Offset : Z; oq_LeaderEpoch : Z; oq_Metadata : option string }.
Record CommitTopic := mkCommitTopic { oq_Topic : string; oq_Partitions : list CommitPart }.

(** Each topic with its partitions and their codes. *)
Definition commit_refused (code : Z) (t : CommitTopic) : string * list (Z * Z) :=
  (oq_Topic t, map (fun p => (oq_Partition p, code)) (oq_Partitions t)).

Fixpoint commit_partitions (now : Z) (w : nat -> persist_outcome) (s : OffsetStore) (group topic : string) (ps : list CommitPart)
  : OffsetStore * res (list (Z * Z)) :=
  match ps with
  | [] => (s, Ok [])
  | p :: ps =>
      let leaderEpoch := if negb (oq_LeaderEpoch p =? 0) then oq_LeaderEpoch p else 0 in
      match CommitOffset now (w 0%nat) s group topic (oq_Partition p) (oq_Offset p) leaderEpoch (default "" (oq_Metadata p)) with
      | (s, Ok _) =>
          let '(s, rs) := commit_partitions now (fun k => w (S k)) s group topic ps in
          (s, rs ← rs; Ok ((oq_Partition p, errCodeNone) :: rs))
      | (s, Err _) =>
          let '(s, rs) := commit_partitions now (fun k => w (S k)) s group topic ps in
          (s, rs ← rs; Ok ((oq_Partition p, errCodeCorruptMessage) :: rs))
      | (s, _) => (s, Panic)
      end
  end.

Fixpoint commit_topics (now : Z) (w : nat -> nat -> persist_outcome) (acl : ACLStore) (principal : string) (s : OffsetStore)
    (group : string) (ts : list CommitTopic) : OffsetStore * res (list (string * list (Z * Z))) :=
  match ts with
  | [] => (s, Ok [])
  | t :: ts =>
      if negb (AuthorizeTopic acl principal (oq_Topic t) OpRead) then
        let '(s, rs) := commit_topics now (fun k => w (S k)) acl principal s group ts in
        (s, rs ← rs; Ok (commit_refused errCodeTopicAuthorizationFailed t :: rs))
      else
        match commit_partitions now (w 0%nat) s group (oq_Topic t) (oq_Partitions t) with
        | (s, Ok r) =>
            let '(s, rs) := commit_topics now (fun k => w (S k)) acl principal s group ts in
            (s, rs ← rs; Ok ((oq_Topic t, r) :: rs))
        | (s, _) => (s, Panic)
        end
  end.

Definition set_store (b : Broker) (s : OffsetStore) : Broker :=
  set_groupcoord b (mkCoord s (gc_live (b_groups b)) (gc_rounds (b_groups b))).

Definition handleOffsetCommit (now : Z) (w : nat -> nat -> persist_outcome) (b : Broker) (principal group : string) (ts : list CommitTopic)
  : Broker * res (list (string * list (Z * Z))) :=
  if negb (AuthorizeGroup (b_acl b) principal group OpRead)
  then (b, Ok (map (commit_refused errCodeGroupAuthorizationFailed) ts))
  else
    let '(s, r) := commit_topics now w (b_acl b) principal (gc_store (b_groups b)) group ts in
    (set_store b s, r).

(** ** OffsetFetch *)

Record OffsetPartResp := mkOffsetPartResp { op_Partition : Z; op_Offset : Z; op_LeaderEpoch : Z; op_Metadata : option string }.
Record OffsetTopicResp := mkOffsetTopicResp { op_Topic : string; op_Partitions : list OffsetPartResp }.

Definition offsetLeaderEpoch (co : CommittedOffset) : Z := if co_Offset co <? 0 then -1 else co_LeaderEpoch co.

Definition offset_resp (partition : Z) (co : CommittedOffset) : OffsetPartResp :=
  mkOffsetPartResp partition (co_Offset co) (offsetLeaderEpoch co)
    (if String.eqb (co_Metadata co) "" then None else Some (co_Metadata co)).

(** The explicit topics of one group. *)
Definition fetch_topics (s : OffsetStore) (group : string) (ts : list (string * list Z)) : list OffsetTopicResp :=
  map (fun t => mkOffsetTopicResp t.1 (map (fun p => offset_resp p (FetchOffset s group t.1 p)) t.2)) ts.

Definition topic_resp_le (a b : OffsetTopicResp) : Prop := String.le (op_Topic a) (op_Topic b).
#[export] Instance topic_resp_le_dec : RelDecision topic_resp_le.
Proof. intros a b. unfold topic_resp_le. apply _. Defined.

(** Every committed offset of a group, in order of topic and partition. *)
Definition fetch_all (s : OffsetStore) (group : string) : list OffsetTopicResp :=
  merge_sort topic_resp_le
    (map (fun '(topic, parts) =>
       mkOffsetTopicResp topic
         (map (fun p => offset_resp p (default no_offset (parts !! p))) (merge_sort Z.le (map_to_list (parts : gmap Z CommittedOffset)).*1)))
       (map_to_list (AllOffsets s group))).

Inductive OffsetFetchResponse :=
| OFGroups (gs : list (string * list OffsetTopicResp))
| OFTopics (ts : list OffsetTopicResp).

Definition handleOffsetFetch (b : Broker) (groups : list (string * list (string * list Z))) (group : string) (ts : list (string * list Z))
  : OffsetFetchResponse :=
  let s := gc_store (b_groups b) in
  if negb (bool_decide (groups = [])) then OFGroups (map (fun g => (g.1, fetch_topics s g.1 g.2)) groups)
  else if bool_decide (ts = []) then OFTopics (fetch_all s group)
  else OFTopics (fetch_topics s group ts).

(** ** DescribeGroups and ListGroups *)

Record MemberSnapshot := mkMemberSnapshot {
  sn_MemberID : string; sn_ClientID : string; sn_ClientHost : string; sn_SessionTimeoutMS : Z; sn_LastHeartbeat : option Z }.
Record Snapshot := mkSnapshot {
  sn_GroupID : string; sn_State : string; sn_Generation : Z; sn_Protocol : string; sn_Members : list MemberSnapshot }.

Definition snapshot (iter : iteration) (id : string) (lg : liveGroup) (gs : GroupState) : Snapshot :=
  mkSnapshot id (GroupStatus_String (lg_state lg)) (gs_Generation gs) (gs_Protocol gs)
    (map (fun kv => mkMemberSnapshot (ms_MemberID kv.2) (ms_ClientID kv.2) (ms_ClientHost kv.2) (ms_SessionTimeoutMS kv.2)
                      (lg_heartbeats lg !! ms_MemberID kv.2)) (iter (gs_Members gs))).

(** [order]: Go's iteration order over the live groups. *)
Definition AllGroups (iter : iteration) (order : gmap string liveGroup -> list string) (c : GroupCoordinator) : res (list Snapshot) :=
  fold_right (fun id out =>
    out ← out;
    match get_group c id with
    | Some (lg, gs) => Ok (snapshot iter id lg gs :: out)
    | None => Panic
    end) (Ok []) (order (gc_live c)).

Record GroupDescription := mkGroupDescription {
  gd_Group : string; gd_ErrorCode : Z; gd_State : string; gd_ProtocolType : string; gd_Protocol : string;
  gd_Members : list (string * string * string); gd_AuthorizedOperations : Z }.

(** [byID]: the last snapshot with the id. *)
Definition by_id (all : list Snapshot) (gid : string) : option Snapshot :=
  List.find (fun s => String.eqb (sn_GroupID s) gid) (rev all).

Definition describe_group (acl : ACLStore) (principal : string) (all : list Snapshot) (gid : string) : GroupDescription :=
  let reply code := mkGroupDescription gid code in
  if negb (AuthorizeGroup acl principal gid OpRead)
  then reply errCodeGroupAuthorizationFailed "" "" "" [] (-2147483648)
  else match by_id all gid with
  | None => reply errCodeNone "Empty" "" "" [] (-2147483648)
  | Some s =>
      reply errCodeNone (sn_State s) "consumer" (sn_Protocol s)
        (map (fun m => (sn_MemberID m, sn_ClientID m, sn_ClientHost m)) (sn_Members s)) (-2147483648)
  end.

Definition handleDescribeGroups (iter : iteration) (order : gmap string liveGroup -> list string) (b : Broker) (principal : string)
    (gids : list string) : res (list GroupDescription) :=
  all ← AllGroups iter order (b_groups b);
  Ok (map (describe_group (b_acl b) principal all) gids).

Definition handleListGroups (iter : iteration) (order : gmap string liveGroup -> list string) (b : Broker)
  : res (list (string * string * string)) :=
  all ← AllGroups iter order (b_groups b);
  Ok (map (fun g => (sn_GroupID g, "consumer", sn_State g)) all).
