(* ===== verification/GroupApiProps.v ===== *)
(** * The group and offset handlers: round trips and disclosure *)

From S2P Require Import Prelude Bytes OsFile RecordBatch Segment Log Names Offsets Group Acl Manifest Cache Broker BrokerFacts BrokerProps Produce GroupApi.

#[local] Open Scope Z_scope.

(** ** Listing every committed offset *)

Lemma lookup_pair_map {A} (m : gmap string A) (f : string -> A -> OffsetTopicResp) r :
  r ∈ map (fun '(k, x) => f k x) (map_to_list m) <-> exists k x, m !! k = Some x /\ r = f k x.
Proof.
  rewrite list_elem_of_In, in_map_iff. split.
  - intros ([k x] & <- & Hin). apply list_elem_of_In, elem_of_map_to_list in Hin. eauto.
  - intros (k & x & Hk & ->). exists (k, x). split; [done|]. by apply list_elem_of_In, elem_of_map_to_list.
Qed.

Definition partition_list (parts : gmap Z CommittedOffset) : list OffsetPartResp :=
  map (fun p => offset_resp p (default no_offset (parts !! p))) (merge_sort Z.le (map_to_list parts).*1).

Lemma partition_list_parts parts : map op_Partition (partition_list parts) = merge_sort Z.le (map_to_list parts).*1.
Proof. unfold partition_list. rewrite map_map. apply map_id. Qed.

Lemma partition_list_In parts r :
  r ∈ partition_list parts <-> exists co, parts !! op_Partition r = Some co /\ r = offset_resp (op_Partition r) co.
Proof.
  unfold partition_list. rewrite list_elem_of_In, in_map_iff. split.
  - intros (p & <- & Hin). apply list_elem_of_In in Hin. rewrite merge_sort_Permutation in Hin.
    apply list_elem_of_fmap in Hin as ([k co] & -> & Hin%elem_of_map_to_list). cbn. exists co. by rewrite Hin.
  - intros (co & Hco & ->). cbn [offset_resp op_Partition] in *. exists (op_Partition r). rewrite Hco. split; [done|].
    apply list_elem_of_In. rewrite merge_sort_Permutation. apply list_elem_of_fmap. exists (op_Partition r, co).
    split; [done|]. by apply elem_of_map_to_list.
Qed.

Lemma fetch_all_unfold s group :
  fetch_all s group = merge_sort topic_resp_le
    (map (fun '(k, parts) => mkOffsetTopicResp k (partition_list parts)) (map_to_list (AllOffsets s group))).
Proof. done. Qed.

#[export] Instance topic_resp_le_total : Total topic_resp_le.
Proof. intros a b. unfold topic_resp_le. apply (total String.le). Qed.

Lemma fetch_all_names s group : map op_Topic (fetch_all s group) ≡ₚ (map_to_list (AllOffsets s group)).*1.
Proof.
  rewrite fetch_all_unfold, merge_sort_Permutation, map_map.
  induction (map_to_list (AllOffsets s group)) as [|[k x] l IH]; [done|]. cbn. by rewrite IH.
Qed.

(** An OffsetFetch without a topic list returns every committed offset of
    the group and nothing else, each exactly once: topics in order of name
    without repetition, partitions in ascending order without repetition, and
    each partition with the offset, epoch and metadata committed for it. *)
Theorem fetch_all_exact b group :
  let committed := AllOffsets (gc_store (b_groups b)) group in
  exists ts, handleOffsetFetch b [] group [] = OFTopics ts /\
    NoDup (map op_Topic ts) /\ Sorted topic_resp_le ts /\
    (forall t, t ∈ ts -> NoDup (map op_Partition (op_Partitions t)) /\ Sorted Z.le (map op_Partition (op_Partitions t))) /\
    (forall topic r, (exists t, t ∈ ts /\ op_Topic t = topic /\ r ∈ op_Partitions t) <->
       exists co, (committed !! topic) ≫= (fun parts => parts !! op_Partition r) = Some co /\ r = offset_resp (op_Partition r) co).
Proof.
  cbn zeta. set (s := gc_store (b_groups b)). exists (fetch_all s group). split; [done|]. split_and!.
  - rewrite fetch_all_names. apply NoDup_fst_map_to_list.
  - rewrite fetch_all_unfold. apply (Sorted_merge_sort topic_resp_le).
  - intros t Ht. rewrite fetch_all_unfold, merge_sort_Permutation in Ht. apply lookup_pair_map in Ht as (k & parts & _ & ->).
    cbn [op_Partitions]. rewrite partition_list_parts. split; [|apply (Sorted_merge_sort Z.le)].
    rewrite merge_sort_Permutation. apply NoDup_fst_map_to_list.
  - intros topic r. split.
    + intros (t & Ht & <- & Hr). rewrite fetch_all_unfold, merge_sort_Permutation in Ht.
      apply lookup_pair_map in Ht as (k & parts & Hk & ->). cbn [op_Topic op_Partitions] in *.
      rewrite Hk. cbn. by apply partition_list_In.
    + intros (co & Hco & Hr). destruct (AllOffsets s group !! topic) as [parts|] eqn:Hk; [|done]. cbn in Hco.
      exists (mkOffsetTopicResp topic (partition_list parts)). split_and!; [|done|].
      * rewrite fetch_all_unfold, merge_sort_Permutation. apply lookup_pair_map. eauto.
      * apply partition_list_In. eauto.
Qed.

(** ** Commit, then fetch *)

(** An offset committed over the wire is what the group gets back: the commit
    of a principal with the group and topic grants is answered without error, and
    the next OffsetFetch of that partition returns the offset with its epoch and
    metadata (an empty metadata as null), while the answer for every other
    partition of every topic and group is unchanged. *)
Theorem offset_commit_fetch now w b principal group topic p :
  store_wf (gc_store (b_groups b)) ->
  AuthorizeGroup (b_acl b) principal group OpRead = true -> AuthorizeTopic (b_acl b) principal topic OpRead = true ->
  ValidateName "group" group = Ok tt -> ValidateName "topic" topic = Ok tt -> w 0%nat 0%nat = PersistOk ->
  0 <= oq_Offset p ->
  exists b', handleOffsetCommit now w b principal group [mkCommitTopic topic [p]] =
      (b', Ok [(topic, [(oq_Partition p, errCodeNone)])]) /\
    handleOffsetFetch b' [] group [(topic, [oq_Partition p])] =
      OFTopics [mkOffsetTopicResp topic
        [mkOffsetPartResp (oq_Partition p) (oq_Offset p) (oq_LeaderEpoch p)
           (if String.eqb (default "" (oq_Metadata p)) "" then None else Some (default "" (oq_Metadata p)))]] /\
    (forall g t q, (g, t, q) <> (group, topic, oq_Partition p) ->
       handleOffsetFetch b' [] g [(t, [q])] = handleOffsetFetch b [] g [(t, [q])]).
Proof.
  intros Hwf Hg Ht Hvg Hvt Hw Hoff. unfold handleOffsetCommit. rewrite Hg. cbn [negb commit_topics oq_Topic]. rewrite Ht. cbn [negb].
  cbn [oq_Topic oq_Partitions commit_partitions]. rewrite Hw.
  assert ((if negb (oq_LeaderEpoch p =? 0) then oq_LeaderEpoch p else 0) = oq_LeaderEpoch p) as ->.
  { destruct (Z.eqb_spec (oq_LeaderEpoch p) 0) as [->|]; done. }
  set (s := gc_store (b_groups b)) in *. set (m := default "" (oq_Metadata p)).
  pose proof (CommitOffset_ok now s group topic (oq_Partition p) (oq_Offset p) (oq_LeaderEpoch p) m Hwf Hvg Hvt) as (s' & E & Hf & Ho).
  rewrite E. cbn. eexists. split; [done|]. split.
  - unfold handleOffsetFetch. cbn. unfold fetch_topics. cbn. rewrite Hf. unfold offset_resp, offsetLeaderEpoch. cbn.
    by rewrite (proj2 (Z.ltb_ge _ _)).
  - intros g t q Hne. unfold handleOffsetFetch. cbn. unfold fetch_topics. cbn. by rewrite Ho.
Qed.

Lemma empty_broker_store_wf : store_wf (gc_store (b_groups orders_broker)).
Proof. split; intros *; cbn; by rewrite lookup_empty. Qed.

Lemma offset_commit_fetch_witness :
  exists b', handleOffsetCommit 9 (fun _ _ => PersistOk) orders_broker "" "workers" [mkCommitTopic "orders" [mkCommitPart 0 42 3 None]] =
      (b', Ok [("orders", [(0, errCodeNone)])]) /\
    handleOffsetFetch b' [] "workers" [("orders", [0])] = OFTopics [mkOffsetTopicResp "orders" [mkOffsetPartResp 0 42 3 None]] /\
    (forall g t q, (g, t, q) <> ("workers", "orders", 0) ->
       handleOffsetFetch b' [] g [(t, [q])] = handleOffsetFetch orders_broker [] g [(t, [q])]).
Proof.
  apply (offset_commit_fetch 9 (fun _ _ => PersistOk) orders_broker "" "workers" "orders" (mkCommitPart 0 42 3 None)).
  - exact empty_broker_store_wf.
  - reflexivity.
  - reflexivity.
  - vm_compute. reflexivity.
  - vm_compute. reflexivity.
  - reflexivity.
  - cbn. lia.
Defined.
