(* ===== verification/Text.v ===== *)
(** * The text functions of the SASL handlers

    [strings.Split] at a comma, [strings.ReplaceAll] of a three-byte pattern,
    and the two base64 encodings of the Go standard library, with the round
    trips the SCRAM conversation relies on. *)

From S2P Require Import Prelude Bytes Names Offsets Manifest.

#[local] Open Scope Z_scope.

(** ** Splitting *)

(** [strings.Split(s, string(c))]. *)
Fixpoint split_on (c : ascii) (s : string) : list string :=
  match s with
  | EmptyString => [""]
  | String d s =>
      if Ascii.eqb c d then "" :: split_on c s
      else match split_on c s with
      | [] => [String d ""]
      | p :: ps => String d p :: ps
      end
  end.

Lemma split_on_none c s : no_char c s -> split_on c s = [s].
Proof.
  induction s as [|d s IH]; intros H; [done|]. cbn [split_on]. rewrite (proj2 (Ascii.eqb_neq _ _)).
  - rewrite IH; [done|]. intros Hs. apply H. by right.
  - intros ->. apply H. by left.
Qed.

Lemma split_on_sep c a s : no_char c a -> split_on c (a +:+ String c s) = a :: split_on c s.
Proof.
  induction a as [|d a IH]; intros H.
  - change ("" +:+ String c s) with (String c s). cbn [split_on]. by rewrite Ascii.eqb_refl.
  - rewrite string_app_cons. cbn [split_on]. rewrite (proj2 (Ascii.eqb_neq _ _)).
    + rewrite IH; [done|]. intros Hs. apply H. by right.
    + intros ->. apply H. by left.
Qed.

(** ** Replacing *)

(** [strings.ReplaceAll(s, abc, new)]: left to right, without overlaps. *)
Fixpoint replace_all (a b c : ascii) (new s : string) : string :=
  match s with
  | String x ((String y (String z rest)) as tl) =>
      if Ascii.eqb x a && Ascii.eqb y b && Ascii.eqb z c then new +:+ replace_all a b c new rest
      else String x (replace_all a b c new tl)
  | _ => s
  end.

Lemma replace_all_skip a b c new x s : x <> a -> replace_all a b c new (String x s) = String x (replace_all a b c new s).
Proof.
  intros Hx. destruct s as [|y [|z rest]]; [done..|]. cbn [replace_all]. by rewrite (proj2 (Ascii.eqb_neq x a)).
Qed.

Lemma replace_all_skip2 a b c new y s :
  y <> b -> replace_all a b c new (String a (String y s)) = String a (replace_all a b c new (String y s)).
Proof.
  intros Hy. destruct s as [|z rest]; [done|]. cbn [replace_all]. rewrite Ascii.eqb_refl.
  by rewrite (proj2 (Ascii.eqb_neq y b)).
Qed.

Lemma replace_all_hit a b c new s :
  replace_all a b c new (String a (String b (String c s))) = new +:+ replace_all a b c new s.
Proof. cbn [replace_all]. by rewrite !Ascii.eqb_refl. Qed.

(** ** Bytes and strings *)

Lemma string_of_list_of_string s : String.string_of_list_byte (String.list_byte_of_string s) = s.
Proof. apply String.string_of_list_byte_of_string. Qed.
Lemma list_of_string_of_list l : String.list_byte_of_string (String.string_of_list_byte l) = l.
Proof. apply String.list_byte_of_string_of_list_byte. Qed.

(** ** Base64 *)

Definition b64_alphabet : string := "ABCDEFGHIJKLMNOPQRSTUVWXYZabcdefghijklmnopqrstuvwxyz0123456789+/".

(** The [i]-th character, and the index of a character. *)
Fixpoint char_at (s : string) (i : nat) : ascii :=
  match s, i with
  | String c _, O => c
  | String _ s, S i => char_at s i
  | EmptyString, _ => "A"%char
  end.
Fixpoint index_of (c : ascii) (s : string) : option Z :=
  match s with
  | EmptyString => None
  | String d s => if Ascii.eqb c d then Some 0 else Z.succ <$> index_of c s
  end.

Definition b64_char (v : Z) : ascii := char_at b64_alphabet (Z.to_nat v).
Definition b64_index (c : ascii) : option Z := index_of c b64_alphabet.

(** [EncodeToString]; [pad] is false for [RawStdEncoding]. *)
Fixpoint b64_encode (pad : bool) (l : list byte) : string :=
  match l with
  | [] => ""
  | [a] =>
      let n := b2z a * 2 ^ 16 in
      String (b64_char (n / 2 ^ 18)) (String (b64_char (n / 2 ^ 12 mod 64)) (if pad then "==" else ""))
  | [a; b] =>
      let n := b2z a * 2 ^ 16 + b2z b * 2 ^ 8 in
      String (b64_char (n / 2 ^ 18)) (String (b64_char (n / 2 ^ 12 mod 64))
        (String (b64_char (n / 2 ^ 6 mod 64)) (if pad then "=" else "")))
  | a :: b :: c :: l =>
      let n := b2z a * 2 ^ 16 + b2z b * 2 ^ 8 + b2z c in
      String (b64_char (n / 2 ^ 18)) (String (b64_char (n / 2 ^ 12 mod 64))
        (String (b64_char (n / 2 ^ 6 mod 64)) (String (b64_char (n mod 64)) (b64_encode pad l))))
  end.

Definition is_newline (c : ascii) : bool := (code c =? 10) || (code c =? 13).

(** The quanta of [StdEncoding.DecodeString]: padding only in the last one, its
    unused bits ignored. *)
Fixpoint b64_quanta (s : string) : option (list byte) :=
  match s with
  | EmptyString => Some []
  | String c0 (String c1 (String c2 (String c3 rest))) =>
      v0 ← b64_index c0;
      v1 ← b64_index c1;
      match b64_index c2, b64_index c3 with
      | Some v2, Some v3 =>
          let n := v0 * 2 ^ 18 + v1 * 2 ^ 12 + v2 * 2 ^ 6 + v3 in
          l ← b64_quanta rest;
          Some (z2b (n / 2 ^ 16) :: z2b (n / 2 ^ 8) :: z2b n :: l)
      | Some v2, None =>
          if Ascii.eqb c3 "=" && String.eqb rest "" then
            let n := v0 * 2 ^ 18 + v1 * 2 ^ 12 + v2 * 2 ^ 6 in Some [z2b (n / 2 ^ 16); z2b (n / 2 ^ 8)]
          else None
      | None, _ =>
          if Ascii.eqb c2 "=" && Ascii.eqb c3 "=" && String.eqb rest "" then
            let n := v0 * 2 ^ 18 + v1 * 2 ^ 12 in Some [z2b (n / 2 ^ 16)]
          else None
      end
  | _ => None
  end.

(** Newlines are skipped wherever they are. *)
Definition b64_decode (s : string) : option (list byte) := b64_quanta (string_filter (fun c => negb (is_newline c)) s).

Lemma b64_table : forallb (fun i => bool_decide (b64_index (b64_char (Z.of_nat i)) = Some (Z.of_nat i))
                                    && negb (is_newline (b64_char (Z.of_nat i)))
                                    && negb (Ascii.eqb (b64_char (Z.of_nat i)) ",")) (seq 0 64) = true.
Proof. vm_compute. reflexivity. Qed.

Lemma b64_char_spec v : 0 <= v < 64 ->
  b64_index (b64_char v) = Some v /\ is_newline (b64_char v) = false /\ b64_char v <> ","%char.
Proof.
  intros Hv. pose proof (proj1 (forallb_forall _ _) b64_table (Z.to_nat v)) as H. cbv beta in H. rewrite Z2Nat.id in H by lia.
  specialize (H ltac:(apply in_seq; lia)). zbool. split_and!; [done|done|]. by apply Ascii.eqb_neq.
Qed.

(** Induction three elements at a time. *)
Lemma list_ind3 {A} (P : list A -> Prop) :
  P [] -> (forall a, P [a]) -> (forall a b, P [a; b]) -> (forall a b c l, P l -> P (a :: b :: c :: l)) -> forall l, P l.
Proof.
  intros H0 H1 H2 H3 l. assert (forall n l, (length l <= n)%nat -> P l) as H; [|by apply (H (length l))].
  induction n as [|n IH]; intros [|a [|b [|c k]]] Hl; simpl in Hl; try lia; auto.
  apply H3, IH. lia.
Qed.

(** The bytes are recovered from the sextets. *)
Lemma sextets_recover n : 0 <= n < 2 ^ 24 ->
  n / 2 ^ 18 * 2 ^ 18 + n / 2 ^ 12 mod 64 * 2 ^ 12 + n / 2 ^ 6 mod 64 * 2 ^ 6 + n mod 64 = n.
Proof.
  intros Hn. change (2 ^ 18) with 262144 in *. change (2 ^ 12) with 4096. change (2 ^ 6) with 64.
  Z.div_mod_to_equations. lia.
Qed.

Lemma sextets_range n : 0 <= n < 2 ^ 24 ->
  0 <= n / 2 ^ 18 < 64 /\ 0 <= n / 2 ^ 12 mod 64 < 64 /\ 0 <= n / 2 ^ 6 mod 64 < 64 /\ 0 <= n mod 64 < 64.
Proof.
  intros Hn. change (2 ^ 24) with 16777216 in Hn. change (2 ^ 18) with 262144. change (2 ^ 12) with 4096. change (2 ^ 6) with 64.
  Z.div_mod_to_equations. lia.
Qed.

Lemma z2b_eq z b : z mod 256 = b2z b -> z2b z = b.
Proof. intros H. apply b2z_inj. by rewrite b2z_z2b. Qed.

Lemma three_bytes (a b c : byte) : let n := b2z a * 2 ^ 16 + b2z b * 2 ^ 8 + b2z c in
  0 <= n < 2 ^ 24 /\ z2b (n / 2 ^ 16) = a /\ z2b (n / 2 ^ 8) = b /\ z2b n = c.
Proof.
  cbn zeta. pose proof (b2z_range a). pose proof (b2z_range b). pose proof (b2z_range c).
  change (2 ^ 16) with 65536. change (2 ^ 8) with 256. change (2 ^ 24) with 16777216.
  split_and!; [lia|lia|..]; apply z2b_eq; Z.div_mod_to_equations; lia.
Qed.

(** What the encoder emits is not touched by the newline filter and has no comma. *)
Lemma b64_encode_clean pad l :
  string_filter (fun c => negb (is_newline c)) (b64_encode pad l) = b64_encode pad l /\ no_char "," (b64_encode pad l).
Proof.
  assert (forall v s, 0 <= v < 64 -> string_filter (fun c => negb (is_newline c)) s = s /\ no_char "," s ->
    string_filter (fun c => negb (is_newline c)) (String (b64_char v) s) = String (b64_char v) s /\
    no_char "," (String (b64_char v) s)) as Hcons.
  { intros v s Hv [Hf Hn]. destruct (b64_char_spec v Hv) as (_ & Hnl & Hc). cbn [string_filter]. rewrite Hnl, Hf.
    split; [done|]. intros [?|?]; [by apply Hc|by apply Hn]. }
  assert (forall s, s = "" \/ s = "=" \/ s = "==" ->
    string_filter (fun c => negb (is_newline c)) s = s /\ no_char "," s) as Hpad.
  { intros s Hs. destruct Hs as [->|[->| ->]]; (split; [done|]); cbv; intuition congruence. }
  induction l as [|a|a b|a b c l IH] using list_ind3; cbn [b64_encode]; [apply Hpad; by left|..].
  - pose proof (three_bytes a x00 x00) as [H _]. change (b2z x00) with 0 in H.
    replace (b2z a * 2 ^ 16 + 0 * 2 ^ 8 + 0) with (b2z a * 2 ^ 16) in H by lia.
    destruct (sextets_range _ H) as (? & ? & _). do 2 (apply Hcons; [done|]). apply Hpad. destruct pad; auto.
  - pose proof (three_bytes a b x00) as [H _]. change (b2z x00) with 0 in H. rewrite Z.add_0_r in H.
    destruct (sextets_range _ H) as (? & ? & ? & _). do 3 (apply Hcons; [done|]). apply Hpad. destruct pad; auto.
  - pose proof (three_bytes a b c) as [H _]. destruct (sextets_range _ H) as (? & ? & ? & ?). by do 4 (apply Hcons; [done|]).
Qed.

Lemma b64_index_pad : b64_index "=" = None.
Proof. done. Qed.

(** Decoding what was encoded, with padding. *)
Lemma b64_roundtrip l : b64_decode (b64_encode true l) = Some l.
Proof.
  unfold b64_decode. rewrite (proj1 (b64_encode_clean true l)).
  induction l as [|a|a b|a b c l IH] using list_ind3; cbn [b64_encode]; [done|..].
  - destruct (three_bytes a x00 x00) as (H & Ha & _). change (b2z x00) with 0 in *.
    replace (b2z a * 2 ^ 16 + 0 * 2 ^ 8 + 0) with (b2z a * 2 ^ 16) in * by lia.
    destruct (sextets_range _ H) as (H1 & H2 & _). cbn [b64_quanta].
    rewrite (proj1 (b64_char_spec _ H1)), (proj1 (b64_char_spec _ H2)), b64_index_pad. cbn [mbind option_bind].
    cbn [Ascii.eqb andb String.eqb]. cbv [Bool.eqb]. f_equal. f_equal. etrans; [|exact Ha]. f_equal.
    change (2 ^ 18) with 262144 in *. change (2 ^ 12) with 4096 in *. change (2 ^ 16) with 65536 in *. change (2 ^ 24) with 16777216 in *.
    Z.div_mod_to_equations. lia.
  - destruct (three_bytes a b x00) as (H & Ha & Hb & _). change (b2z x00) with 0 in *. rewrite Z.add_0_r in *.
    destruct (sextets_range _ H) as (H1 & H2 & H3 & _). cbn [b64_quanta].
    rewrite (proj1 (b64_char_spec _ H1)), (proj1 (b64_char_spec _ H2)), (proj1 (b64_char_spec _ H3)), b64_index_pad.
    cbn [mbind option_bind]. cbn [Ascii.eqb andb String.eqb]. cbv [Bool.eqb].
    assert (b2z a * 2 ^ 16 + b2z b * 2 ^ 8 = 64 * (b2z a * 2 ^ 10 + b2z b * 2 ^ 2)) as Hm by lia.
    rewrite <- (sextets_recover _ H) in Ha, Hb.
    assert ((b2z a * 2 ^ 16 + b2z b * 2 ^ 8) mod 64 = 0) as H0 by (rewrite Hm, Z.mul_comm; by apply Z.mod_mul).
    rewrite H0, Z.add_0_r in Ha, Hb. by rewrite Ha, Hb.
  - destruct (three_bytes a b c) as (H & Ha & Hb & Hc). destruct (sextets_range _ H) as (H1 & H2 & H3 & H4).
    set (n := b2z a * 2 ^ 16 + b2z b * 2 ^ 8 + b2z c) in *. cbn [b64_quanta].
    rewrite (proj1 (b64_char_spec _ H1)), (proj1 (b64_char_spec _ H2)), (proj1 (b64_char_spec _ H3)), (proj1 (b64_char_spec _ H4)).
    cbn [mbind option_bind]. rewrite IH. cbn [mbind option_bind]. by rewrite (sextets_recover n H), Ha, Hb, Hc.
Qed.
