(* ===== verification/Sasl.v ===== *)
(** * SCRAM-SHA-256 authentication (internal/wire/sasl.go)

    The credential store, the two-message conversation and the two handlers.
    HMAC-SHA-256, SHA-256 and PBKDF2 are arguments; so is what the random number
    generator draws.  A JSON users file is modelled by what it decodes to. *)

From S2P Require Import Prelude Bytes Names Offsets Acl Manifest Text.
From S2P Require Import Produce.
From stdpp Require Import pretty.

#[local] Open Scope Z_scope.

Definition scramIterations : Z := 4096.
Definition scramHashSize : Z := 32.
Definition scramSaltLen : Z := 12.

Definition bytes_of (s : string) : list byte := String.list_byte_of_string s.
Definition string_of (l : list byte) : string := String.string_of_list_byte l.

Record scramCreds := mkCreds { sc_salt : list byte; sc_iters : Z; sc_storedKey : list byte; sc_serverKey : list byte }.

Definition scramServer : Type := gmap string scramCreds.

(** What one authentication step draws from [crypto/rand]. *)
Record draws := mkDraws { dr_salt : list byte; dr_storedKey : list byte; dr_serverKey : list byte; dr_nonce : list byte }.

Record scramConversation := mkConv {
  cv_server : scramServer;
  cv_step : Z;
  cv_username : string;
  cv_clientNonce : string;
  cv_serverNonce : string;
  cv_creds : option scramCreds;
  cv_authMessage : string;
  cv_valid : bool
}.

Definition newScramConversation (server : scramServer) : scramConversation := mkConv server 0 "" "" "" None "" false.

(** ** Helpers *)

(** [a[i] ^ b[i]]; on a length mismatch a copy of [a]. *)
Definition xorBytes (a b : list byte) : list byte :=
  if negb (length a =? length b)%nat then a
  else zip_with (fun x y => z2b (Z.lxor (b2z x) (b2z y))) a b.

Definition scramDecodeUsername (s : string) : string :=
  let s := replace_all "=" "2" "C" "," s in
  replace_all "=" "3" "D" "=" s.

(** [p[2:]]. *)
Definition drop2 (s : string) : string := String.substring 2 (String.length s - 2) s.

(** The two loops over the comma-separated attributes. *)
Definition first_attr (c : string * string) (p : string) : string * string :=
  if String.prefix "n=" p then (scramDecodeUsername (drop2 p), c.2)
  else if String.prefix "r=" p then (c.1, drop2 p)
  else c.

Definition final_attr (c : string * string * string) (p : string) : string * string * string :=
  let '(cbind, nonce, proof) := c in
  if String.prefix "c=" p then (drop2 p, nonce, proof)
  else if String.prefix "r=" p then (cbind, drop2 p, proof)
  else if String.prefix "p=" p then (cbind, nonce, drop2 p)
  else c.

Section scram.
Context (hmacSHA256 : list byte -> list byte -> list byte) (sha256Sum : list byte -> list byte).
Context (pbkdf2 : list byte -> list byte -> Z -> Z -> list byte).

(** ** The credential store *)

Definition deriveSalt (username : string) : list byte :=
  take (Z.to_nat scramSaltLen) (hmacSHA256 (bytes_of "kafka-wire-scram-salt-key") (bytes_of username)).

Definition derive_creds (username password : string) : scramCreds :=
  let salt := deriveSalt username in
  let saltedPassword := pbkdf2 (bytes_of password) salt scramIterations scramHashSize in
  let clientKey := hmacSHA256 saltedPassword (bytes_of "Client Key") in
  mkCreds salt scramIterations (sha256Sum clientKey) (hmacSHA256 saltedPassword (bytes_of "Server Key")).

(** [file]: the outcome of reading the file, then of parsing it. *)
Definition loadScramServer (path : string) (file : res (option (gmap string string))) : res scramServer :=
  if String.eqb path "" then Err (EMsg "users file path required when SASL is enabled")
  else
    match file with
    | Ok (Some users) =>
        if bool_decide (users = ∅) then Err (EMsg "users file empty")
        else Ok (map_imap (fun username password => Some (derive_creds username password)) users)
    | Ok None => Err (EMsg "parse users file")
    | Err e => Err (EWrap "read users file" e)
    | _ => Panic
    end.

(** ** The conversation *)

Definition handleClientFirst (d : draws) (c : scramConversation) (msg : string) : scramConversation * res (string * bool) :=
  if negb (String.prefix "n,," msg) && negb (String.prefix "y,," msg)
  then (c, Err (EMsg "scram: unsupported gs2-cbind-flag"))
  else
    let bare := String.substring 3 (String.length msg - 3) msg in
    let parts := split_on "," bare in
    if zlen parts <? 2 then (c, Err (EMsg "scram: malformed client-first"))
    else
      let '(username, clientNonce) := fold_left first_attr parts (cv_username c, cv_clientNonce c) in
      let c := mkConv (cv_server c) (cv_step c) username clientNonce (cv_serverNonce c) (cv_creds c) (cv_authMessage c) (cv_valid c) in
      if String.eqb username "" || String.eqb clientNonce "" then (c, Err (EMsg "scram: missing n= or r="))
      else
        let creds := match cv_server c !! username with
                     | Some creds => creds
                     | None => mkCreds (dr_salt d) scramIterations (dr_storedKey d) (dr_serverKey d)
                     end in
        let serverNonce := clientNonce +:+ b64_encode false (dr_nonce d) in
        let serverFirst := "r=" +:+ serverNonce +:+ ",s=" +:+ b64_encode true (sc_salt creds) +:+ ",i=" +:+ pretty (sc_iters creds) in
        (mkConv (cv_server c) 1 username clientNonce serverNonce (Some creds) (bare +:+ "," +:+ serverFirst) (cv_valid c),
         Ok (serverFirst, false)).

Definition set_auth (c : scramConversation) (m : string) : scramConversation :=
  mkConv (cv_server c) (cv_step c) (cv_username c) (cv_clientNonce c) (cv_serverNonce c) (cv_creds c) m (cv_valid c).
Definition finish (c : scramConversation) (valid : bool) : scramConversation :=
  mkConv (cv_server c) 2 (cv_username c) (cv_clientNonce c) (cv_serverNonce c) (cv_creds c) (cv_authMessage c) valid.

Definition handleClientFinal (c : scramConversation) (msg : string) : scramConversation * res (string * bool) :=
  let '(cbind, nonce, proofB64) := fold_left final_attr (split_on "," msg) ("", "", "") in
  if String.eqb proofB64 "" then (c, Err (EMsg "scram: missing client proof"))
  else if negb (String.eqb nonce (cv_serverNonce c)) then (c, Err (EMsg "scram: nonce mismatch"))
  else if negb (String.eqb cbind "biws") && negb (String.eqb cbind "eSws") then (c, Err (EMsg "scram: unsupported channel binding"))
  else
    let c := set_auth c (cv_authMessage c +:+ "," +:+ "c=" +:+ cbind +:+ ",r=" +:+ nonce) in
    match cv_creds c with
    | None => (c, Panic)
    | Some creds =>
        let clientSignature := hmacSHA256 (sc_storedKey creds) (bytes_of (cv_authMessage c)) in
        match b64_decode proofB64 with
        | None => (c, Err (EMsg "scram: bad proof base64"))
        | Some clientProof =>
            if negb (zlen clientProof =? scramHashSize) then (c, Err (EMsg "scram: proof wrong length"))
            else
              let clientKey := xorBytes clientProof clientSignature in
              if negb (bool_decide (sha256Sum clientKey = sc_storedKey creds))
              then (finish c false, Ok ("e=invalid-proof", true))
              else (finish c true, Ok ("v=" +:+ b64_encode true (hmacSHA256 (sc_serverKey creds) (bytes_of (cv_authMessage c))), true))
        end
    end.

Definition doStep (d : draws) (c : scramConversation) (m : list byte) : scramConversation * res (string * bool) :=
  if cv_step c =? 0 then handleClientFirst d c (string_of m)
  else if cv_step c =? 1 then handleClientFinal c (string_of m)
  else (c, Err (EMsg "scram: too many steps")).

(** ** The connection *)

Record connState := mkConn {
  cs_remote : string;
  cs_lastClientID : string;
  cs_saslComplete : bool;
  cs_saslMechanism : string;
  cs_saslPrincipal : string;
  cs_tenantID : string;
  cs_saslState : option scramConversation
}.

(** A connection as [Serve] starts it. *)
Definition new_conn (saslEnabled : bool) (remote : string) : connState := mkConn remote "" (negb saslEnabled) "" "" "" None.

Definition set_conv (cs : connState) (c : scramConversation) : connState :=
  mkConn (cs_remote cs) (cs_lastClientID cs) (cs_saslComplete cs) (cs_saslMechanism cs) (cs_saslPrincipal cs) (cs_tenantID cs) (Some c).
Definition set_clientID (cs : connState) (id : string) : connState :=
  mkConn (cs_remote cs) id (cs_saslComplete cs) (cs_saslMechanism cs) (cs_saslPrincipal cs) (cs_tenantID cs) (cs_saslState cs).

(** The error code of the response. *)
Definition handleSASLHandshake (scram : option scramServer) (cs : connState) (mechanism : string) : connState * Z :=
  if negb (String.eqb mechanism "SCRAM-SHA-256") then (cs, errCodeUnsupportedSaslMech)
  else match scram with
  | None => (cs, errCodeSaslAuthFailed)
  | Some server =>
      (mkConn (cs_remote cs) (cs_lastClientID cs) (cs_saslComplete cs) mechanism (cs_saslPrincipal cs) (cs_tenantID cs)
         (Some (newScramConversation server)), errCodeNone)
  end.

(** The error code and the bytes for the client. *)
Definition handleSASLAuthenticate (d : draws) (acl : ACLStore) (cs : connState) (m : list byte) : connState * res (Z * list byte) :=
  match cs_saslState cs with
  | None => (cs, Ok (errCodeSaslAuthFailed, []))
  | Some conv =>
      match doStep d conv m with
      | (conv, Err _) => (set_conv cs conv, Ok (errCodeSaslAuthFailed, []))
      | (conv, Ok (out, done)) =>
          let cs := set_conv cs conv in
          if (done : bool) then
            if cv_valid conv then
              (mkConn (cs_remote cs) (cs_lastClientID cs) true (cs_saslMechanism cs) (cv_username conv)
                 (TenantOf acl (cv_username conv)) (Some conv), Ok (errCodeNone, bytes_of out))
            else (cs, Ok (errCodeSaslAuthFailed, bytes_of out))
          else (cs, Ok (errCodeNone, bytes_of out))
      | (conv, _) => (set_conv cs conv, Panic)
      end
  end.
End scram.
