(* ===== verification/SaslProps.v ===== *)
(** * SCRAM: the right password gets in, and nothing else does *)

From S2P Require Import Prelude Bytes Names Offsets Acl Manifest Text.
From S2P Require Import Produce Sasl.
From stdpp Require Import pretty.

#[local] Open Scope Z_scope.

(** ** Strings *)

Lemma string_app_assoc (a b c : string) : a +:+ (b +:+ c) = (a +:+ b) +:+ c.
Proof. induction a as [|x a IH]; [done|]. rewrite !string_app_cons. by rewrite IH. Qed.

Lemma prefix_app (a b : string) : String.prefix a (a +:+ b) = true.
Proof.
  induction a as [|x a IH]; [by destruct b|]. rewrite string_app_cons. cbn [String.prefix].
  destruct (ascii_dec x x); [done|congruence].
Qed.

Lemma substring_rest (a b : string) :
  String.substring (String.length a) (String.length (a +:+ b) - String.length a) (a +:+ b) = b.
Proof.
  rewrite string_app_length. replace (String.length a + String.length b - String.length a)%nat with (String.length b) by lia.
  apply substring_app.
Qed.

Lemma drop2_app (a b : string) : String.length a = 2%nat -> drop2 (a +:+ b) = b.
Proof. intros Ha. unfold drop2. rewrite <- Ha. apply substring_rest. Qed.

(** ** Usernames *)

(** RFC 5802: the client escapes [=] and [,]. *)
Fixpoint scramEncodeUsername (s : string) : string :=
  match s with
  | EmptyString => ""
  | String c s =>
      if Ascii.eqb c "=" then "=3D" +:+ scramEncodeUsername s
      else if Ascii.eqb c "," then "=2C" +:+ scramEncodeUsername s
      else String c (scramEncodeUsername s)
  end.

(** After the first replacement only [=] is still escaped. *)
Fixpoint encode_eq (s : string) : string :=
  match s with
  | EmptyString => ""
  | String c s => if Ascii.eqb c "=" then "=3D" +:+ encode_eq s else String c (encode_eq s)
  end.

Lemma decode_first s : replace_all "=" "2" "C" "," (scramEncodeUsername s) = encode_eq s.
Proof.
  induction s as [|c s IH]; [done|]. cbn [scramEncodeUsername encode_eq]. destruct (Ascii.eqb_spec c "=") as [->|Hc].
  - change ("=3D" +:+ scramEncodeUsername s) with (String "=" (String "3" (String "D" (scramEncodeUsername s)))).
    by rewrite replace_all_skip2, !replace_all_skip, IH by done.
  - destruct (Ascii.eqb_spec c ",") as [->|Hk].
    + change ("=2C" +:+ scramEncodeUsername s) with (String "=" (String "2" (String "C" (scramEncodeUsername s)))).
      by rewrite replace_all_hit, IH.
    + by rewrite replace_all_skip, IH by done.
Qed.

Lemma decode_second s : replace_all "=" "3" "D" "=" (encode_eq s) = s.
Proof.
  induction s as [|c s IH]; [done|]. cbn [encode_eq]. destruct (Ascii.eqb_spec c "=") as [->|Hc].
  - change ("=3D" +:+ encode_eq s) with (String "=" (String "3" (String "D" (encode_eq s)))).
    by rewrite replace_all_hit, IH.
  - by rewrite replace_all_skip, IH by done.
Qed.

Lemma encode_no_comma s : no_char "," (scramEncodeUsername s).
Proof.
  induction s as [|c s IH]; [by intros []|]. cbn [scramEncodeUsername].
  destruct (Ascii.eqb_spec c "="); [|destruct (Ascii.eqb_spec c ",") as [|Hc]].
  1,2: apply no_char_app; split; [cbv; intuition congruence|done].
  intros [?|?]; [congruence|by apply IH].
Qed.

(** Every username survives the escaping of the protocol, also one that contains
    the escape sequences themselves, and an escaped one has no comma to split at. *)
Lemma scram_username_roundtrip s :
  scramDecodeUsername (scramEncodeUsername s) = s /\ split_on "," (scramEncodeUsername s) = [scramEncodeUsername s].
Proof.
  split; [|apply split_on_none, encode_no_comma]. unfold scramDecodeUsername. by rewrite decode_first, decode_second.
Qed.

(** ** XOR *)

Lemma xorBytes_length a b : length a = length b -> length (xorBytes a b) = length a.
Proof. intros H. unfold xorBytes. rewrite H, Nat.eqb_refl. cbn [negb]. rewrite length_zip_with. lia. Qed.

Lemma lxor_byte_range (x y : byte) : 0 <= Z.lxor (b2z x) (b2z y) < 256.
Proof.
  pose proof (b2z_range x). pose proof (b2z_range y).
  split; [apply Z.lxor_nonneg; lia|]. destruct (decide (Z.lxor (b2z x) (b2z y) = 0)) as [->|Hn]; [lia|].
  apply Z.log2_lt_cancel. change (Z.log2 256) with 8.
  pose proof (Z.log2_lxor (b2z x) (b2z y) ltac:(lia) ltac:(lia)).
  pose proof (Z.log2_le_mono (b2z x) 255 ltac:(lia)). pose proof (Z.log2_le_mono (b2z y) 255 ltac:(lia)).
  change (Z.log2 255) with 7 in *. lia.
Qed.

Lemma z2b_lxor x y : z2b (Z.lxor (b2z (z2b (Z.lxor (b2z x) (b2z y)))) (b2z y)) = x.
Proof.
  apply b2z_inj. rewrite !b2z_z2b, (Z.mod_small _ _ (lxor_byte_range x y)).
  rewrite Z.lxor_assoc, Z.lxor_nilpotent, Z.lxor_0_r. apply Z.mod_small, b2z_range.
Qed.

Lemma xorBytes_involutive a b : length a = length b -> xorBytes (xorBytes a b) b = a.
Proof.
  intros H. assert (length (xorBytes a b) = length b) as Hl by (by rewrite xorBytes_length).
  revert b H Hl. unfold xorBytes. intros b H. rewrite H, Nat.eqb_refl. cbn [negb]. intros ->. rewrite Nat.eqb_refl. cbn [negb].
  revert b H. induction a as [|x a IH]; intros [|y b] H; [done..|]. cbn [zip_with]. f_equal; [apply z2b_lxor|].
  apply IH. simpl in H. lia.
Qed.

Lemma xorBytes_eq p a b : p = xorBytes a b -> length a = length b -> xorBytes p b = a.
Proof. intros -> H. by apply xorBytes_involutive. Qed.

(** ** The honest client *)

Definition client_bare (u cnonce : string) : string := "n=" +:+ scramEncodeUsername u +:+ ",r=" +:+ cnonce.
Definition client_first (u cnonce : string) : string := "n,," +:+ client_bare u cnonce.
Definition server_first (nonce : string) (salt : list byte) (iters : Z) : string :=
  "r=" +:+ nonce +:+ ",s=" +:+ b64_encode true salt +:+ ",i=" +:+ pretty iters.
Definition auth_message (bare sfirst nonce : string) : string := bare +:+ "," +:+ sfirst +:+ ",c=biws,r=" +:+ nonce.

Section honest.
Context (hmacSHA256 : list byte -> list byte -> list byte) (sha256Sum : list byte -> list byte).
Context (pbkdf2 : list byte -> list byte -> Z -> Z -> list byte).
Hypothesis hmac_size : forall k m, length (hmacSHA256 k m) = 32%nat.

(** What the client computes from its password and the server's reply. *)
Definition client_proof (pw : string) (salt : list byte) (iters : Z) (auth : string) : list byte :=
  let clientKey := hmacSHA256 (pbkdf2 (bytes_of pw) salt iters scramHashSize) (bytes_of "Client Key") in
  xorBytes clientKey (hmacSHA256 (sha256Sum clientKey) (bytes_of auth)).
Definition client_final (pw nonce : string) (salt : list byte) (iters : Z) (auth : string) : string :=
  "c=biws,r=" +:+ nonce +:+ ",p=" +:+ b64_encode true (client_proof pw salt iters auth).
(** What it expects back. *)
Definition server_final (pw : string) (salt : list byte) (iters : Z) (auth : string) : string :=
  "v=" +:+ b64_encode true (hmacSHA256 (hmacSHA256 (pbkdf2 (bytes_of pw) salt iters scramHashSize) (bytes_of "Server Key")) (bytes_of auth)).

Lemma first_attrs u cnonce acc :
  no_char "," cnonce -> fold_left first_attr (split_on "," (client_bare u cnonce)) acc = (u, cnonce) /\
  (2 <= length (split_on "," (client_bare u cnonce)))%nat.
Proof.
  intros Hc. unfold client_bare. change (",r=" +:+ cnonce) with (String "," ("r=" +:+ cnonce)).
  rewrite string_app_assoc, split_on_sep.
  2:{ apply no_char_app. split; [cbv; intuition congruence|apply encode_no_comma]. }
  rewrite split_on_none by (apply no_char_app; split; [cbv; intuition congruence|done]). split; [|simpl; lia].
  cbn [fold_left]. unfold first_attr at 2. rewrite prefix_app, drop2_app by done.
  rewrite (proj1 (scram_username_roundtrip u)). unfold first_attr.
  rewrite prefix_app, drop2_app by done. done.
Qed.

Lemma final_attrs nonce proof :
  no_char "," nonce -> no_char "," proof ->
  fold_left final_attr (split_on "," ("c=biws,r=" +:+ nonce +:+ ",p=" +:+ proof)) ("", "", "") = ("biws", nonce, proof).
Proof.
  intros Hn Hp. change ("c=biws,r=" +:+ nonce +:+ ",p=" +:+ proof) with
    ("c=biws" +:+ String "," ("r=" +:+ nonce +:+ String "," ("p=" +:+ proof))).
  rewrite split_on_sep by (cbv; intuition congruence).
  rewrite string_app_assoc, split_on_sep by (apply no_char_app; split; [cbv; intuition congruence|done]).
  rewrite split_on_none by (apply no_char_app; split; [cbv; intuition congruence|done]).
  cbn [fold_left]. unfold final_attr at 3. change (String.prefix "c=" "c=biws") with true. cbn beta match.
  change (drop2 "c=biws") with "biws". unfold final_attr at 2.
  change (String.prefix "c=" ("r=" +:+ nonce)) with false. rewrite prefix_app, drop2_app by done. cbn beta match.
  unfold final_attr. change (String.prefix "c=" ("p=" +:+ proof)) with false. change (String.prefix "r=" ("p=" +:+ proof)) with false.
  rewrite prefix_app, drop2_app by done. done.
Qed.

Lemma b64_nonempty l : l <> [] -> b64_encode true l <> "".
Proof. destruct l as [|a [|b [|c l]]]; done. Qed.

Context (users : gmap string string).

(** The server's half of the first exchange. *)
Lemma handleClientFirst_honest d server u cnonce creds :
  server !! u = Some creds -> u <> "" -> cnonce <> "" -> no_char "," cnonce ->
  let nonce := cnonce +:+ b64_encode false (dr_nonce d) in
  let sfirst := server_first nonce (sc_salt creds) (sc_iters creds) in
  handleClientFirst d (newScramConversation server) (client_first u cnonce) =
    (mkConv server 1 u cnonce nonce (Some creds) (client_bare u cnonce +:+ "," +:+ sfirst) false, Ok (sfirst, false)).
Proof.
  intros Hu Hne Hcn Hc. cbn zeta. unfold handleClientFirst, client_first. rewrite prefix_app. cbn [negb andb].
  change 3%nat with (String.length "n,,"). rewrite substring_rest.
  destruct (first_attrs u cnonce ("", "") Hc) as [Hf Hl].
  rewrite (proj2 (Z.ltb_ge _ _)) by (unfold zlen; lia). cbn [newScramConversation cv_username cv_clientNonce cv_server].
  rewrite Hf. rewrite (proj2 (String.eqb_neq u "")), (proj2 (String.eqb_neq cnonce "")) by done. cbn [orb]. by rewrite Hu.
Qed.

(** ... and of the second one. *)
Lemma handleClientFinal_honest server u pw cnonce nonce bare :
  let creds := derive_creds hmacSHA256 sha256Sum pbkdf2 u pw in
  let sfirst := server_first nonce (sc_salt creds) (sc_iters creds) in
  let auth := auth_message bare sfirst nonce in
  no_char "," nonce ->
  handleClientFinal hmacSHA256 sha256Sum
    (mkConv server 1 u cnonce nonce (Some creds) (bare +:+ "," +:+ sfirst) false)
    (client_final pw nonce (sc_salt creds) (sc_iters creds) auth) =
  (mkConv server 2 u cnonce nonce (Some creds) auth true, Ok (server_final pw (sc_salt creds) (sc_iters creds) auth, true)).
Proof.
  cbn zeta. intros Hn. set (creds := derive_creds _ _ _ u pw). set (sfirst := server_first _ _ _).
  set (auth := auth_message bare sfirst nonce). set (clientKey := hmacSHA256 (pbkdf2 (bytes_of pw) (sc_salt creds) (sc_iters creds) scramHashSize) (bytes_of "Client Key")).
  set (proof := client_proof pw (sc_salt creds) (sc_iters creds) auth).
  assert (sc_storedKey creds = sha256Sum clientKey) as Hsk by done.
  assert (proof = xorBytes clientKey (hmacSHA256 (sc_storedKey creds) (bytes_of auth))) as Hp by done.
  assert (length clientKey = length (hmacSHA256 (sc_storedKey creds) (bytes_of auth))) as Hck by (etrans; [apply hmac_size|by rewrite hmac_size]).
  assert (length proof = 32%nat) as Hlen by (rewrite Hp, xorBytes_length by done; apply hmac_size).
  assert ((bare +:+ "," +:+ sfirst) +:+ "," +:+ "c=" +:+ "biws" +:+ ",r=" +:+ nonce = auth) as Hauth.
  { unfold auth, auth_message. by rewrite <- !string_app_assoc. }
  unfold handleClientFinal, client_final. fold proof.
  rewrite final_attrs by (done || apply b64_encode_clean). cbn [cv_serverNonce].
  rewrite (proj2 (String.eqb_neq (b64_encode true proof) "")) by (apply b64_nonempty; by destruct proof).
  rewrite String.eqb_refl. cbn [negb andb String.eqb]. cbn beta iota.
  unfold set_auth. cbn [cv_server cv_step cv_username cv_clientNonce cv_serverNonce cv_creds cv_authMessage cv_valid].
  change (String.eqb "biws" "biws") with true. cbn [negb andb]. rewrite Hauth, b64_roundtrip.
  unfold scramHashSize, zlen. rewrite Hlen. cbn [negb Z.eqb Z.of_nat].
  rewrite (xorBytes_eq proof clientKey _ Hp Hck). rewrite Hsk, bool_decide_true by done. done.
Qed.
End honest.

(** C12: The right password always gets in.  For every user of the users file
    (whatever characters its name has) and every client nonce without a comma, a
    client that follows RFC 5802 with the password, using only what the server
    sends, is authenticated by its second message: the connection carries the
    user's name and tenant, and the server's last message is the signature the
    client expects. *)
Theorem scram_complete hmac sha pbkdf2 path users server u pw cnonce d1 d2 acl cs :
  (forall k m, length (hmac k m) = 32%nat) ->
  loadScramServer hmac sha pbkdf2 path (Ok (Some users)) = Ok server -> users !! u = Some pw ->
  u <> "" -> cnonce <> "" -> no_char "," cnonce ->
  let cs1 := (handleSASLHandshake (Some server) cs "SCRAM-SHA-256").1 in
  exists nonce salt iters cs2 cs3,
    let auth := auth_message (client_bare u cnonce) (server_first nonce salt iters) nonce in
    handleSASLAuthenticate hmac sha d1 acl cs1 (bytes_of (client_first u cnonce)) =
      (cs2, Ok (errCodeNone, bytes_of (server_first nonce salt iters))) /\
    handleSASLAuthenticate hmac sha d2 acl cs2 (bytes_of (client_final hmac sha pbkdf2 pw nonce salt iters auth)) =
      (cs3, Ok (errCodeNone, bytes_of (server_final hmac pbkdf2 pw salt iters auth))) /\
    cs_saslComplete cs3 = true /\ cs_saslPrincipal cs3 = u /\ cs_tenantID cs3 = TenantOf acl u.
Proof.
  intros Hsize Hload Hu Hne Hcn Hc. cbn zeta.
  assert (server !! u = Some (derive_creds hmac sha pbkdf2 u pw)) as Hs.
  { unfold loadScramServer in Hload. destruct (String.eqb path ""); [done|]. destruct (bool_decide _); [done|].
    injection Hload as <-. etrans; [apply map_lookup_imap|]. by rewrite Hu. }
  set (creds := derive_creds hmac sha pbkdf2 u pw) in *. set (nonce := cnonce +:+ b64_encode false (dr_nonce d1)).
  assert (no_char "," nonce) as Hn by (apply no_char_app; split; [done|apply b64_encode_clean]).
  unfold handleSASLHandshake. change (String.eqb "SCRAM-SHA-256" "SCRAM-SHA-256") with true. cbn [negb fst].
  exists nonce, (sc_salt creds), (sc_iters creds). eexists _, _. split; [|split; [|split; [|split]]].
  - unfold handleSASLAuthenticate. cbn [cs_saslState]. unfold doStep. cbn [newScramConversation cv_step].
    unfold string_of, bytes_of at 1. rewrite string_of_list_of_string. cbn [Z.eqb].
    fold (newScramConversation server). rewrite (handleClientFirst_honest d1 server u cnonce creds) by done. reflexivity.
  - unfold handleSASLAuthenticate at 1. cbn [set_conv cs_saslState]. unfold doStep. cbn [cv_step Z.eqb].
    unfold string_of, bytes_of at 1. rewrite string_of_list_of_string.
    rewrite (handleClientFinal_honest hmac sha pbkdf2 Hsize server u pw cnonce nonce) by done. reflexivity.
  - reflexivity.
  - reflexivity.
  - reflexivity.
Qed.

(** ** Nothing else does *)

Section sound.
Context (hmac : list byte -> list byte -> list byte) (sha : list byte -> list byte) (acl : ACLStore).

Inductive sasl_event := Handshake (mechanism : string) | Authenticate (d : draws) (m : list byte).

Definition sasl_step (scram : option scramServer) (cs : connState) (ev : sasl_event) : connState :=
  match ev with
  | Handshake mech => (handleSASLHandshake scram cs mech).1
  | Authenticate d m => (handleSASLAuthenticate hmac sha d acl cs m).1
  end.

(** The credentials a first message got: the user's, or made up for a user that
    does not exist. *)
Definition issued (server : scramServer) (evs : list sasl_event) (u nonce : string) (cr : scramCreds) : Prop :=
  exists d m cnonce, Authenticate d m ∈ evs /\ nonce = cnonce +:+ b64_encode false (dr_nonce d) /\
    (server !! u = Some cr \/
     server !! u = None /\ cr = mkCreds (dr_salt d) scramIterations (dr_storedKey d) (dr_serverKey d)).

(** A second message with this server nonce and a proof that unmasks a preimage
    of the stored key. *)
Definition proved (evs : list sasl_event) (nonce : string) (cr : scramCreds) : Prop :=
  exists d m cbind p proof auth, Authenticate d m ∈ evs /\
    fold_left final_attr (split_on "," (string_of m)) ("", "", "") = (cbind, nonce, p) /\
    b64_decode p = Some proof /\ length proof = 32%nat /\
    sha (xorBytes proof (hmac (sc_storedKey cr) (bytes_of auth))) = sc_storedKey cr.

Definition conv_inv (server : scramServer) (evs : list sasl_event) (c : scramConversation) : Prop :=
  cv_server c = server /\
  (cv_step c <> 2 -> cv_valid c = false) /\
  (cv_step c = 0 \/ exists cr, cv_creds c = Some cr /\ issued server evs (cv_username c) (cv_serverNonce c) cr /\
     (cv_valid c = true -> proved evs (cv_serverNonce c) cr)).

Definition conn_inv (server : scramServer) (evs : list sasl_event) (cs : connState) : Prop :=
  (forall c, cs_saslState cs = Some c -> conv_inv server evs c) /\
  (cs_saslComplete cs = true -> cs_tenantID cs = TenantOf acl (cs_saslPrincipal cs) /\
     exists nonce cr, issued server evs (cs_saslPrincipal cs) nonce cr /\ proved evs nonce cr).

Lemma issued_mono server evs ev u n cr : issued server evs u n cr -> issued server (evs ++ [ev]) u n cr.
Proof. intros (d & m & cn & H & Hr). exists d, m, cn. split; [apply elem_of_app; by left|done]. Qed.

Lemma proved_mono evs ev n cr : proved evs n cr -> proved (evs ++ [ev]) n cr.
Proof. intros (d & m & c & p & pf & au & H & Hr). exists d, m, c, p, pf, au. split; [apply elem_of_app; by left|done]. Qed.

Lemma conv_inv_mono server evs ev c : conv_inv server evs c -> conv_inv server (evs ++ [ev]) c.
Proof.
  intros (Hs & Hv & H). split_and!; [done..|]. destruct H as [?|(cr & Hc & Hi & Hp)]; [by left|right].
  exists cr. split_and!; [done|by apply issued_mono|intros; by apply proved_mono, Hp].
Qed.

Lemma doStep_inv server evs d m c c' r :
  conv_inv server evs c -> doStep hmac sha d c m = (c', r) -> conv_inv server (evs ++ [Authenticate d m]) c'.
Proof.
  intros Hinv. pose proof (conv_inv_mono _ _ (Authenticate d m) _ Hinv) as Hkeep.
  assert (Authenticate d m ∈ evs ++ [Authenticate d m]) as Hin by (apply elem_of_app; right; by apply list_elem_of_singleton).
  unfold doStep. destruct (Z.eqb_spec (cv_step c) 0) as [H0|H0].
  - unfold handleClientFirst. destruct (_ && _); [by intros [= <- _]|]. destruct (_ <? _); [by intros [= <- _]|].
    destruct (fold_left first_attr _ _) as [u cn]. destruct Hkeep as (Hs & Hv & _).
    destruct (_ || _); intros [= <- _]; (split_and!; cbn; [done|intros; apply Hv; lia|]); [by left|].
    right. eexists. split; [done|]. split; [|by rewrite Hv by lia].
    exists d, m, cn. split_and!; [done..|]. rewrite Hs. destruct (server !! u); eauto.
  - destruct (Z.eqb_spec (cv_step c) 1) as [H1|H1]; [|by intros [= <- _]].
    destruct Hkeep as (Hs & Hv & [?|(cr & Hc & Hi & _)]); [done|].
    assert (forall a, conv_inv server (evs ++ [Authenticate d m]) (set_auth c a)) as Hset.
    { intros a. split_and!; cbn; [done..|]. right. exists cr. split_and!; [done..|]. by rewrite Hv by lia. }
    unfold handleClientFinal. destruct (fold_left final_attr _ _) as [[cbind nonce] p] eqn:Ef.
    destruct (String.eqb p ""); [intros [= <- _]; by apply conv_inv_mono|].
    destruct (String.eqb_spec nonce (cv_serverNonce c)) as [->|]; cbn [negb]; [|intros [= <- _]; by apply conv_inv_mono].
    destruct (_ && _); [intros [= <- _]; by apply conv_inv_mono|].
    set (auth := cv_authMessage c +:+ _) in *. change (cv_creds (set_auth c auth)) with (cv_creds c). rewrite Hc.
    destruct (b64_decode p) as [proof|] eqn:Ep; [|intros [= <- _]; apply Hset].
    destruct (Z.eqb_spec (zlen proof) scramHashSize) as [Hl|]; cbn [negb]; [|intros [= <- _]; apply Hset].
    destruct (bool_decide _) eqn:Ek; cbn [negb]; intros [= <- _]; (split_and!; cbn; [done|done|]); right; exists cr;
      (split_and!; [done..|]); [|done].
    intros _. apply bool_decide_eq_true in Ek. exists d, m, cbind, p, proof, auth.
    split_and!; try done. unfold zlen, scramHashSize in Hl. lia.
Qed.

Lemma sasl_step_inv server evs cs ev :
  conn_inv server evs cs -> conn_inv server (evs ++ [ev]) (sasl_step (Some server) cs ev).
Proof.
  intros [Hc Hd].
  assert (cs_saslComplete cs = true -> cs_tenantID cs = TenantOf acl (cs_saslPrincipal cs) /\
     exists nonce cr, issued server (evs ++ [ev]) (cs_saslPrincipal cs) nonce cr /\ proved (evs ++ [ev]) nonce cr) as Hd'.
  { intros H. destruct (Hd H) as (Ht & n & cr & Hi & Hp). split; [done|]. exists n, cr.
    split; [by apply issued_mono|by apply proved_mono]. }
  destruct ev as [mech|d m]; cbn [sasl_step].
  - unfold handleSASLHandshake. destruct (negb _); cbn; (split; [|exact Hd']); [intros c H; by apply conv_inv_mono, Hc|].
    intros c [= <-]. split_and!; [done|done|by left].
  - unfold handleSASLAuthenticate. destruct (cs_saslState cs) as [conv|] eqn:Es.
    2:{ cbn. split; [|exact Hd']. rewrite Es. done. }
    destruct (doStep hmac sha d conv m) as [conv' r] eqn:E. pose proof (doStep_inv server evs d m conv conv' r (Hc _ eq_refl) E) as Hi.
    destruct r as [[out done]|?| |]; cbn [fst]; try (split; [by intros c [= <-]|exact Hd']).
    destruct done; [|split; [by intros c [= <-]|exact Hd']].
    destruct (cv_valid conv') eqn:Ev; cbn [fst]; [|split; [by intros c [= <-]|exact Hd']].
    split; [by intros c [= <-]|]. cbn. intros _. split; [done|].
    destruct Hi as (_ & Hv & [H0|(cr & _ & His & Hp)]); [|eexists _, _; split; [exact His|by apply Hp]].
    rewrite Hv in Ev by lia. done.
Qed.
End sound.

(** C11: Nothing but a valid proof gets in.  After any sequence of SASL requests
    on a fresh connection, the connection is authenticated only if some client
    message carried a proof that, unmasked with the signature under the stored
    key, hashes to that key, and quoted the server nonce drawn in this very
    conversation; the key is the one of the user the connection is then known as,
    or one drawn at random when there is no such user.  The tenant is the user's.
    Without a credential store no connection is ever authenticated. *)
Theorem scram_sound hmac sha acl server evs remote :
  (let cs := fold_left (sasl_step hmac sha acl (Some server)) evs (new_conn true remote) in
   cs_saslComplete cs = true ->
   cs_tenantID cs = TenantOf acl (cs_saslPrincipal cs) /\
   exists nonce cr, issued server evs (cs_saslPrincipal cs) nonce cr /\ proved hmac sha evs nonce cr) /\
  cs_saslComplete (fold_left (sasl_step hmac sha acl None) evs (new_conn true remote)) = false.
Proof.
  split.
  - assert (forall pre, conn_inv hmac sha acl server pre (fold_left (sasl_step hmac sha acl (Some server)) pre (new_conn true remote))) as H.
    { induction pre as [|ev pre IH] using rev_ind; [by split|]. rewrite fold_left_app. by apply sasl_step_inv. }
    apply (H evs).
  - assert (forall cs, cs_saslComplete cs = false /\ cs_saslState cs = None ->
      cs_saslComplete (fold_left (sasl_step hmac sha acl None) evs cs) = false) as H; [|by apply H].
    induction evs as [|ev evs IH]; intros cs [H1 H2]; [done|]. cbn [fold_left]. apply IH.
    destruct ev; cbn; [unfold handleSASLHandshake; by destruct (negb _)|].
    unfold handleSASLAuthenticate. by rewrite H2.
Qed.

(** ** Concrete instances *)

Definition pad32 (l : list byte) : list byte := take 32 (l ++ replicate 32 x00).
Definition toy_hmac (k m : list byte) : list byte := pad32 (rev m ++ k).
Definition toy_sha (l : list byte) : list byte := pad32 (rev l).
Definition toy_pbkdf2 (pw salt : list byte) (iters size : Z) : list byte := pad32 (pw ++ salt).

Lemma toy_hmac_size k m : length (toy_hmac k m) = 32%nat.
Proof. unfold toy_hmac, pad32. rewrite length_take, length_app, length_replicate. lia. Qed.

Definition sample_users : gmap string string := {["a=2C,b" := "secret"]}.
Definition sample_server : scramServer :=
  match loadScramServer toy_hmac toy_sha toy_pbkdf2 "users.json" (Ok (Some sample_users)) with Ok s => s | _ => ∅ end.
Definition sample_draws : draws := mkDraws [] [] [] (bytes_of "123456789012345678").

Lemma scram_complete_witness :
  let cs1 := (handleSASLHandshake (Some sample_server) (new_conn true "peer") "SCRAM-SHA-256").1 in
  exists nonce salt iters cs2 cs3,
    let auth := auth_message (client_bare "a=2C,b" "abc") (server_first nonce salt iters) nonce in
    handleSASLAuthenticate toy_hmac toy_sha sample_draws sample_acl cs1 (bytes_of (client_first "a=2C,b" "abc")) =
      (cs2, Ok (errCodeNone, bytes_of (server_first nonce salt iters))) /\
    handleSASLAuthenticate toy_hmac toy_sha sample_draws sample_acl cs2
        (bytes_of (client_final toy_hmac toy_sha toy_pbkdf2 "secret" nonce salt iters auth)) =
      (cs3, Ok (errCodeNone, bytes_of (server_final toy_hmac toy_pbkdf2 "secret" salt iters auth))) /\
    cs_saslComplete cs3 = true /\ cs_saslPrincipal cs3 = "a=2C,b" /\ cs_tenantID cs3 = TenantOf sample_acl "a=2C,b".
Proof.
  apply (scram_complete toy_hmac toy_sha toy_pbkdf2 "users.json" sample_users).
  - exact toy_hmac_size.
  - vm_compute. reflexivity.
  - reflexivity.
  - discriminate.
  - discriminate.
  - cbv. intuition congruence.
Defined.

(** The messages of the run above. *)
Definition sample_nonce : string := "abc" +:+ b64_encode false (dr_nonce sample_draws).
Definition sample_salt : list byte := deriveSalt toy_hmac "a=2C,b".
Definition sample_events : list sasl_event :=
  [Handshake "SCRAM-SHA-256"; Authenticate sample_draws (bytes_of (client_first "a=2C,b" "abc"));
   Authenticate sample_draws (bytes_of (client_final toy_hmac toy_sha toy_pbkdf2 "secret" sample_nonce sample_salt 4096
     (auth_message (client_bare "a=2C,b" "abc") (server_first sample_nonce sample_salt 4096) sample_nonce)))].

Lemma scram_sound_witness :
  let cs := fold_left (sasl_step toy_hmac toy_sha sample_acl (Some sample_server)) sample_events (new_conn true "peer") in
  cs_saslPrincipal cs = "a=2C,b" /\
  exists nonce cr, issued sample_server sample_events (cs_saslPrincipal cs) nonce cr /\ proved toy_hmac toy_sha sample_events nonce cr.
Proof.
  cbn zeta. split; [vm_compute; reflexivity|].
  apply (proj1 (scram_sound toy_hmac toy_sha sample_acl sample_server sample_events "peer")). vm_compute. reflexivity.
Defined.

(** A wrong password is refused. *)
Example scram_wrong_password :
  let evs := [Handshake "SCRAM-SHA-256"; Authenticate sample_draws (bytes_of (client_first "a=2C,b" "abc"));
    Authenticate sample_draws (bytes_of (client_final toy_hmac toy_sha toy_pbkdf2 "guess" sample_nonce sample_salt 4096
      (auth_message (client_bare "a=2C,b" "abc") (server_first sample_nonce sample_salt 4096) sample_nonce)))] in
  cs_saslComplete (fold_left (sasl_step toy_hmac toy_sha sample_acl (Some sample_server)) evs (new_conn true "peer")) = false.
Proof. vm_compute. reflexivity. Qed.
