(* ===== verification/Dispatch.v ===== *)
(** * The dispatcher (internal/wire/dispatch.go, api_versions.go)

    Routing of requests, the SASL gate, and the loop that serves one connection.
    The message codec is the kmsg package: decoders and encoders are the fields
    of [codec].  Everything the world contributes to one request is a [henv]. *)

From S2P Require Import Prelude Bytes OsFile RecordBatch Segment Log Names Offsets Group Acl Manifest Cache Broker.
From S2P Require Import Frame Text Produce FetchApi TopicApi GroupApi Sasl.

#[local] Open Scope Z_scope.

(** ** The APIs (kmsg's names, with a K) *)

Inductive api :=
| KProduce | KFetch | KListOffsets | KMetadata | KOffsetCommit | KOffsetFetch | KFindCoordinator | KJoinGroup | KHeartbeat | KLeaveGroup
| KSyncGroup | KDescribeGroups | KListGroups | KSASLHandshake | KApiVersions | KCreateTopics | KDeleteTopics | KDescribeConfigs | KSASLAuthenticate.

#[export] Instance api_eq_dec : EqDecision api.
Proof. solve_decision. Defined.

(** The protocol's numbers (kmsg's [Key] constants). *)
Definition api_key (a : api) : Z :=
  match a with
  | KProduce => 0 | KFetch => 1 | KListOffsets => 2 | KMetadata => 3 | KOffsetCommit => 8 | KOffsetFetch => 9 | KFindCoordinator => 10
  | KJoinGroup => 11 | KHeartbeat => 12 | KLeaveGroup => 13 | KSyncGroup => 14 | KDescribeGroups => 15 | KListGroups => 16
  | KSASLHandshake => 17 | KApiVersions => 18 | KCreateTopics => 19 | KDeleteTopics => 20 | KDescribeConfigs => 32 | KSASLAuthenticate => 36
  end.

(** The switch of [handle], in its order. *)
Definition route (key : Z) : option api :=
  List.find (fun a => api_key a =? key)
    [KApiVersions; KSASLHandshake; KSASLAuthenticate; KMetadata; KProduce; KFetch; KListOffsets; KCreateTopics; KDeleteTopics; KFindCoordinator;
     KJoinGroup; KSyncGroup; KHeartbeat; KLeaveGroup; KOffsetCommit; KOffsetFetch; KDescribeConfigs; KDescribeGroups; KListGroups].

Record apiVersionRange := mkRange { av_APIKey : Z; av_MinVersion : Z; av_MaxVersion : Z }.

Definition advertisedAPIs : list apiVersionRange :=
  [ mkRange (api_key KProduce) 3 9; mkRange (api_key KFetch) 4 11; mkRange (api_key KListOffsets) 0 5; mkRange (api_key KMetadata) 0 9;
    mkRange (api_key KOffsetCommit) 0 8; mkRange (api_key KOffsetFetch) 0 6; mkRange (api_key KFindCoordinator) 0 3;
    mkRange (api_key KJoinGroup) 0 7; mkRange (api_key KHeartbeat) 0 4; mkRange (api_key KLeaveGroup) 0 4; mkRange (api_key KSyncGroup) 0 5;
    mkRange (api_key KSASLHandshake) 0 1; mkRange (api_key KSASLAuthenticate) 0 2; mkRange (api_key KApiVersions) 0 3;
    mkRange (api_key KCreateTopics) 0 6; mkRange (api_key KDeleteTopics) 0 5; mkRange (api_key KDescribeConfigs) 0 4;
    mkRange (api_key KDescribeGroups) 0 5; mkRange (api_key KListGroups) 0 4 ].

(** ** Responses *)

Inductive Response :=
| RespApiVersions (code : Z) (apis : list apiVersionRange)
| RespSASLHandshake (code : Z) (mechanisms : list string)
| RespSASLAuthenticate (code : Z) (bytes : list byte)
| RespMetadata (r : MetadataResponse)
| RespProduce (r : list ProduceTopicResp)
| RespFetch (r : list FetchTopicResp)
| RespListOffsets (r : list ListOffsetsTopicResp)
| RespCreateTopics (r : list CreateTopicResp)
| RespDeleteTopics (r : list DeleteTopicResp)
| RespFindCoordinator (r : Coordinator * list Coordinator)
| RespJoinGroup (r : JoinGroupResponse)
| RespSyncGroup (r : SyncGroupResult)
| RespHeartbeat (code : Z)
| RespLeaveGroup (r : Z * list (string * Z))
| RespOffsetCommit (r : list (string * list (Z * Z)))
| RespOffsetFetch (r : OffsetFetchResponse)
| RespDescribeConfigs (r : list ConfigResourceResp)
| RespDescribeGroups (r : list GroupDescription)
| RespListGroups (r : list (string * string * string))
| RespUnsupported (key code : Z).

(** kmsg: the decoders take the version and the body. *)
Record codec := mkCodec {
  dec_SASLHandshake : Z -> list byte -> option string;
  dec_SASLAuthenticate : Z -> list byte -> option (list byte);
  dec_Metadata : Z -> list byte -> option MetadataRequest;
  dec_Produce : Z -> list byte -> option (Z * list ProduceTopic);
  dec_Fetch : Z -> list byte -> option FetchRequest;
  dec_ListOffsets : Z -> list byte -> option (list ListOffsetsTopic);
  dec_CreateTopics : Z -> list byte -> option (bool * list CreateTopicReq);
  dec_DeleteTopics : Z -> list byte -> option (list string * list (option string));
  dec_FindCoordinator : Z -> list byte -> option (list string);
  dec_JoinGroup : Z -> list byte -> option JoinGroupRequest;
  dec_SyncGroup : Z -> list byte -> option SyncGroupRequest;
  dec_Heartbeat : Z -> list byte -> option (string * string * Z);
  dec_LeaveGroup : Z -> list byte -> option (string * string * list string);
  dec_OffsetCommit : Z -> list byte -> option (string * list CommitTopic);
  dec_OffsetFetch : Z -> list byte -> option (list (string * list (string * list Z)) * string * list (string * list Z));
  dec_DescribeConfigs : Z -> list byte -> option (list ConfigResource);
  dec_DescribeGroups : Z -> list byte -> option (list string);
  dec_ListGroups : Z -> list byte -> option unit;
  enc : Z -> Response -> list byte;
  flexible : Z -> Z -> bool;          (* IsFlexible of the message with this key and version *)
  known_key : Z -> bool               (* ResponseForKey knows the key *)
}.

(** ** One request *)

(** The world during one request. *)
Record henv := mkHenv {
  he_produce : nat -> nat -> wenv;
  he_fetch : world;
  he_open : nat -> openenv;
  he_all : gmap string Topic -> list string;
  he_group : groupenv;
  he_persist : nat -> nat -> persist_outcome;
  he_order : gmap string liveGroup -> list string;
  he_draws : draws;
  he_others : Broker -> Broker        (* other connections, before the next request *)
}.

Section dispatch.
Context (sha256 : list byte -> string) (mac : list byte -> string -> string) (hmacKey : list byte).   (* of the archive *)
Context (hmacSHA256 : list byte -> list byte -> list byte) (sha256Sum : list byte -> list byte).      (* of SCRAM *)
Context (c : codec) (scram : option scramServer).

Definition preauth_allowed (a : option api) : bool :=
  match a with
  | Some KApiVersions | Some KSASLHandshake | Some KSASLAuthenticate => true
  | _ => false
  end.

(** A handler: decode the body, act, answer. *)
Definition with_body {A} (d : option A) (b : Broker) (cs : connState) (f : A -> Broker * connState * res (option Response))
  : Broker * connState * res (option Response) :=
  match d with
  | None => (b, cs, Err (EMsg "decode"))
  | Some a => f a
  end.

Definition reply (b : Broker) (cs : connState) (r : Response) : Broker * connState * res (option Response) := (b, cs, Ok (Some r)).
Definition reply_res {A} (cs : connState) (br : Broker * res A) (k : A -> Response) : Broker * connState * res (option Response) :=
  (br.1, cs, a ← br.2; Ok (Some (k a))).

(** The routed half of [handle]. *)
Definition dispatch (e : henv) (b : Broker) (cs : connState) (a : api) (v : Z) (body : list byte)
  : Broker * connState * res (option Response) :=
  let who := cs_saslPrincipal cs in
  let tenant := cs_tenantID cs in
  let g := he_group e in
  match a with
  | KApiVersions => reply b cs (RespApiVersions errCodeNone advertisedAPIs)
  | KSASLHandshake => with_body (dec_SASLHandshake c v body) b cs (fun mech =>
      let '(cs, code) := handleSASLHandshake scram cs mech in reply b cs (RespSASLHandshake code ["SCRAM-SHA-256"]))
  | KSASLAuthenticate => with_body (dec_SASLAuthenticate c v body) b cs (fun m =>
      let '(cs, r) := handleSASLAuthenticate hmacSHA256 sha256Sum (he_draws e) (b_acl b) cs m in
      reply_res cs (b, r) (fun x => RespSASLAuthenticate x.1 x.2))
  | KMetadata => with_body (dec_Metadata c v body) b cs (fun req =>
      reply_res cs (handleMetadata (he_open e) (he_all e) b who req) RespMetadata)
  | KProduce => with_body (dec_Produce c v body) b cs (fun '(acks, ts) =>
      let '(b, r) := handleProduce (he_produce e) b who tenant acks ts in
      (b, cs, x ← r; Ok (option_map RespProduce x)))
  | KFetch => with_body (dec_Fetch c v body) b cs (fun req =>
      reply_res cs (handleFetch sha256 mac hmacKey who tenant (he_fetch e) b req) (fun p => RespFetch (po_Topics p)))
  | KListOffsets => with_body (dec_ListOffsets c v body) b cs (fun ts =>
      reply_res cs (b, handleListOffsets b who ts) RespListOffsets)
  | KCreateTopics => with_body (dec_CreateTopics c v body) b cs (fun '(validateOnly, ts) =>
      reply_res cs (handleCreateTopics (he_open e) b who validateOnly ts) RespCreateTopics)
  | KDeleteTopics => with_body (dec_DeleteTopics c v body) b cs (fun '(names, ts) =>
      reply_res cs (handleDeleteTopics (he_open e) b who names ts) RespDeleteTopics)
  | KFindCoordinator => with_body (dec_FindCoordinator c v body) b cs (fun keys =>
      reply b cs (RespFindCoordinator (handleFindCoordinator b keys)))
  | KJoinGroup => with_body (dec_JoinGroup c v body) b cs (fun req =>
      reply_res cs (handleJoinGroup g b who (cs_lastClientID cs) (cs_remote cs) v req) RespJoinGroup)
  | KSyncGroup => with_body (dec_SyncGroup c v body) b cs (fun req => reply_res cs (handleSyncGroup g b req) RespSyncGroup)
  | KHeartbeat => with_body (dec_Heartbeat c v body) b cs (fun '(group, member, gen) =>
      let '(b, code) := handleHeartbeat (ge_now g) b group member gen in reply b cs (RespHeartbeat code))
  | KLeaveGroup => with_body (dec_LeaveGroup c v body) b cs (fun '(group, member, members) =>
      let '(b, r) := handleLeaveGroup (ge_now g) (he_persist e 0%nat) b group member members in reply b cs (RespLeaveGroup r))
  | KOffsetCommit => with_body (dec_OffsetCommit c v body) b cs (fun '(group, ts) =>
      reply_res cs (handleOffsetCommit (ge_now g) (he_persist e) b who group ts) RespOffsetCommit)
  | KOffsetFetch => with_body (dec_OffsetFetch c v body) b cs (fun '(groups, group, ts) =>
      reply b cs (RespOffsetFetch (handleOffsetFetch b groups group ts)))
  | KDescribeConfigs => with_body (dec_DescribeConfigs c v body) b cs (fun rs =>
      reply b cs (RespDescribeConfigs (handleDescribeConfigs b rs)))
  | KDescribeGroups => with_body (dec_DescribeGroups c v body) b cs (fun gids =>
      reply_res cs (b, handleDescribeGroups (ge_iter g) (he_order e) b who gids) RespDescribeGroups)
  | KListGroups => with_body (dec_ListGroups c v body) b cs (fun _ =>
      reply_res cs (b, handleListGroups (ge_iter g) (he_order e) b) RespListGroups)
  end.

(** An API without a handler: the response of its own kind with the error code set,
    when the codec knows the key. *)
Definition writeUnsupported (b : Broker) (cs : connState) (hdr : RequestHeader) : Broker * connState * res (option Response) :=
  if known_key c (APIKey hdr) then reply b cs (RespUnsupported (APIKey hdr) errCodeUnsupportedVersion)
  else (b, cs, Err (EMsg "unknown api key")).

Definition handle (e : henv) (b : Broker) (cs : connState) (hdr : RequestHeader) (body : list byte)
  : Broker * connState * res (option Response) :=
  let a := route (APIKey hdr) in
  if negb (cs_saslComplete cs) && negb (preauth_allowed a)
  then (b, cs, Err (EMsg "request received before SASL completion"))
  else match a with
  | Some a => dispatch e b cs a (APIVersion hdr) body
  | None => writeUnsupported b cs hdr
  end.

(** The frame for a response: ApiVersions always has the old header. *)
Definition writeKmsgResponse (hdr : RequestHeader) (r : Response) : list byte :=
  let fl := match r with
            | RespApiVersions _ _ => false
            | _ => flexible c (APIKey hdr) (APIVersion hdr)
            end in
  writeResponse (CorrelationID hdr) (enc c (APIVersion hdr) r) fl.

(** ** One connection *)

Record wireConfig := mkWireConfig { wc_MaxRequestBytes : Z; wc_SaslEnabled : bool; wc_MaxConnections : Z }.

(** What happened on the connection: each request with the frame written for it. *)
Record served := mkServed { sv_broker : Broker; sv_conn : connState; sv_log : list (RequestHeader * option (list byte)); sv_end : res unit }.

Fixpoint serve_loop (fuel : nat) (tagfuel : nat) (cfg : wireConfig) (e : nat -> henv) (b : Broker) (cs : connState) (conn : list byte) : served :=
  match fuel with
  | O => mkServed b cs [] Diverge
  | S fuel =>
      match readRequest (flexible c) tagfuel (wc_MaxRequestBytes cfg) conn with
      | Ok (hdr, body, conn) =>
          let cs := set_clientID cs (string_of (ClientID hdr)) in
          match handle (e 0%nat) b cs hdr body with
          | (b, cs, Ok r) =>
              let s := serve_loop fuel tagfuel cfg (fun k => e (S k)) (he_others (e 0%nat) b) cs conn in
              mkServed (sv_broker s) (sv_conn s) ((hdr, writeKmsgResponse hdr <$> r) :: sv_log s) (sv_end s)
          | (b, cs, Err _) => mkServed b cs [] (Ok tt)
          | (b, cs, Panic) => mkServed b cs [] Panic
          | (b, cs, Diverge) => mkServed b cs [] Diverge
          end
      | Err _ => mkServed b cs [] (Ok tt)
      | Panic => mkServed b cs [] Panic
      | Diverge => mkServed b cs [] Diverge
      end
  end.

(** [Serve] behind the connection limit; every request takes at least a byte. *)
Definition Serve (tagfuel : nat) (cfg : wireConfig) (e : nat -> henv) (b : Broker) (remote : string) (conn : list byte) : served :=
  serve_loop (S (length conn)) tagfuel cfg e b (new_conn (wc_SaslEnabled cfg) remote) conn.

(** The bytes the client receives. *)
Definition received (s : served) : list byte := flat_map (fun x => default [] x.2) (sv_log s).
End dispatch.

(** [NewDispatcher]: the defaults, and the credential store when it loads. *)
Definition NewDispatcher_config (c : wireConfig) : wireConfig :=
  mkWireConfig (if wc_MaxRequestBytes c <=? 0 then 4 * 1024 * 1024 else wc_MaxRequestBytes c) (wc_SaslEnabled c) (wc_MaxConnections c).
Definition NewDispatcher_scram (hmac : list byte -> list byte -> list byte) (sha : list byte -> list byte)
    (pbkdf2 : list byte -> list byte -> Z -> Z -> list byte) (saslEnabled : bool) (path : string) (file : res (option (gmap string string)))
  : option scramServer :=
  if saslEnabled && negb (String.eqb path "") then
    match loadScramServer hmac sha pbkdf2 path file with Ok s => Some s | _ => None end
  else None.
