(* ===== verification/DispatchProps.v ===== *)
(** * The dispatcher: authentication first, grants always, answers in order *)

From S2P Require Import Prelude Bytes OsFile RecordBatch Index TimeIndex Segment SegmentFacts Log LogFacts LogRead LogRecover Samples.
From S2P Require Import Names Offsets Group Acl Manifest Cache Broker BrokerFacts BrokerProps Frame FrameProps Text.
From S2P Require Import Produce FetchApi FetchProps ProduceProps TopicApi TopicProps GroupApi Sasl SaslProps Dispatch.

#[local] Open Scope Z_scope.

(** ** The API table *)

(** The broker answers exactly what it advertises: an API key is in the
    ApiVersions table if and only if the dispatcher routes it to a handler, no
    key is listed twice, and every version range is well formed. *)
Theorem advertised_routed :
  (forall key, (exists r, r ∈ advertisedAPIs /\ av_APIKey r = key) <-> route key <> None) /\
  NoDup (map av_APIKey advertisedAPIs) /\
  Forall (fun r => 0 <= av_MinVersion r <= av_MaxVersion r) advertisedAPIs.
Proof.
  split; [|split].
  - intros key. split.
    + intros (r & Hr & <-). apply list_elem_of_In in Hr. cbn in Hr. intuition (subst; discriminate).
    + unfold route. destruct (List.find _ _) as [a|] eqn:E; [intros _|done]. apply find_some in E as [_ E]. zbool. subst key.
      assert (existsb (fun r => av_APIKey r =? api_key a) advertisedAPIs = true) as H by (by destruct a).
      apply existsb_exists in H as (r & Hr & Hk). exists r. split; [by apply list_elem_of_In|by apply Z.eqb_eq].
  - apply (bool_decide_unpack _). vm_compute. exact I.
  - apply (bool_decide_unpack _). vm_compute. exact I.
Qed.

Section props.
Context (sha256 : list byte -> string) (mac : list byte -> string -> string) (hmacKey : list byte).
Context (hmacSHA256 : list byte -> list byte -> list byte) (sha256Sum : list byte -> list byte).
Context (c : codec) (scram : option scramServer).

#[local] Abbreviation dispatch := (dispatch sha256 mac hmacKey hmacSHA256 sha256Sum c scram).
#[local] Abbreviation handle := (handle sha256 mac hmacKey hmacSHA256 sha256Sum c scram).
#[local] Abbreviation serve_loop := (serve_loop sha256 mac hmacKey hmacSHA256 sha256Sum c scram).

(** ** Authentication first *)

Lemma sasl_mono d acl cs m : cs_saslComplete cs = true -> cs_saslComplete (handleSASLAuthenticate hmacSHA256 sha256Sum d acl cs m).1 = true.
Proof.
  intros H. unfold handleSASLAuthenticate. destruct (cs_saslState cs); [|done].
  destruct (doStep _ _ _ _ _) as [conv [[out []]|?| |]]; cbn; try done. by destruct (cv_valid conv).
Qed.

Lemma handshake_keeps cs mech : cs_saslComplete (handleSASLHandshake scram cs mech).1 = cs_saslComplete cs.
Proof. unfold handleSASLHandshake. destruct (negb _); [done|]. by destruct scram. Qed.

(** The handlers behind the gate leave the connection's state alone. *)
Lemma dispatch_conn e b cs a v body b' cs' r :
  dispatch e b cs a v body = (b', cs', r) ->
  (cs' = cs \/ preauth_allowed (Some a) = true /\ b' = b) /\ (cs_saslComplete cs = true -> cs_saslComplete cs' = true).
Proof.
  unfold Dispatch.dispatch, with_body, reply, reply_res.
  destruct a; cbn [preauth_allowed]; intros H.
  all: repeat first [progress simplify_eq/= | match goal with
    | H : context [match ?x with _ => _ end] |- _ => lazymatch x with context [match _ with _ => _ end] => fail | _ => destruct x eqn:? end
    end].
  all: try (split; [by left|done]).
  - split; [right; by split|]. intros Hc. pose proof (handshake_keeps cs s) as Hk. rewrite Heqp in Hk. cbn in Hk. congruence.
  - split; [right; by split|]. intros Hc. pose proof (sasl_mono (he_draws e) (b_acl b') cs l Hc) as Hk. by rewrite Heqp in Hk.
Qed.

Lemma handle_conn e b cs hdr body b' cs' r :
  handle e b cs hdr body = (b', cs', r) ->
  (cs_saslComplete cs = true -> cs_saslComplete cs' = true) /\ (cs_saslComplete cs = false -> b' = b).
Proof.
  unfold Dispatch.handle. destruct (cs_saslComplete cs) eqn:Ec; cbn [negb andb].
  - destruct (route (APIKey hdr)) as [a|].
    + intros H. apply dispatch_conn in H as [_ Hm]. split; [intros _; by apply Hm|done].
    + unfold writeUnsupported; destruct (known_key c _); intros [= <- <- _]; by split.
  - destruct (preauth_allowed (route (APIKey hdr))) eqn:Ep; cbn [negb]; [|intros [= <- <- _]; by split].
    destruct (route (APIKey hdr)) as [a|]; [|done]. intros H. split; [done|intros _].
    destruct a; try done; [..|]; unfold Dispatch.dispatch, with_body, reply, reply_res in H.
    + destruct (dec_SASLHandshake c _ _); [|by simplify_eq]. destruct (handleSASLHandshake _ _ _). by simplify_eq.
    + by simplify_eq.
    + destruct (dec_SASLAuthenticate c _ _); [|by simplify_eq]. destruct (handleSASLAuthenticate _ _ _ _ _ _). by simplify_eq/=.
Qed.

Lemma serve_loop_conn fuel : forall tagfuel cfg e b cs conn,
  (forall k x, he_others (e k) x = x) -> let s := serve_loop fuel tagfuel cfg e b cs conn in
  (cs_saslComplete cs = true -> cs_saslComplete (sv_conn s) = true) /\ (cs_saslComplete (sv_conn s) = false -> sv_broker s = b).
Proof.
  induction fuel as [|fuel IH]; intros tagfuel cfg e b cs conn Ho; cbn [Dispatch.serve_loop]; cbn zeta; [by split|].
  destruct (readRequest _ _ _ _) as [[[hdr body] rest]|?| |]; try by split.
  destruct (handle _ b _ hdr body) as [[b1 cs1] r] eqn:E. apply handle_conn in E as [Hm Hb]. cbn [set_clientID cs_saslComplete] in *.
  assert (cs_saslComplete cs = true \/ cs_saslComplete cs = false) as Hcs by (destruct (cs_saslComplete cs); auto).
  destruct r as [x|?| |]; cbn [sv_conn sv_broker]; try (split; [done|]; intros H; destruct Hcs as [Hc|Hc]; [rewrite Hm in H by done; done|by apply Hb]).
  destruct (IH tagfuel cfg (fun k => e (S k)) (he_others (e 0%nat) b1) cs1 rest (fun k => Ho (S k))) as [Hm2 Hb2].
  split; [by auto|]. intros H. rewrite (Hb2 H), Ho. apply Hb. destruct Hcs as [Hc|Hc]; [|done].
  rewrite Hm2 in H by auto. done.
Qed.

(** ** Grants always *)

(** [b'] differs from [b] at most in the groups, the offsets, the cache, and the
    topics the principal can see. *)
Definition confined (principal : string) (b b' : Broker) : Prop :=
  (forall name, visible b principal name = false ->
     b_topics b' !! name = b_topics b !! name /\ b_disk b' !! name = b_disk b !! name) /\
  b_acl b' = b_acl b /\ b_cfg b' = b_cfg b /\ b_store b' = b_store b.

#[local] Instance confined_preorder principal : PreOrder (confined principal).
Proof.
  split; [intros b; by split_and!|]. intros b1 b2 b3 (H1 & A1 & C1 & S1) (H2 & A2 & C2 & S2).
  split; [|by split_and!; congruence]. intros name Hn. unfold visible in *. rewrite A1 in H2.
  destruct (H1 name Hn) as (? & ?), (H2 name Hn) as (? & ?). split; congruence.
Qed.

Lemma not_visible b principal name :
  visible b principal name = false -> AuthorizeTopic (b_acl b) principal name OpWrite = false.
Proof. unfold visible. by intros [_ ?]%orb_false_iff. Qed.

Lemma same_but_confined principal name b b' : visible b principal name = true -> same_but name b b' -> confined principal b b'.
Proof.
  intros Hv (H1 & _ & _ & H4 & H5 & H6 & _ & H8). split; [|by split_and!].
  intros n Hn. assert (n <> name) by congruence. auto.
Qed.

Lemma admin_confined principal b b' : admin_granted principal b b' -> confined principal b b'.
Proof. intros (H & Ha & _ & Hc & Hs). split; [|done]. intros n Hn%not_visible. by destruct (H n Hn) as (? & ? & _). Qed.

Lemma only_cache_confined principal b b' : only_cache b b' -> confined principal b b'.
Proof. intros [a ->]. by split_and!. Qed.

Lemma groupcoord_confined principal b g : confined principal b (set_groupcoord b g).
Proof. by split_and!. Qed.

Lemma find_or_create_confined principal e b auto name b' r :
  visible b principal name = true -> find_or_create e b auto name = (b', r) -> confined principal b b'.
Proof.
  intros Hv. unfold find_or_create. destruct (b_topics b !! name); [by intros [= <- _]|]. destruct auto; [|by intros [= <- _]].
  destruct (EnsureTopicForTenant _ _ _ _ _) as [b1 r1] eqn:E. apply EnsureTopic_spec in E as [Hs _].
  pose proof (same_but_confined _ _ _ _ Hv Hs). destruct r1; by intros [= <- _].
Qed.

Lemma metadata_loop_confined principal all auto names : forall e b b' r,
  metadata_loop e b principal all auto names = (b', r) -> confined principal b b'.
Proof.
  induction names as [|n names IH]; intros e b b' r; cbn [metadata_loop]; [by intros [= <- _]|].
  destruct (visible b principal n) eqn:Hv; cbn [negb].
  - destruct (find_or_create _ _ _ _) as [b1 r1] eqn:E1. apply (find_or_create_confined principal) in E1; [|done].
    destruct r1; try by intros [= <- _]. destruct (metadata_loop _ b1 _ _ _ _) as [b2 r2] eqn:E2. apply IH in E2.
    intros [= <- _]. by etrans.
  - destruct all; [apply IH|]. destruct (metadata_loop _ b _ _ _ _) as [b2 r2] eqn:E2. apply IH in E2. by intros [= <- _].
Qed.

(** While the request runs, nobody else acts. *)
Definition alone (e : henv) : Prop :=
  (forall i x, w_others (he_fetch e) i x = x) /\ (forall x, ge_wait (he_group e) x = x).

Lemma join_confined principal g b clientID remote v req b' r :
  (forall x, ge_wait g x = x) -> handleJoinGroup g b principal clientID remote v req = (b', r) -> confined principal b b'.
Proof.
  intros Hw. unfold handleJoinGroup. destruct (negb _); [by intros [= <- _]|].
  destruct (JoinGroup_enter _ _ _ _ _ _) as [gc [x|rd m]]; [intros [= <- _]; apply groupcoord_confined|].
  rewrite Hw. destruct (JoinGroup_wake _ _ _ _ _); intros [= <- _]; apply groupcoord_confined.
Qed.

Lemma sync_confined principal g b req b' r :
  (forall x, ge_wait g x = x) -> handleSyncGroup g b req = (b', r) -> confined principal b b'.
Proof.
  intros Hw. unfold handleSyncGroup. destruct (SyncGroup_enter _ _ _ _) as [gc [x|rd]]; [intros [= <- _]; apply groupcoord_confined|].
  rewrite Hw. destruct (SyncGroup_wake _ _ _ _); intros [= <- _]; apply groupcoord_confined.
Qed.

Lemma leave_confined principal now w b group member members :
  confined principal b (handleLeaveGroup now w b group member members).1.
Proof.
  unfold handleLeaveGroup. destruct (if String.eqb member "" then _ else _) as [c1 code].
  destruct (leave_members _ _ _ _ _). apply groupcoord_confined.
Qed.

Lemma commit_confined principal now w b group ts b' r :
  handleOffsetCommit now w b principal group ts = (b', r) -> confined principal b b'.
Proof.
  unfold handleOffsetCommit. destruct (negb _); [by intros [= <- _]|]. destruct (commit_topics _ _ _ _ _ _ _).
  intros [= <- _]. apply groupcoord_confined.
Qed.

Lemma dispatch_confined e b cs a v body b' cs' r :
  alone e -> dispatch e b cs a v body = (b', cs', r) -> confined (cs_saslPrincipal cs) b b'.
Proof.
  intros [Hf Hg]. unfold Dispatch.dispatch, with_body, reply, reply_res. destruct a.
  - destruct (dec_Produce c v body) as [[acks ts]|]; [|by intros [= <- _ _]].
    destruct (handleProduce _ _ _ _ _ _) as [b1 r1] eqn:E. intros [= <- _ _].
    unfold handleProduce in E. destruct (produce_topics _ _ _ _ _) as [b2 r2] eqn:E2. injection E as <- _.
    apply produce_topics_answer in E2 as [Hw _]. by apply admin_confined, writes_admin.
  - destruct (dec_Fetch c v body); [|by intros [= <- _ _]]. intros [= <- _ _].
    eapply only_cache_confined, poll_loop_frame; [exact Hf|apply surjective_pairing].
  - destruct (dec_ListOffsets c v body); by intros [= <- _ _].
  - destruct (dec_Metadata c v body) as [req|]; [|by intros [= <- _ _]]. intros [= <- _ _]. unfold handleMetadata.
    destruct (metadata_loop _ _ _ _ _ _) as [b1 r1] eqn:E. by apply metadata_loop_confined in E.
  - destruct (dec_OffsetCommit c v body) as [[g ts]|]; [|by intros [= <- _ _]]. intros [= <- _ _].
    eapply commit_confined, surjective_pairing.
  - destruct (dec_OffsetFetch c v body) as [[[? ?] ?]|]; by intros [= <- _ _].
  - destruct (dec_FindCoordinator c v body); by intros [= <- _ _].
  - destruct (dec_JoinGroup c v body); [|by intros [= <- _ _]]. intros [= <- _ _].
    eapply join_confined; [exact Hg|apply surjective_pairing].
  - destruct (dec_Heartbeat c v body) as [[[? ?] ?]|]; [|by intros [= <- _ _]]. unfold handleHeartbeat.
    destruct (Heartbeat _ _ _ _ _). intros [= <- _ _]. apply groupcoord_confined.
  - destruct (dec_LeaveGroup c v body) as [[[g m] ms]|]; [|by intros [= <- _ _]].
    pose proof (leave_confined (cs_saslPrincipal cs) (ge_now (he_group e)) (he_persist e 0%nat) b g m ms) as H.
    destruct (handleLeaveGroup _ _ _ _ _ _). by intros [= <- _ _].
  - destruct (dec_SyncGroup c v body); [|by intros [= <- _ _]]. intros [= <- _ _].
    eapply sync_confined; [exact Hg|apply surjective_pairing].
  - destruct (dec_DescribeGroups c v body); by intros [= <- _ _].
  - destruct (dec_ListGroups c v body); by intros [= <- _ _].
  - destruct (dec_SASLHandshake c v body); [|by intros [= <- _ _]]. destruct (handleSASLHandshake _ _ _). by intros [= <- _ _].
  - by intros [= <- _ _].
  - destruct (dec_CreateTopics c v body) as [[vo ts]|]; [|by intros [= <- _ _]]. intros [= <- _ _].
    eapply admin_confined, create_granted, surjective_pairing.
  - destruct (dec_DeleteTopics c v body) as [[ns ts]|]; [|by intros [= <- _ _]]. intros [= <- _ _].
    eapply admin_confined, delete_granted, surjective_pairing.
  - destruct (dec_DescribeConfigs c v body); by intros [= <- _ _].
  - destruct (dec_SASLAuthenticate c v body); [|by intros [= <- _ _]].
    destruct (handleSASLAuthenticate _ _ _ _ _ _). by intros [= <- _ _].
Qed.
End props.

(** C9: No request reaches beyond its principal's grants, as long as every topic
    name is plain: whatever API is called with whatever body, if no topic with a
    name that is not an entry of the topics directory exists after it, topics on
    which the connection's principal has neither a read nor a write grant keep
    their partitions, records and files, their directories are disjoint from those
    of the topics it has a grant on, and the grants and the broker's settings
    stay as they are.  Auto-creation does not check names; what a name with
    separators can reach is [alias_reads_other_tenant]. *)
Theorem handle_confined sha256 mac key hmac sha c scram e b cs hdr body b' cs' r :
  alone e -> handle sha256 mac key hmac sha c scram e b cs hdr body = (b', cs', r) -> plain b' ->
  confined (cs_saslPrincipal cs) b b' /\
  (forall n n', visible b (cs_saslPrincipal cs) n = true -> visible b (cs_saslPrincipal cs) n' = false ->
     is_Some (b_topics b' !! n) -> is_Some (b_topics b' !! n') \/ is_Some (b_disk b' !! n') -> apart (b_store b') n n').
Proof.
  intros Ha E Hp. split.
  2:{ intros n n' Hn Hn' H H'. apply plain_apart; [apply Hp; by left|by apply Hp|]. intros ->. congruence. }
  revert E. unfold handle. destruct (_ && _); [by intros [= <- _ _]|]. destruct (route _) as [a|].
  - by apply dispatch_confined.
  - unfold writeUnsupported; destruct (known_key c _); by intros [= <- _ _].
Qed.

(** C10: Authentication comes first: with SASL on, whatever bytes a connection
    sends, if it is not authenticated at the end, the broker is exactly as it
    was: no topic, record, offset, group or cached segment was touched. *)
Theorem unauthenticated_inert sha256 mac key hmac sha c scram tagfuel cfg e b remote conn :
  wc_SaslEnabled cfg = true -> (forall k x, he_others (e k) x = x) ->
  let s := Serve sha256 mac key hmac sha c scram tagfuel cfg e b remote conn in
  cs_saslComplete (sv_conn s) = false -> sv_broker s = b.
Proof. intros Hs Ho. cbn zeta. unfold Serve. rewrite Hs. by apply serve_loop_conn. Qed.

(** ** Answers in order *)

(** A request as a client sends it: header, tagged fields, body. *)
Definition client_request : Type := RequestHeader * list (Z * list byte) * list byte.

Definition request_tags (c : codec) (r : client_request) : list byte :=
  if flexible c (APIKey r.1.1) (APIVersion r.1.1) then encode_fields r.1.2 else [].
Definition request_bytes (c : codec) (r : client_request) : list byte := encode_request r.1.1 (request_tags c r) r.2.

Definition sendable (c : codec) (tagfuel : nat) (maxBytes : Z) (r : client_request) : Prop :=
  let hdr := r.1.1 in
  let frame_len := 10 + zlen (ClientID hdr) + zlen (request_tags c r) + zlen r.2 in
  in_s 16 (APIKey hdr) /\ in_s 16 (APIVersion hdr) /\ in_s 32 (CorrelationID hdr) /\ zlen (ClientID hdr) < 2 ^ 15 /\
  fields_ok r.1.2 /\ (length r.1.2 < tagfuel)%nat /\ frame_len <= maxBytes /\ frame_len <= maxFrameSize.

(** The frame written for a request carries its correlation id; only Produce may
    go unanswered. *)
Definition answered (x : RequestHeader * option (list byte)) : Prop :=
  match x.2 with
  | Some frame => exists body fl, frame = writeResponse (CorrelationID x.1) body fl
  | None => APIKey x.1 = api_key KProduce
  end.

Section order.
Context (sha256 : list byte -> string) (mac : list byte -> string -> string) (hmacKey : list byte).
Context (hmacSHA256 : list byte -> list byte -> list byte) (sha256Sum : list byte -> list byte).
Context (c : codec) (scram : option scramServer).

#[local] Abbreviation handle := (handle sha256 mac hmacKey hmacSHA256 sha256Sum c scram).
#[local] Abbreviation serve_loop := (serve_loop sha256 mac hmacKey hmacSHA256 sha256Sum c scram).

Lemma reply_res_some {A} (br : Broker * res A) cs (k : A -> Response) : (reply_res cs br k).2 <> Ok None.
Proof. unfold reply_res. cbn. by destruct br.2. Qed.

Lemma handle_silent e b cs hdr body : (handle e b cs hdr body).2 = Ok None -> APIKey hdr = api_key KProduce.
Proof.
  unfold Dispatch.handle. destruct (_ && _); [done|]. destruct (route (APIKey hdr)) as [a|] eqn:Er.
  2:{ unfold writeUnsupported. by destruct (known_key c _). }
  apply find_some in Er as [_ Er]. zbool. rewrite <- Er. unfold dispatch, with_body.
  destruct a; [reflexivity|..]; intros H; exfalso; revert H.
  all: try match goal with |- context [match ?d with Some _ => _ | None => _ end] => destruct d as [x|]; [|discriminate] end.
  all: repeat match goal with p : (_ * _)%type |- _ => destruct p end.
  all: try match goal with
    | |- (reply_res _ _ _).2 = _ -> _ => apply reply_res_some
    | |- (reply _ _ _).2 = _ -> _ => discriminate
    end.
  - destruct (handleHeartbeat _ _ _ _ _); discriminate.
  - destruct (handleLeaveGroup _ _ _ _ _ _); discriminate.
  - destruct (handleSASLHandshake _ _ _); discriminate.
  - destruct (handleSASLAuthenticate _ _ _ _ _ _). apply reply_res_some.
Qed.

Lemma readRequest_client tagfuel maxBytes r rest :
  sendable c tagfuel maxBytes r -> readRequest (flexible c) tagfuel maxBytes (request_bytes c r ++ rest) = Ok (r.1.1, r.2, rest).
Proof. intros (H1 & H2 & H3 & H4 & H5 & H6 & H7 & H8).
  exact (readRequest_encoded (flexible c) tagfuel maxBytes r.1.1 r.1.2 r.2 rest H1 H2 H3 H4 H5 H6 H7 H8).
Qed.

(** The requests of a connection handled one after the other, without the loop: the
    broker and the connection after some of them, and what the handler returns for
    the [i]-th in the state the ones before it left. *)
Fixpoint handled (e : nat -> henv) (b : Broker) (cs : connState) (rs : list client_request) : Broker * connState :=
  match rs with
  | [] => (b, cs)
  | r :: rs =>
      let '(b, cs, _) := handle (e 0%nat) b (set_clientID cs (string_of (ClientID r.1.1))) r.1.1 r.2 in
      handled (fun k => e (S k)) (he_others (e 0%nat) b) cs rs
  end.

Definition outcome (e : nat -> henv) (b : Broker) (cs : connState) (rs : list client_request) (i : nat) : option (res (option Response)) :=
  r ← rs !! i;
  let '(b, cs) := handled e b cs (take i rs) in
  Some (handle (e i) b (set_clientID cs (string_of (ClientID r.1.1))) r.1.1 r.2).2.

Lemma outcome_S e b cs r rs b1 cs1 x i :
  handle (e 0%nat) b (set_clientID cs (string_of (ClientID r.1.1))) r.1.1 r.2 = (b1, cs1, x) ->
  outcome e b cs (r :: rs) (S i) = outcome (fun k => e (S k)) (he_others (e 0%nat) b1) cs1 rs i.
Proof. intros E. unfold outcome. cbn [lookup list_lookup take handled]. by rewrite E. Qed.

(** What is served: the handlers' answers up to the first that is none. *)
Definition in_order (e : nat -> henv) (b : Broker) (cs : connState) (rs : list client_request) (s : served) : Prop :=
  exists k, map fst (sv_log s) = take k (map (fun r => r.1.1) rs) /\
    (forall i (r : client_request), (i < k)%nat -> rs !! i = Some r -> exists x, outcome e b cs rs i = Some (Ok x) /\
       sv_log s !! i = Some (r.1.1, writeKmsgResponse c r.1.1 <$> x)) /\
    (k = length rs /\ sv_end s = Ok tt \/
     exists y, outcome e b cs rs k = Some y /\ forall x, y <> Ok x).

Lemma serve_loop_order rs : forall fuel tagfuel cfg e b cs,
  Forall (sendable c tagfuel (wc_MaxRequestBytes cfg)) rs -> (length rs < fuel)%nat ->
  let s := serve_loop fuel tagfuel cfg e b cs (concat (map (request_bytes c) rs)) in
  Forall answered (sv_log s) /\ in_order e b cs rs s.
Proof.
  induction rs as [|r rs IH]; intros [|fuel] tagfuel cfg e b cs Hs Hf; try (simpl in Hf; lia); cbn zeta; cbn [Dispatch.serve_loop map concat].
  { cbn. split; [done|]. exists 0%nat. split_and!; [done|intros; lia|by left]. }
  apply Forall_cons in Hs as [Hr Hrs]. rewrite readRequest_client by done.
  destruct (handle _ b _ r.1.1 r.2) as [[b1 cs1] x] eqn:E.
  assert (outcome e b cs (r :: rs) 0 = Some x) as H0 by (unfold outcome; cbn; by rewrite E).
  destruct x as [x|?| |]; cbn [sv_log sv_end];
    [|split; [done|]; exists 0%nat; (split_and!; [done|intros; lia|]); right; eexists; (split; [exact H0|done])..].
  destruct (IH fuel tagfuel cfg (fun k => e (S k)) (he_others (e 0%nat) b1) cs1) as (Ha & k & Hk & Hans & He); [done|simpl in Hf; lia|].
  split.
  - constructor; [|done]. unfold answered. cbn. destruct x as [x|]; cbn; [by eexists _, _|].
    eapply handle_silent. by rewrite E.
  - exists (S k). cbn [map take fst sv_log sv_end]. rewrite Hk. split_and!; [done| |].
    + intros [|i] r' Hi Hr'; cbn in Hr'; [injection Hr' as <-; eauto|].
      destruct (Hans i r' ltac:(lia) Hr') as (x' & Ho & Hl). exists x'. by rewrite (outcome_S _ _ _ _ _ _ _ _ _ E).
    + rewrite (outcome_S _ _ _ _ _ _ _ _ _ E). destruct He as [[-> ?]|?]; [by left|by right].
Qed.
End order.

(** C26: A connection is served in order: for every sequence of well-formed
    requests sent one after the other, the broker reads them as sent and answers
    a prefix of them, in order and one frame each.  The frame of a request holds
    what its handler returned on the broker and the connection as the requests
    before it (and the other connections between them) left them, under the
    request's own correlation id; only a Produce request may be left without a
    frame.  All are answered, unless the handler of the first unanswered one,
    in that very state, returned no response (it closed the connection, or
    panicked). *)
Theorem serve_in_order sha256 mac key hmac sha c scram tagfuel cfg e b remote rs :
  Forall (sendable c tagfuel (wc_MaxRequestBytes cfg)) rs ->
  let s := Serve sha256 mac key hmac sha c scram tagfuel cfg e b remote (concat (map (request_bytes c) rs)) in
  let outcome := outcome sha256 mac key hmac sha c scram e b (new_conn (wc_SaslEnabled cfg) remote) rs in
  Forall answered (sv_log s) /\
  exists k, map fst (sv_log s) = take k (map (fun r => r.1.1) rs) /\
    (forall i (r : client_request), (i < k)%nat -> rs !! i = Some r -> exists x, outcome i = Some (Ok x) /\
       sv_log s !! i = Some (r.1.1, writeKmsgResponse c r.1.1 <$> x)) /\
    (k = length rs /\ sv_end s = Ok tt \/ exists y, outcome k = Some y /\ forall x, y <> Ok x).
Proof.
  intros Hs. apply serve_loop_order; [done|].
  assert (length rs <= length (concat (map (request_bytes c) rs)))%nat; [|lia].
  clear. induction rs as [|r rs IH]; [done|]. cbn [map concat length]. rewrite length_app.
  unfold request_bytes at 1, encode_request. rewrite length_app, length_be_encode. lia.
Qed.

(** ** Concrete instances *)

(** A codec that knows three requests by their empty bodies. *)
Definition sample_codec : codec :=
  mkCodec (fun _ _ => Some "SCRAM-SHA-256") (fun _ m => Some m) (fun _ _ => None) (fun _ _ => Some (1, sample_produce)) (fun _ _ => None)
    (fun _ _ => None) (fun _ _ => None) (fun _ _ => Some (["orders"], [])) (fun _ _ => None) (fun _ _ => None) (fun _ _ => None)
    (fun _ _ => None) (fun _ _ => Some ("g", "m", [])) (fun _ _ => None) (fun _ _ => None) (fun _ _ => None) (fun _ _ => None)
    (fun _ _ => Some tt) (fun _ _ => []) (fun _ _ => false) (fun _ => false).

Definition idle : groupenv := mkGroupEnv map_to_list 0 "r" PersistOk (fun b => b) true (-1).
Definition sample_henv : henv :=
  mkHenv sample_wenv sample_world (fun _ => sample_env) registry_names idle (fun _ _ => PersistOk)
    (fun m => (map_to_list m).*1) sample_draws (fun b => b).

Definition sample_request (a : api) (corr : Z) : client_request := ((mkReqHeader (api_key a) 0 corr [], []), []).
Definition sasl_config : wireConfig := mkWireConfig 1000 true 0.
Definition open_config : wireConfig := mkWireConfig 1000 false 0.

(** A Produce request before authentication. *)
Lemma unauthenticated_inert_witness :
  sv_broker (Serve sample_sha toy_mac [] toy_hmac toy_sha sample_codec (Some sample_server) 1 sasl_config (fun _ => sample_henv)
    orders_broker "peer" (request_bytes sample_codec (sample_request KProduce 7))) = orders_broker.
Proof. apply unauthenticated_inert; [reflexivity|reflexivity|vm_compute; reflexivity]. Defined.

Definition svc_conn : connState := mkConn "peer" "" true "SCRAM-SHA-256" "svc" "t1" None.

Lemma handle_confined_witness :
  let b' := (handle sample_sha toy_mac [] toy_hmac toy_sha sample_codec None sample_henv guarded_broker svc_conn
       (mkReqHeader (api_key KDeleteTopics) 0 1 []) []).1.1 in
  confined "svc" guarded_broker b' /\
  (forall n n', visible guarded_broker "svc" n = true -> visible guarded_broker "svc" n' = false ->
     is_Some (b_topics b' !! n) -> is_Some (b_topics b' !! n') \/ is_Some (b_disk b' !! n') -> apart (b_store b') n n').
Proof.
  refine (handle_confined sample_sha toy_mac [] toy_hmac toy_sha sample_codec None sample_henv guarded_broker svc_conn
            (mkReqHeader (api_key KDeleteTopics) 0 1 []) [] _ _ _ _ (eq_trans (surjective_pairing _) (f_equal (fun p => (p, _)) (surjective_pairing _))) _).
  - split; reflexivity.
  - exact guarded_plain.
Defined.

Lemma sample_sendable a corr : in_s 32 corr -> sendable sample_codec 1 1000 (sample_request a corr).
Proof.
  intros Hc. unfold sendable. cbn [sample_request fst snd APIKey APIVersion CorrelationID ClientID].
  split; [destruct a; unfold in_s; simpl; lia|]. split; [unfold in_s; simpl; lia|]. split; [done|].
  split; [done|]. split; [constructor|]. split; [simpl; lia|]. split; done.
Qed.

Lemma serve_in_order_witness :
  let rs := [sample_request KApiVersions 5; sample_request KListGroups 6] in
  let s := Serve sample_sha toy_mac [] toy_hmac toy_sha sample_codec None 1 open_config (fun _ => sample_henv)
             orders_broker "peer" (concat (map (request_bytes sample_codec) rs)) in
  let outcome := outcome sample_sha toy_mac [] toy_hmac toy_sha sample_codec None (fun _ => sample_henv) orders_broker
                   (new_conn false "peer") rs in
  (Forall answered (sv_log s) /\
   exists k, map fst (sv_log s) = take k (map (fun r => r.1.1) rs) /\
    (forall i (r : client_request), (i < k)%nat -> rs !! i = Some r -> exists x, outcome i = Some (Ok x) /\
       sv_log s !! i = Some (r.1.1, writeKmsgResponse sample_codec r.1.1 <$> x)) /\
    (k = length rs /\ sv_end s = Ok tt \/ exists y, outcome k = Some y /\ forall x, y <> Ok x)) /\
  map (fun x => CorrelationID x.1) (sv_log s) = [5; 6].
Proof.
  cbn zeta. split; [|vm_compute; reflexivity].
  apply (serve_in_order sample_sha toy_mac [] toy_hmac toy_sha sample_codec None 1 open_config).
  apply Forall_cons_2; [apply sample_sendable; unfold in_s; simpl; lia|].
  apply Forall_cons_2; [apply sample_sendable; unfold in_s; simpl; lia|apply Forall_nil_2].
Defined.

(** ** Without SASL the group handlers are open

    Grants are configured and SASL is off: the anonymous connection is refused
    every topic and may not join the group, yet its LeaveGroup request removes
    the group's member. *)
Definition one_member : GroupState :=
  mkGroup "g" 1 "consumer" "range" {["m" := mkMember "m" "c" "h" 10000 10000 [] [] ["range"]]} ∅ "m" 0.
Definition group_broker : Broker :=
  set_groupcoord guarded_broker (NewGroupCoordinator (mkStore {["g" := one_member]} ∅)).

Example leave_without_grant :
  let b' := (handle sample_sha toy_mac [] toy_hmac toy_sha sample_codec None sample_henv group_broker (new_conn false "peer")
               (mkReqHeader (api_key KLeaveGroup) 0 1 []) []).1.1 in
  AuthorizeGroup (b_acl group_broker) "" "g" OpRead = false /\
  (gs_Members <$> os_groups (gc_store (b_groups group_broker)) !! "g") = Some (gs_Members one_member) /\
  (gs_Members <$> os_groups (gc_store (b_groups b')) !! "g") = Some ∅.
Proof. vm_compute. split_and!; reflexivity. Qed.
