(* ===== verification/Limit.v ===== *)
(** * The connection limit (internal/wire/dispatch.go, the head of [Serve])

    Each connection runs in its own goroutine; the shared counter is atomic, so
    the steps of the goroutines interleave freely between the increment, the
    comparison and the deferred decrement. *)

From S2P Require Import Prelude.

#[local] Open Scope Z_scope.

(** Where a connection's goroutine is: before the increment, with the value the
    increment returned, in the request loop, refused, or finished. *)
Inductive conn_pc := CNew | CCounted (v : Z) | CServing | CRefused | CGone.

Record limiter := mkLimiter { li_count : Z; li_conns : list conn_pc }.

Definition no_connections : limiter := mkLimiter 0 [].

Inductive limit_step (max : Z) : limiter -> limiter -> Prop :=
| LArrive n cs : limit_step max (mkLimiter n cs) (mkLimiter n (cs ++ [CNew]))
| LAdd n cs i : cs !! i = Some CNew -> limit_step max (mkLimiter n cs) (mkLimiter (n + 1) (<[i := CCounted (n + 1)]> cs))
| LAdmit n cs i v : cs !! i = Some (CCounted v) -> v <= max -> limit_step max (mkLimiter n cs) (mkLimiter n (<[i := CServing]> cs))
| LRefuse n cs i v : cs !! i = Some (CCounted v) -> v > max -> limit_step max (mkLimiter n cs) (mkLimiter n (<[i := CRefused]> cs))
| LRefused n cs i : cs !! i = Some CRefused -> limit_step max (mkLimiter n cs) (mkLimiter (n - 1) (<[i := CGone]> cs))
| LLeave n cs i : cs !! i = Some CServing -> limit_step max (mkLimiter n cs) (mkLimiter (n - 1) (<[i := CGone]> cs)).

(** ** Counting *)

Definition countb (P : conn_pc -> bool) (l : list conn_pc) : Z := zlen (List.filter P l).

Lemma countb_app P l k : countb P (l ++ k) = countb P l + countb P k.
Proof. unfold countb. by rewrite List.filter_app, zlen_app. Qed.

Lemma countb_cons P x l : countb P (x :: l) = Z.b2z (P x) + countb P l.
Proof. unfold countb. cbn [List.filter]. destruct (P x); rewrite ?zlen_cons; cbn; lia. Qed.

Lemma countb_insert P l i x y : l !! i = Some x -> countb P (<[i := y]> l) = countb P l - Z.b2z (P x) + Z.b2z (P y).
Proof.
  revert i. induction l as [|z l IH]; intros [|i] H; [done..| |]; simplify_eq/=; rewrite !countb_cons; [lia|].
  change (list_insert i y l) with (<[i := y]> l). rewrite (IH i H). lia.
Qed.

Definition counted (c : conn_pc) : bool := match c with CNew | CGone => false | _ => true end.
Definition serving (c : conn_pc) : bool := match c with CServing => true | _ => false end.
(** Serving, or about to. *)
Definition admitted (max : Z) (c : conn_pc) : bool := match c with CServing => true | CCounted v => v <=? max | _ => false end.

(** The counter counts the goroutines between increment and decrement. *)
Definition limit_inv (max : Z) (s : limiter) : Prop :=
  li_count s = countb counted (li_conns s) /\ countb (admitted max) (li_conns s) <= max.

Lemma countb_le P Q l : (forall c, P c = true -> Q c = true) -> countb P l <= countb Q l.
Proof.
  intros H. induction l as [|c l IH]; [done|]. rewrite !countb_cons. specialize (H c).
  destruct (P c), (Q c); cbn; try lia; by specialize (H eq_refl).
Qed.

Lemma limit_step_inv max s s' : 0 <= max -> limit_inv max s -> limit_step max s s' -> limit_inv max s'.
Proof.
  intros Hm [Hc Ha] Hs. destruct Hs as [n cs|n cs i H|n cs i v H Hv|n cs i v H Hv|n cs i H|n cs i H]; cbn [li_count li_conns] in *.
  - split; cbn [li_count li_conns]; rewrite countb_app, countb_cons; change (countb _ []) with 0; cbn [counted admitted Z.b2z]; lia.
  - split; cbn [li_count li_conns]; rewrite (countb_insert _ _ _ _ _ H); cbn [counted admitted Z.b2z]; [lia|].
    destruct (Z.leb_spec (n + 1) max); cbn; [|lia].
    pose proof (countb_le (admitted max) counted cs ltac:(by intros [])). lia.
  - split; cbn [li_count li_conns]; rewrite (countb_insert _ _ _ _ _ H); cbn [counted admitted]; [cbn; lia|].
    rewrite (proj2 (Z.leb_le _ _)) by done. cbn. lia.
  - split; cbn [li_count li_conns]; rewrite (countb_insert _ _ _ _ _ H); cbn [counted admitted]; [cbn; lia|].
    destruct (v <=? max); cbn; lia.
  - split; cbn [li_count li_conns]; rewrite (countb_insert _ _ _ _ _ H); cbn; lia.
  - split; cbn [li_count li_conns]; rewrite (countb_insert _ _ _ _ _ H); cbn; lia.
Qed.

(** However the goroutines interleave, no more connections than the limit
    are served at a time, and the counter is exact: it is the number of
    goroutines that have counted themselves in and not yet out, so when all
    connections are gone it is back to zero. *)
Theorem connection_limit max s :
  0 <= max -> rtc (limit_step max) no_connections s ->
  countb serving (li_conns s) <= max /\ li_count s = countb counted (li_conns s) /\
  (Forall (fun c => c = CGone) (li_conns s) -> li_count s = 0).
Proof.
  intros Hm Hr. assert (limit_inv max s) as [Hc Ha].
  { remember no_connections as s0 eqn:E0. assert (limit_inv max s0) as H0 by (subst; split; cbn; [done|exact Hm]).
    clear E0. induction Hr as [|s1 s2 s3 Hs _ IH]; [done|]. apply IH. by eapply limit_step_inv. }
  split_and!; [|done|].
  - pose proof (countb_le serving (admitted max) (li_conns s) ltac:(by intros [])). lia.
  - intros Hg. rewrite Hc. clear -Hg. induction Hg as [|x l -> _ IH]; [done|]. rewrite countb_cons. cbn. lia.
Qed.

(** Two connections under a limit of one: the second is refused. *)
Lemma connection_limit_witness :
  let s := mkLimiter 1 [CServing; CGone] in
  countb serving (li_conns s) <= 1 /\ li_count s = countb counted (li_conns s) /\
  (Forall (fun c => c = CGone) (li_conns s) -> li_count s = 0).
Proof.
  apply (connection_limit 1); [lia|].
  eapply rtc_l; [apply LArrive|]. eapply rtc_l; [apply LArrive|]. cbn [app].
  eapply rtc_l; [apply (LAdd _ _ _ 0%nat); reflexivity|]. eapply rtc_l; [apply (LAdd _ _ _ 1%nat); reflexivity|]. cbn.
  eapply rtc_l; [eapply (LAdmit _ _ _ 0%nat); [reflexivity|lia]|].
  eapply rtc_l; [eapply (LRefuse _ _ _ 1%nat); [reflexivity|lia]|]. cbn.
  eapply rtc_l; [apply (LRefused _ _ _ 1%nat); reflexivity|]. apply rtc_refl.
Defined.
