(* ===== verification/ObjStore.v ===== *)
(** * Object stores (internal/objstore/objstore.go, fs.go)

    The contract of a cold-storage backend as a class of operations and a class
    of laws, and the file-system backend as their instance.  [io] is how the
    outside world behaves during one call. *)

From S2P Require Import Prelude Bytes Names Log LogRecover Manifest Cache.
From stdpp Require Import pretty.

#[local] Open Scope Z_scope.

Record ObjectInfo := mkInfo { oi_Key : string; oi_Size : Z; oi_ETag : string; oi_Metadata : gmap string string }.
Record Part := mkObjPart { pn_Number : Z; pn_ETag : string; pn_Size : Z }.

Definition MaxPartsPerUpload : Z := 10000.

(** ** The contract *)

Class Store (S io : Type) := {
  store_Stat : io -> S -> string -> res ObjectInfo;
  store_Get : io -> S -> string -> res (list byte);
  store_Delete : io -> S -> string -> S * res unit;
  store_CreateMultipart : io -> string -> S -> string -> gmap string string -> S * res string;   (* the random id *)
  store_UploadPart : io -> S -> string -> string -> Z -> list byte -> S * res Part;
  store_ListParts : io -> S -> string -> string -> res (list Part);
  store_CompleteMultipart : io -> S -> string -> string -> list Part -> S * res unit;
  store_AbortMultipart : io -> S -> string -> string -> S * res unit
}.

(** An upload in progress: its key, its metadata, its parts. *)
Record Upload := mkUpload { up_key : string; up_meta : gmap string string; up_parts : gmap Z (list byte) }.

(** A position of the archive: a tenant, a topic, a partition, a base offset. *)
Definition valid_position (tenant topic : string) (base : Z) : Prop :=
  valid_tenant tenant /\ path_component topic /\ 0 <= base < 2 ^ 63.

(** What is left of an upload whose removal was cut short. *)
Definition shrunk (before after : option Upload) : Prop :=
  forall u', after = Some u' -> exists u, before = Some u /\ up_meta u' = up_meta u /\ up_parts u' ⊆ up_parts u.

(** A call that failed may still have stored the part it was given. *)
Definition perhaps_stored (n : Z) (data : list byte) (before after : option Upload) : Prop :=
  after = before \/
  exists u, before = Some u /\ after = Some (mkUpload (up_key u) (up_meta u) (<[n := data]> (up_parts u))).

(** Metadata whose keys have no upper-case letter: stores keep the keys of
    metadata in lower case. *)
Definition lower_keys (meta : gmap string string) : Prop :=
  map_Forall (fun k _ => string_forallb (fun c => negb ((65 <=? code c) && (code c <=? 90))) k = true) meta.

(** What the uploader and the restorer rely on.  [same_object] is when two keys
    name the same object; [kept_meta] is that a call neither loses nor misreads
    the metadata of an object.  A call that fails may have had its effect: the
    answer of a remote store can get lost. *)
Class StoreLaws (S io : Type) `{Store S io} := {
  object : S -> string -> option (list byte * gmap string string);
  upload : S -> string -> option Upload;
  same_object : string -> string -> Prop;
  kept_meta : io -> bool;
  same_object_refl : forall key, same_object key key;
  same_object_keys : forall pre tn1 t1 p1 b1 tn2 t2 p2 b2,
    valid_position tn1 t1 b1 -> valid_position tn2 t2 b2 ->
    same_object (SegmentKeyTenant pre tn1 t1 p1 b1) (SegmentKeyTenant pre tn2 t2 p2 b2) ->
    tn1 = tn2 /\ t1 = t2 /\ p1 = p2 /\ b1 = b2;
  Get_object : forall o s key data, store_Get o s key = Ok data -> exists meta, object s key = Some (data, meta);
  Stat_object : forall o s key i, store_Stat o s key = Ok i ->
    exists data meta, object s key = Some (data, meta) /\ oi_Size i = zlen data /\
      (kept_meta o = true -> oi_Metadata i = meta);
  Create_upload : forall o id s key meta s' r, store_CreateMultipart o id s key meta = (s', r) -> upload s id = None -> lower_keys meta ->
    (forall k, object s' k = object s k) /\ (forall i, i <> id -> upload s' i = upload s i) /\
    (forall i, r = Ok i -> i = id /\ id <> "" /\ upload s' id = Some (mkUpload key meta ∅));
  UploadPart_upload : forall o s key id n data s' r, store_UploadPart o s key id n data = (s', r) ->
    (forall k, object s' k = object s k) /\ (forall i, i <> id -> upload s' i = upload s i) /\
    (forall p, r = Ok p -> pn_Number p = n /\ pn_Size p = zlen data /\
       exists u, upload s id = Some u /\ upload s' id = Some (mkUpload (up_key u) (up_meta u) (<[n := data]> (up_parts u)))) /\
    (is_ok r = false -> perhaps_stored n data (upload s id) (upload s' id));
  ListParts_upload : forall o s key id ps, store_ListParts o s key id = Ok ps ->
    exists u, upload s id = Some u /\
      Forall (fun p => exists data, up_parts u !! pn_Number p = Some data /\ pn_Size p = zlen data) ps;
  Complete_upload : forall o s key id ps s' r, store_CompleteMultipart o s key id ps = (s', r) -> StronglySorted Z.lt (map pn_Number ps) ->
    (forall k, same_object k key \/ object s' k = object s k) /\ (forall i, i <> id -> upload s' i = upload s i) /\
    shrunk (upload s id) (upload s' id) /\
    (((forall k, object s' k = object s k) /\ r <> Ok tt) \/
     exists u chunks meta, upload s id = Some u /\ Forall2 (fun p c => up_parts u !! pn_Number p = Some c) ps chunks /\
       (forall k, same_object k key -> object s' k = Some (concat chunks, meta)) /\
       (kept_meta o = true -> meta !! "sha256" = up_meta u !! "sha256"));
  Abort_upload : forall o s key id s' r, store_AbortMultipart o s key id = (s', r) -> id <> "" ->
    (forall k, object s' k = object s k) /\ (forall i, i <> id -> upload s' i = upload s i) /\
    shrunk (upload s id) (upload s' id)
}.

(** ** The file-system backend

    Objects and uploads are files below a root directory; object paths are lists
    of components.  Keys never name a directory of other keys nor one of the
    backend's own files, as every segment key ends in [.log].  A directory left
    behind by a failed [CreateMultipart] is not modelled, as its random id was
    not returned. *)

Record FS := mkFS {
  fs_objects : gmap (list string) (list byte);
  fs_metas : gmap (list string) (gmap string string);
  fs_uploads : gmap string Upload
}.

(** Opening a backend at a directory: what the file system answers. *)
Record fs_net := mkFsNet {
  fn_Abs : string -> res string;
  fn_MkdirAll : string -> option error;
  fn_WriteFile : string -> option error
}.

(** [filepath.Join] of a clean absolute path and a name. *)
Definition root_join (abs name : string) : string := (if String.eqb abs "/" then "" else abs) +:+ "/" +:+ name.

(** The root of the backend; both directories exist, and a file was written. *)
Definition NewFS (n : fs_net) (dir : string) : res string :=
  if String.eqb dir "" then Err (EMsg "objstore/fs: archive.fs.path is empty")
  else
    abs ← wrap_err "objstore/fs" (fn_Abs n dir);
    match fn_MkdirAll n (root_join abs "objects") with
    | Some er => Err (EWrap "objstore/fs: create objects" er)
    | None =>
        match fn_MkdirAll n (root_join abs "uploads") with
        | Some er => Err (EWrap "objstore/fs: create uploads" er)
        | None =>
            match fn_WriteFile n (root_join abs ".kafka-wire-write-probe") with
            | Some er => Err (EWrap "objstore/fs: not writable" er)
            | None => Ok abs
            end
        end
    end.

(** All calls succeed; one fails before it had an effect; the metadata file is
    not read, or its write leaves it empty; its write leaves the previous file;
    removing a directory or file fails at the end, and leaves the parts with these
    numbers. *)
Inductive fsio := IoOk | IoFail | IoNoMeta | IoStaleMeta | IoLate (rest : gset Z).

(** The upload's directory is removed. *)
Definition remove_upload (o : fsio) (id : string) (ups : gmap string Upload) : gmap string Upload * res unit :=
  match o with
  | IoLate rest => (alter (fun u => mkUpload (up_key u) (up_meta u) (filter (fun kv => kv.1 ∈ rest) (up_parts u))) id ups,
                    Err (EMsg "remove upload"))
  | _ => (delete id ups, Ok tt)
  end.

Fixpoint string_map (f : ascii -> ascii) (s : string) : string :=
  match s with
  | EmptyString => EmptyString
  | String c s => String (f c) (string_map f s)
  end.

Definition objectPath (key : string) : res (list string) :=
  let clean := filepath_Join [] [string_map (fun c => if code c =? 92 then "/"%char else c) key] in
  if bool_decide (clean = []) then Err (EMsg "objstore/fs: key escapes the archive root") else Ok clean.

Fixpoint zeros (n : nat) : string := match n with O => "" | S n => String "0" (zeros n) end.
Definition pad5 (z : Z) : string := let s := pretty z in zeros (5 - String.length s) +:+ s.
Definition part_etag (n size : Z) : string := "fs-" +:+ pad5 n +:+ "-" +:+ pretty size.

Definition fs_Stat (o : fsio) (s : FS) (key : string) : res ObjectInfo :=
  p ← objectPath key;
  match o with
  | IoFail => Err (EMsg "stat")
  | _ =>
      match fs_objects s !! p with
      | None => Err (ESentinel ErrNotFound)
      | Some data =>
          let meta := match o with IoNoMeta => ∅ | _ => default ∅ (fs_metas s !! p) end in
          Ok (mkInfo key (zlen data) (default "" (meta !! "etag")) meta)
      end
  end.

Definition fs_Get (o : fsio) (s : FS) (key : string) : res (list byte) :=
  p ← objectPath key;
  match o with
  | IoFail => Err (EMsg "open")
  | _ => match fs_objects s !! p with None => Err (ESentinel ErrNotFound) | Some data => Ok data end
  end.

Definition fs_Delete (o : fsio) (s : FS) (key : string) : FS * res unit :=
  match objectPath key with
  | Ok p =>
      match o with
      | IoFail => (s, Err (EMsg "remove"))
      | IoLate _ => (mkFS (delete p (fs_objects s)) (fs_metas s) (fs_uploads s), Err (EMsg "remove"))
      | _ => (mkFS (delete p (fs_objects s)) (delete p (fs_metas s)) (fs_uploads s), Ok tt)
      end
  | Err e => (s, Err e)
  | _ => (s, Panic)
  end.

Definition fs_CreateMultipart (o : fsio) (id : string) (s : FS) (key : string) (meta : gmap string string) : FS * res string :=
  match objectPath key with
  | Ok _ =>
      match o with
      | IoFail => (s, Err (EMsg "mkdir"))
      | _ =>
          if String.eqb id "" then (s, Err (EMsg "rand"))
          else (mkFS (fs_objects s) (fs_metas s)
                  (<[id := mkUpload key meta (match fs_uploads s !! id with Some u => up_parts u | None => ∅ end)]> (fs_uploads s)), Ok id)
      end
  | Err e => (s, Err e)
  | _ => (s, Panic)
  end.

Definition fs_UploadPart (o : fsio) (s : FS) (key id : string) (number : Z) (data : list byte) : FS * res Part :=
  if (number <? 1) || (number >? MaxPartsPerUpload) then (s, Err (EMsg "objstore/fs: part number out of range"))
  else match fs_uploads s !! id with
  | None => (s, Err (EMsg "objstore/fs: unknown upload"))
  | Some u =>
      match o with
      | IoFail => (s, Err (EMsg "write part"))
      | _ => (mkFS (fs_objects s) (fs_metas s) (<[id := mkUpload (up_key u) (up_meta u) (<[number := data]> (up_parts u))]> (fs_uploads s)),
              Ok (mkObjPart number (part_etag number (zlen data)) (zlen data)))
      end
  end.

Definition fs_ListParts (o : fsio) (s : FS) (key id : string) : res (list Part) :=
  match o with
  | IoFail => Err (EMsg "readdir")
  | _ =>
      match fs_uploads s !! id with
      | None => Err (ESentinel ErrNotFound)
      | Some u =>
          Ok (map (fun n => let size := zlen (default [] (up_parts u !! n)) in mkObjPart n (part_etag n size) size)
                (merge_sort Z.le (map_to_list (up_parts u)).*1))
      end
  end.

(** [sort.Slice] by number (of distinct numbers). *)
Fixpoint insert_part (p : Part) (l : list Part) : list Part :=
  match l with
  | [] => [p]
  | q :: l => if pn_Number p <=? pn_Number q then p :: q :: l else q :: insert_part p l
  end.
Definition sort_parts (l : list Part) : list Part := foldr insert_part [] l.

Fixpoint assemble (parts : gmap Z (list byte)) (ps : list Part) : res (list byte) :=
  match ps with
  | [] => Ok []
  | p :: ps =>
      match parts !! pn_Number p with
      | None => Err (EMsg "objstore/fs: part missing at completion")
      | Some data => rest ← assemble parts ps; Ok (data ++ rest)
      end
  end.

Definition fs_CompleteMultipart (o : fsio) (s : FS) (key id : string) (ps : list Part) : FS * res unit :=
  match fs_uploads s !! id with
  | None => (s, Err (EMsg "objstore/fs: unknown upload"))
  | Some u =>
      match objectPath key with
      | Ok dst =>
          match assemble (up_parts u) (sort_parts ps), o with
          | _, IoFail => (s, Err (EMsg "assemble"))
          | Ok data, _ =>
              let meta := <["etag" := "fs-" +:+ pretty (zlen data)]> (up_meta u) in
              let metas := match o with
                           | IoNoMeta => delete dst (fs_metas s)
                           | IoStaleMeta => fs_metas s
                           | _ => <[dst := meta]> (fs_metas s)
                           end in
              let (ups, r) := remove_upload o id (fs_uploads s) in
              (mkFS (<[dst := data]> (fs_objects s)) metas ups, r)
          | Err e, _ => (s, Err e)
          | _, _ => (s, Panic)
          end
      | Err e => (s, Err e)
      | _ => (s, Panic)
      end
  end.

(** The upload directory of the empty id is the directory of all uploads. *)
Definition fs_AbortMultipart (o : fsio) (s : FS) (key id : string) : FS * res unit :=
  match o with
  | IoFail => (s, Err (EMsg "remove"))
  | _ =>
      if String.eqb id "" then (mkFS (fs_objects s) (fs_metas s) ∅, Ok tt)
      else let (ups, r) := remove_upload o id (fs_uploads s) in (mkFS (fs_objects s) (fs_metas s) ups, r)
  end.

#[export] Instance fs_store : Store FS fsio := {
  store_Stat := fs_Stat;
  store_Get := fs_Get;
  store_Delete := fs_Delete;
  store_CreateMultipart := fs_CreateMultipart;
  store_UploadPart := fs_UploadPart;
  store_ListParts := fs_ListParts;
  store_CompleteMultipart := fs_CompleteMultipart;
  store_AbortMultipart := fs_AbortMultipart
}.

(** ** Object paths

    The path of a segment's key is the cleaned prefix followed by the components
    of the position. *)

Lemma string_map_app f s t : string_map f (s +:+ t) = string_map f s +:+ string_map f t.
Proof. induction s as [|c s IH]; [done|]. change (String c s +:+ t) with (String c (s +:+ t)). cbn. by rewrite IH. Qed.

Lemma string_map_id f s : (forall c, string_In c s -> f c = c) -> string_map f s = s.
Proof.
  induction s as [|c s IH]; intros H; [done|]. cbn. rewrite IH by (intros d Hd; apply H; by right).
  by rewrite H by by left.
Qed.

Lemma split_slash_cons s : exists w ws, split_slash s = w :: ws.
Proof.
  induction s as [|c s (w & ws & IH)]; cbn; [by eexists _, _|]. rewrite IH.
  destruct (Ascii.eqb c "/"); by eexists _, _.
Qed.

Lemma split_slash_sep s t : split_slash (s +:+ String "/" t) = split_slash s ++ split_slash t.
Proof.
  induction s as [|c s IH]; [done|]. change (String c s +:+ String "/" t) with (String c (s +:+ String "/" t)).
  cbn [split_slash]. rewrite IH. destruct (Ascii.eqb c "/"); [done|].
  by destruct (split_slash_cons s) as (w & ws & ->).
Qed.

(** Components joined by separators. *)
Fixpoint join_slash (w : string) (ws : list string) : string :=
  match ws with
  | [] => w
  | v :: ws => w +:+ String "/" (join_slash v ws)
  end.

Lemma split_join w ws : Forall path_component (w :: ws) -> split_slash (join_slash w ws) = w :: ws.
Proof.
  revert w. induction ws as [|v ws IH]; intros w [Hw Hws]%Forall_cons; cbn [join_slash].
  - by apply split_slash_none, path_component_no_slash.
  - rewrite split_slash_sep, IH by done. by rewrite split_slash_none by by apply path_component_no_slash.
Qed.

Lemma path_component_unslash (s : string) : path_component s ->
  string_map (fun c => if code c =? 92 then "/"%char else c) s = s.
Proof.
  intros (_ & _ & _ & H). apply string_map_id. intros c Hc. destruct (H c Hc) as (_ & ? & _).
  by rewrite (proj2 (Z.eqb_neq _ _)) by done.
Qed.

Lemma join_unslash w ws : Forall path_component (w :: ws) ->
  string_map (fun c => if code c =? 92 then "/"%char else c) (join_slash w ws) = join_slash w ws.
Proof.
  revert w. induction ws as [|v ws IH]; intros w [Hw Hws]%Forall_cons; cbn [join_slash].
  - by apply path_component_unslash.
  - rewrite string_map_app. cbn [string_map]. by rewrite path_component_unslash, IH.
Qed.

Lemma foldl_clean path ws : Forall path_component ws -> foldl clean_step path ws = path ++ ws.
Proof.
  intros H. revert path. induction H as [|w ws Hw _ IH]; intros path; cbn; [by rewrite app_nil_r|].
  by rewrite clean_step_component, IH, <- app_assoc.
Qed.

Definition position_path (tenant topic : string) (partition base : Z) : list string :=
  (if String.eqb tenant "" then [] else ["tenants"; tenant]) ++ [topic; pretty partition; pad20 base +:+ ".log"].

Lemma position_components tenant topic p b : valid_position tenant topic b -> Forall path_component (position_path tenant topic p b).
Proof.
  intros (Hn & Ht & Hb). unfold position_path. pose proof tenants_component. pose proof (pretty_Z_component p).
  pose proof (pad20_component b ltac:(lia)).
  destruct (String.eqb_spec tenant "") as [->|Hne]; cbn [app]; [components|]. destruct Hn; [done|]. components.
Qed.

Lemma objectPath_segment pre : exists root, forall tn t p' b', valid_position tn t b' ->
  objectPath (SegmentKeyTenant pre tn t p' b') = Ok (root ++ position_path tn t p' b').
Proof.
  set (un := string_map (fun c => if code c =? 92 then "/"%char else c)).
  exists (foldl clean_step [] (split_slash (un (trim_slash pre)))). intros tn t p' b' Hv.
  pose proof (position_components tn t p' b' Hv) as Hc.
  assert (exists w ws, position_path tn t p' b' = w :: ws /\
            SegmentKeyTenant pre tn t p' b' = trim_slash pre +:+ String "/" (join_slash w ws)) as (w & ws & E & ->).
  { rewrite SegmentKeyTenant_tail. unfold position_path, key_tail. destruct (String.eqb tn ""); by eexists _, _. }
  rewrite E in Hc |- *. unfold objectPath, filepath_Join. cbn [mbind list_bind]. rewrite app_nil_r. fold un.
  assert (un (trim_slash pre +:+ String "/" (join_slash w ws)) = un (trim_slash pre) +:+ String "/" (join_slash w ws)) as ->.
  { unfold un. rewrite string_map_app. cbn [string_map]. change (code "/" =? 92) with false. by rewrite join_unslash. }
  rewrite split_slash_sep, split_join, foldl_app, foldl_clean by done.
  rewrite bool_decide_false; [done|]. by destruct (foldl _ _ _).
Qed.

Lemma position_path_inj tn1 t1 p1 b1 tn2 t2 p2 b2 :
  0 <= b1 < 2 ^ 63 -> 0 <= b2 < 2 ^ 63 ->
  position_path tn1 t1 p1 b1 = position_path tn2 t2 p2 b2 -> tn1 = tn2 /\ t1 = t2 /\ p1 = p2 /\ b1 = b2.
Proof.
  unfold position_path. intros ? ?.
  destruct (String.eqb_spec tn1 "") as [->|], (String.eqb_spec tn2 "") as [->|]; cbn [app]; intros Heq; try discriminate Heq.
  - injection Heq as -> Hp%(inj pretty) Hb. apply pad20_inj in Hb; [by subst|done..].
  - injection Heq as -> -> Hp%(inj pretty) Hb. apply pad20_inj in Hb; [by subst|done..].
Qed.

(** ** The file-system backend keeps the contract *)

Definition fs_object (s : FS) (key : string) : option (list byte * gmap string string) :=
  match objectPath key with
  | Ok p => data ← fs_objects s !! p; Some (data, default ∅ (fs_metas s !! p))
  | _ => None
  end.

Definition fs_same (k k' : string) : Prop := objectPath k = objectPath k'.

Definition fs_kept (o : fsio) : bool := match o with IoNoMeta | IoStaleMeta => false | _ => true end.

Lemma objectPath_cases key : (exists p, objectPath key = Ok p) \/ (exists e, objectPath key = Err e).
Proof. unfold objectPath. case_bool_decide; eauto. Qed.

Lemma fs_same_keys pre tn1 t1 p1 b1 tn2 t2 p2 b2 :
  valid_position tn1 t1 b1 -> valid_position tn2 t2 b2 ->
  fs_same (SegmentKeyTenant pre tn1 t1 p1 b1) (SegmentKeyTenant pre tn2 t2 p2 b2) ->
  tn1 = tn2 /\ t1 = t2 /\ p1 = p2 /\ b1 = b2.
Proof.
  intros H1 H2. destruct (objectPath_segment pre) as [root Hr]. unfold fs_same. rewrite !Hr by done.
  intros [= H%app_inv_head]. apply position_path_inj in H; [done|apply H1|apply H2].
Qed.

Lemma insert_part_sorted p l : Forall (fun q => pn_Number p < pn_Number q) l -> insert_part p l = p :: l.
Proof.
  destruct l as [|q l]; [done|]. intros [H _]%Forall_cons. cbn. by rewrite (proj2 (Z.leb_le _ _)) by lia.
Qed.

Lemma sort_parts_sorted l : StronglySorted Z.lt (map pn_Number l) -> sort_parts l = l.
Proof.
  induction l as [|p l IH]; [done|]. intros H. inversion H as [|? ? Hl Hp]; subst. cbn. fold (sort_parts l).
  rewrite IH by done. apply insert_part_sorted. apply (proj1 (Forall_map _ _ _)) in Hp. exact Hp.
Qed.

Lemma assemble_Ok parts ps data : assemble parts ps = Ok data ->
  exists chunks, Forall2 (fun p c => parts !! pn_Number p = Some c) ps chunks /\ data = concat chunks.
Proof.
  revert data. induction ps as [|p ps IH]; cbn; intros data H; [injection H as <-; by exists []|].
  destruct (parts !! pn_Number p) as [c|] eqn:E; [|done]. destruct (assemble parts ps) as [rest| | |]; try done.
  injection H as <-. destruct (IH rest eq_refl) as (chunks & Hf & ->). exists (c :: chunks). split; [by constructor|done].
Qed.

Lemma remove_upload_shrunk o id ups ups' r : remove_upload o id ups = (ups', r) ->
  (forall i, i <> id -> ups' !! i = ups !! i) /\ shrunk (ups !! id) (ups' !! id).
Proof.
  unfold remove_upload, shrunk. destruct o; intros [= <- <-];
    (split; [intros i Hi; by rewrite ?lookup_delete_ne, ?lookup_alter_ne by congruence|]);
    try (intros u'; by rewrite lookup_delete_eq).
  intros u'. rewrite lookup_alter_eq. destruct (ups !! id) as [u|]; [|done]. intros [= <-]. exists u. split_and!; try done.
  cbn. apply map_filter_subseteq.
Qed.

Lemma fs_object_uploads objs metas ups ups' k : fs_object (mkFS objs metas ups) k = fs_object (mkFS objs metas ups') k.
Proof. done. Qed.

(** The operation returned before it had an effect. *)
#[local] Ltac nop := match goal with
  | Hnop : forall r', _ -> _ -> _, H : (_, _) = (_, _), Eu : _ !! _ = _ |- _ =>
      destruct (Hnop _ H ltac:(discriminate)) as [-> ?]; rewrite Eu; split_and!; [by right|by intros|done|by left]
  end.

Lemma fs_Complete_spec o s key id ps s' r : fs_CompleteMultipart o s key id ps = (s', r) -> StronglySorted Z.lt (map pn_Number ps) ->
  (forall k, fs_same k key \/ fs_object s' k = fs_object s k) /\ (forall i, i <> id -> fs_uploads s' !! i = fs_uploads s !! i) /\
  shrunk (fs_uploads s !! id) (fs_uploads s' !! id) /\
  (((forall k, fs_object s' k = fs_object s k) /\ r <> Ok tt) \/
   exists u chunks meta, fs_uploads s !! id = Some u /\ Forall2 (fun p c => up_parts u !! pn_Number p = Some c) ps chunks /\
     (forall k, fs_same k key -> fs_object s' k = Some (concat chunks, meta)) /\
     (fs_kept o = true -> meta !! "sha256" = up_meta u !! "sha256")).
Proof.
  intros H Hs. unfold fs_CompleteMultipart in H. rewrite sort_parts_sorted in H by done.
  assert (forall (r' : res unit), (s, r') = (s', r) -> r' <> Ok tt -> s' = s /\ r <> Ok tt) as Hnop by (by intros ? [= <- <-]).
  assert (shrunk (fs_uploads s !! id) (fs_uploads s !! id)) as Hrefl by (intros u ->; by exists u).
  destruct (fs_uploads s !! id) as [u|] eqn:Eu; [|nop].
  destruct (objectPath_cases key) as [[dst Ed]|[e Ed]]; rewrite Ed in H; [|nop].
  destruct (assemble (up_parts u) ps) as [data| | |] eqn:Ea;
    try (destruct o; nop).
  assert (o = IoFail \/ o <> IoFail) as [->|Ho] by (destruct o; auto); [nop|].
  destruct (remove_upload o id (fs_uploads s)) as [ups r0] eqn:Er.
  assert (exists metas, (mkFS (<[dst := data]> (fs_objects s)) metas ups, r0) = (s', r) /\
    (forall q, q <> dst -> metas !! q = fs_metas s !! q) /\
    (fs_kept o = true -> metas !! dst = Some (<["etag" := "fs-" +:+ pretty (zlen data)]> (up_meta u)))) as (metas & [= <- <-] & Hm1 & Hm2).
  { destruct o; [exists (<[dst := <["etag" := "fs-" +:+ pretty (zlen data)]> (up_meta u)]> (fs_metas s))|done
      |exists (delete dst (fs_metas s))|exists (fs_metas s)|exists (<[dst := <["etag" := "fs-" +:+ pretty (zlen data)]> (up_meta u)]> (fs_metas s))];
      (split_and!; [exact H|intros q Hq; by rewrite ?lookup_insert_ne, ?lookup_delete_ne by congruence|]);
      try done; intros _; by rewrite lookup_insert_eq. }
  apply remove_upload_shrunk in Er as [Hi Hshr]. rewrite Eu in Hshr. apply assemble_Ok in Ea as (chunks & Hf & ->).
  split_and!; [|done|done|].
  - intros k. unfold fs_object, fs_same. destruct (objectPath k) as [q| | |]; [cbn|by right..].
    destruct (decide (q = dst)) as [->|Hq]; [by left|right]. by rewrite lookup_insert_ne, Hm1 by congruence.
  - right. exists u, chunks, (default ∅ (metas !! dst)). split_and!; [done|done| |].
    + intros k Hk. unfold fs_object, fs_same in *. rewrite Hk, Ed. cbn. by rewrite lookup_insert_eq.
    + intros Hk. rewrite Hm2 by done. cbn. by rewrite lookup_insert_ne.
Qed.

Lemma fs_Stat_spec o s key i : fs_Stat o s key = Ok i ->
  exists data meta, fs_object s key = Some (data, meta) /\ oi_Size i = zlen data /\ (fs_kept o = true -> oi_Metadata i = meta).
Proof.
  unfold fs_Stat, fs_object. destruct (objectPath_cases key) as [[p ->]|[e ->]]; [cbn|done].
  assert (o = IoFail \/ o <> IoFail) as [->|Ho] by (destruct o; auto); [done|].
  destruct (fs_objects s !! p) as [data|] eqn:E.
  - destruct o; try done; intros [= <-]; by eexists _, _.
  - by destruct o.
Qed.

Lemma fs_Get_spec o s key data : fs_Get o s key = Ok data -> exists meta, fs_object s key = Some (data, meta).
Proof.
  unfold fs_Get, fs_object. destruct (objectPath_cases key) as [[p ->]|[e ->]]; [cbn|done].
  destruct (fs_objects s !! p) as [d|] eqn:E; destruct o; try done; intros [= <-]; by eexists.
Qed.

Lemma fs_Create_spec o id s key meta s' r : fs_CreateMultipart o id s key meta = (s', r) -> fs_uploads s !! id = None -> lower_keys meta ->
  (forall k, fs_object s' k = fs_object s k) /\ (forall i, i <> id -> fs_uploads s' !! i = fs_uploads s !! i) /\
  (forall i, r = Ok i -> i = id /\ id <> "" /\ fs_uploads s' !! id = Some (mkUpload key meta ∅)).
Proof.
  unfold fs_CreateMultipart. intros H Hn _. rewrite Hn in H.
  destruct (objectPath_cases key) as [[p Ep]|[e Ep]]; rewrite Ep in H; [|by injection H as <- <-].
  destruct o; [| by injection H as <- <- | | |]; destruct (String.eqb_spec id "") as [?|Hid]; try (by injection H as <- <-);
    injection H as <- <-; cbn; (split_and!; [done|intros; by rewrite lookup_insert_ne|]);
    intros i [= <-]; by rewrite lookup_insert_eq.
Qed.

Lemma fs_UploadPart_spec o s key id n data s' r : fs_UploadPart o s key id n data = (s', r) ->
  (forall k, fs_object s' k = fs_object s k) /\ (forall i, i <> id -> fs_uploads s' !! i = fs_uploads s !! i) /\
  (forall p, r = Ok p -> pn_Number p = n /\ pn_Size p = zlen data /\
     exists u, fs_uploads s !! id = Some u /\ fs_uploads s' !! id = Some (mkUpload (up_key u) (up_meta u) (<[n := data]> (up_parts u)))) /\
  (is_ok r = false -> perhaps_stored n data (fs_uploads s !! id) (fs_uploads s' !! id)).
Proof.
  unfold fs_UploadPart. intros H. destruct (_ || _); [by injection H as <- <-; split_and!; [done..|intros _; by left]|].
  destruct (fs_uploads s !! id) as [u|] eqn:Eu; [|by injection H as <- <-; rewrite Eu; split_and!; [done..|intros _; by left]].
  destruct o; try (by injection H as <- <-; rewrite Eu; split_and!; [done..|intros _; by left]);
    injection H as <- <-; cbn; (split_and!; [done|intros; by rewrite lookup_insert_ne| |done]);
    intros p [= <-]; cbn; (split_and!; [done..|]); exists u; by rewrite lookup_insert_eq.
Qed.

Lemma fs_ListParts_spec o s key id ps : fs_ListParts o s key id = Ok ps ->
  exists u, fs_uploads s !! id = Some u /\
    Forall (fun p => exists data, up_parts u !! pn_Number p = Some data /\ pn_Size p = zlen data) ps.
Proof.
  assert (o = IoFail \/ fs_ListParts o s key id = fs_ListParts IoOk s key id) as [->| ->] by (destruct o; auto); [done|].
  cbn. destruct (fs_uploads s !! id) as [u|]; [|done]. intros [= <-]. exists u. split; [done|].
  apply Forall_map, Forall_forall. intros n Hn. rewrite merge_sort_Permutation in Hn.
  apply list_elem_of_fmap in Hn as ([n' c] & -> & Hn%elem_of_map_to_list). exists c. cbn. by rewrite Hn.
Qed.

Lemma fs_Abort_spec o s key id s' r : fs_AbortMultipart o s key id = (s', r) -> id <> "" ->
  (forall k, fs_object s' k = fs_object s k) /\ (forall i, i <> id -> fs_uploads s' !! i = fs_uploads s !! i) /\
  shrunk (fs_uploads s !! id) (fs_uploads s' !! id).
Proof.
  unfold fs_AbortMultipart. intros H Hid. rewrite (proj2 (String.eqb_neq _ _) Hid) in H.
  assert (o = IoFail \/ o <> IoFail) as [->|Ho] by (destruct o; auto).
  { injection H as <- <-. split_and!; [done..|]. intros u ->. by exists u. }
  destruct (remove_upload o id (fs_uploads s)) as [ups r0] eqn:Er. pose proof (remove_upload_shrunk _ _ _ _ _ Er) as [??].
  assert (s' = mkFS (fs_objects s) (fs_metas s) ups) as -> by (destruct o; by injection H as <- <-).
  done.
Qed.

#[export] Instance fs_laws : StoreLaws FS fsio := {|
  object := fs_object;
  upload s id := fs_uploads s !! id;
  same_object := fs_same;
  kept_meta := fs_kept;
  same_object_refl key := eq_refl;
  same_object_keys := fs_same_keys;
  Get_object := fs_Get_spec;
  Stat_object := fs_Stat_spec;
  Create_upload := fs_Create_spec;
  UploadPart_upload := fs_UploadPart_spec;
  ListParts_upload := fs_ListParts_spec;
  Complete_upload := fs_Complete_spec;
  Abort_upload := fs_Abort_spec
|}.
