(* ===== verification/Uploader.v ===== *)
(** * The uploader (internal/tiering/uploader.go)

    Sealed segments are sent to the object store part by part, each accepted part
    is recorded in the manifest's checkpoint, and a finished object is entered in
    the manifest.  An interrupted upload is resumed from the parts the store still
    holds, or reconciled at boot.  The sweep's goroutines work on different
    segments and are run here one after the other; every outcome of a call (of
    the store, of the disk, of a manifest write) is an argument. *)

From S2P Require Import Prelude Bytes Names Log LogRecover Manifest Cache ObjStore.
From stdpp Require Import pretty.

#[local] Open Scope Z_scope.

(** [TenantResolver] is a configured callback: no resolver, or its answer. *)
Record UploaderConfig := mkUploaderConfig {
  uc_Prefix : string;
  uc_ArchiveAge : Z;
  uc_PartSize : Z;
  uc_Tick : Z;
  uc_Concurrency : Z;
  uc_HMACKey : list byte;
  uc_TenantResolver : option (string -> Z -> string)
}.

Definition or_default (z d : Z) : Z := if z <=? 0 then d else z.

(** The defaults [NewUploader] fills in. *)
Definition NewUploader (cfg : UploaderConfig) : UploaderConfig :=
  mkUploaderConfig (uc_Prefix cfg) (or_default (uc_ArchiveAge cfg) (3600 * 1000000000)) (or_default (uc_PartSize cfg) (5 * 1024 * 1024))
    (or_default (uc_Tick cfg) (30 * 1000000000)) (or_default (uc_Concurrency cfg) 2) (uc_HMACKey cfg) (uc_TenantResolver cfg).

Record SegmentSource := mkSource {
  ss_Topic : string;
  ss_Partition : Z;
  ss_BaseOffset : Z;
  ss_NextOffset : Z;
  ss_Size : Z;
  ss_LogPath : string;
  ss_CreatedAt : Z
}.

Section uploader.
Context {S io : Type} `{Store S io}.
Context (sha256 : list byte -> string) (mac : list byte -> string -> string).

(** What the world does during one upload: the file ([None]: it does not open),
    whether [Stat], hashing and the two seeks succeed, the store's behaviour call by
    call, the random upload id, whether each manifest write succeeds, whether
    the file at the path is still the one that was read at the end, and the clock. *)
Record upload_env := mkUploadEnv {
  ue_file : option (list byte);
  ue_stat : bool;
  ue_hash : bool;
  ue_seek : bool * bool;
  ue_list : io;
  ue_create : io;
  ue_id : string;
  ue_part : Z -> io;
  ue_read : Z -> bool;
  ue_complete : io;
  ue_abort : io;
  ue_checkpoint : Z -> bool;
  ue_aborted : bool;
  ue_same : bool;
  ue_flush : bool * bool;
  ue_now : Z
}.

Definition tryAbort (o : io) (ok : bool) (s : S) (m : Manifest) (key id : string) : S * Manifest :=
  ((store_AbortMultipart o s key id).1, (AbortPending ok m key).1).

(** The contiguous prefix of stored parts that a resumed upload trusts; [len] is
    the number of stored parts, [i] the index of the first of [ps]. *)
Fixpoint trusted (partSize len i : Z) (ps : list Part) : list Part :=
  match ps with
  | [] => []
  | ep :: rest =>
      if negb (pn_Number ep =? i + 1) || ((i <? len - 1) && negb (pn_Size ep =? partSize)) then []
      else ep :: trusted partSize len (i + 1) rest
  end.

Definition as_pending (ep : Part) : PendingUploadPart := mkPart (i32 (pn_Number ep)) (pn_ETag ep) (pn_Size ep).

Definition set_parts (p : PendingUpload) (ps : list PendingUploadPart) : PendingUpload :=
  mkPending (pu_Topic p) (pu_Partition p) (pu_BaseOffset p) (pu_NextOffset p) (pu_TenantID p) (pu_SHA256 p) (pu_S3Key p)
    (pu_UploadID p) ps (pu_StartedAt p).

(** What is resumed: the checkpoint and the parts, if the store still has some. *)
Definition resume (e : upload_env) (partSize : Z) (s : S) (m : Manifest) (key sha : string) : option (PendingUpload * list Part) :=
  match GetPending m key with
  | Some prev =>
      if negb (String.eqb (pu_UploadID prev) "") && String.eqb (pu_SHA256 prev) sha then
        match store_ListParts (ue_list e) s key (pu_UploadID prev) with
        | Ok stored =>
            match trusted partSize (zlen stored) 0 stored with
            | [] => None
            | ps => Some (set_parts prev (map as_pending ps), ps)
            end
        | _ => None
        end
      else None
  | None => None
  end.

(** The loop over the rest of the file.  A part is as long as the file allows;
    the loop ends at a part that is empty or short. *)
Fixpoint upload_parts (fuel : nat) (e : upload_env) (partSize : Z) (key id : string) (s : S) (m : Manifest)
    (pending : PendingUpload) (rest : list byte) (parts : list Part) (partNum totalSize : Z) : S * Manifest * res (list Part * Z) :=
  match fuel with
  | O => (s, m, Diverge)
  | Datatypes.S fuel =>
      if negb (ue_read e partNum) then (tryAbort (ue_abort e) (ue_aborted e) s m key id, Err (EMsg "read segment"))
      else
        let data := take (Z.to_nat partSize) rest in
        if zlen data =? 0 then (s, m, Ok (parts, totalSize))
        else match store_UploadPart (ue_part e partNum) s key id partNum data with
        | (s, Ok part) =>
            let parts := parts ++ [part] in
            let pending := set_parts pending (pu_Parts pending ++ [mkPart (i32 partNum) (pn_ETag part) (zlen data)]) in
            let m := (SetPending (ue_checkpoint e partNum) m pending).1 in
            let totalSize := totalSize + zlen data in
            if zlen data <? partSize then (s, m, Ok (parts, totalSize))
            else upload_parts fuel e partSize key id s m pending (drop (Z.to_nat partSize) rest) parts (partNum + 1) totalSize
        | (s, Err er) => (tryAbort (ue_abort e) (ue_aborted e) s m key id, Err (EWrap "upload part" er))
        | (s, _) => (s, m, Panic)
        end
  end.

Definition source_tenant (cfg : UploaderConfig) (seg : SegmentSource) : string :=
  match uc_TenantResolver cfg with Some f => f (ss_Topic seg) (ss_Partition seg) | None => "" end.
Definition source_key (cfg : UploaderConfig) (seg : SegmentSource) : string :=
  SegmentKeyTenant (uc_Prefix cfg) (source_tenant cfg seg) (ss_Topic seg) (ss_Partition seg) (ss_BaseOffset seg).

Definition object_meta (seg : SegmentSource) (sha : string) : gmap string string :=
  <["sha256" := sha]> (<["topic" := ss_Topic seg]> (<["partition" := pretty (ss_Partition seg)]>
    (<["baseoffset" := pretty (ss_BaseOffset seg)]> ∅))).

Definition entry_of (cfg : UploaderConfig) (e : upload_env) (seg : SegmentSource) (size : Z) (sha : string) : SegmentEntry :=
  let tenantID := source_tenant cfg seg in
  mkEntry (ss_Topic seg) (ss_Partition seg) (ss_BaseOffset seg) (ss_NextOffset seg) size sha (source_key cfg seg) (ue_now e) tenantID
    (if bool_decide (uc_HMACKey cfg = []) then ""
     else SegmentSignature mac (uc_HMACKey cfg) tenantID (ss_Topic seg) (ss_Partition seg) (ss_BaseOffset seg) sha).

(** From the checkpoint on: the remaining parts, the completion, the record. *)
Definition upload_rest (cfg : UploaderConfig) (e : upload_env) (seg : SegmentSource) (data : list byte) (s : S) (m : Manifest)
    (pending : PendingUpload) (parts : list Part) : S * Manifest * res unit :=
  let key := source_key cfg seg in
  match SetPending (ue_checkpoint e 0) m pending with
  | (m, Ok _) =>
      let rest := drop (Z.to_nat (zlen parts * uc_PartSize cfg)) data in
      match upload_parts (Datatypes.S (length rest)) e (uc_PartSize cfg) key (pu_UploadID pending) s m pending rest parts (zlen parts + 1) (zlen parts * uc_PartSize cfg) with
      | (s, m, Ok (parts, totalSize)) =>
          match store_CompleteMultipart (ue_complete e) s key (pu_UploadID pending) parts with
          | (s, Ok _) =>
              if ue_same e then
                let (m, r) := AddCompleted (ue_flush e).1 (ue_flush e).2 m (entry_of cfg e seg totalSize (sha256 data)) in
                (s, m, wrap_err "record archived segment" r)
              else (s, (AbortPending (ue_aborted e) m key).1, Err (EMsg "segment was removed or replaced during upload"))
          | (s, Err er) => (tryAbort (ue_abort e) (ue_aborted e) s m key (pu_UploadID pending), Err (EWrap "complete multipart upload" er))
          | (s, _) => (s, m, Panic)
          end
      | (s, m, Err er) => (s, m, Err er)
      | (s, m, Panic) => (s, m, Panic)
      | (s, m, Diverge) => (s, m, Diverge)
      end
  | (m, r) => (s, m, wrap_err "checkpoint pending upload" r)
  end.

Definition uploadOne (cfg : UploaderConfig) (e : upload_env) (seg : SegmentSource) (s : S) (m : Manifest) : S * Manifest * res unit :=
  let tenantID := source_tenant cfg seg in
  let key := source_key cfg seg in
  match ue_file e with
  | None => (s, m, Err (EMsg "open segment"))
  | Some data =>
      if negb (ue_stat e) then (s, m, Err (EMsg "stat segment"))
      else if negb (ue_hash e) then (s, m, Err (EMsg "hash"))
      else if negb (ue_seek e).1 then (s, m, Err (EMsg "seek"))
      else
        let sha := sha256 data in
        match resume e (uc_PartSize cfg) s m key sha with
        | Some (pending, parts) =>
            if negb (ue_seek e).2 then (s, m, Err (EMsg "seek")) else upload_rest cfg e seg data s m pending parts
        | None =>
            match store_CreateMultipart (ue_create e) (ue_id e) s key (object_meta seg sha) with
            | (s, Ok id) =>
                upload_rest cfg e seg data s m
                  (mkPending (ss_Topic seg) (ss_Partition seg) (ss_BaseOffset seg) (ss_NextOffset seg) tenantID sha key id [] (ue_now e)) []
            | (s, Err er) => (s, m, Err (EWrap "create multipart upload" er))
            | (s, _) => (s, m, Panic)
            end
        end
  end.

(** ** The sweep

    Each segment comes with what the world does during its upload. *)
Fixpoint sweep (cfg : UploaderConfig) (now : Z) (segs : list (SegmentSource * upload_env)) (s : S) (m : Manifest) : S * Manifest :=
  match segs with
  | [] => (s, m)
  | (seg, e) :: segs =>
      if now - ss_CreatedAt seg <? uc_ArchiveAge cfg then sweep cfg now segs s m
      else match Manifest_Lookup m (ss_Topic seg) (ss_Partition seg) (ss_BaseOffset seg) with
      | Some _ => sweep cfg now segs s m
      | None => let '(s, m, _) := uploadOne cfg e seg s m in sweep cfg now segs s m
      end
  end.

(** ** Reconciling at boot *)

Record boot_env := mkBoot { be_stat : io; be_list : io; be_abort : io; be_aborted : bool; be_flush : bool * bool; be_drop : bool }.

Definition abortStale (b : boot_env) (s : S) (m : Manifest) (p : PendingUpload) : S * Manifest * res unit :=
  let s := (store_AbortMultipart (be_abort b) s (pu_S3Key p) (pu_UploadID p)).1 in
  let (m, r) := AbortPending (be_aborted b) m (pu_S3Key p) in (s, m, r).

Definition adopted (cfg : UploaderConfig) (p : PendingUpload) (size : Z) (sha : string) : SegmentEntry :=
  mkEntry (pu_Topic p) (pu_Partition p) (pu_BaseOffset p) (pu_NextOffset p) size sha (pu_S3Key p) (pu_StartedAt p) (pu_TenantID p)
    (if bool_decide (uc_HMACKey cfg = []) || String.eqb sha "" then ""
     else SegmentSignature mac (uc_HMACKey cfg) (pu_TenantID p) (pu_Topic p) (pu_Partition p) (pu_BaseOffset p) sha).

Definition reconcileOrAbort (cfg : UploaderConfig) (b : boot_env) (s : S) (m : Manifest) (p : PendingUpload) : S * Manifest :=
  match store_Stat (be_stat b) s (pu_S3Key p) with
  | Err er =>
      if negb (errors_is er ErrNotFound) then (s, m)
      else match store_ListParts (be_list b) s (pu_S3Key p) (pu_UploadID p) with
      | Ok (_ :: _) => (s, m)
      | _ => (abortStale b s m p).1
      end
  | Ok info =>
      let stored := default "" (oi_Metadata info !! "sha256") in
      if negb (String.eqb (pu_SHA256 p) "") && negb (String.eqb stored "") && negb (String.eqb stored (pu_SHA256 p))
      then (abortStale b s m p).1
      else
        let sha := if String.eqb (pu_SHA256 p) "" then stored else pu_SHA256 p in
        match AddCompleted (be_flush b).1 (be_flush b).2 m (adopted cfg p (oi_Size info) sha) with
        | (m, Ok _) => (s, (AbortPending (be_drop b) m (pu_S3Key p)).1)
        | (m, _) => (s, m)
        end
  | _ => (s, m)
  end.

Fixpoint reconcile_all (cfg : UploaderConfig) (ps : list (PendingUpload * boot_env)) (s : S) (m : Manifest) : S * Manifest :=
  match ps with
  | [] => (s, m)
  | (p, b) :: ps => let (s, m) := reconcileOrAbort cfg b s m p in reconcile_all cfg ps s m
  end.

(** [Run]: the checkpoints of the manifest first, then a sweep per tick until the
    context ends or [Stop] is called.  [cancelled] is how many checkpoints were
    looked at when the context ended, if it ended that early. *)
Definition Run (cfg : UploaderConfig) (boot : PendingUpload -> boot_env) (cancelled : option nat)
    (ticks : list (Z * list (SegmentSource * upload_env))) (s : S) (m : Manifest) : S * Manifest :=
  let pending := map (fun p => (p, boot p)) (PendingAll m) in
  match cancelled with
  | Some n => reconcile_all cfg (take n pending) s m
  | None => foldl (fun sm t => sweep cfg t.1 t.2 sm.1 sm.2) (reconcile_all cfg pending s m) ticks
  end.

End uploader.
