(* ===== verification/UploaderFacts.v ===== *)
(** * The uploader's invariant

    Every manifest entry's object is in the store, with the recorded digest, and
    the parts of every checkpointed upload are pieces of the segment whose digest
    the checkpoint carries.  Proved against the laws of a store. *)

From S2P Require Import Prelude Bytes Names Log LogRecover Manifest Cache ObjStore Uploader.
From stdpp Require Import pretty.

#[local] Open Scope Z_scope.

(** ** Pieces of a file *)

Definition chunk (partSize n : Z) (data : list byte) : list byte :=
  take (Z.to_nat partSize) (drop (Z.to_nat ((n - 1) * partSize)) data).

Lemma concat_chunks partSize data n : 0 <= partSize ->
  concat (map (fun i => chunk partSize i data) (seqZ 1 (Z.of_nat n))) = take (Z.to_nat (Z.of_nat n * partSize)) data.
Proof.
  intros Hp. induction n as [|n IH]; [done|].
  rewrite seqZ_S, map_app, concat_app, IH. cbn [map concat]. rewrite app_nil_r. unfold chunk.
  replace (1 + Z.of_nat n - 1) with (Z.of_nat n) by lia. rewrite take_take_drop. f_equal. lia.
Qed.

Lemma StronglySorted_seqZ m n : StronglySorted Z.lt (seqZ m n).
Proof.
  destruct (Z.le_gt_cases n 0) as [?|Hn]; [rewrite seqZ_nil by lia; constructor|].
  revert m. pattern n. apply natlike_ind; [intros; constructor| |lia]. clear n Hn. intros n Hn IH m.
  rewrite seqZ_cons by lia. rewrite Z.pred_succ. constructor; [apply IH|].
  apply Forall_seqZ. lia.
Qed.

Lemma zlen_drop_max {A} (l : list A) n : 0 <= n -> zlen (drop (Z.to_nat n) l) = Z.max 0 (zlen l - n).
Proof. intros. unfold zlen. rewrite length_drop. lia. Qed.

Lemma zlen_take_min {A} (l : list A) n : 0 <= n -> zlen (take (Z.to_nat n) l) = Z.min n (zlen l).
Proof. intros. unfold zlen. rewrite length_take. lia. Qed.

Section facts.
Context {S io : Type} `{Hst : Store S io} {Hlaws : StoreLaws S io}.
Context (sha256 : list byte -> string) (mac : list byte -> string -> string) (cfg : UploaderConfig).
Context (sha_inj : forall x y, sha256 x = sha256 y -> x = y) (part_pos : 0 < uc_PartSize cfg).

#[local] Abbreviation ps := (uc_PartSize cfg).

(** ** The invariant *)

Definition entry_ok (s : S) (e : SegmentEntry) : Prop :=
  valid_position (se_TenantID e) (se_Topic e) (se_BaseOffset e) /\
  se_S3Key e = SegmentKeyTenant (uc_Prefix cfg) (se_TenantID e) (se_Topic e) (se_Partition e) (se_BaseOffset e) /\
  exists data meta, object s (se_S3Key e) = Some (data, meta) /\ se_SHA256 e = sha256 data /\ zlen data <= se_SizeBytes e.

(** The parts the store holds for an upload are pieces of [data]. *)
Definition pieces (data : list byte) (ou : option Upload) : Prop :=
  forall u, ou = Some u -> up_meta u !! "sha256" = Some (sha256 data) /\
    forall n c, up_parts u !! n = Some c -> c = chunk ps n data.

Definition pending_ok (s : S) (p : PendingUpload) : Prop :=
  valid_position (pu_TenantID p) (pu_Topic p) (pu_BaseOffset p) /\
  pu_S3Key p = SegmentKeyTenant (uc_Prefix cfg) (pu_TenantID p) (pu_Topic p) (pu_Partition p) (pu_BaseOffset p) /\
  pu_UploadID p <> "" /\
  exists data, pu_SHA256 p = sha256 data /\ pieces data (upload s (pu_UploadID p)).

(** What the archive promises: every manifest entry has its object; every pending
    upload has a valid position, an id of its own, and parts in the store that are
    the pieces of its file at the part size of the present configuration.  The last
    point holds as long as the part size is not changed while uploads are pending:
    the program takes the position at which it resumes from the present size. *)
Record archive_inv (s : S) (m : Manifest) : Prop := {
  ai_entries : Forall (entry_ok s) (mf_completed m);
  ai_pending : forall k p, mf_pending m !! k = Some p -> pu_S3Key p = k /\ pending_ok s p;
  ai_ids : forall k1 k2 p1 p2, mf_pending m !! k1 = Some p1 -> mf_pending m !! k2 = Some p2 ->
    pu_UploadID p1 = pu_UploadID p2 -> k1 = k2
}.

(** The metadata of every object carries its own digest. *)
Definition honest (s : S) : Prop :=
  forall k data meta, object s k = Some (data, meta) -> meta !! "sha256" = Some (sha256 data).

(** An upload id that no checkpoint uses and the store does not know. *)
Definition unknown (s : S) (m : Manifest) (i : string) : Prop :=
  upload s i = None /\ forall k p, mf_pending m !! k = Some p -> pu_UploadID p <> i.

Lemma shrunk_refl ou : shrunk ou ou.
Proof. intros u ->. by exists u. Qed.

Lemma pieces_shrunk data o1 o2 : shrunk o1 o2 -> pieces data o1 -> pieces data o2.
Proof.
  intros Hs Hp u' Hu'. destruct (Hs u' Hu') as (u & Hu & -> & Hsub). destruct (Hp u Hu) as [? Hc]. split; [done|].
  intros n c Hn. apply Hc. by eapply lookup_weaken.
Qed.

(** A step that leaves the entries' objects alone and adds no part. *)
Lemma inv_frame s s' m : archive_inv s m ->
  (forall e, e ∈ mf_completed m -> object s' (se_S3Key e) = object s (se_S3Key e)) ->
  (forall i, shrunk (upload s i) (upload s' i)) -> archive_inv s' m.
Proof.
  intros [He Hp Hi] Ho Hu. split; [|intros k p Hk; destruct (Hp k p Hk) as (? & ? & ? & ? & data & ? & ?)|done].
  - rewrite Forall_forall in He |- *. intros e Hin. destruct (He e Hin) as (? & ? & data & meta & ? & ? & ?).
    split_and!; try done. exists data, meta. by rewrite Ho.
  - split; [done|]. split_and!; try done. exists data. split; [done|]. by eapply pieces_shrunk.
Qed.

Lemma inv_manifest s m m' : archive_inv s m -> mf_completed m' = mf_completed m -> mf_pending m' ⊆ mf_pending m -> archive_inv s m'.
Proof.
  intros [He Hp Hi] Hc Hsub. split; [by rewrite Hc|intros k p Hk; eapply Hp, lookup_weaken; done|].
  intros k1 k2 p1 p2 H1 H2. eapply Hi; by eapply lookup_weaken.
Qed.

Lemma flushPending_state ok m :
  mf_completed (flushPending ok m).1 = mf_completed m /\ mf_pending (flushPending ok m).1 = mf_pending m.
Proof. by destruct ok. Qed.

Lemma AbortPending_inv ok s m key : archive_inv s m -> archive_inv s (AbortPending ok m key).1.
Proof.
  intros Hinv. unfold AbortPending. destruct (flushPending_state ok (mkManifest (mf_completed m) (delete key (mf_pending m))
    (mf_archive_file m) (mf_pending_file m))) as [Hc Hp].
  eapply inv_manifest; [done|by rewrite Hc|]. rewrite Hp. apply delete_subseteq.
Qed.

Lemma AbortPending_completed ok m key : mf_completed (AbortPending ok m key).1 = mf_completed m.
Proof. by destruct ok. Qed.

Lemma unknown_sub s s' m m' i : unknown s m i -> shrunk (upload s i) (upload s' i) -> mf_pending m' ⊆ mf_pending m -> unknown s' m' i.
Proof.
  intros [Hn Hp] Hs Hsub. split.
  - destruct (upload s' i) as [u|]; [|done]. destruct (Hs u eq_refl) as (u0 & Hu0 & _). congruence.
  - intros k p Hk. eapply Hp, lookup_weaken; done.
Qed.

Lemma AbortPending_pending ok m key : mf_pending (AbortPending ok m key).1 ⊆ mf_pending m.
Proof. unfold AbortPending. rewrite (proj2 (flushPending_state _ _)). cbn. apply delete_subseteq. Qed.

Lemma AddCompleted_pending ok1 ok2 m e : mf_pending (AddCompleted ok1 ok2 m e).1 ⊆ mf_pending m.
Proof. unfold AddCompleted. rewrite (proj2 (flushBoth_state _ _ _)). cbn. apply delete_subseteq. Qed.

Lemma unknown_SetPending s m i ok p : unknown s m i -> pu_UploadID p <> i -> unknown s (SetPending ok m p).1 i.
Proof.
  intros [Hn Hp] Hid. split; [done|]. intros k q. unfold SetPending. rewrite (proj2 (flushPending_state _ _)). cbn.
  intros [[_ <-]|[_ Hk]]%lookup_insert_Some; [done|by eapply Hp].
Qed.

(** Aborting an upload only removes. *)
Lemma Abort_shrunk o s key id s' r : store_AbortMultipart o s key id = (s', r) -> id <> "" ->
  (forall k, object s' k = object s k) /\ forall i, shrunk (upload s i) (upload s' i).
Proof.
  intros E Hid. destruct (Abort_upload _ _ _ _ _ _ E Hid) as (Ho & Hi & Hs). split; [done|].
  intros i. destruct (decide (i = id)) as [->|Hne]; [done|]. rewrite Hi by done. apply shrunk_refl.
Qed.

Lemma Abort_inv o s m key id : archive_inv s m -> id <> "" -> archive_inv (store_AbortMultipart o s key id).1 m.
Proof.
  intros Hinv Hid. destruct (store_AbortMultipart o s key id) as [s' r] eqn:E. cbn.
  destruct (Abort_shrunk _ _ _ _ _ _ E Hid) as [Ho Hs]. by eapply inv_frame.
Qed.

Lemma tryAbort_spec o ok s m key id s' m' : tryAbort o ok s m key id = (s', m') -> archive_inv s m -> id <> "" ->
  archive_inv s' m' /\ mf_completed m' = mf_completed m /\ (forall k, object s' k = object s k) /\
  (forall i, unknown s m i -> unknown s' m' i).
Proof.
  intros [= <- <-] Hinv Hid. split; [by apply AbortPending_inv, Abort_inv|]. split; [apply AbortPending_completed|].
  destruct (store_AbortMultipart o s key id) as [s1 r1] eqn:Ea. destruct (Abort_shrunk _ _ _ _ _ _ Ea Hid) as [Ho Hs].
  split; [done|]. intros i Hi. eapply unknown_sub; [done|apply Hs|apply AbortPending_pending].
Qed.

(** Setting the checkpoint of an upload no other checkpoint names. *)
Lemma SetPending_inv ok s m p : archive_inv s m -> pending_ok s p ->
  (forall k p', mf_pending m !! k = Some p' -> pu_UploadID p' = pu_UploadID p -> k = pu_S3Key p) ->
  archive_inv s (SetPending ok m p).1.
Proof.
  intros [He Hp Hi] Hok Hid. unfold SetPending.
  destruct (flushPending_state ok (mkManifest (mf_completed m) (<[pu_S3Key p := p]> (mf_pending m))
    (mf_archive_file m) (mf_pending_file m))) as [Hc Hpe].
  split; rewrite ?Hc, ?Hpe; cbn [mf_completed mf_pending]; [done| |].
  - intros k q [[<- <-]|[? Hq]]%lookup_insert_Some; [done|auto].
  - intros k1 k2 p1 p2 [[<- <-]|[? H1]]%lookup_insert_Some [[<- <-]|[? H2]]%lookup_insert_Some E; try done.
    + symmetry. by eapply Hid.
    + by eapply Hid.
    + by eapply Hi.
Qed.

Lemma SetPending_lookup ok m p : mf_pending (SetPending ok m p).1 !! pu_S3Key p = Some p.
Proof.
  unfold SetPending. rewrite (proj2 (flushPending_state _ _)). cbn. by rewrite lookup_insert_eq.
Qed.

Lemma SetPending_completed ok m p : mf_completed (SetPending ok m p).1 = mf_completed m.
Proof. by destruct ok. Qed.

(** Recording an entry whose object is stored. *)
Lemma AddCompleted_inv ok1 ok2 s m e : archive_inv s m -> entry_ok s e -> archive_inv s (AddCompleted ok1 ok2 m e).1.
Proof.
  intros [He Hp Hi] Hok. unfold AddCompleted. set (m0 := mkManifest _ _ _ _).
  destruct (flushBoth_state ok1 ok2 m0) as [Hc Hpe].
  split; rewrite ?Hc, ?Hpe; unfold m0; cbn [mf_completed mf_pending].
  - apply Forall_app. split; [|by constructor]. rewrite List.Forall_forall in He |- *. intros x [Hx _]%filter_In. auto.
  - intros k p [_ Hk]%lookup_delete_Some. auto.
  - intros k1 k2 p1 p2 [_ H1]%lookup_delete_Some [_ H2]%lookup_delete_Some. by apply Hi.
Qed.

(** ** One upload *)

Lemma object_meta_lower seg sha : lower_keys (object_meta seg sha).
Proof. unfold object_meta, lower_keys. repeat (apply map_Forall_insert_2; [done|]). apply map_Forall_empty. Qed.

Section one.
Context (seg : SegmentSource) (e : upload_env (io := io)) (data : list byte).
Context (pos : valid_position (source_tenant cfg seg) (ss_Topic seg) (ss_BaseOffset seg)).

#[local] Abbreviation key := (source_key cfg seg).

(** A checkpoint of this upload under [id]. *)
Record own (id : string) (p : PendingUpload) : Prop := {
  own_tenant : pu_TenantID p = source_tenant cfg seg;
  own_topic : pu_Topic p = ss_Topic seg;
  own_partition : pu_Partition p = ss_Partition seg;
  own_base : pu_BaseOffset p = ss_BaseOffset seg;
  own_key : pu_S3Key p = key;
  own_sha : pu_SHA256 p = sha256 data;
  own_id : pu_UploadID p = id;
  own_some : id <> ""
}.

Lemma own_set_parts id p l : own id p -> own id (set_parts p l).
Proof. intros []. by split. Qed.

Lemma own_pending_ok s id p : own id p -> pieces data (upload s id) -> pending_ok s p.
Proof.
  intros [] ?. unfold pending_ok. repeat match goal with E : _ p = _ |- _ => rewrite E end. split_and!; try done. by exists data.
Qed.

(** The upload in progress: its checkpoint is set and these parts are stored. *)
Record in_progress (s : S) (m : Manifest) (id : string) (p : PendingUpload) (parts : list Part) : Prop := {
  ip_inv : archive_inv s m;
  ip_own : own id p;
  ip_ids : forall k p', mf_pending m !! k = Some p' -> pu_UploadID p' = id -> k = key;
  ip_pieces : pieces data (upload s id);
  ip_numbers : map pn_Number parts = seqZ 1 (zlen parts);
  ip_parts : exists u, upload s id = Some u /\ Forall (fun q => up_parts u !! pn_Number q = Some (chunk ps (pn_Number q) data)) parts
}.

Lemma pieces_insert u n : pieces data (Some u) ->
  pieces data (Some (mkUpload (up_key u) (up_meta u) (<[n := chunk ps n data]> (up_parts u)))).
Proof.
  intros Hp u' [= <-]. destruct (Hp u eq_refl) as [Hm Hc]. cbn. split; [done|].
  intros n' c [[<- <-]|[_ ?]]%lookup_insert_Some; [done|auto].
Qed.

(** A part is stored, or not: no checkpoint minds. *)
Lemma part_frame s s' m id p parts n : in_progress s m id p parts -> (forall k, object s' k = object s k) ->
  (forall i, i <> id -> upload s' i = upload s i) -> perhaps_stored n (chunk ps n data) (upload s id) (upload s' id) ->
  archive_inv s' m /\ pieces data (upload s' id) /\ (forall i, i <> id -> unknown s m i -> unknown s' m i).
Proof.
  intros [Hinv Hown Hids Hpc Hnum (u & Hu & Hf)] Ho Hi Hkept.
  assert (forall d, pieces d (upload s id) -> sha256 d = sha256 data -> pieces d (upload s' id)) as Hgrow.
  { intros d Hd ->%sha_inj. destruct Hkept as [->|(u0 & Hu0 & ->)]; [done|]. rewrite Hu0 in Hd. by apply pieces_insert. }
  split; [|split; [by apply Hgrow|intros i Hne [? Hun]; split; [by rewrite Hi|done]]].
  destruct Hinv as [He Hp Hid]. split; [|intros k q Hk; destruct (Hp k q Hk) as (? & Hv & Hkey & Hne & d & Hd & Hpd)|done].
  - eapply Forall_impl; [exact He|]. intros x (? & ? & d & meta & ? & ? & ?). split_and!; try done. exists d, meta. by rewrite Ho.
  - split; [done|]. split_and!; try done. exists d. split; [done|].
    destruct (decide (pu_UploadID q = id)) as [Heq|Hneq]; [|by rewrite Hi].
    rewrite Heq in Hpd |- *. apply Hgrow; [done|]. destruct (Hpd u Hu) as [Hmd _]. destruct (Hpc u Hu) as [Hmd' _]. congruence.
Qed.

Lemma UploadPart_failed s m id p parts o s' r : in_progress s m id p parts ->
  store_UploadPart o s key id (zlen parts + 1) (chunk ps (zlen parts + 1) data) = (s', r) -> is_ok r = false ->
  archive_inv s' m /\ (forall k, object s' k = object s k) /\ (forall i, i <> id -> unknown s m i -> unknown s' m i).
Proof.
  intros Hip E Hr. destruct (UploadPart_upload _ _ _ _ _ _ _ _ E) as (Ho & Hi & _ & Hkept).
  destruct (part_frame _ _ _ _ _ _ _ Hip Ho Hi (Hkept Hr)) as (? & _ & ?). done.
Qed.

Lemma in_progress_part s m id p parts o s' part ok etag size :
  in_progress s m id p parts ->
  store_UploadPart o s key id (zlen parts + 1) (chunk ps (zlen parts + 1) data) = (s', Ok part) ->
  let p' := set_parts p (pu_Parts p ++ [mkPart (i32 (zlen parts + 1)) etag size]) in
  in_progress s' (SetPending ok m p').1 id p' (parts ++ [part]) /\ (forall k, object s' k = object s k) /\
  (forall i, i <> id -> unknown s m i -> unknown s' (SetPending ok m p').1 i).
Proof.
  intros [Hinv Hown Hids Hpc Hnum (u & Hu & Hf)] E p'.
  destruct (UploadPart_upload _ _ _ _ _ _ _ _ E) as (Ho & Hi & Hok & _).
  destruct (Hok part eq_refl) as (Hn & _ & u0 & Hu0 & Hu'). rewrite Hu in Hu0. injection Hu0 as <-.
  destruct (part_frame s s' m id p parts (zlen parts + 1)) as (Hinv' & Hpc' & Hun'); [split; eauto|done|done|right; by exists u|].
  assert (own id p') as Hown' by by apply own_set_parts.
  split; [|split; [done|]].
  2:{ intros i Hne Hun. apply unknown_SetPending; [|rewrite (own_id _ _ Hown'); congruence].
      by apply Hun'. }
  split; [|done| |done| |].
  - apply SetPending_inv; [done|by eapply own_pending_ok|]. intros k q Hk Hq.
    rewrite (own_key _ _ Hown'). eapply Hids; [done|]. by rewrite Hq, (own_id _ _ Hown').
  - intros k q. unfold SetPending. rewrite (proj2 (flushPending_state _ _)). cbn [mf_pending].
    intros [[<- _]|[_ Hk]]%lookup_insert_Some Hq; [apply Hown|by eapply Hids].
  - rewrite map_app, zlen_app, Hnum. cbn [map]. rewrite Hn, zlen_cons, zlen_nil.
    rewrite seqZ_app, (seqZ_cons _ (1 + 0)), (seqZ_nil _ (Z.pred _)) by (pose proof (zlen_nonneg parts); lia). do 2 f_equal. lia.
  - eexists. split; [exact Hu'|]. cbn [up_parts]. apply Forall_app. split.
    + eapply Forall_impl; [exact Hf|]. cbn. intros q Hq. destruct (decide (pn_Number q = zlen parts + 1)) as [Heq|].
      * rewrite Heq. by rewrite lookup_insert_eq.
      * by rewrite lookup_insert_ne.
    + constructor; [|constructor]. by rewrite Hn, lookup_insert_eq.
Qed.

(** The parts stored when the loop starts: [length parts] full pieces, and the
    file read from there. *)
Lemma chunk_at n : 0 <= n -> take (Z.to_nat ps) (drop (Z.to_nat (n * ps)) data) = chunk ps (n + 1) data.
Proof. intros. unfold chunk. do 3 f_equal. lia. Qed.

Lemma zlen_chunk n : 0 <= n -> zlen (chunk ps (n + 1) data) = Z.min ps (Z.max 0 (zlen data - n * ps)).
Proof.
  intros. unfold chunk. rewrite zlen_take_min, zlen_drop_max by nia. do 3 f_equal. lia.
Qed.

Lemma upload_parts_spec id fuel : forall s m p parts total s' m' r,
  in_progress s m id p parts -> (length (drop (Z.to_nat (zlen parts * ps)) data) < fuel)%nat ->
  upload_parts fuel e ps key id s m p (drop (Z.to_nat (zlen parts * ps)) data) parts (zlen parts + 1) total = (s', m', r) ->
  archive_inv s' m' /\ mf_completed m' = mf_completed m /\ (forall k, object s' k = object s k) /\ r <> Diverge /\
  (forall i, i <> id -> unknown s m i -> unknown s' m' i) /\
  forall parts' total', r = Ok (parts', total') ->
    (exists p', in_progress s' m' id p' parts') /\ zlen data <= zlen parts' * ps /\
    total' = total + zlen (drop (Z.to_nat (zlen parts * ps)) data).
Proof.
  induction fuel as [|fuel IH]; intros s m p parts total s' m' r Hip Hfuel; [lia|]. cbn [upload_parts].
  pose proof (zlen_nonneg parts) as Hlen. pose proof (own_some _ _ (ip_own _ _ _ _ _ Hip)) as Hid.
  destruct (ue_read e (zlen parts + 1)); cbn [negb].
  2:{ destruct (tryAbort _ _ _ _ _ _) as [s1 m1] eqn:Ea. intros [= <- <- <-].
      apply tryAbort_spec in Ea as (? & ? & ? & ?); [|apply Hip|done]. split_and!; try done; auto. }
  rewrite chunk_at by done. rewrite drop_drop, <- Z2Nat.inj_add by nia.
  replace (zlen parts * ps + ps) with ((zlen parts + 1) * ps) by lia.
  pose proof (zlen_chunk (zlen parts) Hlen) as Hc. set (c := chunk ps (zlen parts + 1) data) in *.
  destruct (Z.eqb_spec (zlen c) 0) as [Hz|Hz]; rewrite Hc in Hz.
  { intros [= <- <- <-]. split_and!; try done; [apply Hip|]. intros parts' total' [= <- <-].
    split_and!; [by exists p|lia|]. rewrite zlen_drop_max by nia. lia. }
  destruct (store_UploadPart (ue_part e (zlen parts + 1)) s key id (zlen parts + 1) c) as [s1 r1] eqn:Eu.
  destruct r1 as [part|er| |].
  - destruct (in_progress_part _ _ _ _ _ _ _ _ (ue_checkpoint e (zlen parts + 1)) (pn_ETag part) (zlen c) Hip Eu) as (Hip' & Hobj & Hunk).
    set (p' := set_parts p _) in *. set (m1 := (SetPending _ m p').1) in *.
    assert (mf_completed m1 = mf_completed m) as Hcm by apply SetPending_completed.
    assert (zlen (parts ++ [part]) = zlen parts + 1) as Hl by by rewrite zlen_app.
    destruct (Z.ltb_spec (zlen c) ps) as [Hlt|Hge]; [rewrite Hc in Hlt|rewrite Hc in Hge].
    + intros [= <- <- <-]. split_and!; try done; [apply Hip'|]. intros parts' total' [= <- <-].
      split_and!; [by exists p'|rewrite Hl; lia|]. rewrite zlen_drop_max, Hc by nia. lia.
    + intros Heq. rewrite <- Hl in Heq.
      assert (length (drop (Z.to_nat (zlen (parts ++ [part]) * ps)) data) < fuel)%nat as Hfuel'.
      { apply Nat2Z.inj_lt in Hfuel. apply Nat2Z.inj_lt. fold (zlen (A := byte)) in *. rewrite Hl.
        revert Hfuel. change (Z.of_nat (length ?l)) with (zlen l). rewrite !zlen_drop_max by nia. lia. }
      destruct (IH _ _ _ _ _ _ _ _ Hip' Hfuel' Heq) as (? & Hc' & Ho' & ? & Hun' & Hok).
      split_and!; [done|by rewrite Hc'|intros k; by rewrite Ho'|done|by auto|].
      intros parts' total' Hr. destruct (Hok _ _ Hr) as (? & ? & ->). split_and!; [done..|]. rewrite Hl.
      rewrite !zlen_drop_max, Hc by nia. lia.
  - destruct (tryAbort _ _ _ _ _ _) as [s2 m2] eqn:Ea. intros [= <- <- <-].
    destruct (UploadPart_failed _ _ _ _ _ _ _ _ Hip Eu eq_refl) as (Hinv1 & Ho & Hun).
    apply tryAbort_spec in Ea as (? & ? & Ho2 & ?); [|done..]. split_and!; try done; auto. intros k. by rewrite Ho2.
  - intros [= <- <- <-]. destruct (UploadPart_failed _ _ _ _ _ _ _ _ Hip Eu eq_refl) as (? & ? & ?). split_and!; try done; auto.
  - intros [= <- <- <-]. destruct (UploadPart_failed _ _ _ _ _ _ _ _ Hip Eu eq_refl) as (? & ? & ?). split_and!; try done; auto.
Qed.

Lemma in_progress_checkpoint s m id p parts ok : in_progress s m id p parts -> in_progress s (SetPending ok m p).1 id p parts.
Proof.
  intros [Hinv Hown Hids Hpc Hnum Hp]. split; try done.
  - apply SetPending_inv; [done|by eapply own_pending_ok|]. intros k q Hk Hq. rewrite (own_key _ _ Hown).
    eapply Hids; [done|]. by rewrite Hq, (own_id _ _ Hown).
  - intros k q. unfold SetPending. rewrite (proj2 (flushPending_state _ _)). cbn [mf_pending].
    intros [[<- _]|[_ Hk]]%lookup_insert_Some Hq; [apply Hown|by eapply Hids].
Qed.

(** Completing the upload stores the whole file. *)
Lemma Complete_stores s m id p parts o s' r : in_progress s m id p parts -> zlen data <= zlen parts * ps ->
  (forall x, x ∈ mf_completed m -> ~ same_object (se_S3Key x) key) ->
  store_CompleteMultipart o s key id parts = (s', r) ->
  archive_inv s' m /\ (forall k, same_object k key \/ object s' k = object s k) /\
  (honest s -> kept_meta o = true -> honest s') /\
  (forall i, unknown s m i -> unknown s' m i) /\
  (r = Ok tt -> exists meta, object s' key = Some (data, meta)).
Proof.
  intros [Hinv Hown Hids Hpc Hnum (u & Hu & Hf)] Hlen Hapart E.
  destruct (Complete_upload _ _ _ _ _ _ _ E) as (Ho & Hi & Hs & Hcase); [rewrite Hnum; apply StronglySorted_seqZ|].
  assert (forall i, shrunk (upload s i) (upload s' i)) as Hshr.
  { intros i. destruct (decide (i = id)) as [->|]; [done|]. rewrite Hi by done. apply shrunk_refl. }
  assert (archive_inv s' m) as Hinv'.
  { eapply inv_frame; [done| |done].
    intros x Hx. destruct (Ho (se_S3Key x)) as [?|?]; [by destruct (Hapart x Hx)|done]. }
  assert (forall i, unknown s m i -> unknown s' m i) as Hun by (intros i Hu0; by eapply unknown_sub).
  destruct Hcase as [[Hsame Hr]|(u' & chunks & meta & Hu' & Hch & Hobj & Hmeta)].
  { split_and!; try done. intros Hh _ k d mt. rewrite Hsame. apply Hh. }
  rewrite Hu in Hu'. injection Hu' as <-.
  assert (concat chunks = data) as Hdata.
  { assert (chunks = map (fun i => chunk ps i data) (map pn_Number parts)) as ->.
    { clear - Hch Hf. induction Hch as [|q c qs cs Hq _ IH]; [done|]. apply Forall_cons in Hf as [Hq' Hf].
      cbn in Hq'. rewrite Hq' in Hq. injection Hq as <-. cbn. by rewrite IH. }
    rewrite Hnum. unfold zlen at 1. rewrite concat_chunks by lia. apply take_ge. unfold zlen in Hlen. lia. }
  rewrite Hdata in Hobj. split_and!; [done|done| |done|].
  - intros Hh Hk k d mt Hkd. destruct (Ho k) as [Hsm|Hsm]; [|rewrite Hsm in Hkd; by eapply Hh].
    rewrite Hobj in Hkd by done. injection Hkd as <- <-. rewrite Hmeta by done. by apply (Hpc u Hu).
  - intros _. exists meta. apply Hobj, same_object_refl.
Qed.

(** ** What an upload leaves behind *)

Record uploaded (s : S) (m : Manifest) (s' : S) (m' : Manifest) (r : res unit) : Prop := {
  ul_inv : archive_inv s' m';
  ul_objects : forall k, same_object k key \/ object s' k = object s k;
  ul_returns : r <> Diverge;
  ul_honest : honest s -> kept_meta (ue_complete e) = true -> honest s';
  ul_completed : mf_completed m' = mf_completed m \/ exists size, let en := entry_of mac cfg e seg size (sha256 data) in
    mf_completed m' = List.filter (keeps en) (mf_completed m) ++ [en];
  ul_unknown : forall i, i <> ue_id e -> unknown s m i -> unknown s' m' i;
  ul_stored : r = Ok tt -> exists meta size, object s' key = Some (data, meta) /\ zlen data <= size /\
    Manifest_Lookup m' (ss_Topic seg) (ss_Partition seg) (ss_BaseOffset seg) = Some (entry_of mac cfg e seg size (sha256 data))
}.

Lemma uploaded_same_objects s m s' m' r : archive_inv s' m' -> mf_completed m' = mf_completed m -> (forall k, object s' k = object s k) ->
  is_ok r = false -> r <> Diverge -> (forall i, i <> ue_id e -> unknown s m i -> unknown s' m' i) -> uploaded s m s' m' r.
Proof.
  intros Hinv Hc Ho Hr Hd Hu. split; try done; [by right| |by left|by intros ->].
  intros Hh _ k d mt. rewrite Ho. apply Hh.
Qed.

Lemma upload_rest_spec s m id p parts s' m' r : in_progress s m id p parts ->
  (forall i, i <> ue_id e -> unknown s m i -> i <> id) ->
  (forall x, x ∈ mf_completed m -> ~ same_object (se_S3Key x) key) ->
  upload_rest sha256 mac cfg e seg data s m p parts = (s', m', r) -> uploaded s m s' m' r.
Proof.
  intros Hip Hnew Hapart. unfold upload_rest.
  pose proof (in_progress_checkpoint _ _ _ _ _ (ue_checkpoint e 0) Hip) as Hip0.
  pose proof (SetPending_completed (ue_checkpoint e 0) m p) as Hc0.
  destruct (SetPending (ue_checkpoint e 0) m p) as [m0 r0] eqn:Es. cbn [fst] in Hip0, Hc0.
  assert (forall i, i <> ue_id e -> unknown s m i -> i <> id /\ unknown s m0 i) as Hun0.
  { intros i Hi Hu. split; [by eapply Hnew|]. change m0 with (m0, r0).1. rewrite <- Es. apply unknown_SetPending; [done|].
    rewrite (own_id _ _ (ip_own _ _ _ _ _ Hip)). intros <-. by eapply Hnew. }
  destruct r0 as [[]|er| |]; try (intros [= <- <- <-]; apply uploaded_same_objects; [apply Hip0|done|done|done|done|intros i Hi Hu; by apply Hun0]).
  2:{ unfold SetPending, flushPending in Es. destruct (ue_checkpoint e 0); by injection Es. }
  rewrite (own_id _ _ (ip_own _ _ _ _ _ Hip)).
  destruct (upload_parts _ _ _ _ _ _ _ _ _ _ _ _) as [[s1 m1] r1] eqn:Eu.
  apply (upload_parts_spec id) in Eu as (Hinv1 & Hc1 & Ho1 & Hd1 & Hun1 & Hok1); [|done|lia].
  assert (forall i, i <> ue_id e -> unknown s m i -> unknown s1 m1 i) as Hunk1 by (intros i Hi [??]%Hun0; auto).
  assert (mf_completed m1 = mf_completed m) as Hc01 by congruence.
  destruct r1 as [[parts1 total]|er| |]; try done; try (intros [= <- <- <-]; by apply uploaded_same_objects).
  destruct (Hok1 _ _ eq_refl) as ((p1 & Hip1) & Hlen & Htot).
  destruct (store_CompleteMultipart (ue_complete e) s1 key id parts1) as [s2 r2] eqn:Ec.
  rewrite <- Hc0, <- Hc1 in Hapart.
  destruct (Complete_stores _ _ _ _ _ _ _ _ Hip1 Hlen Hapart Ec) as (Hinv2 & Ho2 & Hh2 & Hun2 & Hst2).
  assert (forall k, same_object k key \/ object s2 k = object s k) as Ho.
  { intros k. rewrite <- Ho1. apply Ho2. }
  assert (honest s -> kept_meta (ue_complete e) = true -> honest s2) as Hh.
  { intros Hhs. apply Hh2. intros k d mt. rewrite Ho1. apply Hhs. }
  assert (id <> "") as Hid by apply Hip.
  destruct r2 as [[]|er| |].
  - destruct (ue_same e).
    + pose proof (AddCompleted_Lookup (ue_flush e).1 (ue_flush e).2 m1 (entry_of mac cfg e seg total (sha256 data))) as Hlk.
      destruct (Hst2 eq_refl) as [meta Hobj].
      assert (zlen data <= total) as Hsz.
      { rewrite Htot, zlen_drop_max by (pose proof (zlen_nonneg parts); nia). lia. }
      assert (entry_ok s2 (entry_of mac cfg e seg total (sha256 data))) as Hent.
      { split_and!; [done|done|]. by exists data, meta. }
      pose proof (AddCompleted_inv (ue_flush e).1 (ue_flush e).2 s2 m1 _ Hinv2 Hent) as Hinv3.
      destruct (AddCompleted _ _ m1 _) as [m3 r3] eqn:Ea. cbn [fst] in *. intros [= <- <- <-].
      assert (r3 <> Diverge) as Hr3.
      { unfold AddCompleted, flushBoth, flushCompleted, flushPending in Ea. by destruct (ue_flush e) as [[] []]; injection Ea as <- <-. }
      split; try done; [by destruct r3| | |].
      * right. exists total. cbn zeta. rewrite <- Hc01. change m3 with (m3, r3).1. rewrite <- Ea. unfold AddCompleted.
        by rewrite (proj1 (flushBoth_state _ _ _)).
      * intros i Hi Hu%Hunk1%Hun2; [|done]. eapply unknown_sub; [done|apply shrunk_refl|].
        change m3 with (m3, r3).1. rewrite <- Ea. apply AddCompleted_pending.
      * intros _. by exists meta, total.
    + intros [= <- <- <-]. split; try done; [by apply AbortPending_inv|left; by rewrite AbortPending_completed|].
      intros i Hi Hu%Hunk1%Hun2; [|done]. eapply unknown_sub; [done|apply shrunk_refl|apply AbortPending_pending].
  - destruct (tryAbort _ _ _ _ _ _) as [s3 m3] eqn:Et. intros [= <- <- <-].
    apply tryAbort_spec in Et as (? & ? & Ho3 & ?); [|done..]. split; try done; auto.
    + intros k. rewrite Ho3. apply Ho.
    + intros Hhs Hk k d mt. rewrite Ho3. by apply Hh.
    + left. congruence.
  - intros [= <- <- <-]. split; try done; auto.
  - intros [= <- <- <-]. split; try done; auto.
Qed.

(** The trusted parts are numbered from one. *)
Lemma trusted_numbers len l : forall i, map pn_Number (trusted ps len i l) = seqZ (i + 1) (zlen (trusted ps len i l)) /\
  Forall (fun q => q ∈ l) (trusted ps len i l).
Proof.
  induction l as [|q l IH]; intros i; cbn [trusted]; [done|].
  destruct (_ || _) eqn:E; [done|]. apply orb_false_iff in E as [E%negb_false_iff%Z.eqb_eq _].
  destruct (IH (i + 1)) as [Hn Hf]. cbn [map]. rewrite zlen_cons, seqZ_cons, Hn, E by (pose proof (zlen_nonneg (trusted ps len (i + 1) l)); lia).
  split; [do 2 f_equal; lia|]. constructor; [by left|]. eapply Forall_impl; [exact Hf|]. intros x ?. by right.
Qed.

Lemma resume_spec s m p parts : archive_inv s m -> resume e ps s m key (sha256 data) = Some (p, parts) ->
  exists id, in_progress s m id p parts /\ forall i, unknown s m i -> i <> id.
Proof.
  intros Hinv. unfold resume, GetPending. destruct (mf_pending m !! key) as [prev|] eqn:Ep; [|done].
  destruct (ai_pending _ _ Hinv _ _ Ep) as (Hk & Hv & Hkey & Hid & d & Hd & Hpc).
  destruct (negb _ && _) eqn:Eg; [|done]. apply andb_true_iff in Eg as [_ Esha%String.eqb_eq].
  rewrite Hd in Esha. apply sha_inj in Esha as ->.
  destruct (store_ListParts _ _ _ _) as [stored| | |] eqn:El; try done.
  destruct (ListParts_upload _ _ _ _ _ El) as (u & Hu & Hf). destruct (trusted_numbers (zlen stored) stored 0) as [Hn Hin].
  destruct (trusted ps (zlen stored) 0 stored) as [|q qs] eqn:Et; [done|]. rewrite <- Et in *. clear Et.
  set (tr := trusted ps (zlen stored) 0 stored) in *.
  assert (forall o, Some (set_parts prev (map as_pending tr), tr) = Some o ->
    exists id, in_progress s m id o.1 o.2 /\ forall i, unknown s m i -> i <> id) as Hgo.
  2:{ intros E. apply (Hgo (p, parts)). exact E. }
  intros o [= <-]. cbn [fst snd]. exists (pu_UploadID prev). rewrite Hk in Hkey. unfold source_key in Hkey.
  destruct (same_object_keys (S := S) (io := io) (uc_Prefix cfg) (source_tenant cfg seg) (ss_Topic seg) (ss_Partition seg) (ss_BaseOffset seg)
    (pu_TenantID prev) (pu_Topic prev) (pu_Partition prev) (pu_BaseOffset prev)) as (? & ? & ? & ?); [done|done| |].
  { rewrite <- Hkey. apply same_object_refl. }
  split; [|intros i [_ Hun] ->; by eapply Hun]. split; try done.
  - intros k q' Hq' Heq. by eapply (ai_ids _ _ Hinv).
  - exists u. split; [done|]. rewrite Forall_forall in Hf, Hin |- *. intros x Hx. destruct (Hf x (Hin x Hx)) as (c & Hc & _).
    destruct (Hpc u Hu) as [_ Hch]. by rewrite Hc, (Hch _ _ Hc).
Qed.

Definition fresh (s : S) (m : Manifest) : Prop := unknown s m (ue_id e).

Lemma Create_progress s m s' id : archive_inv s m -> fresh s m ->
  store_CreateMultipart (ue_create e) (ue_id e) s key (object_meta seg (sha256 data)) = (s', Ok id) ->
  in_progress s' m id (mkPending (ss_Topic seg) (ss_Partition seg) (ss_BaseOffset seg) (ss_NextOffset seg)
    (source_tenant cfg seg) (sha256 data) key id [] (ue_now e)) [] /\ (forall k, object s' k = object s k) /\
  id = ue_id e /\ (forall i, i <> id -> unknown s m i -> unknown s' m i).
Proof.
  intros Hinv [Hnone Hfr] E. destruct (Create_upload _ _ _ _ _ _ _ E Hnone (object_meta_lower _ _)) as (Ho & Hi & Hok).
  destruct (Hok id eq_refl) as (-> & Hid & Hu).
  split; [|split_and!; [done|done|]; intros i Hne [??]; split; [by rewrite Hi|done]]. split.
  - destruct Hinv as [He Hp Hids]. split; [|intros k q Hk; destruct (Hp k q Hk) as (? & ? & ? & ? & d & ? & ?)|done].
    + eapply Forall_impl; [exact He|]. intros x (? & ? & d & meta & ? & ? & ?). split_and!; try done. exists d, meta. by rewrite Ho.
    + split; [done|]. split_and!; try done. exists d. split; [done|]. rewrite Hi by (by eapply Hfr). done.
  - by split.
  - intros k q Hk Hq. by destruct (Hfr k q Hk).
  - rewrite Hu. intros u [= <-]. cbn [up_meta up_parts]. unfold object_meta. by rewrite lookup_insert_eq.
  - done.
  - eexists. split; [exact Hu|done].
Qed.

Lemma Create_failed s m s' r : archive_inv s m -> fresh s m ->
  store_CreateMultipart (ue_create e) (ue_id e) s key (object_meta seg (sha256 data)) = (s', r) ->
  archive_inv s' m /\ (forall k, object s' k = object s k) /\ (forall i, i <> ue_id e -> unknown s m i -> unknown s' m i).
Proof.
  intros [He Hp Hids] [Hnone Hfr] E. destruct (Create_upload _ _ _ _ _ _ _ E Hnone (object_meta_lower _ _)) as (Ho & Hi & _).
  split; [|split; [done|intros i Hne [??]; split; [by rewrite Hi|done]]].
  split; [|intros k q Hk; destruct (Hp k q Hk) as (? & ? & ? & ? & d & ? & ?)|done].
  - eapply Forall_impl; [exact He|]. intros x (? & ? & d & meta & ? & ? & ?). split_and!; try done. exists d, meta. by rewrite Ho.
  - split; [done|]. split_and!; try done. exists d. split; [done|]. by rewrite Hi by by eapply Hfr.
Qed.

Lemma uploadOne_spec s m s' m' r : archive_inv s m -> fresh s m -> ue_file e = Some data ->
  Manifest_Lookup m (ss_Topic seg) (ss_Partition seg) (ss_BaseOffset seg) = None ->
  uploadOne sha256 mac cfg e seg s m = (s', m', r) -> uploaded s m s' m' r.
Proof.
  intros Hinv Hfr Hfile Hnone. unfold uploadOne. rewrite Hfile.
  assert (forall x, x ∈ mf_completed m -> ~ same_object (se_S3Key x) key) as Hapart.
  { intros x Hx Hs. pose proof (ai_entries _ _ Hinv) as He. rewrite Forall_forall in He.
    destruct (He x Hx) as (Hv & Hk & _). rewrite Hk in Hs. unfold source_key in Hs.
    apply same_object_keys in Hs as (_ & Ht & Hp & Hb); [|done..].
    unfold Manifest_Lookup in Hnone. apply list_elem_of_In in Hx. apply (List.find_none _ _ Hnone) in Hx.
    unfold at_segment in Hx. by rewrite Ht, Hp, Hb, String.eqb_refl, !Z.eqb_refl in Hx. }
  destruct (ue_stat e); [|by intros [= <- <- <-]; apply uploaded_same_objects].
  destruct (ue_hash e); [|by intros [= <- <- <-]; apply uploaded_same_objects].
  destruct (ue_seek e).1; [|by intros [= <- <- <-]; apply uploaded_same_objects]. cbn [negb].
  destruct (resume e ps s m key (sha256 data)) as [[p parts]|] eqn:Er.
  - destruct (ue_seek e).2; [|by intros [= <- <- <-]; apply uploaded_same_objects]. cbn [negb].
    apply resume_spec in Er as (id & Hip & Hne); [|done]. eapply upload_rest_spec; [done|auto|done].
  - destruct (store_CreateMultipart _ _ _ _ _) as [s1 r1] eqn:Ec. destruct r1 as [id|er| |].
    + destruct (Create_progress _ _ _ _ Hinv Hfr Ec) as (Hip & Ho & Hid & Hun). intros Hr.
      assert (forall i, i <> ue_id e -> unknown s1 m i -> i <> id) as Hnew by congruence.
      destruct (upload_rest_spec _ _ _ _ _ _ _ _ Hip Hnew Hapart Hr) as [? Ho' ? Hh ? Hun' ?]. split; try done.
      * intros k. rewrite <- Ho. apply Ho'.
      * intros Hhs. apply Hh. intros k d mt. rewrite Ho. apply Hhs.
      * intros i Hi Hu. apply Hun'; [done|]. apply Hun; [congruence|done].
    + intros [= <- <- <-]. destruct (Create_failed _ _ _ _ Hinv Hfr Ec) as (? & ? & ?). apply uploaded_same_objects; auto.
    + intros [= <- <- <-]. destruct (Create_failed _ _ _ _ Hinv Hfr Ec) as (? & ? & ?). apply uploaded_same_objects; auto.
    + intros [= <- <- <-]. destruct (Create_failed _ _ _ _ Hinv Hfr Ec) as (? & ? & ?). apply uploaded_same_objects; auto.
Qed.

End one.

(** ** The sweep *)

(** The segments of a sweep have valid positions, and each upload would use an
    id of its own that is not known yet. *)
Definition sweep_ok (s : S) (m : Manifest) (segs : list (SegmentSource * upload_env (io := io))) : Prop :=
  Forall (fun x => valid_position (source_tenant cfg x.1) (ss_Topic x.1) (ss_BaseOffset x.1)) segs /\
  NoDup (map (fun x => ue_id x.2) segs) /\ Forall (fun x => unknown s m (ue_id x.2)) segs.

Lemma sweep_ok_next seg e segs s m s' m' : sweep_ok s m ((seg, e) :: segs) ->
  (forall i, i <> ue_id e -> unknown s m i -> unknown s' m' i) -> sweep_ok s' m' segs.
Proof.
  intros ([_ Hv]%Forall_cons & [Hn Hnd]%NoDup_cons & [_ Hf]%Forall_cons) Hun. split_and!; [done|done|].
  rewrite Forall_forall in Hf |- *. intros x Hx. apply Hun; [|by apply Hf]. intros Heq. apply Hn.
  apply list_elem_of_In, in_map_iff. exists x. split; [done|]. by apply list_elem_of_In.
Qed.

Lemma sweep_spec now segs : forall s m, archive_inv s m -> sweep_ok s m segs ->
  let '(s', m') := sweep sha256 mac cfg now segs s m in
  archive_inv s' m' /\ (honest s -> Forall (fun x => kept_meta (ue_complete x.2) = true) segs -> honest s') /\
  (forall i, ~ In i (map (fun x => ue_id x.2) segs) -> unknown s m i -> unknown s' m' i).
Proof.
  induction segs as [|[seg e] segs IH]; intros s m Hinv Hok; [done|]. cbn [sweep map].
  assert (let '(s', m') := sweep sha256 mac cfg now segs s m in
    archive_inv s' m' /\ (honest s -> Forall (fun x => kept_meta (ue_complete x.2) = true) ((seg, e) :: segs) -> honest s') /\
    (forall i, ~ In i (ue_id e :: map (fun x => ue_id x.2) segs) -> unknown s m i -> unknown s' m' i)) as Hskip.
  { specialize (IH s m Hinv (sweep_ok_next _ _ _ _ _ _ _ Hok (fun i _ H => H))). destruct (sweep _ _ _ _ segs s m) as [s' m'].
    destruct IH as (? & Hh & Hu). split_and!; [done|intros ? [_ ?]%Forall_cons; auto|]. intros i Hni. apply Hu. intros ?. apply Hni. by right. }
  destruct (_ <? _); [exact Hskip|]. destruct (Manifest_Lookup _ _ _ _) eqn:El; [exact Hskip|]. clear Hskip.
  destruct (uploadOne sha256 mac cfg e seg s m) as [[s1 m1] r] eqn:Eu.
  assert (archive_inv s1 m1 /\ (honest s -> kept_meta (ue_complete e) = true -> honest s1) /\
    (forall i, i <> ue_id e -> unknown s m i -> unknown s1 m1 i)) as (Hinv1 & Hh1 & Hu1).
  { destruct (ue_file e) as [data|] eqn:Ef.
    - destruct Hok as ([Hv _]%Forall_cons & _ & [Hf _]%Forall_cons).
      destruct (uploadOne_spec seg e data Hv _ _ _ _ _ Hinv Hf Ef El Eu). done.
    - unfold uploadOne in Eu. rewrite Ef in Eu. by injection Eu as <- <- <-. }
  specialize (IH s1 m1 Hinv1 (sweep_ok_next _ _ _ _ _ _ _ Hok Hu1)).
  destruct (sweep sha256 mac cfg now segs s1 m1) as [s' m']. destruct IH as (? & Hh & Hu). split_and!; [done| |].
  - intros Hs [? ?]%Forall_cons. auto.
  - intros i Hni Hun. apply Hu; [intros ?; apply Hni; by right|]. apply Hu1; [|done]. intros ->. apply Hni. by left.
Qed.

(** ** Reconciling *)

Context (sha_nonempty : forall x, sha256 x <> "").

Lemma pending_ok_shrunk s s' p : (forall i, shrunk (upload s i) (upload s' i)) -> pending_ok s p -> pending_ok s' p.
Proof.
  intros Hs (? & ? & ? & data & ? & ?). split_and!; try done. exists data. split; [done|]. by eapply pieces_shrunk.
Qed.

Lemma abortStale_spec b s m p s' m' : (abortStale b s m p).1 = (s', m') -> archive_inv s m -> pu_UploadID p <> "" ->
  archive_inv s' m' /\ (forall k, object s' k = object s k) /\ (forall i, shrunk (upload s i) (upload s' i)) /\
  mf_pending m' ⊆ mf_pending m.
Proof.
  unfold abortStale. intros E Hinv Hid. destruct (AbortPending (be_aborted b) m (pu_S3Key p)) as [m1 r1] eqn:Ea.
  injection E as <- <-. assert (m1 = (AbortPending (be_aborted b) m (pu_S3Key p)).1) as -> by by rewrite Ea.
  destruct (store_AbortMultipart _ _ _ _) as [s1 r2] eqn:Es. destruct (Abort_shrunk _ _ _ _ _ _ Es Hid) as [Ho Hs]. cbn [fst].
  split_and!; [|done|done|apply AbortPending_pending]. apply AbortPending_inv. by eapply inv_frame.
Qed.

Lemma reconcile_spec b s m p s' m' : archive_inv s m -> honest s -> pending_ok s p -> kept_meta (be_stat b) = true ->
  reconcileOrAbort mac cfg b s m p = (s', m') ->
  archive_inv s' m' /\ (forall k, object s' k = object s k) /\ (forall i, shrunk (upload s i) (upload s' i)) /\
  mf_pending m' ⊆ mf_pending m.
Proof.
  intros Hinv Hh Hp Hk. pose proof Hp as (Hv & Hkey & Hid & d & Hd & _). unfold reconcileOrAbort.
  assert ((s, m) = (s', m') -> archive_inv s' m' /\ (forall k, object s' k = object s k) /\
    (forall i, shrunk (upload s i) (upload s' i)) /\ mf_pending m' ⊆ mf_pending m) as Hnop.
  { intros [= <- <-]. split_and!; try done. intros i. apply shrunk_refl. }
  destruct (store_Stat (be_stat b) s (pu_S3Key p)) as [info|er| |] eqn:Es; [| |exact Hnop..].
  2:{ destruct (errors_is er ErrNotFound); cbn [negb]; [|exact Hnop].
      destruct (store_ListParts _ _ _ _) as [[|]| | |]; try exact Hnop; intros E; by eapply abortStale_spec. }
  destruct (Stat_object _ _ _ _ Es) as (data & meta & Hobj & Hsize & Hmeta). rewrite (Hmeta Hk), (Hh _ _ _ Hobj). cbn [from_option id].
  assert (String.eqb (pu_SHA256 p) "" = false) as -> by (rewrite Hd; apply String.eqb_neq, sha_nonempty).
  rewrite (proj2 (String.eqb_neq _ _) (sha_nonempty data)). cbn [negb andb].
  destruct (String.eqb_spec (sha256 data) (pu_SHA256 p)) as [Hsha|Hsha]; cbn [negb]; [|intros E; by eapply abortStale_spec].
  set (e := adopted mac cfg p (oi_Size info) (pu_SHA256 p)).
  assert (entry_ok s e) as He. { split_and!; [done|done|]. exists data, meta. split_and!; [done|done|]. cbn. lia. }
  pose proof (AddCompleted_inv (be_flush b).1 (be_flush b).2 s m e Hinv He) as Hinv1.
  pose proof (AddCompleted_pending (be_flush b).1 (be_flush b).2 m e) as Hpe.
  destruct (AddCompleted _ _ m e) as [m1 r1]. cbn [fst] in *.
  destruct r1; intros [= <- <-]; (split_and!; [|done|intros i; apply shrunk_refl|]); try done; [by apply AbortPending_inv|].
  etrans; [apply AbortPending_pending|done].
Qed.

Lemma reconcile_all_spec l : forall s m, archive_inv s m -> honest s -> Forall (fun x => pending_ok s x.1) l ->
  Forall (fun x => kept_meta (be_stat x.2) = true) l ->
  let '(s', m') := reconcile_all mac cfg l s m in
  archive_inv s' m' /\ honest s' /\ (forall k, object s' k = object s k) /\ (forall i, unknown s m i -> unknown s' m' i).
Proof.
  induction l as [|[p b] l IH]; intros s m Hinv Hh Hp Hk; [done|]. cbn [reconcile_all].
  apply Forall_cons in Hp as [Hp Hps], Hk as [Hk Hks].
  destruct (reconcileOrAbort mac cfg b s m p) as [s1 m1] eqn:E. cbn [fst snd] in *.
  destruct (reconcile_spec _ _ _ _ _ _ Hinv Hh Hp Hk E) as (Hinv1 & Ho & Hs & Hsub).
  specialize (IH s1 m1 Hinv1). destruct (reconcile_all mac cfg l s1 m1) as [s' m']. destruct IH as (? & ? & Ho' & Hu).
  - intros k d mt. rewrite Ho. apply Hh.
  - eapply Forall_impl; [exact Hps|]. intros x. by apply pending_ok_shrunk.
  - done.
  - split_and!; [done|done|intros k; by rewrite Ho'|]. intros i Hi. apply Hu. by eapply unknown_sub.
Qed.

End facts.
