(* ===== verification/UploaderProps.v ===== *)
(** * What the uploader guarantees

    Uploads store whole segments, the manifest stays true to the store, an
    archived segment can be restored, and where this breaks down. *)

From S2P Require Import Prelude Bytes Names Log LogRecover Manifest Cache ObjStore Uploader UploaderFacts.
From stdpp Require Import pretty.

#[local] Open Scope Z_scope.

(** ** A sample world

    The file-system store, a digest and a keyed hash without collisions, a
    segment of nine bytes cut into parts of four, and an upload of it that was
    interrupted after its first part. *)

Definition hex_sha (data : list byte) : string := "sha256:digest:" +:+ String.string_of_list_byte data.

Lemma hex_sha_inj x y : hex_sha x = hex_sha y -> x = y.
Proof.
  intros E%string_app_inj_l. revert y E. induction x as [|b x IH]; intros [|c y] E; try done.
  injection E as Hb E. f_equal; [|by apply IH].
  by rewrite <- (byte_of_ascii_of_byte b), <- (byte_of_ascii_of_byte c), Hb.
Qed.

Definition up_cfg (partSize : Z) : UploaderConfig := mkUploaderConfig "seg/" 3600 partSize 30 2 [x01] (Some (fun _ _ => "t1")).
Definition up_seg : SegmentSource := mkSource "orders" 0 5 20 9 "/data/orders/0/5.log" 0.
Definition up_data : list byte := [x01; x02; x03; x04; x05; x06; x07; x08; x09].
Definition up_env (id : string) : upload_env (io := fsio) :=
  mkUploadEnv (Some up_data) true true (true, true) IoOk IoOk id (fun _ => IoOk) (fun _ => true) IoOk IoOk (fun _ => true) true true (true, true) 50.
Definition up_key := "seg/tenants/t1/orders/0/00000000000000000005.log".
Definition up_pending : PendingUpload :=
  mkPending "orders" 0 5 20 "t1" (hex_sha up_data) up_key "u1" [mkPart 1 "fs-00001-4" 4] 40.
Definition up_manifest : Manifest := mkManifest [] {[ up_key := up_pending ]} None None.
Definition up_store (part : list byte) : FS :=
  mkFS ∅ ∅ {[ "u1" := mkUpload up_key (object_meta up_seg (hex_sha up_data)) {[ 1 := part ]} ]}.

Lemma up_position : valid_position "t1" "orders" 5.
Proof.
  split; [right|split; [|lia]]; apply (ValidateName_component "topic"); vm_compute; reflexivity.
Qed.

Lemma up_inv : archive_inv hex_sha (up_cfg 4) (up_store (take 4 up_data)) up_manifest.
Proof.
  split.
  - constructor.
  - intros k p Hk. cbn [mf_pending up_manifest] in Hk. apply lookup_singleton_Some in Hk as [<- <-]. split; [done|]. split_and!; [exact up_position|by vm_compute|done|].
    exists up_data. split; [done|]. intros u Hu. vm_compute in Hu. injection Hu as <-. split; [by vm_compute|].
    intros n c Hn. cbn [up_parts] in Hn. assert (n = 1) as ->.
    { destruct n as [|p|p]; vm_compute in Hn; try done. destruct p; vm_compute in Hn; done. }
    vm_compute in Hn. injection Hn as <-. by vm_compute.
  - cbn [mf_pending up_manifest]. by intros k1 k2 p1 p2 [<- _]%lookup_singleton_Some [<- _]%lookup_singleton_Some.
Qed.

Lemma up_unknown : unknown (up_store (take 4 up_data)) up_manifest "u2".
Proof. split; [by vm_compute|]. cbn [mf_pending up_manifest]. by intros k p [_ <-]%lookup_singleton_Some. Qed.

Definition up_run := uploadOne hex_sha toy_mac (up_cfg 4) (up_env "u2") up_seg (up_store (take 4 up_data)) up_manifest.

Lemma up_run_ok : up_run.2 = Ok tt /\ store_Get IoOk up_run.1.1 up_key = Ok up_data.
Proof. vm_compute. split; reflexivity. Qed.

(** ** Uploading *)

(** An upload stores the whole segment or records nothing.  Whatever the
    store, the disk and the manifest's writes do, and whether the upload starts
    afresh or resumes parts that are still stored, it returns; no object but the
    segment's own is touched; every manifest entry keeps an object with its
    digest and every checkpoint only pieces of its segment.  If it reports
    success, the object under the segment's key is exactly the file that was
    hashed, and the manifest finds an entry for the position with that digest and
    at least that size. *)
Theorem uploadOne_archives {S io} `{StoreLaws S io} sha256 mac cfg seg (e : upload_env (io := io)) data s m s' m' r :
  (forall x y, sha256 x = sha256 y -> x = y) -> 0 < uc_PartSize cfg ->
  valid_position (source_tenant cfg seg) (ss_Topic seg) (ss_BaseOffset seg) ->
  archive_inv sha256 cfg s m -> unknown s m (ue_id e) -> ue_file e = Some data ->
  Manifest_Lookup m (ss_Topic seg) (ss_Partition seg) (ss_BaseOffset seg) = None ->
  uploadOne sha256 mac cfg e seg s m = (s', m', r) ->
  archive_inv sha256 cfg s' m' /\ r <> Diverge /\
  (forall k, same_object k (source_key cfg seg) \/ object s' k = object s k) /\
  (r = Ok tt -> exists meta size, object s' (source_key cfg seg) = Some (data, meta) /\ zlen data <= size /\
     Manifest_Lookup m' (ss_Topic seg) (ss_Partition seg) (ss_BaseOffset seg) = Some (entry_of mac cfg e seg size (sha256 data))).
Proof.
  intros Hinj Hps Hv Hinv Hfr Hfile Hl Hup.
  by destruct (uploadOne_spec sha256 mac cfg Hinj Hps seg e data Hv s m s' m' r Hinv Hfr Hfile Hl Hup).
Qed.

Lemma uploadOne_archives_witness :
  let '(s', m', r) := uploadOne hex_sha toy_mac (up_cfg 4) (up_env "u2") up_seg (up_store (take 4 up_data)) up_manifest in
  r = Ok tt /\ archive_inv hex_sha (up_cfg 4) s' m' /\ r <> Diverge /\
  (forall k, same_object k (source_key (up_cfg 4) up_seg) \/ object s' k = object (up_store (take 4 up_data)) k) /\
  (r = Ok tt -> exists meta size, object s' (source_key (up_cfg 4) up_seg) = Some (up_data, meta) /\ zlen up_data <= size /\
     Manifest_Lookup m' "orders" 0 5 = Some (entry_of toy_mac (up_cfg 4) (up_env "u2") up_seg size (hex_sha up_data))).
Proof.
  destruct (uploadOne hex_sha toy_mac (up_cfg 4) (up_env "u2") up_seg (up_store (take 4 up_data)) up_manifest) as [[s' m'] r] eqn:E.
  split; [pose proof (proj1 up_run_ok) as Hr; unfold up_run in Hr; rewrite E in Hr; exact Hr|].
  apply (uploadOne_archives hex_sha toy_mac (up_cfg 4) up_seg (up_env "u2") up_data (up_store (take 4 up_data)) up_manifest s' m' r);
    [exact hex_sha_inj|reflexivity|exact up_position|exact up_inv|exact up_unknown|reflexivity|reflexivity|exact E].
Defined.

(** ** Running *)

Lemma sweeps_spec {S io} `{StoreLaws S io} sha256 mac cfg (ticks : list (Z * list (SegmentSource * upload_env (io := io)))) :
  (forall x y, sha256 x = sha256 y -> x = y) -> 0 < uc_PartSize cfg ->
  forall s m, archive_inv sha256 cfg s m -> honest sha256 s -> sweep_ok cfg s m (concat (map snd ticks)) ->
  Forall (fun x => kept_meta (ue_complete x.2) = true) (concat (map snd ticks)) ->
  let '(s', m') := foldl (fun sm t => sweep sha256 mac cfg t.1 t.2 sm.1 sm.2) (s, m) ticks in
  archive_inv sha256 cfg s' m' /\ honest sha256 s'.
Proof.
  intros Hinj Hps. induction ticks as [|[now segs] ticks IH]; intros s m Hinv Hh Hok Hk; [done|]. cbn [map concat foldl fst snd] in *.
  destruct Hok as ([Hv Hvs]%Forall_app & Hnd & [Hu Hus]%Forall_app). apply Forall_app in Hk as [Hk Hks].
  rewrite map_app in Hnd. apply NoDup_app in Hnd as (Hnd & Hdisj & Hnds).
  pose proof (sweep_spec sha256 mac cfg Hinj Hps now segs s m Hinv (conj Hv (conj Hnd Hu))) as Hsw.
  destruct (sweep sha256 mac cfg now segs s m) as [s1 m1]. destruct Hsw as (Hinv1 & Hh1 & Hu1). apply IH; auto.
  split_and!; [done|done|]. rewrite Forall_forall in Hus |- *. intros x Hx. apply Hu1; [|by apply Hus].
  intros Hin%list_elem_of_In. apply (Hdisj _ Hin). apply list_elem_of_In, in_map_iff. exists x. split; [done|]. by apply list_elem_of_In.
Qed.

Lemma archive_inv_holds {S io} `{StoreLaws S io} sha256 cfg (s : S) m : archive_inv sha256 cfg s m ->
  forall topic p b next size, Holds m topic p b next size = true ->
    exists e data meta, Manifest_Lookup m topic p b = Some e /\ se_NextOffset e >= next /\ se_SizeBytes e >= size /\
      object s (se_S3Key e) = Some (data, meta) /\ sha256 data = se_SHA256 e.
Proof.
  intros Hinv topic p b next size. unfold Holds. destruct (Manifest_Lookup m topic p b) as [e|] eqn:El; [|done].
  intros [Hn Hs]%andb_true_iff. pose proof (ai_entries _ _ _ _ Hinv) as He. rewrite Forall_forall in He.
  destruct (He e) as (_ & _ & data & meta & Hobj & Hsha & _).
  { apply list_elem_of_In. by apply List.find_some in El as [? _]. }
  exists e, data, meta. split_and!; try done; lia.
Qed.

(** C17: The archive never lies, for validly named partitions and one part size.
    Start from an archive whose entries have their objects and whose pending
    uploads were sent with the part size still configured ([archive_inv]).  Over a
    whole run of the uploader, the reconciliation of the checkpoints found at boot
    and any number of sweeps over partitions with valid names ([sweep_ok]) with any
    failures, every manifest entry has an object in the store with the recorded
    digest.  So when the manifest tells retention that it holds a segment
    ([Holds]), which is what lets the local copy be deleted, the bytes are there.
    The store keeps the objects' metadata, upload ids are not reused and SHA-256 has
    no collisions.  Both provisos are real: see [resume_after_part_size_change] and
    [unvalidated_key_collision]. *)
Theorem Run_archive_sound {S io} `{StoreLaws S io} sha256 mac cfg boot cancelled ticks (s : S) m :
  (forall x y, sha256 x = sha256 y -> x = y) -> (forall x, sha256 x <> "") -> 0 < uc_PartSize cfg ->
  archive_inv sha256 cfg s m -> honest sha256 s ->
  (forall p, kept_meta (be_stat (boot p)) = true) ->
  sweep_ok cfg s m (concat (map snd ticks)) ->
  Forall (fun x => kept_meta (ue_complete x.2) = true) (concat (map snd ticks)) ->
  let '(s', m') := Run (io := io) sha256 mac cfg boot cancelled ticks s m in
  archive_inv sha256 cfg s' m' /\
  forall topic p b next size, Holds m' topic p b next size = true ->
    exists e data meta, Manifest_Lookup m' topic p b = Some e /\ se_NextOffset e >= next /\ se_SizeBytes e >= size /\
      object s' (se_S3Key e) = Some (data, meta) /\ sha256 data = se_SHA256 e.
Proof.
  intros Hinj Hne Hps Hinv Hh Hb Hok Hk.
  assert (let '(s', m') := Run (io := io) sha256 mac cfg boot cancelled ticks s m in archive_inv sha256 cfg s' m') as Hinv'.
  2:{ destruct (Run (io := io) sha256 mac cfg boot cancelled ticks s m) as [s' m']. split; [done|]. by apply (archive_inv_holds sha256 cfg). }
  unfold Run. set (l := map (fun p => (p, boot p)) (PendingAll m)).
  assert (Forall (fun x => pending_ok sha256 cfg s x.1) l) as Hl1.
  { apply Forall_map, Forall_forall. intros p Hp. unfold PendingAll in Hp.
    apply list_elem_of_fmap in Hp as ([k q] & -> & Hkq%elem_of_map_to_list). apply (ai_pending _ _ _ _ Hinv k q Hkq). }
  assert (Forall (fun x => kept_meta (be_stat x.2) = true) l) as Hl2 by (apply Forall_map, Forall_forall; intros p _; apply Hb).
  destruct cancelled as [n|].
  { pose proof (reconcile_all_spec sha256 mac cfg Hne (take n l) s m Hinv Hh (Forall_take _ _ _ Hl1) (Forall_take _ _ _ Hl2)) as Hrec.
    destruct (reconcile_all mac cfg (take n l) s m). by destruct Hrec. }
  pose proof (reconcile_all_spec sha256 mac cfg Hne l s m Hinv Hh Hl1 Hl2) as Hrec.
  destruct (reconcile_all mac cfg l s m) as [s1 m1]. destruct Hrec as (Hinv1 & Hh1 & _ & Hu1).
  pose proof (sweeps_spec sha256 mac cfg ticks Hinj Hps s1 m1 Hinv1 Hh1) as Hsw.
  destruct (foldl _ (s1, m1) ticks) as [s' m']. apply Hsw; [|done].
  destruct Hok as (? & ? & Hf). split_and!; try done. eapply Forall_impl; [exact Hf|]. auto.
Qed.

Lemma run_holds :
  Holds (Run hex_sha toy_mac (up_cfg 4) (fun _ => mkBoot IoOk IoOk IoOk true (true, true) true) None
           [(10, [(up_seg, up_env "u2")]); (4000, [(up_seg, up_env "u3")])] (up_store (take 4 up_data)) up_manifest).2 "orders" 0 5 20 9 = true.
Proof. vm_compute. reflexivity. Qed.

Lemma Run_archive_sound_witness :
  let '(s', m') := Run hex_sha toy_mac (up_cfg 4) (fun _ => mkBoot IoOk IoOk IoOk true (true, true) true) None
                     [(10, [(up_seg, up_env "u2")]); (4000, [(up_seg, up_env "u3")])] (up_store (take 4 up_data)) up_manifest in
  Holds m' "orders" 0 5 20 9 = true /\ archive_inv hex_sha (up_cfg 4) s' m' /\
  forall topic p b next size, Holds m' topic p b next size = true ->
    exists e data meta, Manifest_Lookup m' topic p b = Some e /\ se_NextOffset e >= next /\ se_SizeBytes e >= size /\
      object s' (se_S3Key e) = Some (data, meta) /\ hex_sha data = se_SHA256 e.
Proof.
  pose proof (Run_archive_sound hex_sha toy_mac (up_cfg 4) (fun _ => mkBoot IoOk IoOk IoOk true (true, true) true) None
    [(10, [(up_seg, up_env "u2")]); (4000, [(up_seg, up_env "u3")])] (up_store (take 4 up_data)) up_manifest) as H.
  destruct (Run _ _ _ _ _ _ _ _) as [s' m'] eqn:E. split; [pose proof run_holds as Hr; rewrite E in Hr; exact Hr|].
  apply H; [exact hex_sha_inj|intros x; discriminate|reflexivity|exact up_inv| |reflexivity| |].
  - intros k data meta Hk. exfalso. revert Hk. cbn. unfold fs_object. cbn. destruct (objectPath k); [|discriminate..].
    rewrite lookup_empty. discriminate.
  - split; [|split].
    + constructor; [exact up_position|]. constructor; [exact up_position|]. constructor.
    + cbn. apply NoDup_cons_2; [|apply NoDup_singleton]. intros Hin. apply list_elem_of_singleton in Hin. discriminate Hin.
    + constructor; [exact up_unknown|]. constructor; [|constructor].
      split; [vm_compute; reflexivity|]. intros k p Hk. cbn [mf_pending up_manifest] in Hk.
      apply lookup_singleton_Some in Hk as [_ <-]. discriminate.
  - constructor; [reflexivity|]. constructor; [reflexivity|]. constructor.
Defined.

(** ** Restoring what was uploaded *)

Definition store_get {S io} `{Store S io} (o : io) (s : S) (_ : nat) (key : string) : res (option (list byte)) :=
  match store_Get o s key with Ok d => Ok (Some d) | Err e => Err e | Panic => Panic | Diverge => Diverge end.

Lemma entry_of_verifies mac cfg {io} (e : upload_env (io := io)) seg size sha :
  VerifySignature mac (uc_HMACKey cfg) (entry_of mac cfg e seg size sha) = true.
Proof.
  unfold VerifySignature, entry_of. cbn. case_bool_decide; [done|]. cbn [orb].
  destruct (String.eqb _ ""); [done|]. apply String.eqb_refl.
Qed.

Lemma Restore_first sha256 mac hmacKey now get m c topic p b e data :
  (12 <= String.length (sha256 data))%nat -> Has c topic p b = false -> Manifest_Lookup m topic p b = Some e ->
  VerifySignature mac hmacKey e = true -> get 0%nat (se_S3Key e) = Ok (Some data) -> se_SHA256 e = sha256 data ->
  exists c', Restore sha256 mac hmacKey now get m c topic p b = (c', Ok tt) /\
    cache_files c' !! entry_path c e = Some (mkCached data now).
Proof.
  intros Hlen Hhas Hl Hv Hg Hs. unfold Restore. rewrite Hhas, Hl. unfold doRestore. rewrite Hv. cbn [negb attempts].
  unfold downloadOnce. rewrite Hg, Hs.
  assert (sha256 data <> "") as Hne by (intros E; rewrite E in Hlen; simpl in Hlen; lia).
  destruct (PutTenantStream sha256 now c _ _ _ _ (Some data) (sha256 data)) as [c1 r1] eqn:Ep.
  assert (exists n, r1 = Ok n) as [n ->].
  { unfold PutTenantStream in Ep. rewrite String.eqb_refl, (proj2 (String.eqb_neq _ _) Hne) in Ep. injection Ep as _ <-. by eexists. }
  rewrite (proj2 (Nat.ltb_ge _ _) Hlen). exists c1. split; [done|].
  apply PutTenantStream_ok in Ep as (d & [= <-] & _ & _ & Hc & _); [done|done].
Qed.

(** C28: What was archived comes back, for a validly named position and an archive
    whose pending uploads were sent with the part size still configured
    ([archive_inv]; [resume_after_part_size_change] shows what happens otherwise).
    After an upload that reported success, a restore of the position with the same
    signing key, by the manifest and from the store the upload left behind, of a
    segment that is not in the cache yet, succeeds when the store answers the first
    download, and leaves exactly the segment's bytes in the cache under the owning
    tenant's path.  The position was not archived before, upload ids are not reused
    and SHA-256 has no collisions. *)
Theorem upload_restore_roundtrip {S io} `{StoreLaws S io} sha256 mac cfg seg (e : upload_env (io := io)) data s m s' m' o d now c :
  (forall x y, sha256 x = sha256 y -> x = y) -> (forall x, (12 <= String.length (sha256 x))%nat) -> 0 < uc_PartSize cfg ->
  valid_position (source_tenant cfg seg) (ss_Topic seg) (ss_BaseOffset seg) ->
  archive_inv sha256 cfg s m -> unknown s m (ue_id e) -> ue_file e = Some data ->
  Manifest_Lookup m (ss_Topic seg) (ss_Partition seg) (ss_BaseOffset seg) = None ->
  uploadOne sha256 mac cfg e seg s m = (s', m', Ok tt) ->
  store_Get o s' (source_key cfg seg) = Ok d -> Has c (ss_Topic seg) (ss_Partition seg) (ss_BaseOffset seg) = false ->
  exists c', Restore sha256 mac (uc_HMACKey cfg) now (store_get o s') m' c (ss_Topic seg) (ss_Partition seg) (ss_BaseOffset seg) = (c', Ok tt) /\
    cache_files c' !! PathTenant c (source_tenant cfg seg) (ss_Topic seg) (ss_Partition seg) (ss_BaseOffset seg) = Some (mkCached data now).
Proof.
  intros Hinj Hlen Hps Hv Hinv Hfr Hfile Hl Hup Hget Hhas.
  destruct (uploadOne_spec sha256 mac cfg Hinj Hps seg e data Hv s m s' m' _ Hinv Hfr Hfile Hl Hup) as [_ _ _ _ _ _ Hst].
  destruct (Hst eq_refl) as (meta & size & Hobj & _ & Hl').
  destruct (Get_object _ _ _ _ Hget) as [meta' Hobj']. rewrite Hobj in Hobj'. injection Hobj' as <- <-.
  apply (Restore_first sha256 mac (uc_HMACKey cfg) now (store_get o s') m' c _ _ _ _ data (Hlen data) Hhas Hl');
    [apply entry_of_verifies| |done].
  unfold store_get. cbn [entry_of se_S3Key]. by rewrite Hget.
Qed.

Lemma upload_restore_roundtrip_witness :
  exists s' m', uploadOne hex_sha toy_mac (up_cfg 4) (up_env "u2") up_seg (up_store (take 4 up_data)) up_manifest = (s', m', Ok tt) /\
  exists c', Restore hex_sha toy_mac [x01] 77 (store_get IoOk s') m' sample_cache "orders" 0 5 = (c', Ok tt) /\
    cache_files c' !! PathTenant sample_cache "t1" "orders" 0 5 = Some (mkCached up_data 77).
Proof.
  destruct (uploadOne hex_sha toy_mac (up_cfg 4) (up_env "u2") up_seg (up_store (take 4 up_data)) up_manifest) as [[s' m'] r] eqn:E.
  pose proof up_run_ok as [Hr Hg]. unfold up_run in Hr, Hg. rewrite E in Hr, Hg. cbn [fst snd] in Hr, Hg. subst r.
  exists s', m'. split; [reflexivity|].
  apply (upload_restore_roundtrip hex_sha toy_mac (up_cfg 4) up_seg (up_env "u2") up_data (up_store (take 4 up_data)) up_manifest s' m' IoOk up_data 77 sample_cache);
    [exact hex_sha_inj| |reflexivity|exact up_position|exact up_inv|exact up_unknown|reflexivity|reflexivity|exact E| |reflexivity].
  - intros x. unfold hex_sha. rewrite string_length_app. cbn. lia.
  - exact Hg.
Defined.

(** ** Uploads complete *)

(** Nothing fails during the upload. *)
Definition good_env (e : upload_env (io := fsio)) : Prop :=
  ue_stat e = true /\ ue_hash e = true /\ ue_seek e = (true, true) /\ ue_create e = IoOk /\ ue_id e <> "" /\
  (forall n, ue_part e n = IoOk) /\ (forall n, ue_read e n = true) /\ ue_complete e = IoOk /\
  (forall n, ue_checkpoint e n = true) /\ ue_same e = true /\ ue_flush e = (true, true).

Section completes.
Context (sha256 : list byte -> string) (mac : list byte -> string -> string) (cfg : UploaderConfig) (seg : SegmentSource).
Context (e : upload_env (io := fsio)) (data : list byte).
Context (sha_inj : forall x y, sha256 x = sha256 y -> x = y) (part_pos : 0 < uc_PartSize cfg).
Context (pos : valid_position (source_tenant cfg seg) (ss_Topic seg) (ss_BaseOffset seg)).
Context (good : good_env e) (fits : zlen data <= MaxPartsPerUpload * uc_PartSize cfg).

#[local] Abbreviation ps := (uc_PartSize cfg).
#[local] Abbreviation key := (source_key cfg seg).

Lemma fs_UploadPart_good s id n d u : 1 <= n <= MaxPartsPerUpload -> fs_uploads s !! id = Some u ->
  exists s' part, fs_UploadPart IoOk s key id n d = (s', Ok part).
Proof.
  intros Hn Hu. unfold fs_UploadPart. rewrite Hu, (proj2 (Z.ltb_ge n 1)), Z.gtb_ltb, (proj2 (Z.ltb_ge _ _)) by lia. by eexists _, _.
Qed.

Lemma upload_parts_good id fuel : forall s m p parts total s' m' r,
  in_progress sha256 cfg seg data s m id p parts ->
  upload_parts fuel e ps key id s m p (drop (Z.to_nat (zlen parts * ps)) data) parts (zlen parts + 1) total = (s', m', r) ->
  r = Diverge \/ is_ok r = true.
Proof.
  destruct good as (_ & _ & _ & _ & _ & Hpart & Hread & _ & Hcp & _ & _).
  induction fuel as [|fuel IH]; intros s m p parts total s' m' r Hip; cbn [upload_parts]; [intros [= <- <- <-]; by left|].
  pose proof (zlen_nonneg parts) as Hlen. rewrite Hread, Hpart. cbn [negb].
  rewrite chunk_at by done. rewrite drop_drop, <- Z2Nat.inj_add by nia.
  replace (zlen parts * ps + ps) with ((zlen parts + 1) * ps) by lia.
  destruct (Z.eqb_spec (zlen (chunk ps (zlen parts + 1) data)) 0) as [Hz|Hz]; [intros [= <- <- <-]; by right|].
  destruct (ip_parts _ _ _ _ _ _ _ _ _ Hip) as (u & Hu & _).
  rewrite zlen_chunk in Hz by done.
  destruct (fs_UploadPart_good s id (zlen parts + 1) (chunk ps (zlen parts + 1) data) u) as (s1 & part & Eu); [nia|done|].
  cbn [store_UploadPart fs_store]. rewrite Eu.
  destruct (in_progress_part sha256 cfg sha_inj seg data pos _ _ _ _ _ _ _ _ (ue_checkpoint e (zlen parts + 1)) (pn_ETag part)
    (zlen (chunk ps (zlen parts + 1) data)) Hip Eu) as (Hip' & _ & _).
  set (p' := set_parts p _) in *. set (m1 := (SetPending _ m p').1) in *.
  assert (zlen (parts ++ [part]) = zlen parts + 1) as Hl by by rewrite zlen_app.
  destruct (_ <? ps); [intros [= <- <- <-]; by right|]. intros Heq. rewrite <- Hl in Heq. by eapply IH.
Qed.

Lemma assemble_present u parts :
  Forall (fun q => up_parts u !! pn_Number q = Some (chunk ps (pn_Number q) data)) parts -> is_ok (assemble (up_parts u) parts) = true.
Proof.
  induction 1 as [|q parts Hq _ IH]; [done|]. cbn in *. rewrite Hq. by destruct (assemble (up_parts u) parts).
Qed.

Lemma fs_Complete_good s m id p parts : in_progress sha256 cfg seg data s m id p parts ->
  exists s', fs_CompleteMultipart IoOk s key id parts = (s', Ok tt).
Proof.
  intros Hip. destruct (ip_parts _ _ _ _ _ _ _ _ _ Hip) as (u & Hu & Hf). cbn in Hu.
  unfold fs_CompleteMultipart. rewrite Hu. destruct (objectPath_segment (uc_Prefix cfg)) as [root Hr].
  unfold source_key. rewrite Hr by done. rewrite sort_parts_sorted by (rewrite (ip_numbers _ _ _ _ _ _ _ _ _ Hip); apply StronglySorted_seqZ).
  pose proof (assemble_present u parts Hf) as Ha. destruct (assemble (up_parts u) parts) as [d| | |]; try done. by eexists.
Qed.

Lemma upload_rest_good s m id p parts : in_progress sha256 cfg seg data s m id p parts ->
  is_ok (upload_rest sha256 mac cfg e seg data s m p parts).2 = true.
Proof.
  intros Hip. destruct good as (_ & _ & _ & _ & _ & _ & _ & Hcomp & Hcp & Hsame & Hfl). unfold upload_rest.
  pose proof (in_progress_checkpoint sha256 cfg seg data pos _ _ _ _ _ (ue_checkpoint e 0) Hip) as Hip0.
  destruct (SetPending (ue_checkpoint e 0) m p) as [m0 r0] eqn:Es. cbn [fst] in Hip0.
  assert (r0 = Ok tt) as ->. { rewrite Hcp in Es. by injection Es as _ <-. }
  rewrite (own_id _ _ _ _ _ _ (ip_own _ _ _ _ _ _ _ _ _ Hip)).
  destruct (upload_parts _ _ _ _ _ _ _ _ _ _ _ _) as [[s1 m1] r1] eqn:Eu. pose proof (upload_parts_good _ _ _ _ _ _ _ _ _ _ Hip0 Eu) as Hg.
  apply (upload_parts_spec sha256 cfg sha_inj part_pos seg e data pos id) in Eu as (_ & _ & _ & Hd & _ & Hok); [|done|lia].
  destruct r1 as [[parts1 total]|er| |]; try (by destruct Hg).
  destruct (Hok _ _ eq_refl) as ((p1 & Hip1) & _). destruct (fs_Complete_good _ _ _ _ _ Hip1) as [s2 Ec].
  cbn [store_CompleteMultipart fs_store]. rewrite Hcomp, Ec, Hsame, Hfl. done.
Qed.

End completes.

(** C29: Uploads to the file-system store get through.  When no call fails and the
    segment fits in ten thousand parts, an upload succeeds from any state the
    uploader may have left behind, so an interrupted upload is always completed by
    a later sweep. *)
Theorem fs_upload_completes sha256 mac cfg seg e data (s : FS) m :
  (forall x y, sha256 x = sha256 y -> x = y) -> 0 < uc_PartSize cfg ->
  valid_position (source_tenant cfg seg) (ss_Topic seg) (ss_BaseOffset seg) ->
  archive_inv sha256 cfg s m -> unknown s m (ue_id e) -> ue_file e = Some data ->
  good_env e -> zlen data <= MaxPartsPerUpload * uc_PartSize cfg ->
  exists s' m', uploadOne sha256 mac cfg e seg s m = (s', m', Ok tt).
Proof.
  intros Hinj Hps Hv Hinv Hfr Hfile Hgood Hfit.
  cut (is_ok (uploadOne sha256 mac cfg e seg s m).2 = true).
  { destruct (uploadOne sha256 mac cfg e seg s m) as [[s' m'] [[]| | |]]; try done. by eexists _, _. }
  pose proof Hgood as (Hst & Hha & Hse & Hcr & Hid & _). unfold uploadOne. rewrite Hfile, Hst, Hha, Hse. cbn [negb fst snd].
  destruct (resume e (uc_PartSize cfg) s m (source_key cfg seg) (sha256 data)) as [[p parts]|] eqn:Er.
  - apply (resume_spec sha256 cfg Hinj seg e data Hv) in Er as (id & Hip & _); [|done]. by eapply upload_rest_good.
  - destruct (store_CreateMultipart (ue_create e) (ue_id e) s _ _) as [s1 r1] eqn:Ec.
    assert (r1 = Ok (ue_id e)) as ->.
    { cbn in Ec. rewrite Hcr in Ec. unfold fs_CreateMultipart in Ec.
      destruct (objectPath_segment (uc_Prefix cfg)) as [root Hr]. unfold source_key in Ec. rewrite Hr in Ec by done.
      rewrite (proj2 (String.eqb_neq _ _) Hid) in Ec. by injection Ec as _ <-. }
    destruct (Create_progress sha256 cfg seg e data s m s1 _ Hinv Hfr Ec) as (Hip & _). by eapply upload_rest_good.
Qed.

Lemma fs_upload_completes_witness :
  exists s' m', uploadOne hex_sha toy_mac (up_cfg 4) (up_env "u2") up_seg (up_store (take 4 up_data)) up_manifest = (s', m', Ok tt).
Proof.
  apply (fs_upload_completes hex_sha toy_mac (up_cfg 4) up_seg (up_env "u2") up_data (up_store (take 4 up_data)) up_manifest);
    [exact hex_sha_inj|reflexivity|exact up_position|exact up_inv|exact up_unknown|reflexivity| |vm_compute; discriminate].
  repeat split; discriminate.
Defined.

(** ** Where the archive breaks down *)

(** Resuming does not check the size of the last stored part, and takes the
    position in the file from the present part size.  Here the first part was sent
    with a part size of seven, and the upload is resumed with four: the three
    bytes after the fourth are sent again.  The object is corrupt, yet the manifest
    records the segment's digest and full size, so [Holds] lets retention delete
    the only good copy, and restoring fails from then on. *)
Example resume_after_part_size_change :
  let '(s', m', r) := uploadOne hex_sha toy_mac (up_cfg 4) (up_env "u2") up_seg (up_store (take 7 up_data)) up_manifest in
  r = Ok tt /\
  option_map fst (object s' up_key) = Some (take 7 up_data ++ drop 4 up_data) /\
  Holds m' "orders" 0 5 20 9 = true /\
  (Restore hex_sha toy_mac [x01] 77 (store_get IoOk s') m' sample_cache "orders" 0 5).2 =
    Err (EWrap "cache put" (EMsg "sha256 mismatch")).
Proof. vm_compute. repeat split. Qed.

(** When every part was already stored, the recorded size is a multiple of the
    part size instead of the object's size. *)
Example resumed_size_overcounted :
  let s := mkFS ∅ ∅ {[ "u1" := mkUpload up_key (object_meta up_seg (hex_sha up_data))
                               {[ 1 := take 4 up_data; 2 := take 4 (drop 4 up_data); 3 := drop 8 up_data ]} ]} in
  let '(s', m', r) := uploadOne hex_sha toy_mac (up_cfg 4) (up_env "u2") up_seg s up_manifest in
  r = Ok tt /\ option_map fst (object s' up_key) = Some up_data /\
  option_map se_SizeBytes (Manifest_Lookup m' "orders" 0 5) = Some 12 /\ zlen up_data = 9.
Proof. vm_compute. repeat split. Qed.

(** An object whose metadata cannot be read is adopted without a check, although
    it is someone else's. *)
Example reconcile_adopts_unchecked :
  let s := mkFS {[ ["seg"; "tenants"; "t1"; "orders"; "0"; "00000000000000000005.log"] := [xff] ]} ∅ ∅ in
  let '(s', m') := reconcileOrAbort toy_mac (up_cfg 4) (mkBoot IoOk IoOk IoOk true (true, true) true) s up_manifest up_pending in
  option_map fst (object s' up_key) = Some [xff] /\
  option_map se_SHA256 (Manifest_Lookup m' "orders" 0 5) = Some (hex_sha up_data).
Proof. vm_compute. repeat split. Qed.
