(* ===== verification/Tiering.v ===== *)
(** * From partition logs to the archive (internal/broker/tiering_adapter.go)

    The sealed segments the broker offers to the uploader, and what an upload of
    one of them means for the log. *)

From S2P Require Import Prelude Bytes OsFile RecordBatch Index TimeIndex Segment SegmentFacts Log LogFacts LogRead LogRecover Samples LogProps.
From S2P Require Import Names Offsets Group Acl Manifest Cache Broker BrokerProps ObjStore Uploader UploaderFacts UploaderProps.

#[local] Open Scope Z_scope.

(** The path of a segment's file, below the partition's directory. *)
Definition Segment_LogPath (dir : string) (s : Segment) : string := dir +:+ "/" +:+ pad20 (baseOffset s) +:+ ".log".

Definition segmentSource (dir topic : string) (partition : Z) (seg : Segment) : SegmentSource :=
  mkSource topic partition (baseOffset seg) (nextOffset seg) (logSize seg) (Segment_LogPath dir seg) (createdAt seg).

(** [AllSealedSegments]: topics in the order the map yields them.  [dir] is the
    partition's directory. *)
Definition AllSealedSegments (dir : string -> Z -> string) (topics : gmap string Topic) : list SegmentSource :=
  (map_to_list topics).*2 ≫= fun t =>
  t_partitions t ≫= fun pl =>
  segmentSource (dir (t_name t) pl.1) (t_name t) pl.1 <$> SealedSegments pl.2.

Lemma AllSealedSegments_elem dir topics src : src ∈ AllSealedSegments dir topics <->
  exists name t p l seg, topics !! name = Some t /\ (p, l) ∈ t_partitions t /\ seg ∈ SealedSegments l /\
    src = segmentSource (dir (t_name t) p) (t_name t) p seg.
Proof.
  unfold AllSealedSegments. rewrite list_elem_of_bind. split.
  - intros (t & Ht & Hin). apply list_elem_of_fmap in Hin as ([name t'] & -> & Hm%elem_of_map_to_list). cbn in Ht.
    apply list_elem_of_bind in Ht as ([p l] & Hs & Hp). apply list_elem_of_fmap in Hs as (seg & -> & Hseg).
    by exists name, t', p, l, seg.
  - intros (name & t & p & l & seg & Ht & Hp & Hs & ->). exists t. split.
    + apply list_elem_of_bind. exists (p, l). split; [|done]. by apply list_elem_of_fmap_2.
    + apply list_elem_of_fmap. exists (name, t). split; [done|]. by apply elem_of_map_to_list.
Qed.

(** A sealed segment holds a contiguous, non-empty run of the log's batches. *)
Lemma front_segment o bss segs o' seg : front o bss segs o' -> seg ∈ segs ->
  exists pre bs post, concat bss = pre ++ bs ++ post /\ seg_wf bs seg /\ bs <> [] /\ baseOffset seg = o + recs pre.
Proof.
  induction 1 as [|o bs bss s segs o' Hwf Hb Hs Hne Hf IH]; intros Hin; [by apply elem_of_nil in Hin|].
  apply elem_of_cons in Hin as [->|Hin].
  - exists [], bs, (concat bss). split_and!; try done. rewrite Hb. cbn. lia.
  - destruct (IH Hin) as (pre & bs' & post & Hc & Hwf' & Hne' & Hbase). exists (bs ++ pre), bs', post. split_and!; [|done|done|].
    + cbn. by rewrite Hc, <- app_assoc.
    + rewrite Hbase, (sw_next _ _ Hwf), Hb, recs_app. lia.
Qed.

Lemma sealed_segment start bs l seg : log_wf start bs l -> seg ∈ SealedSegments l ->
  exists pre mid post, bs = pre ++ mid ++ post /\ seg_wf mid seg /\ mid <> [] /\ baseOffset seg = start + recs pre.
Proof.
  intros (bss & front_segs & abs & s & Hsegs & Hf & _ & _ & ->) Hin. rewrite (SealedSegments_snoc _ _ _ Hsegs) in Hin.
  destruct (front_segment _ _ _ _ _ Hf Hin) as (pre & mid & post & -> & ? & ? & ?).
  exists pre, mid, (post ++ abs). by rewrite <- !app_assoc.
Qed.

(** Archiving a log loses nothing of it.  Take any sealed segment of a
    well-formed partition log; the broker offers it to the uploader
    ([AllSealedSegments]).  After a successful upload of its file, the object in
    the store is exactly a contiguous, non-empty run of the log's batches, and the
    manifest entry found at the run's first offset ends exactly where the run
    ends. *)
Theorem sealed_upload_archives_batches {S io} `{StoreLaws S io} sha256 mac ucfg (e : upload_env (io := io)) dir topics
    name t p l start bs seg s m s' m' :
  (forall x y, sha256 x = sha256 y -> x = y) -> 0 < uc_PartSize ucfg ->
  topics !! name = Some t -> (p, l) ∈ t_partitions t -> log_wf start bs l -> seg ∈ SealedSegments l ->
  let src := segmentSource (dir (t_name t) p) (t_name t) p seg in
  path_component (t_name t) -> valid_tenant (source_tenant ucfg src) -> ue_file e = Some (fdata (logFile seg)) ->
  archive_inv sha256 ucfg s m -> unknown s m (ue_id e) -> Manifest_Lookup m (t_name t) p (baseOffset seg) = None ->
  uploadOne sha256 mac ucfg e src s m = (s', m', Ok tt) ->
  src ∈ AllSealedSegments dir topics /\
  exists pre mid post meta en,
    bs = pre ++ mid ++ post /\ mid <> [] /\ object s' (source_key ucfg src) = Some (concat mid, meta) /\
    Manifest_Lookup m' (t_name t) p (start + recs pre) = Some en /\ se_NextOffset en = start + recs (pre ++ mid).
Proof.
  intros Hinj Hps Ht Hp Hlog Hs src Hc Htn Hf Hinv Hfr Hl Hup.
  split; [apply AllSealedSegments_elem; by exists name, t, p, l, seg|].
  destruct (sealed_segment _ _ _ _ Hlog Hs) as (pre & mid & post & -> & Hsw & Hne & Hb).
  rewrite (sw_data _ _ Hsw) in Hf.
  assert (valid_position (source_tenant ucfg src) (ss_Topic src) (ss_BaseOffset src)) as Hv.
  { split_and!; try done; apply Hsw. }
  destruct (uploadOne_spec sha256 mac ucfg Hinj Hps src e _ Hv s m s' m' _ Hinv Hfr Hf Hl Hup) as [_ _ _ _ _ _ Hst].
  destruct (Hst eq_refl) as (meta & size & Hobj & _ & Hl').
  exists pre, mid, post, meta. eexists. split_and!; [done|done|done|rewrite <- Hb; exact Hl'|].
  cbn. rewrite (sw_next _ _ Hsw), Hb, recs_app. lia.
Qed.

(** The first segment of the sample log, uploaded to an empty store. *)
Definition sealed_seg : Segment :=
  hd (mkSegment 0 (file_open []) 0 0 (OpenIndex [] 0) (OpenTimeIndex [] 0) 0 0 0 false false) (SealedSegments (sample_log FsyncAlways)).
Definition sealed_env : upload_env (io := fsio) :=
  mkUploadEnv (Some (fdata (logFile sealed_seg))) true true (true, true) IoOk IoOk "u9" (fun _ => IoOk) (fun _ => true) IoOk IoOk
    (fun _ => true) true true (true, true) 50.
Definition sealed_run : FS * Manifest * res unit :=
  uploadOne hex_sha toy_mac (up_cfg 32) sealed_env (segmentSource "/data" "orders" 0 sealed_seg)
    (mkFS ∅ ∅ ∅) (mkManifest [] ∅ None None).

Lemma sealed_run_ok : sealed_run.2 = Ok tt.
Proof. vm_compute. reflexivity. Qed.

Lemma sealed_seg_in : sealed_seg ∈ SealedSegments (sample_log FsyncAlways).
Proof.
  assert (SealedSegments (sample_log FsyncAlways) <> []) as Hne by (vm_compute; discriminate).
  unfold sealed_seg. destruct (SealedSegments (sample_log FsyncAlways)); [done|]. by left.
Qed.

Lemma sealed_upload_archives_batches_witness :
  segmentSource "/data" "orders" 0 sealed_seg ∈ AllSealedSegments (fun _ _ => "/data") {[ "orders" := orders ]} /\
  exists pre mid post meta en,
    sample_batches = pre ++ mid ++ post /\ mid <> [] /\
    object sealed_run.1.1 (source_key (up_cfg 32) (segmentSource "/data" "orders" 0 sealed_seg)) = Some (concat mid, meta) /\
    Manifest_Lookup sealed_run.1.2 "orders" 0 (0 + recs pre) = Some en /\ se_NextOffset en = 0 + recs (pre ++ mid).
Proof.
  apply (sealed_upload_archives_batches hex_sha toy_mac (up_cfg 32) sealed_env (fun _ _ => "/data") {[ "orders" := orders ]}
    "orders" orders 0 (sample_log FsyncAlways) 0 sample_batches sealed_seg (mkFS ∅ ∅ ∅) (mkManifest [] ∅ None None)).
  - exact hex_sha_inj.
  - reflexivity.
  - apply lookup_singleton_Some. split; reflexivity.
  - left.
  - apply sample_log_wf.
  - exact sealed_seg_in.
  - apply up_position.
  - apply up_position.
  - reflexivity.
  - split; [constructor|intros k q Hk|intros k1 k2 q1 q2 Hk]; cbn in Hk; rewrite lookup_empty in Hk; discriminate Hk.
  - split; [apply lookup_empty|]. intros k q Hk. cbn in Hk. rewrite lookup_empty in Hk. discriminate Hk.
  - reflexivity.
  - rewrite <- sealed_run_ok. unfold sealed_run. destruct (uploadOne _ _ _ _ _ _ _) as [[s' m'] r]. reflexivity.
Defined.
