(* ===== verification/Lifecycle.v ===== *)
(** * Logs with an archive (storage/log.go, storage/retention.go, tiering/uploader.go,
      broker/restore_fetch.go together)

    A partition whose sealed segments are uploaded while records are appended, and
    whose oldest segments retention deletes once the manifest holds them.  To
    consumers it is one log that keeps everything: every offset that was ever stored
    is still served, from the local segments or from the archive. *)

From S2P Require Import Prelude Bytes OsFile RecordBatch Index TimeIndex Segment SegmentFacts Log LogFacts LogRead LogRecover Samples Retention.
From S2P Require Import Names Offsets Group Acl Manifest Cache Broker BrokerFacts BrokerProps ObjStore Uploader UploaderFacts UploaderProps Tiering.

#[local] Open Scope Z_scope.

(** ** Sealed segments stay *)

Definition grows (l l' : Log) : Prop := SealedSegments l `prefix_of` SealedSegments l'.

Lemma split_last_Some {A} (l : list A) pre x : split_last l = Some (pre, x) -> l = pre ++ [x].
Proof. destruct l as [|y l _] using rev_ind; [done|]. rewrite split_last_snoc. by intros [= <- <-]. Qed.

Lemma grows_active l pre s l' rest : segments l = pre ++ [s] -> segments l' = pre ++ rest -> rest <> [] -> grows l l'.
Proof.
  intros Hl Hl' Hne. destruct rest as [|x rest _] using rev_ind; [done|]. unfold grows. rewrite (SealedSegments_snoc _ _ _ Hl).
  rewrite (SealedSegments_snoc l' (pre ++ rest) x); [by exists rest|]. by rewrite Hl', app_assoc.
Qed.

#[export] Instance grows_preorder : PreOrder grows.
Proof. unfold grows. split; [intros l; done|intros ???; apply transitivity]. Qed.

Lemma rollLocked_grows o l : grows l (rollLocked o l).1.
Proof.
  unfold rollLocked. destruct (split_last (segments l)) as [[pre old]|] eqn:E; [|done]. apply split_last_Some in E.
  destruct (_ =? _); [done|]. destruct (Segment_Seal o old) as [old' [[]| | |]]; [|by eapply grows_active..].
  destruct (OpenSegment _ _ _); by eapply grows_active.
Qed.

Lemma sync_active_grows o l : grows l (sync_active o l).1.
Proof.
  unfold sync_active. destruct (split_last (segments l)) as [[pre act]|] eqn:E; [|done]. apply split_last_Some in E.
  destruct (Segment_Sync o act) as [act' r]. by eapply grows_active.
Qed.

Lemma append_loop_grows o batches : forall i l, grows l (append_loop o i l batches).1.
Proof.
  induction batches as [|b batches IH]; intros i l; [done|]. cbn [append_loop].
  destruct (split_last (segments l)) as [[pre act]|] eqn:E; [|done]. apply split_last_Some in E.
  destruct (assign_offset _ _) as [b'| | |]; try done. destruct (Segment_Append (o i) act b') as [act' [x| | |]]; [|by eapply grows_active..].
  set (l1 := set_segments l (pre ++ [act'])). assert (grows l l1) as H1 by by eapply grows_active.
  destruct (_ && _); [|etrans; [exact H1|apply IH]]. pose proof (rollLocked_grows (o i) l1) as H2.
  destruct (rollLocked (o i) l1) as [l2 [[]| | |]]; (etrans; [exact H1|]); [etrans; [exact H2|apply IH]|exact H2..].
Qed.

Lemma Log_Append_seals o l batches : grows l (Log_Append o l batches).1.
Proof.
  unfold Log_Append. case_bool_decide; [done|]. case_bool_decide; [done|]. destruct (last (segments l)) as [act|]; [|done].
  assert (grows l (if ShouldRoll (io_now (o 0%nat)) act then rollLocked (o 0%nat) l else (l, Ok tt)).1) as H1.
  { destruct (ShouldRoll _ _); [apply rollLocked_grows|done]. }
  destruct (if ShouldRoll _ _ then _ else _) as [l1 [[]| | |]]; try exact H1. cbn [fst] in H1.
  destruct (validate_all batches); try exact H1. pose proof (append_loop_grows o batches 1 l1) as H2.
  destruct (append_loop o 1 l1 batches) as [l2 [[]| | |]]; cbn [fst] in H2 |- *; try (by etrans). cbn [fst].
  case_bool_decide; [|by etrans]. pose proof (sync_active_grows (o 0%nat) l2) as Hsync.
  destruct (sync_active (o 0%nat) l2) as [l3 [[]| | |]]; cbn [fst] in Hsync |- *; (etrans; [exact H1|]); by etrans.
Qed.

(** ** Segments in a row *)

Lemma front_range o bss segs o' s : front o bss segs o' -> s ∈ segs -> o <= baseOffset s /\ baseOffset s < nextOffset s <= o'.
Proof.
  intros Hf. revert s. induction Hf as [|o bs bss x segs o' Hwf Hb Hs Hne Hf IH]; intros s Hin; [by apply elem_of_nil in Hin|].
  pose proof (seg_wf_recs_pos _ _ Hwf Hne) as Hx. destruct (front_chain _ _ _ _ Hf) as [Hc Ho]. pose proof (chain_recs_nonneg _ _ Hc).
  apply elem_of_cons in Hin as [->|Hin]; [lia|]. destruct (IH s Hin). lia.
Qed.

Lemma front_apart o bss segs o' s1 s2 : front o bss segs o' -> s1 ∈ segs -> s2 ∈ segs ->
  s1 = s2 \/ nextOffset s1 <= baseOffset s2 \/ nextOffset s2 <= baseOffset s1.
Proof.
  intros Hf. induction Hf as [|o bs bss x segs o' Hwf Hb Hs Hne Hf IH]; intros H1 H2; [by apply elem_of_nil in H1|].
  apply elem_of_cons in H1 as [->|H1]; apply elem_of_cons in H2 as [->|H2]; [by left|..|by apply IH].
  - destruct (front_range _ _ _ _ _ Hf H2). right; left; lia.
  - destruct (front_range _ _ _ _ _ Hf H1). right; right; lia.
Qed.

Lemma front_cover o bss segs o' off : front o bss segs o' -> o <= off < o' -> exists s, s ∈ segs /\ baseOffset s <= off < nextOffset s.
Proof.
  induction 1 as [|o bs bss x segs o' Hwf Hb Hs Hne Hf IH]; intros Hoff; [lia|].
  destruct (decide (off < nextOffset x)); [exists x; split; [by left|lia]|]. destruct IH as (s & Hin & ?); [lia|]. exists s. split; [by right|done].
Qed.

Lemma front_split o bss segs o' k : front o bss segs o' -> (k <= length segs)%nat ->
  exists om, front o (take k bss) (take k segs) om /\ front om (drop k bss) (drop k segs) o'.
Proof.
  intros Hf. revert k. induction Hf as [|o bs bss x segs o' Hwf Hb Hs Hne Hf IH]; intros [|k] Hk; cbn in Hk |- *; try lia; eauto with kw.
  destruct (IH k) as (om & H1 & H2); [lia|]. exists om. eauto with kw.
Qed.

Lemma acceptable_records b : acceptable b -> 1 <= records b.
Proof. intros (_ & _ & ?). unfold records. lia. Qed.

(** Of the batches of a request, those stored are known by how many records they hold. *)
Lemma prefix_recs got : forall got' rest rest', Forall acceptable (got ++ rest) -> got ++ rest = got' ++ rest' -> recs got = recs got' -> got = got'.
Proof.
  assert (forall bs rest, Forall acceptable (bs ++ rest) -> 0 <= recs bs) as Hnn.
  { induction bs as [|b bs IH]; intros rest; cbn [app]; [done|]. intros [Hb H]%Forall_cons. apply IH in H.
    cbn. fold (recs bs). pose proof (acceptable_records b Hb). lia. }
  induction got as [|b got IH]; intros [|b' got'] rest rest' Ha Heq Hr; [done| | |].
  - cbn in Heq. rewrite Heq in Ha. apply Forall_cons in Ha as [Hb Ha]. pose proof (Hnn _ _ Ha). pose proof (acceptable_records b' Hb).
    cbn in Hr. fold (recs got') in Hr. lia.
  - apply Forall_cons in Ha as [Hb Ha]. pose proof (Hnn _ _ Ha). pose proof (acceptable_records b Hb). cbn in Hr. fold (recs got) in Hr. lia.
  - injection Heq as <- Heq. apply Forall_cons in Ha as [_ Ha]. f_equal. eapply IH; [done|done|]. cbn in Hr. fold (recs got) (recs got') in Hr. lia.
Qed.

(** ** The partition and its archive *)

Section tier.
Context {S io : Type} `{Hst : Store S io} {Hlaws : StoreLaws S io}.
Context (sha256 : list byte -> string) (mac : list byte -> string -> string) (ucfg : UploaderConfig) (dir topic : string) (p : Z).

(** The owner the uploader records for the partition. *)
Definition tier_tenant : string := match uc_TenantResolver ucfg with Some f => f topic p | None => "" end.

(** The log, the store and the manifest, and the batches that were stored since
    the beginning. *)
Record tier := mkTier { tr_log : Log; tr_store : S; tr_manifest : Manifest; tr_all : list (list byte) }.

(** What happens to the partition: an append, of which [got] is stored; a flush;
    an upload of a sealed segment, which may fail; an upload of another partition's
    segment; a sweep of retention.  With [removes] the sweep's file removals succeed;
    without it they may fail, which leaves a closed segment in the log. *)
Inductive tier_step (removes : bool) : tier -> tier -> Prop :=
| TAppend o batches got rest l s m all l' r :
    diskGuard l <> Some true -> batches <> [] -> Forall acceptable batches -> HighWatermark l + recs batches < 2 ^ 63 ->
    (forall k, io_log (o k) = None) -> Log_Append o l batches = (l', r) ->
    batches = got ++ rest -> HighWatermark l' = HighWatermark l + recs got ->
    tier_step removes (mkTier l s m all) (mkTier l' s m (all ++ assign_all (HighWatermark l) got))
| TSync o l s m all l' r : FlushAndSync o l = (l', r) -> tier_step removes (mkTier l s m all) (mkTier l' s m all)
| TUpload (e : upload_env (io := io)) seg l s m all s' m' r :
    seg ∈ SealedSegments l -> ue_file e = Some (fdata (logFile seg)) -> unknown s m (ue_id e) ->
    Manifest_Lookup m topic p (baseOffset seg) = None ->
    uploadOne sha256 mac ucfg e (segmentSource dir topic p seg) s m = (s', m', r) ->
    tier_step removes (mkTier l s m all) (mkTier l s' m' all)
| TForeign (e : upload_env (io := io)) src data l s m all s' m' r :
    ss_Topic src <> topic \/ ss_Partition src <> p ->
    valid_position (source_tenant ucfg src) (ss_Topic src) (ss_BaseOffset src) ->
    ue_file e = Some data -> unknown s m (ue_id e) ->
    Manifest_Lookup m (ss_Topic src) (ss_Partition src) (ss_BaseOffset src) = None ->
    uploadOne sha256 mac ucfg e src s m = (s', m', r) ->
    tier_step removes (mkTier l s m all) (mkTier l s' m' all)
| TSweep del c now l s m all :
    Archived c = Some (fun seg => Holds m topic p (baseOffset seg) (nextOffset seg) (logSize seg)) -> (removes = true -> forall i, del i = true) ->
    tier_step removes (mkTier l s m all) (mkTier (sweepOne del c now l) s m all).

(** ** The invariant *)

Context (sha_inj : forall x y, sha256 x = sha256 y -> x = y) (part_pos : 0 < uc_PartSize ucfg).
Context (topic_ok : path_component topic) (tenant_ok : valid_tenant tier_tenant).

Definition mine (x : SegmentEntry) : Prop := se_Topic x = topic /\ se_Partition x = p.

(** An entry stands for a run of the batches. *)
Definition entry_run (start : Z) (all : list (list byte)) (x : SegmentEntry) : Prop :=
  exists pre mid post, all = pre ++ mid ++ post /\ mid <> [] /\ se_BaseOffset x = start + recs pre /\
    se_NextOffset x = se_BaseOffset x + recs mid /\ se_SHA256 x = sha256 (concat mid) /\
    VerifySignature mac (uc_HMACKey ucfg) x = true /\ se_TenantID x = tier_tenant.

(** [gone] was deleted locally and is covered by the archive; [bs] is in the log.
    Every entry is a run of the batches, and either was deleted or is one of the
    sealed segments. *)
Record tier_inv (start : Z) (gone bs : list (list byte)) (t : tier) : Prop := {
  ti_archive : archive_inv sha256 ucfg (tr_store t) (tr_manifest t);
  ti_manifest : manifest_wf (tr_manifest t);
  ti_all : tr_all t = gone ++ bs;
  ti_chain : chain start gone;
  ti_log : log_wf (start + recs gone) bs (tr_log t);
  ti_run : forall x, In x (mf_completed (tr_manifest t)) -> mine x -> entry_run start (tr_all t) x;
  ti_place : forall x, In x (mf_completed (tr_manifest t)) -> mine x -> se_NextOffset x <= start + recs gone \/
    exists seg, seg ∈ SealedSegments (tr_log t) /\ baseOffset seg = se_BaseOffset x /\ nextOffset seg = se_NextOffset x;
  ti_cover : forall off, start <= off < start + recs gone ->
    exists x, In x (mf_completed (tr_manifest t)) /\ mine x /\ se_BaseOffset x <= off < se_NextOffset x
}.

Lemma entry_run_app start all more x : entry_run start all x -> entry_run start (all ++ more) x.
Proof. intros (pre & mid & post & -> & H). exists pre, mid, (post ++ more). split; [by rewrite <- !app_assoc|done]. Qed.

(** Steps that only touch the log. *)
Lemma tier_inv_log start gone bs l s m all l' more : tier_inv start gone bs (mkTier l s m all) ->
  log_wf (start + recs gone) (bs ++ more) l' -> grows l l' -> tier_inv start gone (bs ++ more) (mkTier l' s m (all ++ more)).
Proof.
  intros [Hai Hm Ha Hc Hl Hr Hp Hcov] Hwf Hg; cbn in *. split; cbn; try done.
  - by rewrite Ha, app_assoc.
  - intros x Hin Hx. by apply entry_run_app, Hr.
  - intros x Hin Hx. destruct (Hp x Hin Hx) as [?|(seg & Hs & ?)]; [by left|]. right. exists seg. split; [|done].
    destruct Hg as [k Hk]. rewrite Hk. apply elem_of_app. by left.
Qed.

(** Recording an entry that overlaps none of the partition's. *)
Lemma tier_inv_record start gone bs l s m all s' m' en : tier_inv start gone bs (mkTier l s m all) ->
  archive_inv sha256 ucfg s' m' -> mf_completed m' = List.filter (keeps en) (mf_completed m) ++ [en] ->
  (forall x, In x (mf_completed m) -> mine x -> keeps en x = true) ->
  (mine en -> entry_run start all en /\
    exists seg, seg ∈ SealedSegments l /\ baseOffset seg = se_BaseOffset en /\ nextOffset seg = se_NextOffset en) ->
  tier_inv start gone bs (mkTier l s' m' all).
Proof.
  intros [Hai Hm Ha Hc Hl Hr Hp Hcov] Hinv Hcomp Hk Hen; cbn in *.
  assert (forall x, In x (mf_completed m') -> In x (mf_completed m) \/ x = en) as Hin.
  { intros x. rewrite Hcomp, in_app_iff. intros [[? _]%filter_In|[<-|[]]]; auto. }
  split; cbn; try done.
  - unfold manifest_wf. rewrite Hcomp. apply ForallOrdPairs_snoc; [by apply ForallOrdPairs_filter|].
    apply List.Forall_forall. intros x [_ Hx]%filter_In. by apply keeps_compatible.
  - intros x [Hx| ->]%Hin Hx'; [by apply Hr|by apply Hen].
  - intros x [Hx| ->]%Hin Hx'; [by apply Hp|right; by apply Hen].
  - intros off Hoff. destruct (Hcov off Hoff) as (x & Hx & Hm' & ?). exists x. split; [|done].
    rewrite Hcomp. apply in_or_app. left. apply filter_In. split; [done|by apply Hk].
Qed.

Lemma tier_inv_manifest start gone bs l s m all s' m' : tier_inv start gone bs (mkTier l s m all) ->
  archive_inv sha256 ucfg s' m' -> mf_completed m' = mf_completed m -> tier_inv start gone bs (mkTier l s' m' all).
Proof.
  intros [Hai Hm Ha Hc Hl Hr Hp Hcov] Hinv Hcomp; cbn in *. split; cbn; try done; rewrite ?Hcomp; try done. unfold manifest_wf. by rewrite Hcomp.
Qed.

Lemma foreign_keeps en x : ~ mine en -> mine x -> keeps en x = true.
Proof.
  intros Hen [Ht Hp]. unfold keeps. destruct (String.eqb_spec (se_Topic x) (se_Topic en)) as [E1|]; [|done].
  destruct (Z.eqb_spec (se_Partition x) (se_Partition en)) as [E2|]; [|done]. destruct Hen. unfold mine. by rewrite <- E1, <- E2.
Qed.

Lemma Lookup_None m t q b x : Manifest_Lookup m t q b = None -> In x (mf_completed m) -> se_Topic x = t -> se_Partition x = q -> se_BaseOffset x <> b.
Proof.
  intros Hn Hin Ht Hq Hb. apply (List.find_none _ _ Hn) in Hin. unfold at_segment in Hin.
  by rewrite Ht, Hq, Hb, String.eqb_refl, !Z.eqb_refl in Hin.
Qed.

(** A sealed segment whose base is not in the manifest overlaps no entry. *)
Lemma own_keeps start gone bs t seg en x : tier_inv start gone bs t -> seg ∈ SealedSegments (tr_log t) ->
  se_BaseOffset en = baseOffset seg -> se_NextOffset en = nextOffset seg ->
  Manifest_Lookup (tr_manifest t) topic p (baseOffset seg) = None -> In x (mf_completed (tr_manifest t)) -> mine x -> keeps en x = true.
Proof.
  intros Hi Hseg Hb Hn Hl Hin Hx. pose proof (Lookup_None _ _ _ _ _ Hl Hin (proj1 Hx) (proj2 Hx)) as Hne.
  destruct (ti_log _ _ _ _ Hi) as (bss & pre & abs & a & Hsegs & Hf & _). rewrite (SealedSegments_snoc _ _ _ Hsegs) in Hseg.
  destruct (front_range _ _ _ _ _ Hf Hseg) as [H1 H2].
  assert (se_NextOffset x <= baseOffset seg \/ nextOffset seg <= se_BaseOffset x) as Hap.
  { destruct (ti_place _ _ _ _ Hi x Hin Hx) as [?|(y & Hy & Hyb & Hyn)]; [left; lia|].
    rewrite (SealedSegments_snoc _ _ _ Hsegs) in Hy. destruct (front_apart _ _ _ _ _ _ Hf Hseg Hy) as [<-|?]; [congruence|lia]. }
  unfold keeps. rewrite Hb, Hn. apply orb_true_iff. right. apply andb_true_iff. split.
  - apply negb_true_iff, andb_false_iff. destruct Hap; [right|left]; apply Z.ltb_ge; lia.
  - by apply negb_true_iff, Z.eqb_neq.
Qed.

(** ** Every step keeps it *)

Lemma tier_append start gone bs o batches got rest l s m all l' r : tier_inv start gone bs (mkTier l s m all) ->
  diskGuard l <> Some true -> batches <> [] -> Forall acceptable batches -> HighWatermark l + recs batches < 2 ^ 63 ->
  (forall k, io_log (o k) = None) -> Log_Append o l batches = (l', r) ->
  batches = got ++ rest -> HighWatermark l' = HighWatermark l + recs got ->
  exists bs', tier_inv start gone bs' (mkTier l' s m (all ++ assign_all (HighWatermark l) got)).
Proof.
  intros Hi Hg Hne Hacc Hroom Hio E Hsplit Hhw. pose proof (ti_log _ _ _ _ Hi) as Hwf. cbn in Hwf.
  destruct (Log_Append_spec o _ _ _ _ Hwf Hg Hne Hacc Hroom Hio) as (l1 & r1 & u & E1 & Happ & _).
  rewrite E in E1. injection E1 as <- <-. destruct Happ as (got' & rest' & bs' & Hb' & -> & _ & Hrec & Hwf' & _).
  assert (got = got') as <-.
  { subst batches. eapply prefix_recs; [exact Hacc|exact Hb'|].
    pose proof (log_wf_chain _ _ _ Hwf) as (_ & H1 & _). pose proof (log_wf_chain _ _ _ Hwf') as (_ & H2 & _). rewrite recs_app in H2. lia. }
  eexists. eapply tier_inv_log; [done|exact Hwf'|]. change l' with (l', r).1. rewrite <- E. apply Log_Append_seals.
Qed.

Lemma tier_sync start gone bs o l s m all l' r : tier_inv start gone bs (mkTier l s m all) ->
  FlushAndSync o l = (l', r) -> tier_inv start gone bs (mkTier l' s m all).
Proof.
  intros Hi E. destruct (sync_active_spec o _ _ _ (ti_log _ _ _ _ Hi)) as (l1 & r1 & E1 & Hwf & _).
  unfold FlushAndSync in E. cbn in E1. rewrite E in E1. injection E1 as <- <-.
  rewrite <- (app_nil_r bs), <- (app_nil_r all). eapply tier_inv_log; [done|by rewrite app_nil_r|].
  change l' with (l', r).1. rewrite <- E. apply sync_active_grows.
Qed.

Lemma tier_upload start gone bs (e : upload_env (io := io)) seg l s m all s' m' r : tier_inv start gone bs (mkTier l s m all) ->
  seg ∈ SealedSegments l -> ue_file e = Some (fdata (logFile seg)) -> unknown s m (ue_id e) ->
  Manifest_Lookup m topic p (baseOffset seg) = None ->
  uploadOne sha256 mac ucfg e (segmentSource dir topic p seg) s m = (s', m', r) -> tier_inv start gone bs (mkTier l s' m' all).
Proof.
  intros Hi Hseg Hfile Hun Hl E. destruct (sealed_segment _ _ _ _ (ti_log _ _ _ _ Hi) Hseg) as (pre & mid & post & Hbs & Hsw & Hne & Hb).
  set (src := segmentSource dir topic p seg) in *.
  assert (valid_position (source_tenant ucfg src) (ss_Topic src) (ss_BaseOffset src)) as Hv by (split_and!; try done; apply Hsw).
  destruct (uploadOne_spec sha256 mac ucfg sha_inj part_pos src e _ Hv s m s' m' r (ti_archive _ _ _ _ Hi) Hun Hfile Hl E)
    as [Hinv _ _ _ [Hcomp|[size Hcomp]] _ _]; [by eapply tier_inv_manifest|].
  eapply tier_inv_record; [exact Hi|exact Hinv|exact Hcomp| |].
  - intros x Hin Hx. by eapply (own_keeps _ _ _ _ seg).
  - intros _. split; [|by exists seg]. exists (gone ++ pre), mid, post. cbn. pose proof (ti_all _ _ _ _ Hi) as Hall. cbn in Hall.
    split_and!; [by rewrite Hall, Hbs, <- app_assoc|done|rewrite Hb, recs_app; lia|apply Hsw|by rewrite (sw_data _ _ Hsw)| |done].
    apply entry_of_verifies.
Qed.

Lemma tier_foreign start gone bs (e : upload_env (io := io)) src data l s m all s' m' r : tier_inv start gone bs (mkTier l s m all) ->
  ss_Topic src <> topic \/ ss_Partition src <> p ->
  valid_position (source_tenant ucfg src) (ss_Topic src) (ss_BaseOffset src) ->
  ue_file e = Some data -> unknown s m (ue_id e) ->
  Manifest_Lookup m (ss_Topic src) (ss_Partition src) (ss_BaseOffset src) = None ->
  uploadOne sha256 mac ucfg e src s m = (s', m', r) -> tier_inv start gone bs (mkTier l s' m' all).
Proof.
  intros Hi Hother Hv Hfile Hun Hl E.
  destruct (uploadOne_spec sha256 mac ucfg sha_inj part_pos src e _ Hv s m s' m' r (ti_archive _ _ _ _ Hi) Hun Hfile Hl E)
    as [Hinv _ _ _ [Hcomp|[size Hcomp]] _ _]; [by eapply tier_inv_manifest|].
  assert (~ mine (entry_of mac ucfg e src size (sha256 data))) as Hnm by (unfold mine; cbn; tauto).
  eapply tier_inv_record; [exact Hi|exact Hinv|exact Hcomp| |done]. intros x _. by apply foreign_keeps.
Qed.

Lemma Holds_entry m base next size : Holds m topic p base next size = true ->
  exists x, In x (mf_completed m) /\ mine x /\ se_BaseOffset x = base /\ next <= se_NextOffset x.
Proof.
  unfold Holds. destruct (Manifest_Lookup m topic p base) as [x|] eqn:E; [|done]. intros [Hn _]%andb_true_iff.
  apply find_some in E as [Hin Ha]. unfold at_segment in Ha. rewrite !andb_true_iff, String.eqb_eq, !Z.eqb_eq in Ha.
  exists x. unfold mine. rewrite Z.geb_leb in Hn. apply Z.leb_le in Hn. tauto.
Qed.

Lemma tier_sweep start gone bs del c now l s m all : tier_inv start gone bs (mkTier l s m all) ->
  Archived c = Some (fun seg => Holds m topic p (baseOffset seg) (nextOffset seg) (logSize seg)) -> (forall i, del i = true) ->
  exists gone' bs', tier_inv start gone' bs' (mkTier (sweepOne del c now l) s m all).
Proof.
  intros [Hai Hm Ha Hc Hl Hr Hp Hcov] Harch Hdel; cbn in *.
  destruct (sweepOne_rule del c now _ _ _ Hl Hdel) as (Hsegs' & _). pose proof (fun f => retention_archived c now l f) as Hret.
  destruct Hl as (bss & pre & abs & a & Hsegs & Hf & Hwf & Hsl & ->). rewrite (SealedSegments_snoc _ _ _ Hsegs) in Hp, Hret.
  destruct (sweep_cutoff_rule c now l _ _ _ _ Hsegs Hf) as [Hk _]. set (k := retention_rule c now l) in *.
  rewrite Hsegs, drop_app_le in Hsegs' by done. destruct (front_split _ _ _ _ k Hf Hk) as (om & Hf1 & Hf2).
  destruct (front_chain _ _ _ _ Hf1) as [Hc1 Hom].
  exists (gone ++ concat (take k bss)), (concat (drop k bss) ++ abs).
  assert (start + recs (gone ++ concat (take k bss)) = om) as Heq by (rewrite recs_app; lia). split; cbn; try done.
  - by rewrite Ha, <- app_assoc, (app_assoc (concat _)), <- concat_app, take_drop.
  - by apply chain_app.
  - rewrite Heq. by exists (drop k bss), (drop k pre), abs, a.
  - intros x Hin Hx. rewrite Heq, (SealedSegments_snoc _ _ _ Hsegs'). pose proof (chain_recs_nonneg _ _ Hc1).
    destruct (Hp x Hin Hx) as [?|(seg & Hseg & Hb & Hn)]; [left; lia|]. rewrite <- (take_drop k pre) in Hseg.
    apply elem_of_app in Hseg as [Hseg|Hseg]; [|right; by exists seg]. left. destruct (front_range _ _ _ _ _ Hf1 Hseg). lia.
  - intros off Hoff. rewrite Heq in Hoff. destruct (decide (off < start + recs gone)); [apply Hcov; lia|].
    destruct (front_cover _ _ _ _ off Hf1) as (seg & Hseg & Hr1); [lia|]. apply list_elem_of_lookup in Hseg as [i Hi].
    apply lookup_take_Some in Hi as [Hi Hlt]. destruct (Holds_entry _ _ _ _ (Hret _ i seg Harch Hlt Hi)) as (x & Hin & Hx & Hb & Hn).
    exists x. split_and!; [done|done|lia..].
Qed.

Lemma tier_step_inv start gone bs t t' : tier_inv start gone bs t -> tier_step true t t' -> exists gone' bs', tier_inv start gone' bs' t'.
Proof.
  intros Hi Hstep. destruct Hstep.
  - destruct (tier_append start gone bs o batches got rest l s m all l' r Hi) as [bs' ?]; eauto.
  - exists gone, bs. by eapply tier_sync.
  - exists gone, bs. by eapply tier_upload.
  - exists gone, bs. by eapply tier_foreign.
  - eapply tier_sweep; eauto.
Qed.

Lemma tier_steps_inv start gone bs t t' : tier_inv start gone bs t -> rtc (tier_step true) t t' -> exists gone' bs', tier_inv start gone' bs' t'.
Proof.
  intros Hi Hs. revert gone bs Hi. induction Hs as [|t t1 t2 Hstep _ IH]; intros gone bs Hi; [eauto|].
  destruct (tier_step_inv _ _ _ _ _ Hi Hstep) as (gone' & bs' & Hi'). eauto.
Qed.

(** ** Reading it back *)

(** A restored copy, where there is one, is the archived object. *)
Definition cache_good (m : Manifest) (c : Cache) : Prop := forall x, In x (mf_completed m) -> mine x ->
  Has c topic p (se_BaseOffset x) = false \/
  exists f, cache_files c !! PathTenant c (se_TenantID x) topic p (se_BaseOffset x) = Some f /\ sha256 (c_data f) = se_SHA256 x.

Lemma archived_at_covers m off x : In x (mf_completed m) -> mine x -> se_BaseOffset x <= off < se_NextOffset x ->
  is_Some (archived_at m topic p off).
Proof.
  intros Hin [Ht Hp] Hoff. unfold archived_at. destruct (List.find _ _) eqn:E; [by eexists|]. exfalso.
  assert (In x (AllForTopic m topic)) as Hin' by (apply filter_In; by rewrite Ht, String.eqb_refl).
  apply (List.find_none _ _ E) in Hin'. rewrite Hp, Z.eqb_refl, Z.geb_leb, (proj2 (Z.leb_le _ _)), (proj2 (Z.ltb_lt _ _)) in Hin' by lia. done.
Qed.

Lemma fetched_within pre mid post base start off maxBytes data first : base = start + recs pre ->
  fetched mid base off maxBytes data first -> fetched (pre ++ mid ++ post) start off maxBytes data first.
Proof.
  intros Hb (pre' & b & rest & post' & -> & Hd & Hf & Hr & Hm). exists (pre ++ pre'), b, rest, (post' ++ post).
  split_and!; try done; [by simplify_list_eq|rewrite recs_app; lia|lia..].
Qed.

(** What a restore of an entry's position leaves in the cache. *)
Lemma tier_restore start gone bs t c now x o mid : (forall d, (12 <= String.length (sha256 d))%nat) ->
  tier_inv start gone bs t -> cache_good (tr_manifest t) c -> In x (mf_completed (tr_manifest t)) -> mine x ->
  Manifest_Lookup (tr_manifest t) topic p (se_BaseOffset x) = Some x ->
  is_ok (store_Get o (tr_store t) (se_S3Key x)) = true -> se_SHA256 x = sha256 (concat mid) ->
  VerifySignature mac (uc_HMACKey ucfg) x = true ->
  exists c' f, Restore sha256 mac (uc_HMACKey ucfg) now (store_get o (tr_store t)) (tr_manifest t) c topic p (se_BaseOffset x) = (c', Ok tt) /\
    cache_files c' !! PathTenant c' (se_TenantID x) topic p (se_BaseOffset x) = Some f /\ c_data f = concat mid.
Proof.
  intros Hlen Hi Hc Hin Hx Hl Hget Hsha Hv. destruct (Has c topic p (se_BaseOffset x)) eqn:Eh.
  { destruct (Hc x Hin Hx) as [?|(f & Hf & Hd)]; [congruence|]. rewrite Hsha in Hd. apply sha_inj in Hd.
    exists c, f. split_and!; try done. unfold Restore. by rewrite Eh. }
  pose proof (ai_entries _ _ _ _ (ti_archive _ _ _ _ Hi)) as He. rewrite List.Forall_forall in He.
  destruct (He x Hin) as (_ & _ & d & meta & Hobj & Hd & _). rewrite Hsha in Hd. apply sha_inj in Hd as <-.
  destruct (store_Get o (tr_store t) (se_S3Key x)) as [d'| | |] eqn:Eg; try done.
  destruct (Get_object _ _ _ _ Eg) as [meta' Hobj']. rewrite Hobj in Hobj'. injection Hobj' as <- _.
  destruct (Restore_placed sha256 mac (uc_HMACKey ucfg) now (store_get o (tr_store t)) (tr_manifest t) c topic p x (concat mid))
    as (c' & Er & Hfile); try done; [apply Hi|apply Hx|apply Hx|unfold store_get; by rewrite Eg|by rewrite Hsha|].
  by exists c', (mkCached (concat mid) now).
Qed.

Lemma tier_init start bs l s m : log_wf start bs l -> archive_inv sha256 ucfg s m -> manifest_wf m ->
  (forall x, In x (mf_completed m) -> ~ mine x) -> tier_inv start [] bs (mkTier l s m bs).
Proof.
  intros Hl Ha Hm Hno. split; cbn; try done; [by rewrite Z.add_0_r|intros x Hin Hx; by destruct (Hno x)..|lia].
Qed.
End tier.

(** C2: Retention with an archive loses nothing, as long as the files it deletes can
    be removed.  Start with any well-formed log of a plainly named topic and an archive
    that holds nothing of its partition; then let records be appended (log writes
    succeeding) and flushed, sealed segments be uploaded (with any failures, under one
    part size), segments of other validly named partitions be uploaded, and retention
    sweep whatever the manifest holds, every removal succeeding, in any order.
    Afterwards every offset from the original start to the high watermark is still
    served to a reader the owner and the archive's tag admit, for a budget of at least
    one batch header (61 bytes), when the store answers the downloads and segments
    already in the cache are intact: the broker answers with whole batches of
    everything that was ever stored, starting with the one that holds the offset, out
    of the local log or, for deleted segments, out of the object store.  SHA-256 is
    taken to have no collisions and upload ids are not reused.  A removal that
    fails leaves a closed segment in the log, and a fetch in it panics
    ([failed_removal_panics]). *)
Theorem tiered_log_complete {S io} `{StoreLaws S io} sha256 mac ucfg dir topic p start bs l s m t' fe b tp tn a (o : io) off maxBytes :
  (forall x y, sha256 x = sha256 y -> x = y) -> (forall d, (12 <= String.length (sha256 d))%nat) -> 0 < uc_PartSize ucfg ->
  path_component topic -> valid_tenant (tier_tenant ucfg topic p) ->
  log_wf start bs l -> archive_inv sha256 ucfg s m -> manifest_wf m -> (forall x, In x (mf_completed m) -> ~ mine topic p x) ->
  rtc (tier_step (io := io) sha256 mac ucfg dir topic p true) (mkTier l s m bs) t' ->
  b_topics b !! topic = Some tp -> Topic_Partition tp p = Some (tr_log t') ->
  b_archive b = Some a -> ar_manifest a = tr_manifest t' -> cache_good sha256 topic p (tr_manifest t') (ar_cache a) ->
  (tn = "" \/ OwnerTenantID (t_cfg tp) = tn /\ tier_tenant ucfg topic p = tn) ->
  fe_get fe = store_get o (tr_store t') ->
  (forall x, In x (mf_completed (tr_manifest t')) -> is_ok (store_Get o (tr_store t') (se_S3Key x)) = true) ->
  start <= off < HighWatermark (tr_log t') -> v2HeaderSize <= maxBytes ->
  exists b' data first,
    FetchAuthorized sha256 mac (uc_HMACKey ucfg) fe b topic p off maxBytes tn =
      (b', mkFetchResult (HighWatermark (tr_log t')) (LogStartOffset (tr_log t')) (Ok (data, first))) /\
    fetched (tr_all t') start off maxBytes data first.
Proof.
  intros Hinj Hlen Hps Hc Htn Hl Ha Hm Hno Hsteps Htp Hp Hb Har Hcache Hown Hfe Hget Hoff Hmax.
  destruct (tier_steps_inv sha256 mac ucfg dir topic p Hinj Hps Hc Htn start [] bs _ t' (tier_init _ _ _ _ _ _ _ _ _ _ Hl Ha Hm Hno) Hsteps)
    as (gone & kept & Hi).
  pose proof (ti_log _ _ _ _ _ _ _ _ _ Hi) as Hwf. rewrite (ti_all _ _ _ _ _ _ _ _ _ Hi).
  assert (tn = "" \/ OwnerTenantID (t_cfg tp) = tn) as Hown1 by tauto.
  destruct (decide (off < start + recs gone)) as [Hlow|Hhigh].
  - destruct (ti_cover _ _ _ _ _ _ _ _ _ Hi off) as (x & Hin & Hx & Hr); [lia|].
    destruct (archived_at_covers topic p _ _ _ Hin Hx Hr) as [e He].
    destruct (archived_at_Lookup _ _ _ _ _ (ti_manifest _ _ _ _ _ _ _ _ _ Hi) He) as (Hlk & Het & Hep & Hre).
    assert (In e (mf_completed (tr_manifest t'))) as Hine by (by apply find_some in Hlk as [? _]).
    destruct (ti_run _ _ _ _ _ _ _ _ _ Hi e Hine (conj Het Hep)) as (pre & mid & post & Hall & Hne & Hbase & Hnext & Hsha & Hsig & Hten).
    destruct (tier_restore sha256 mac ucfg topic p Hinj start gone kept t' (ar_cache a) (fe_now fe) e o mid Hlen Hi Hcache Hine (conj Het Hep) Hlk
      (Hget e Hine) Hsha Hsig) as (c' & f & Er & Hfile & Hd).
    pose proof (ai_entries _ _ _ _ (ti_archive _ _ _ _ _ _ _ _ _ Hi)) as Hok. rewrite List.Forall_forall in Hok.
    destruct (Hok e Hine) as ((_ & _ & Hrange) & _).
    rewrite (ti_all _ _ _ _ _ _ _ _ _ Hi) in Hall.
    assert (chain (se_BaseOffset e) mid) as Hch.
    { assert (chain start (gone ++ kept)) as Hch by (apply chain_app; split; [apply Hi|apply (log_wf_chain _ _ _ Hwf)]).
      rewrite Hall in Hch. apply chain_app in Hch as [_ [Hch _]%chain_app]. by rewrite Hbase. }
    rewrite <- Har, <- Hfe in Er. rewrite <- Har in He.
    destruct (Fetch_cached sha256 mac (uc_HMACKey ucfg) fe b topic tp p (tr_log t') _ _ tn a e mid off maxBytes c' f Htp Hp Hown1 Hwf Hlow Hb)
      as (b' & data & first & Ef & Hf); try done; [by rewrite Har; apply Hi|destruct Hown as [?|[_ ?]]; [by left|right; congruence]|].
    exists b', data, first. split; [done|]. rewrite Hall. by eapply fetched_within.
  - destruct (FetchAt_ok _ _ _ off maxBytes Hwf) as (data & first & Ef & Hf); [lia|done|].
    destruct (verifyTopicTenant_spec tp tn) as [[Hvt _]|(_ & ? & ?)]; [|by destruct Hown1].
    exists b, data, first. unfold FetchAuthorized, fetchInternal. rewrite Htp, Hvt, Hp, Ef. split; [done|].
    rewrite <- (app_nil_r kept). by eapply fetched_within.
Qed.

(** The sealed segment of the sample log is uploaded and swept; its first offset is read. *)
Definition swept_retention : RetentionConfig :=
  mkRetention 0 100 0 (Some (fun seg => Holds sealed_run.1.2 "orders" 0 (baseOffset seg) (nextOffset seg) (logSize seg))).
Definition swept_tier : tier (S := FS) :=
  mkTier (sweepOne (fun _ => true) swept_retention 0 (sample_log FsyncAlways)) sealed_run.1.1 sealed_run.1.2 sample_batches.
Definition swept_topic : Topic := mkTopic "orders" [(0, tr_log swept_tier)] (t_cfg orders).
Definition swept_broker : Broker :=
  set_archive (set_topics empty_broker {["orders" := swept_topic]}) (Some (mkArchive (tr_manifest swept_tier) (NewCache ["cache"] 0 ∅))).
Definition swept_env : fetchenv := mkFetchEnv 9 (store_get IoOk (tr_store swept_tier)).

Example swept_local : LogStartOffset (tr_log swept_tier) = 5.
Proof. vm_compute. reflexivity. Qed.

Lemma swept_steps :
  rtc (tier_step (io := fsio) hex_sha toy_mac (up_cfg 32) "/data" "orders" 0 true)
    (mkTier (sample_log FsyncAlways) (mkFS ∅ ∅ ∅) (mkManifest [] ∅ None None) sample_batches) swept_tier.
Proof.
  eapply rtc_l; [|eapply rtc_l; [|apply rtc_refl]].
  - eapply (TUpload _ _ _ _ _ _ _ sealed_env sealed_seg); [exact sealed_seg_in|reflexivity| |reflexivity|].
    + split; [apply lookup_empty|]. intros k q Hk. cbn in Hk. by rewrite lookup_empty in Hk.
    + fold sealed_run. by rewrite <- !surjective_pairing.
  - by apply TSweep.
Qed.

(** The same sweep when the file cannot be removed. *)
Definition stuck_tier : tier (S := FS) :=
  mkTier (sweepOne (fun _ => false) swept_retention 0 (sample_log FsyncAlways)) sealed_run.1.1 sealed_run.1.2 sample_batches.
Definition stuck_broker : Broker :=
  set_archive (set_topics empty_broker {["orders" := mkTopic "orders" [(0, tr_log stuck_tier)] (t_cfg orders)]})
    (Some (mkArchive (tr_manifest stuck_tier) (NewCache ["cache"] 0 ∅))).

Example failed_removal_panics :
  tier_step (io := fsio) hex_sha toy_mac (up_cfg 32) "/data" "orders" 0 false
    (mkTier (sample_log FsyncAlways) sealed_run.1.1 sealed_run.1.2 sample_batches) stuck_tier /\
  LogStartOffset (tr_log stuck_tier) = 0 /\ HighWatermark (tr_log stuck_tier) = 6 /\
  fr_data (FetchAuthorized hex_sha toy_mac (uc_HMACKey (up_cfg 32)) swept_env stuck_broker "orders" 0 0 100 "t1").2 = Panic.
Proof.
  split; [by apply TSweep|]. split; [vm_compute; reflexivity|]. split; vm_compute; reflexivity.
Qed.

Lemma tiered_log_complete_witness :
  exists b' data first,
    FetchAuthorized hex_sha toy_mac (uc_HMACKey (up_cfg 32)) swept_env swept_broker "orders" 0 0 100 "t1" =
      (b', mkFetchResult (HighWatermark (tr_log swept_tier)) (LogStartOffset (tr_log swept_tier)) (Ok (data, first))) /\
    fetched (tr_all swept_tier) 0 0 100 data first.
Proof.
  apply (tiered_log_complete hex_sha toy_mac (up_cfg 32) "/data" "orders" 0 0 sample_batches (sample_log FsyncAlways) (mkFS ∅ ∅ ∅)
    (mkManifest [] ∅ None None) swept_tier swept_env swept_broker swept_topic "t1"
    (mkArchive (tr_manifest swept_tier) (NewCache ["cache"] 0 ∅)) IoOk 0 100).
  - exact hex_sha_inj.
  - intros d. unfold hex_sha. rewrite string_length_app. cbn. lia.
  - reflexivity.
  - apply up_position.
  - apply up_position.
  - apply sample_log_wf.
  - split; [constructor|intros k q Hk|intros k1 k2 q1 q2 Hk]; cbn in Hk; rewrite lookup_empty in Hk; discriminate Hk.
  - apply FOP_nil.
  - intros x [].
  - exact swept_steps.
  - apply lookup_singleton_Some. split; reflexivity.
  - reflexivity.
  - reflexivity.
  - reflexivity.
  - intros x _ _. left. reflexivity.
  - right. split; reflexivity.
  - reflexivity.
  - intros x Hx. vm_compute in Hx. destruct Hx as [<-|[]]. vm_compute. reflexivity.
  - vm_compute. split; [discriminate|reflexivity].
  - vm_compute. discriminate.
Defined.
