(* ===== verification/GoText.v ===== *)
(** * Text of the standard library (strings, strconv, time)

    What the configuration uses of it: letter case, trimming, the parsers of
    integers, of floating-point numbers and of durations.  A [float64] is a value
    of the specification of binary floating point in the Standard Library, with 53
    bits and exponents up to 1024, and its operations round to nearest, ties to
    even. *)

From Stdlib Require Export Floats.SpecFloat.
From S2P Require Import Prelude Bytes Names Text.

#[local] Open Scope Z_scope.

(** ** Strings *)

Definition lower_char (c : ascii) : ascii := if (65 <=? code c) && (code c <=? 90) then ascii_of_N (Z.to_N (code c + 32)) else c.
Definition upper_char (c : ascii) : ascii := if (97 <=? code c) && (code c <=? 122) then ascii_of_N (Z.to_N (code c - 32)) else c.

Fixpoint string_map (f : ascii -> ascii) (s : string) : string :=
  match s with EmptyString => EmptyString | String c s => String (f c) (string_map f s) end.

(** [strings.ToLower], for comparisons with words that have neither an i nor a k:
    no letter outside ASCII has another ASCII letter as its lower case, and what
    such letters become is left open by keeping them. *)
Definition ToLower (s : string) : string := string_map lower_char s.

(** [strings.ToUpper]: outside ASCII, the dotless i and the long s have an ASCII
    upper case; the other letters become letters outside ASCII, and are kept. *)
Fixpoint ToUpper (s : string) : string :=
  match s with
  | EmptyString => EmptyString
  | String c s' =>
      match s' with
      | String d s'' =>
          if (code c =? 196) && (code d =? 177) then String "I" (ToUpper s'')
          else if (code c =? 197) && (code d =? 191) then String "S" (ToUpper s'')
          else String (upper_char c) (ToUpper s')
      | EmptyString => String (upper_char c) EmptyString
      end
  end.

(** [bytes.TrimSpace] and [strings.TrimSpace]: the white space of Unicode in its UTF-8 encoding. *)
Definition spaces : list (list byte) :=
  [[x09]; [x0a]; [x0b]; [x0c]; [x0d]; [x20]; [xc2; x85]; [xc2; xa0]; [xe1; x9a; x80];
   [xe2; x80; x80]; [xe2; x80; x81]; [xe2; x80; x82]; [xe2; x80; x83]; [xe2; x80; x84]; [xe2; x80; x85]; [xe2; x80; x86];
   [xe2; x80; x87]; [xe2; x80; x88]; [xe2; x80; x89]; [xe2; x80; x8a]; [xe2; x80; xa8]; [xe2; x80; xa9]; [xe2; x80; xaf];
   [xe2; x81; x9f]; [xe3; x80; x80]].

(** Removing white space in front, with sequences [ws]; each round removes a byte. *)
Fixpoint trim_front (fuel : nat) (ws : list (list byte)) (l : list byte) : list byte :=
  match fuel with
  | O => l
  | S fuel =>
      match List.find (fun w => bool_decide (w `prefix_of` l)) ws with
      | Some w => trim_front fuel ws (drop (length w) l)
      | None => l
      end
  end.

Definition TrimSpace (l : list byte) : list byte :=
  let l := trim_front (length l) spaces l in
  rev (trim_front (length l) (map (@rev byte) spaces) (rev l)).

Lemma spaces_nonempty : Forall (fun w => w <> []) spaces.
Proof. unfold spaces. repeat (constructor; [discriminate|]). constructor. Qed.

Lemma trim_front_none n ws l : (forall w b, In w ws -> In b w -> ~ In b l) -> Forall (fun w => w <> []) ws -> trim_front n ws l = l.
Proof.
  intros Hno Hne. destruct n as [|n]; [done|]. cbn. destruct (List.find _ ws) as [w|] eqn:E; [|done].
  apply List.find_some in E as [Hw Hp%bool_decide_eq_true]. exfalso. rewrite List.Forall_forall in Hne. specialize (Hne w Hw).
  destruct w as [|b w]; [done|]. destruct Hp as [k ->]. apply (Hno (b :: w) b Hw); by left.
Qed.

(** Text without the bytes of white space is not trimmed. *)
Lemma TrimSpace_id l : (forall b w, In b l -> In w spaces -> ~ In b w) -> TrimSpace l = l.
Proof.
  intros Hno. unfold TrimSpace. rewrite (trim_front_none _ spaces); [|intros w b Hw Hb Hin; by apply (Hno b w Hin)|apply spaces_nonempty].
  rewrite trim_front_none; [apply rev_involutive| |].
  - intros w b Hw Hb Hin. apply in_map_iff in Hw as (w0 & <- & Hw). apply in_rev in Hb, Hin. by apply (Hno b w0 Hin).
  - apply List.Forall_map. eapply List.Forall_impl; [|apply spaces_nonempty]. intros w Hne E.
    apply (f_equal (@rev byte)) in E. rewrite rev_involutive in E. done.
Qed.

Definition TrimSpaceS (s : string) : string := String.string_of_list_byte (TrimSpace (String.list_byte_of_string s)).

(** [strings.TrimRight(s, cut)] and [strings.Trim]. *)
Fixpoint drop_while (f : ascii -> bool) (l : list ascii) : list ascii :=
  match l with [] => [] | c :: l' => if f c then drop_while f l' else l end.
Definition TrimRight (f : ascii -> bool) (s : string) : string :=
  String.string_of_list_ascii (rev (drop_while f (rev (String.list_ascii_of_string s)))).
Definition Trim (f : ascii -> bool) (s : string) : string :=
  TrimRight f (String.string_of_list_ascii (drop_while f (String.list_ascii_of_string s))).

(** [err.Error()]. *)
Fixpoint error_text (e : error) : string :=
  match e with
  | ESentinel ErrNotFound => "not found"
  | ESentinel _ => "error"
  | EMsg s => s
  | EWrap c e => c +:+ ": " +:+ error_text e
  end.

(** ** Integers *)

Definition digit (c : ascii) : option Z := if (48 <=? code c) && (code c <=? 57) then Some (code c - 48) else None.

Fixpoint digits_from (acc : Z) (s : string) : option Z :=
  match s with
  | EmptyString => Some acc
  | String c s => match digit c with Some d => digits_from (acc * 10 + d) s | None => None end
  end.
Definition digits (s : string) : option Z := if String.eqb s "" then None else digits_from 0 s.

(** [strconv.ParseInt(s, 10, 64)]; [strconv.Atoi] is the same where an [int] has
    64 bits. *)
Definition ParseInt (s : string) : option Z :=
  let r := match s with
           | EmptyString => None
           | String c t => if Ascii.eqb c "+" then digits t else if Ascii.eqb c "-" then option_map Z.opp (digits t) else digits s
           end in
  match r with
  | Some z => if (- 2 ^ 63 <=? z) && (z <? 2 ^ 63) then Some z else None
  | None => None
  end.

(** ** Floating point *)

Definition float64 := spec_float.
Definition f64_mul (x y : float64) : float64 := SFmul 53 1024 x y.
Definition f64_div (x y : float64) : float64 := SFdiv 53 1024 x y.
Definition f64_lt (x y : float64) : bool := SFltb x y.
Definition f64_le (x y : float64) : bool := SFleb x y.
Definition f64_of_Z (z : Z) : float64 := binary_normalize 53 1024 z 0 false.

(** The quotient of two positive integers, rounded once. *)
Definition f64_ratio (neg : bool) (n d : positive) : float64 :=
  let '(q, e, l) := SFdiv_core_binary 53 1024 (Zpos n) 0 (Zpos d) 0 in binary_round_aux 53 1024 neg q e l.

Definition signed (neg : bool) (z : Z) : Z := if neg then - z else z.

(** The integer part; what is not finite has none. *)
Definition f64_trunc (x : float64) : option Z :=
  match x with
  | S754_zero _ => Some 0
  | S754_finite s m e => Some (signed s (if e >=? 0 then Zpos m * 2 ^ e else Zpos m / 2 ^ (- e)))
  | _ => None
  end.

(** The conversion to [int64]: the integer part when it fits, otherwise what the
    platform gives. *)
Class Platform := { int64_overflow : float64 -> Z; overflow_range : forall x, - 2 ^ 63 <= int64_overflow x < 2 ^ 63 }.
Definition int64_of_float `{Platform} (x : float64) : Z :=
  match f64_trunc x with
  | Some z => if (- 2 ^ 63 <=? z) && (z <? 2 ^ 63) then z else int64_overflow x
  | None => int64_overflow x
  end.

(** On amd64 the conversion gives the least integer. *)
#[export, refine] Instance amd64 : Platform := {| int64_overflow := fun _ => - 2 ^ 63 |}.
Proof. intros _. lia. Defined.

(** [strconv.ParseFloat].  The digits of the mantissa, with their number behind
    the point; then the exponent. *)
Definition hex_digit (c : ascii) : option Z :=
  match digit c with
  | Some d => Some d
  | None => let l := code (lower_char c) in if (97 <=? l) && (l <=? 102) then Some (l - 87) else None
  end.

Record mantissa := mkMant { mt_value : Z; mt_frac : Z; mt_dot : bool; mt_digits : bool; mt_under : bool }.

Fixpoint scan_mantissa (hex : bool) (m : mantissa) (s : string) : mantissa * string :=
  match s with
  | EmptyString => (m, s)
  | String c t =>
      if Ascii.eqb c "_" then scan_mantissa hex (mkMant (mt_value m) (mt_frac m) (mt_dot m) (mt_digits m) true) t
      else if Ascii.eqb c "." then
        if mt_dot m then (m, s) else scan_mantissa hex (mkMant (mt_value m) (mt_frac m) true (mt_digits m) (mt_under m)) t
      else match (if hex then hex_digit c else digit c) with
      | Some d =>
          scan_mantissa hex (mkMant (mt_value m * (if hex then 16 else 10) + d) (if mt_dot m then mt_frac m + 1 else mt_frac m)
                               (mt_dot m) true (mt_under m)) t
      | None => (m, s)
      end
  end.

(** The exponent's digits; from ten thousand on further digits are dropped. *)
Fixpoint scan_exponent (e : Z) (under : bool) (s : string) : Z * bool * string :=
  match s with
  | EmptyString => (e, under, s)
  | String c t =>
      if Ascii.eqb c "_" then scan_exponent e true t
      else match digit c with
      | Some d => scan_exponent (if e <? 10000 then e * 10 + d else e) under t
      | None => (e, under, s)
      end
  end.

(** Underscores stand between digits, or between the base prefix and a digit. *)
Inductive saw := SawStart | SawDigit | SawUnder | SawOther.
Fixpoint under_ok (hex : bool) (w : saw) (s : string) : bool :=
  match s with
  | EmptyString => match w with SawUnder => false | _ => true end
  | String c s =>
      match (if hex then hex_digit c else digit c) with
      | Some _ => under_ok hex SawDigit s
      | None =>
          if Ascii.eqb c "_" then match w with SawDigit => under_ok hex SawUnder s | _ => false end
          else match w with SawUnder => false | _ => under_ok hex SawOther s end
      end
  end.

Definition strip_sign (s : string) : bool * string :=
  match s with
  | String c t => if Ascii.eqb c "+" then (false, t) else if Ascii.eqb c "-" then (true, t) else (false, s)
  | EmptyString => (false, s)
  end.

Definition underscoreOK (s : string) : bool :=
  let s := (strip_sign s).2 in
  match s with
  | String a (String b t) =>
      let l := lower_char b in
      if Ascii.eqb a "0" && (Ascii.eqb l "b" || Ascii.eqb l "o" || Ascii.eqb l "x")
      then under_ok (Ascii.eqb l "x") SawDigit t else under_ok false SawStart s
  | _ => under_ok false SawStart s
  end.

Definition f64_scaled (neg : bool) (m : positive) (hex : bool) (e : Z) : float64 :=
  if hex then binary_normalize 53 1024 (if neg then Zneg m else Zpos m) e neg
  else match e with
       | Zneg k => f64_ratio neg m (10 ^ k)
       | _ => binary_normalize 53 1024 (signed neg (Zpos m * 10 ^ e)) 0 neg
       end.

Definition readFloat (s : string) : option float64 :=
  let (neg, s1) := strip_sign s in
  let '(hex, s2) := match s1 with
                    | String a (String b ((String _ _) as t)) => if Ascii.eqb a "0" && Ascii.eqb (lower_char b) "x" then (true, t) else (false, s1)
                    | _ => (false, s1)
                    end in
  let (m, s3) := scan_mantissa hex (mkMant 0 0 false false false) s2 in
  if negb (mt_digits m) then None
  else
    let marker := if hex then "p"%char else "e"%char in
    let tail := match s3 with
                | EmptyString => if hex then None else Some (0, mt_under m, s3)
                | String c t =>
                    if Ascii.eqb (lower_char c) marker
                    then let (eneg, t) := strip_sign t in
                         match t with
                         | String d _ => match digit d with
                                         | Some _ => let '(e, u, r) := scan_exponent 0 (mt_under m) t in Some (signed eneg e, u, r)
                                         | None => None
                                         end
                         | EmptyString => None
                         end
                    else if hex then None else Some (0, mt_under m, s3)
                end in
    match tail with
    | Some (e, under, EmptyString) =>
        if under && negb (underscoreOK s) then None
        else match mt_value m with
             | Zpos p => Some (f64_scaled neg p hex (e - mt_frac m * (if hex then 4 else 1)))
             | _ => Some (S754_zero neg)
             end
    | _ => None
    end.

(** A result that overflows is an error. *)
Definition ParseFloat (s : string) : option float64 :=
  let (neg, t) := strip_sign s in
  let l := ToLower t in
  if String.eqb l "inf" || String.eqb l "infinity" then Some (S754_infinity neg)
  else if String.eqb (ToLower s) "nan" then Some S754_nan
  else match readFloat s with
  | Some (S754_infinity _) => None
  | r => r
  end.

(** ** Durations: [time.ParseDuration], in nanoseconds *)

(** [leadingInt]; the outer [None] is an overflow. *)
Fixpoint leadingInt (x : Z) (s : string) : option (Z * string) :=
  match s with
  | EmptyString => Some (x, s)
  | String c t =>
      match digit c with
      | None => Some (x, s)
      | Some d =>
          if x >? 2 ^ 63 / 10 then None
          else if x * 10 + d >? 2 ^ 63 then None else leadingInt (x * 10 + d) t
      end
  end.

Fixpoint leadingFraction (overflow : bool) (x : Z) (scale : float64) (s : string) : Z * float64 * string :=
  match s with
  | EmptyString => (x, scale, s)
  | String c t =>
      match digit c with
      | None => (x, scale, s)
      | Some d =>
          if overflow then leadingFraction true x scale t
          else if x >? (2 ^ 63 - 1) / 10 then leadingFraction true x scale t
          else if x * 10 + d >? 2 ^ 63 then leadingFraction true x scale t
          else leadingFraction false (x * 10 + d) (f64_mul scale (f64_of_Z 10)) t
      end
  end.

Fixpoint unit_prefix (s : string) : string * string :=
  match s with
  | EmptyString => ("", s)
  | String c t =>
      if Ascii.eqb c "." || bool_decide (digit c <> None) then ("", s)
      else let (u, r) := unit_prefix t in (String c u, r)
  end.

Definition micro (b1 b2 : Z) : string := String (ascii_of_N (Z.to_N b1)) (String (ascii_of_N (Z.to_N b2)) "s").
Definition unitMap (u : string) : option Z :=
  if String.eqb u "ns" then Some 1
  else if String.eqb u "us" || String.eqb u (micro 194 181) || String.eqb u (micro 206 188) then Some 1000
  else if String.eqb u "ms" then Some (10 ^ 6)
  else if String.eqb u "s" then Some (10 ^ 9)
  else if String.eqb u "m" then Some (60 * 10 ^ 9)
  else if String.eqb u "h" then Some (3600 * 10 ^ 9)
  else None.

(** One number with its unit, in nanoseconds, and the rest. *)
Definition duration_term (s : string) : option (Z * string) :=
  match s with
  | EmptyString => None
  | String c _ =>
      if negb (Ascii.eqb c "." || bool_decide (digit c <> None)) then None
      else match leadingInt 0 s with
      | None => None
      | Some (v, s1) =>
          let pre := negb (String.eqb s1 s) in
          let '(f, scale, s2, post) :=
            match s1 with
            | String d t => if Ascii.eqb d "." then let '(f, scale, r) := leadingFraction false 0 (f64_of_Z 1) t in (f, scale, r, negb (String.eqb r t))
                            else (0, f64_of_Z 1, s1, false)
            | EmptyString => (0, f64_of_Z 1, s1, false)
            end in
          if negb pre && negb post then None
          else let (u, s3) := unit_prefix s2 in
               match unitMap u with
               | None => None
               | Some unit =>
                   if v >? 2 ^ 63 / unit then None
                   else
                     let v := v * unit in
                     let v := if f >? 0 then v + default 0 (f64_trunc (f64_mul (f64_of_Z f) (f64_div (f64_of_Z unit) scale))) else v in
                     if v >? 2 ^ 63 then None else Some (v, s3)
               end
      end
  end.

(** Each round consumes at least a character. *)
Fixpoint duration_terms (fuel : nat) (d : Z) (s : string) : option Z :=
  match s with
  | EmptyString => Some d
  | _ =>
      match fuel with
      | O => None
      | S fuel =>
          match duration_term s with
          | None => None
          | Some (v, s) => if d + v >? 2 ^ 63 then None else duration_terms fuel (d + v) s
          end
      end
  end.

Definition time_ParseDuration (s : string) : option Z :=
  let (neg, s) := strip_sign s in
  if String.eqb s "0" then Some 0
  else if String.eqb s "" then None
  else match duration_terms (String.length s) 0 s with
  | None => None
  | Some d => if neg then Some (i64 (- d)) else if d >? 2 ^ 63 - 1 then None else Some d
  end.

(** ** Characters *)

Abbreviation chars := String.list_ascii_of_string.

Lemma chars_app a b : chars (a +:+ b) = chars a ++ chars b.
Proof. induction a as [|c a IH]; [done|]. change (String c a +:+ b) with (String c (a +:+ b)). cbn. by rewrite IH. Qed.
Lemma chars_length s : String.length s = length (chars s).
Proof. induction s as [|c s IH]; cbn; [done|]. by rewrite IH. Qed.
Lemma chars_inj a b : chars a = chars b -> a = b.
Proof. intros H. rewrite <- (String.string_of_list_ascii_of_string a), <- (String.string_of_list_ascii_of_string b). by rewrite H. Qed.
Lemma chars_substring s : forall n m, chars (String.substring n m s) = take m (drop n (chars s)).
Proof.
  induction s as [|c s IH]; intros [|n] [|m]; cbn; try done; rewrite IH; done.
Qed.

(** ** Examples *)

Example float_examples :
  ParseFloat "0.10" = Some (S754_finite false 7205759403792794 (-56)) /\
  ParseFloat "1_000.5e+1" = Some (f64_of_Z 10005) /\ ParseFloat "0x1p-2" = Some (f64_div (f64_of_Z 1) (f64_of_Z 4)) /\
  ParseFloat "1e400" = None /\ ParseFloat "-Infinity" = Some (S754_infinity true) /\ ParseFloat "1__0" = None /\ ParseFloat "." = None.
Proof. vm_compute. repeat split. Qed.

Example duration_examples :
  time_ParseDuration "168h" = Some (168 * 3600 * 10 ^ 9) /\ time_ParseDuration "1h30m" = Some (5400 * 10 ^ 9) /\
  time_ParseDuration "-1.5s" = Some (-1500000000) /\ time_ParseDuration "1h30" = None /\ time_ParseDuration ".s" = None.
Proof. vm_compute. repeat split. Qed.
