(* ===== verification/Metrics.v ===== *)
(** * Metrics (internal/metrics/prom.go)

    The collectors of the process and the operations that move them.  The Prometheus
    client is the class [Prom]: a world of registered collectors whose values are read
    by name and label.  Counters and the connection gauge are counts, which a
    [float64] holds exactly below 2^53; the free fraction of the disk is a [float64]. *)

From S2P Require Import Prelude Bytes Names GoText Frame Dispatch Limit.

#[local] Open Scope Z_scope.

Inductive collector_kind := CGauge | CCounter | CCounterVec (label : string) | CHistogramVec (label : string) (buckets : list string).
Record collector := mkCollector { co_Name : string; co_Kind : collector_kind }.

Class Prom (W : Type) := {
  prom_NewRegistry : W;
  prom_MustRegister : list collector -> W -> res W;         (* panics when a collector is refused *)
  prom_Inc : string -> option string -> W -> W;             (* collector, label value *)
  prom_Dec : string -> W -> W;
  prom_Add : string -> Z -> W -> res W;                     (* panics on a negative amount *)
  prom_Set : string -> float64 -> W -> W;
  prom_Observe : string -> string -> Z -> W -> W            (* a duration in nanoseconds *)
}.

(** What the client documents: names are registered once; a counter goes up by what it
    is given, a gauge is what it was last set to, and collectors are independent. *)
Class PromLaws (W : Type) `{Prom W} := {
  prom_value : W -> string -> option string -> Z;
  prom_gauge : W -> string -> option float64;
  prom_count : W -> string -> string -> Z;                  (* observations of a histogram *)
  new_value : forall n l, prom_value prom_NewRegistry n l = 0;
  new_count : forall n l, prom_count prom_NewRegistry n l = 0;
  register_ok : forall cs, NoDup (map co_Name cs) -> Forall (fun c => co_Name c <> "") cs ->
    exists w, prom_MustRegister cs prom_NewRegistry = Ok w /\ (forall n l, prom_value w n l = 0) /\ (forall n l, prom_count w n l = 0);
  inc_value : forall n l w n' l', prom_value (prom_Inc n l w) n' l' = prom_value w n' l' + (if decide (n = n' /\ l = l') then 1 else 0);
  inc_count : forall n l w n' l', prom_count (prom_Inc n l w) n' l' = prom_count w n' l';
  dec_value : forall n w n' l', prom_value (prom_Dec n w) n' l' = prom_value w n' l' - (if decide (n = n' /\ None = l') then 1 else 0);
  add_value : forall n k w, 0 <= k -> exists w', prom_Add n k w = Ok w' /\
    (forall n' l', prom_value w' n' l' = prom_value w n' l' + (if decide (n = n' /\ None = l') then k else 0)) /\
    (forall n' l', prom_count w' n' l' = prom_count w n' l');
  set_value : forall n x w n' l', prom_value (prom_Set n x w) n' l' = prom_value w n' l';
  set_gauge : forall n x w n', prom_gauge (prom_Set n x w) n' = if decide (n = n') then Some x else prom_gauge w n';
  observe_value : forall n l d w n' l', prom_value (prom_Observe n l d w) n' l' = prom_value w n' l';
  observe_count : forall n l d w n' l', prom_count (prom_Observe n l d w) n' l' = prom_count w n' l' + (if decide (n = n' /\ l = l') then 1 else 0)
}.

(** ** The registry *)

Definition m_connections : collector := mkCollector "kafka_wire_connections" CGauge.
Definition m_requestCount : collector := mkCollector "kafka_wire_requests_total" (CCounterVec "api_key").
Definition m_requestErrors : collector := mkCollector "kafka_wire_request_errors_total" (CCounterVec "api_key").
Definition m_requestLatency : collector :=
  mkCollector "kafka_wire_request_latency_seconds"
    (CHistogramVec "api_key" ["0.0001"; "0.0005"; "0.001"; "0.005"; "0.01"; "0.05"; "0.1"; "0.5"; "1"; "5"]).
Definition m_batchesAppended : collector := mkCollector "kafka_wire_batches_appended_total" CCounter.
Definition m_produceFailed : collector := mkCollector "kafka_wire_produce_failed_total" CCounter.
Definition m_fetchBytes : collector := mkCollector "kafka_wire_fetch_bytes_total" CCounter.
Definition m_topicsCreated : collector := mkCollector "kafka_wire_topics_created_total" CCounter.
Definition m_s3Uploaded : collector := mkCollector "kafka_wire_archive_segments_uploaded_total" CCounter.
Definition m_s3UploadFailed : collector := mkCollector "kafka_wire_archive_uploads_failed_total" CCounter.
Definition m_s3Restored : collector := mkCollector "kafka_wire_archive_segments_restored_total" CCounter.
Definition m_diskWritesPaused : collector := mkCollector "kafka_wire_disk_writes_paused" CGauge.
Definition m_diskFreeFraction : collector := mkCollector "kafka_wire_disk_free_fraction" CGauge.

(** [MustRegister], in the order of [New]. *)
Definition collectors : list collector :=
  [m_connections; m_requestCount; m_requestErrors; m_requestLatency; m_batchesAppended; m_produceFailed; m_fetchBytes; m_topicsCreated;
   m_s3Uploaded; m_s3UploadFailed; m_s3Restored; m_diskWritesPaused; m_diskFreeFraction].

Definition apiKeyLabel (k : Z) : string :=
  match k with
  | 0 => "Produce" | 1 => "Fetch" | 2 => "ListOffsets" | 3 => "Metadata" | 8 => "OffsetCommit" | 9 => "OffsetFetch"
  | 10 => "FindCoordinator" | 11 => "JoinGroup" | 12 => "Heartbeat" | 13 => "LeaveGroup" | 14 => "SyncGroup" | 15 => "DescribeGroups"
  | 16 => "ListGroups" | 17 => "SaslHandshake" | 18 => "ApiVersions" | 19 => "CreateTopics" | 20 => "DeleteTopics"
  | 32 => "DescribeConfigs" | 36 => "SaslAuthenticate"
  | _ => "other"
  end.

Section registry.
Context {W : Type} `{Prom W}.

Definition New : res W := prom_MustRegister collectors prom_NewRegistry.

Definition SetDiskState (paused : bool) (freeFraction : float64) (w : W) : W :=
  let w := if paused then prom_Set (co_Name m_diskWritesPaused) (f64_of_Z 1) w else prom_Set (co_Name m_diskWritesPaused) (f64_of_Z 0) w in
  prom_Set (co_Name m_diskFreeFraction) freeFraction w.

Definition IncConnections (w : W) : W := prom_Inc (co_Name m_connections) None w.
Definition DecConnections (w : W) : W := prom_Dec (co_Name m_connections) w.

(** [failed] is whether the handler returned an error. *)
Definition ObserveRequest (apiKey latency : Z) (failed : bool) (w : W) : W :=
  let label := apiKeyLabel apiKey in
  let w := prom_Inc (co_Name m_requestCount) (Some label) w in
  let w := if failed then prom_Inc (co_Name m_requestErrors) (Some label) w else w in
  prom_Observe (co_Name m_requestLatency) label latency w.

Definition IncProduceSucceeded (batchCount : Z) (w : W) : res W := prom_Add (co_Name m_batchesAppended) batchCount w.
Definition IncProduceFailed (w : W) : W := prom_Inc (co_Name m_produceFailed) None w.
Definition AddFetchBytes (n : Z) (w : W) : res W := prom_Add (co_Name m_fetchBytes) n w.
Definition IncTopicCreated (w : W) : W := prom_Inc (co_Name m_topicsCreated) None w.
Definition IncS3Uploaded (w : W) : W := prom_Inc (co_Name m_s3Uploaded) None w.
Definition IncS3UploadFailed (w : W) : W := prom_Inc (co_Name m_s3UploadFailed) None w.
Definition IncS3Restored (w : W) : W := prom_Inc (co_Name m_s3Restored) None w.
End registry.

(** ** Labels are the routes *)

(** An API has a label of its own if and only if the dispatcher routes it; every
    other request is counted as [other]. *)
Theorem apiKeyLabel_routes k :
  (apiKeyLabel k = "other" <-> route k = None) /\ (forall k', apiKeyLabel k = apiKeyLabel k' -> route k <> None -> k = k').
Proof.
  assert (forall j, (apiKeyLabel j = "other" /\ route j = None) \/ exists a, route j = Some a /\ j = api_key a) as Hj.
  { intros j. destruct (route j) as [a|] eqn:E.
    - right. exists a. unfold route in E. apply find_some in E as [_ E%Z.eqb_eq]. done.
    - left. split; [|done]. unfold apiKeyLabel. repeat case_match; subst; try done; vm_compute in E; discriminate E. }
  split.
  - destruct (Hj k) as [?|(a & Hr & ->)]; [tauto|]. rewrite Hr. split; [|done]. by destruct a.
  - intros k' Heq Hr. destruct (Hj k) as [[_ ?]|(a & _ & ->)]; [done|]. destruct (Hj k') as [[Hk' _]|(a' & _ & ->)].
    + rewrite Hk' in Heq. by destruct a.
    + by destruct a, a'.
Qed.

(** ** What a connection adds *)

Section served.
Context (sha256 : list byte -> string) (mac : list byte -> string -> string) (hmacKey : list byte).
Context (hmacSHA256 : list byte -> list byte -> list byte) (sha256Sum : list byte -> list byte).
Context (c : codec) (scram : option Sasl.scramServer).

#[local] Abbreviation run := (handle sha256 mac hmacKey hmacSHA256 sha256Sum c scram).

(** The calls of [ObserveRequest] in the loop of [Serve]: the API and whether the
    handler failed. *)
Fixpoint observations (fuel tagfuel : nat) (cfg : wireConfig) (e : nat -> henv) (b : Broker.Broker) (cs : Sasl.connState) (conn : list byte)
  : list (Z * bool) :=
  match fuel with
  | O => []
  | S fuel =>
      match readRequest (flexible c) tagfuel (wc_MaxRequestBytes cfg) conn with
      | Ok (hdr, body, conn) =>
          match run (e 0%nat) b (Sasl.set_clientID cs (Sasl.string_of (ClientID hdr))) hdr body with
          | (b, cs, Ok r) => (APIKey hdr, false) :: observations fuel tagfuel cfg (fun k => e (S k)) (he_others (e 0%nat) b) cs conn
          | (_, _, Err _) => [(APIKey hdr, true)]
          | _ => []
          end
      | _ => []
      end
  end.

Lemma observations_log fuel : forall tagfuel cfg e b cs conn,
  exists failed, observations fuel tagfuel cfg e b cs conn =
    map (fun x => (APIKey x.1, false)) (sv_log (serve_loop sha256 mac hmacKey hmacSHA256 sha256Sum c scram fuel tagfuel cfg e b cs conn)) ++ failed /\
    (failed = [] \/ exists k, failed = [(k, true)]).
Proof.
  induction fuel as [|fuel IH]; intros tagfuel cfg e b cs conn; [exists []; by split; [|left]|]. cbn [observations serve_loop].
  destruct (readRequest _ _ _ _) as [[[hdr body] conn']| | |]; try (exists []; by split; [|left]).
  destruct (run _ _ _ _ _) as [[b' cs'] [r| | |]]; try (exists []; by split; [|left]).
  - destruct (IH tagfuel cfg (fun k => e (S k)) (he_others (e 0%nat) b') cs' conn') as (failed & -> & Hf). exists failed. by split.
  - exists [(APIKey hdr, true)]. split; [done|]. right. by eexists.
Qed.
End served.

Section totals.
Context {W : Type} `{PromLaws W}.

Definition observe_all (obs : list (Z * bool * Z)) (w : W) : W :=
  foldl (fun w o => ObserveRequest o.1.1 o.2 o.1.2 w) w obs.

(** Requests under a label, and those of them that failed. *)
Definition labelled (label : string) (obs : list (Z * bool * Z)) : Z := zlen (List.filter (fun o => String.eqb (apiKeyLabel o.1.1) label) obs).
Definition labelled_failed (label : string) (obs : list (Z * bool * Z)) : Z :=
  zlen (List.filter (fun o => String.eqb (apiKeyLabel o.1.1) label && o.1.2) obs).

Lemma inc_labelled n l w n' l' :
  prom_value (prom_Inc n (Some l) w) n' (Some l') = prom_value w n' (Some l') + Z.b2z (String.eqb n n' && String.eqb l l').
Proof. rewrite inc_value. destruct (String.eqb_spec n n'), (String.eqb_spec l l'); case_decide as Hd; cbn; destruct_and?; congruence || lia || naive_solver. Qed.

Lemma observe_labelled n l d w n' l' :
  prom_count (prom_Observe n l d w) n' l' = prom_count w n' l' + Z.b2z (String.eqb n n' && String.eqb l l').
Proof. rewrite observe_count. destruct (String.eqb_spec n n'), (String.eqb_spec l l'); case_decide as Hd; cbn; destruct_and?; congruence || lia || naive_solver. Qed.

Lemma ObserveRequest_value k d failed w label :
  prom_value (ObserveRequest k d failed w) (co_Name m_requestCount) (Some label) =
    prom_value w (co_Name m_requestCount) (Some label) + Z.b2z (String.eqb (apiKeyLabel k) label) /\
  prom_value (ObserveRequest k d failed w) (co_Name m_requestErrors) (Some label) =
    prom_value w (co_Name m_requestErrors) (Some label) + Z.b2z (String.eqb (apiKeyLabel k) label && failed) /\
  prom_count (ObserveRequest k d failed w) (co_Name m_requestLatency) label =
    prom_count w (co_Name m_requestLatency) label + Z.b2z (String.eqb (apiKeyLabel k) label).
Proof.
  unfold ObserveRequest. rewrite !observe_value, observe_labelled. destruct failed; rewrite ?inc_count, !inc_labelled; cbn; rewrite ?andb_true_r, ?andb_false_r; cbn; lia.
Qed.

(** Every request is counted once: after any run of requests on a fresh registry, the
    total of each label is the number of its requests, the errors are those that failed,
    and the latency histogram has one observation for each. *)
Theorem requests_counted obs label : exists w0 : W, New = Ok w0 /\
  let w := observe_all obs w0 in
  prom_value w (co_Name m_requestCount) (Some label) = labelled label obs /\
  prom_value w (co_Name m_requestErrors) (Some label) = labelled_failed label obs /\
  prom_count w (co_Name m_requestLatency) label = labelled label obs /\
  prom_value w (co_Name m_requestErrors) (Some label) <= prom_value w (co_Name m_requestCount) (Some label).
Proof.
  destruct (register_ok collectors) as (w0 & Hw & Hv & Hc).
  { apply (bool_decide_unpack _). vm_compute. exact I. }
  { repeat constructor; discriminate. }
  exists w0. split; [exact Hw|]. cbn zeta.
  assert (forall w, prom_value (observe_all obs w) (co_Name m_requestCount) (Some label) =
      prom_value w (co_Name m_requestCount) (Some label) + labelled label obs /\
    prom_value (observe_all obs w) (co_Name m_requestErrors) (Some label) =
      prom_value w (co_Name m_requestErrors) (Some label) + labelled_failed label obs /\
    prom_count (observe_all obs w) (co_Name m_requestLatency) label = prom_count w (co_Name m_requestLatency) label + labelled label obs) as Hall.
  { unfold labelled, labelled_failed. induction obs as [|[[k f] d] obs IH]; intros w; [cbn [observe_all foldl List.filter]; rewrite zlen_nil; lia|]. cbn [observe_all foldl fst snd List.filter].
    destruct (IH (ObserveRequest k d f w)) as (H1 & H2 & H3). destruct (ObserveRequest_value k d f w label) as (E1 & E2 & E3).
    unfold observe_all in H1, H2, H3. rewrite H1, H2, H3, E1, E2, E3. destruct (String.eqb _ _), f; cbn [andb Z.b2z]; rewrite ?zlen_cons; lia. }
  destruct (Hall w0) as (H1 & H2 & H3). rewrite Hv in H1, H2. rewrite Hc in H3. split_and!; [lia..|]. rewrite H1, H2.
  unfold labelled, labelled_failed. clear. induction obs as [|[[k f] d] obs IH]; [done|]. cbn [List.filter fst snd].
  destruct (String.eqb _ _), f; cbn [andb]; rewrite ?zlen_cons; lia.
Qed.
End totals.

(** ** A client in memory *)

Record registry := mkRegistry { rg_values : gmap (string * option string) Z; rg_gauges : gmap string float64; rg_counts : gmap (string * string) Z }.

Definition bump `{Countable K} (m : gmap K Z) (k : K) (d : Z) : gmap K Z := <[k := default 0 (m !! k) + d]> m.

Lemma bump_lookup `{Countable K} (m : gmap K Z) k d k' : default 0 (bump m k d !! k') = default 0 (m !! k') + (if decide (k = k') then d else 0).
Proof. unfold bump. case_decide as E; [subst; by rewrite lookup_insert_eq|]. rewrite lookup_insert_ne by done. lia. Qed.

Lemma decide_pair {A B C} `{EqDecision A, EqDecision B} (a c : A) (b d : B) (x y : C) `{!Decision (a = c /\ b = d)} :
  (if decide ((a, b) = (c, d)) then x else y) = (if decide (a = c /\ b = d) then x else y).
Proof. apply decide_ext. split; [by intros [= -> ->]|by intros [-> ->]]. Qed.

#[export] Instance memory_prom : Prom registry := {|
  prom_NewRegistry := mkRegistry ∅ ∅ ∅;
  prom_MustRegister := fun cs w => if decide (NoDup (map co_Name cs)) then Ok w else Panic;
  prom_Inc := fun n l w => mkRegistry (bump (rg_values w) (n, l) 1) (rg_gauges w) (rg_counts w);
  prom_Dec := fun n w => mkRegistry (bump (rg_values w) (n, None) (-1)) (rg_gauges w) (rg_counts w);
  prom_Add := fun n k w => if k <? 0 then Panic else Ok (mkRegistry (bump (rg_values w) (n, None) k) (rg_gauges w) (rg_counts w));
  prom_Set := fun n x w => mkRegistry (rg_values w) (<[n := x]> (rg_gauges w)) (rg_counts w);
  prom_Observe := fun n l d w => mkRegistry (rg_values w) (rg_gauges w) (bump (rg_counts w) (n, l) 1)
|}.

#[export, refine] Instance memory_laws : PromLaws registry := {|
  prom_value := fun w n l => default 0 (rg_values w !! (n, l));
  prom_gauge := fun w n => rg_gauges w !! n;
  prom_count := fun w n l => default 0 (rg_counts w !! (n, l))
|}.
Proof.
  - done.
  - done.
  - intros cs Hd _. exists (mkRegistry ∅ ∅ ∅). cbn. by rewrite decide_True.
  - intros. cbn. rewrite bump_lookup. f_equal. apply decide_pair.
  - done.
  - intros n w n' l'. cbn. rewrite bump_lookup, (decide_pair _ _ _ _ _ _ (Decision0 := _ : Decision (n = n' /\ None = l'))). case_decide; lia.
  - intros n k w Hk. cbn. rewrite (proj2 (Z.ltb_ge _ _)) by done. eexists. split; [done|]. split; [|done].
    intros. cbn. rewrite bump_lookup. f_equal. apply decide_pair.
  - done.
  - intros. cbn. by rewrite lookup_insert.
  - done.
  - intros. cbn. rewrite bump_lookup. f_equal. apply decide_pair.
Defined.

(** A Produce, a failed Fetch and a request the broker does not know. *)
Example three_requests :
  let w := observe_all [(0, false, 7); (1, true, 9); (42, false, 1)] prom_NewRegistry in
  map (fun l => (prom_value w (co_Name m_requestCount) (Some l), prom_value w (co_Name m_requestErrors) (Some l))) ["Produce"; "Fetch"; "other"] =
  [(1, 0); (1, 1); (1, 0)].
Proof. vm_compute. reflexivity. Qed.
