(* ===== verification/S3.v ===== *)
(** * The S3 driver (internal/objstore/s3.go)

    How the driver is configured, and its operations over the client of the
    service.  The client is the minio package: its calls are the class [S3Core],
    and what S3 documents of them is the class [S3CoreLaws]. *)

From S2P Require Import Prelude Bytes Names ObjStore GoText.

#[local] Open Scope Z_scope.

(** ** Configuration *)

Record S3Config := mkS3Config {
  sc_Bucket : string; sc_Endpoint : string; sc_Region : string; sc_Addressing : string; sc_AccessKey : string; sc_SecretKey : string;
  sc_SessionToken : string; sc_Insecure : bool; sc_CAFile : string; sc_SkipVerify : bool; sc_StorageClass : string
}.

Inductive BucketLookupType := BucketLookupAuto | BucketLookupPath | BucketLookupDNS.

(** A fixed pair of keys, or the environment, the credentials file and the
    instance metadata, in this order. *)
Inductive provider := EnvAWS | FileAWSCredentials | IAM.
Inductive s3_credentials := StaticV4 (access secret token : string) | ChainCredentials (ps : list provider).

(** [tls.Config]; [RootCAs] is the file the pool was filled from. *)
Record s3_tls := mkS3Tls { st_InsecureSkipVerify : bool; st_RootCAs : option (list byte) }.

Record s3_options := mkS3Options {
  so_Creds : s3_credentials; so_Secure : bool; so_Region : string; so_BucketLookup : BucketLookupType; so_TLS : option s3_tls
}.

(** What the machine and the service answer while the driver is built. *)
Record s3_net := mkS3Net {
  nt_ReadFile : string -> res (list byte);
  nt_AppendCertsFromPEM : list byte -> bool;
  nt_NewCore : string -> s3_options -> option error;
  nt_BucketExists : string -> s3_options -> string -> res bool
}.

Definition buildCredentials (cfg : S3Config) : res s3_credentials :=
  if negb (String.eqb (sc_AccessKey cfg) "") then
    if String.eqb (sc_SecretKey cfg) "" then Err (EMsg "objstore/s3: archive.s3.accesskey is set but archive.s3.secretkey is empty")
    else Ok (StaticV4 (sc_AccessKey cfg) (sc_SecretKey cfg) (sc_SessionToken cfg))
  else Ok (ChainCredentials [EnvAWS; FileAWSCredentials; IAM]).

(** [strings.TrimPrefix] and [strings.TrimSuffix]. *)
Definition TrimPrefix (s pre : string) : string :=
  if String.prefix pre s then String.substring (String.length pre) (String.length s - String.length pre) s else s.
Definition TrimSuffix (s suf : string) : string := if has_suffix s suf then trim_suffix s suf else s.

(** The endpoint and whether it is spoken to over TLS. *)
Definition s3_endpoint (cfg : S3Config) : string * bool :=
  let '(endpoint, secure) :=
    if String.eqb (sc_Endpoint cfg) "" then ("s3.amazonaws.com", negb (sc_Insecure cfg))
    else
      let '(endpoint, secure) :=
        if String.prefix "http://" (sc_Endpoint cfg) then (TrimPrefix (sc_Endpoint cfg) "http://", false)
        else if String.prefix "https://" (sc_Endpoint cfg) then (TrimPrefix (sc_Endpoint cfg) "https://", true)
        else (sc_Endpoint cfg, negb (sc_Insecure cfg)) in
      (TrimSuffix endpoint "/", secure) in
  (endpoint, if sc_Insecure cfg then false else secure).

Definition s3_lookup (cfg : S3Config) : res BucketLookupType :=
  let a := sc_Addressing cfg in
  if String.eqb a "" || String.eqb a "auto" then Ok BucketLookupAuto
  else if String.eqb a "path" then Ok BucketLookupPath
  else if String.eqb a "virtual" || String.eqb a "dns" then Ok BucketLookupDNS
  else Err (EMsg "objstore/s3: archive.s3.addressing; valid values are auto, path, virtual").

Definition s3_transport (n : s3_net) (cfg : S3Config) (secure : bool) : res (option s3_tls) :=
  if secure && (negb (String.eqb (sc_CAFile cfg) "") || sc_SkipVerify cfg) then
    if negb (String.eqb (sc_CAFile cfg) "") then
      pem ← wrap_err "objstore/s3: archive.s3.cafile" (nt_ReadFile n (sc_CAFile cfg));
      if nt_AppendCertsFromPEM n pem then Ok (Some (mkS3Tls (sc_SkipVerify cfg) (Some pem)))
      else Err (EMsg "objstore/s3: archive.s3.cafile contains no usable certificate")
    else Ok (Some (mkS3Tls (sc_SkipVerify cfg) None))
  else Ok None.

(** The driver: the bucket, the settings, and the endpoint and options its client
    was made with. *)
Record S3 := mkS3 { s3_cfg : S3Config; s3_addr : string; s3_opts : s3_options }.

Definition s3_bucket (d : S3) : string := sc_Bucket (s3_cfg d).

Definition NewS3 (n : s3_net) (cfg : S3Config) : res S3 :=
  if String.eqb (sc_Bucket cfg) "" then Err (EMsg "objstore/s3: archive.s3.bucket is empty")
  else
    let '(endpoint, secure) := s3_endpoint cfg in
    lookup ← s3_lookup cfg;
    creds ← buildCredentials cfg;
    transport ← s3_transport n cfg secure;
    let opts := mkS3Options creds secure (sc_Region cfg) lookup transport in
    match nt_NewCore n endpoint opts with
    | Some er => Err (EWrap "objstore/s3" er)
    | None =>
        ok ← wrap_err "objstore/s3: cannot reach bucket" (nt_BucketExists n endpoint opts (sc_Bucket cfg));
        if (ok : bool) then Ok (mkS3 cfg endpoint opts) else Err (EMsg "objstore/s3: bucket does not exist, or the credentials cannot see it")
    end.

(** ** The client *)

(** An answer, or an error with its code. *)
Inductive svc (A : Type) : Type := SvcOk (a : A) | SvcErr (code : string).
Arguments SvcOk {A} a.
Arguments SvcErr {A} code.

(** User metadata comes as a Go map, here in the order it is iterated. *)
Record s3_info := mkS3Info { si_Size : Z; si_ETag : string; si_UserMetadata : list (string * string) }.
Record s3_part := mkS3Part { sp_PartNumber : Z; sp_ETag : string; sp_Size : Z }.
Record s3_page := mkS3Page { pg_ObjectParts : list s3_part; pg_IsTruncated : bool; pg_NextPartNumberMarker : Z }.
Record s3_put := mkS3Put { po_StorageClass : string; po_UserMetadata : option (gmap string string) }.
Record s3_done := mkS3Done { cp_PartNumber : Z; cp_ETag : string }.

(** The calls the driver makes, of bucket and key; [io] is how one call goes. *)
Class S3Core (S io : Type) := {
  StatObject : io -> S -> string -> string -> svc s3_info;
  GetObject : io -> S -> string -> string -> svc (list byte);
  RemoveObject : io -> S -> string -> string -> S * svc unit;
  NewMultipartUpload : io -> string -> S -> string -> string -> s3_put -> S * svc string;   (* the id the service chooses *)
  PutObjectPart : io -> S -> string -> string -> string -> Z -> list byte -> S * svc s3_part;
  ListObjectParts : io -> S -> string -> string -> string -> Z -> Z -> svc s3_page;         (* marker and limit *)
  CompleteMultipartUpload : io -> S -> string -> string -> string -> list s3_done -> S * svc unit;
  AbortMultipartUpload : io -> S -> string -> string -> string -> S * svc unit
}.

(** ** The operations *)

Definition notFound (code : string) : bool := bool_decide (code ∈ ["NoSuchKey"; "NotFound"; "NoSuchUpload"]).

Definition is_quote (c : ascii) : bool := code c =? 34.
Definition normalizeETag (s : string) : string := Trim is_quote s.

Definition lower_metadata (l : list (string * string)) : gmap string string :=
  foldl (fun meta kv => <[ToLower kv.1 := kv.2]> meta) ∅ l.

Definition part_of (p : s3_part) : Part := mkObjPart (sp_PartNumber p) (normalizeETag (sp_ETag p)) (sp_Size p).

Section driver.
Context {S io : Type} `{S3Core S io} (d : S3).

Definition s3_Stat (o : io) (s : S) (key : string) : res ObjectInfo :=
  match StatObject o s (s3_bucket d) key with
  | SvcOk oi => Ok (mkInfo key (si_Size oi) (normalizeETag (si_ETag oi)) (lower_metadata (si_UserMetadata oi)))
  | SvcErr c => if notFound c then Err (ESentinel ErrNotFound) else Err (EMsg c)
  end.

(** The object is read to its end. *)
Definition s3_Get (o : io) (s : S) (key : string) : res (list byte) :=
  match GetObject o s (s3_bucket d) key with
  | SvcOk data => Ok data
  | SvcErr c => if notFound c then Err (ESentinel ErrNotFound) else Err (EMsg c)
  end.

(** Removing what is not there is no error. *)
Definition gone (r : svc unit) : res unit :=
  match r with SvcOk _ => Ok tt | SvcErr c => if notFound c then Ok tt else Err (EMsg c) end.

Definition s3_Delete (o : io) (s : S) (key : string) : S * res unit :=
  let (s', r) := RemoveObject o s (s3_bucket d) key in (s', gone r).

Definition putOptions (meta : gmap string string) : s3_put :=
  mkS3Put (sc_StorageClass (s3_cfg d)) (if bool_decide (meta = ∅) then None else Some meta).

Definition s3_CreateMultipart (o : io) (id : string) (s : S) (key : string) (meta : gmap string string) : S * res string :=
  match NewMultipartUpload o id s (s3_bucket d) key (putOptions meta) with
  | (s', SvcOk id) => (s', Ok id)
  | (s', SvcErr c) => (s', Err (EMsg c))
  end.

Definition s3_UploadPart (o : io) (s : S) (key id : string) (number : Z) (data : list byte) : S * res Part :=
  if (number <? 1) || (number >? MaxPartsPerUpload) then (s, Err (EMsg "objstore/s3: part number out of range"))
  else match PutObjectPart o s (s3_bucket d) key id number data with
       | (s', SvcOk p) => (s', Ok (part_of p))
       | (s', SvcErr c) => (s', Err (EMsg c))
       end.

(** The loop over the pages of a listing; [o k] is how the call for page [k] goes. *)
Fixpoint list_pages (fuel : nat) (o : nat -> io) (k : nat) (s : S) (key id : string) (marker : Z) (out : list Part) : res (list Part) :=
  match fuel with
  | O => Diverge
  | Datatypes.S fuel =>
      match ListObjectParts (o k) s (s3_bucket d) key id marker 1000 with
      | SvcErr c => if notFound c then Err (ESentinel ErrNotFound) else Err (EMsg c)
      | SvcOk page =>
          let out := out ++ map part_of (pg_ObjectParts page) in
          if pg_IsTruncated page then list_pages fuel o (Datatypes.S k) s key id (pg_NextPartNumberMarker page) out else Ok out
      end
  end.

(** Each page but the last has a part of its own, so there are no more pages than
    parts, and one. *)
Definition page_fuel : nat := Z.to_nat (MaxPartsPerUpload + 1).

Definition s3_ListParts (o : nat -> io) (s : S) (key id : string) : res (list Part) := list_pages page_fuel o 0 s key id 0 [].

Definition s3_CompleteMultipart (o : io) (s : S) (key id : string) (ps : list Part) : S * res unit :=
  match CompleteMultipartUpload o s (s3_bucket d) key id (map (fun p => mkS3Done (pn_Number p) (pn_ETag p)) ps) with
  | (s', SvcOk _) => (s', Ok tt)
  | (s', SvcErr c) => (s', Err (EMsg c))
  end.

Definition s3_AbortMultipart (o : io) (s : S) (key id : string) : S * res unit :=
  let (s', r) := AbortMultipartUpload o s (s3_bucket d) key id in (s', gone r).

#[export] Instance s3_store : Store S (nat -> io) := {
  store_Stat o := s3_Stat (o 0%nat);
  store_Get o := s3_Get (o 0%nat);
  store_Delete o := s3_Delete (o 0%nat);
  store_CreateMultipart o := s3_CreateMultipart (o 0%nat);
  store_UploadPart o := s3_UploadPart (o 0%nat);
  store_ListParts := s3_ListParts;
  store_CompleteMultipart o := s3_CompleteMultipart (o 0%nat);
  store_AbortMultipart o := s3_AbortMultipart (o 0%nat)
}.
End driver.
