(* ===== verification/S3Facts.v ===== *)
(** * The S3 driver keeps the contract of object stores

    What S3 documents of the calls of its client, and that the driver on top of any
    such service is an instance of [StoreLaws]: what is proved of the uploader holds
    for it too. *)

From S2P Require Import Prelude Bytes Names Log LogRecover Manifest Cache ObjStore Uploader UploaderFacts GoText S3.

#[local] Open Scope Z_scope.

(** ** What S3 documents *)

(** The headers of an object name its metadata in any letter case; header names
    are ASCII. *)
Definition headers_of (meta : gmap string string) (l : list (string * string)) : Prop :=
  forall k v, meta !! k = Some v <-> exists k', In (k', v) l /\ ToLower k' = k.

(** An entity tag, with or without quotes around it. *)
Definition etag_form (e x : string) : Prop := x = e \/ x = String "034" (e +:+ String "034" "").
Definition bare (e : string) : Prop := head (chars e) <> Some "034"%char /\ last (chars e) <> Some "034"%char.

(** The numbers of an upload's parts, ascending. *)
Definition part_numbers (u : Upload) : list Z := filter (fun n => is_Some (up_parts u !! n)) (seqZ 1 MaxPartsPerUpload).
Definition numbers_after (marker : Z) (u : Upload) : list Z := filter (fun n => marker < n) (part_numbers u).

(** [cobject] and [cupload] are the objects and the uploads of a bucket, [cetag] the
    tag of a part; [canswers] is that a call is answered.  A call that fails may
    have had its effect. *)
Class S3CoreLaws (S io : Type) `{S3Core S io} := {
  cobject : S -> string -> string -> option (list byte * gmap string string);
  cupload : S -> string -> string -> option Upload;
  cetag : S -> string -> string -> Z -> string;
  canswers : io -> bool;
  cetag_bare : forall s b id n, bare (cetag s b id n);
  GetObject_law : forall o s b key data, GetObject o s b key = SvcOk data -> exists meta, cobject s b key = Some (data, meta);
  StatObject_law : forall o s b key i, StatObject o s b key = SvcOk i ->
    exists data meta, cobject s b key = Some (data, meta) /\ si_Size i = zlen data /\ headers_of meta (si_UserMetadata i);
  NewMultipartUpload_law : forall o id s b key opts s' r, NewMultipartUpload o id s b key opts = (s', r) -> cupload s b id = None ->
    (forall k, cobject s' b k = cobject s b k) /\ (forall i, i <> id -> cupload s' b i = cupload s b i) /\
    forall i, r = SvcOk i -> i = id /\ id <> "" /\
      exists meta, cupload s' b id = Some (mkUpload key meta ∅) /\
        (lower_keys (default ∅ (po_UserMetadata opts)) -> meta = default ∅ (po_UserMetadata opts));
  PutObjectPart_law : forall o s b key id n data s' r, PutObjectPart o s b key id n data = (s', r) -> 1 <= n <= MaxPartsPerUpload ->
    (forall k, cobject s' b k = cobject s b k) /\ (forall i, i <> id -> cupload s' b i = cupload s b i) /\
    match r with
    | SvcOk p => sp_PartNumber p = n /\ sp_Size p = zlen data /\ etag_form (cetag s' b id n) (sp_ETag p) /\
        exists u, cupload s b id = Some u /\ up_key u = key /\
          cupload s' b id = Some (mkUpload (up_key u) (up_meta u) (<[n := data]> (up_parts u)))
    | SvcErr _ => perhaps_stored n data (cupload s b id) (cupload s' b id)
    end;
  ListObjectParts_answers : forall o s b key id marker limit u, canswers o = true -> cupload s b id = Some u -> up_key u = key ->
    0 < limit -> exists page, ListObjectParts o s b key id marker limit = SvcOk page;
  ListObjectParts_law : forall o s b key id marker limit page, ListObjectParts o s b key id marker limit = SvcOk page ->
    exists u rest, cupload s b id = Some u /\
      numbers_after marker u = map sp_PartNumber (pg_ObjectParts page) ++ rest /\
      Forall (fun p => exists c, up_parts u !! sp_PartNumber p = Some c /\ sp_Size p = zlen c /\
                etag_form (cetag s b id (sp_PartNumber p)) (sp_ETag p)) (pg_ObjectParts page) /\
      (if pg_IsTruncated page then last (map sp_PartNumber (pg_ObjectParts page)) = Some (pg_NextPartNumberMarker page) else rest = []);
  CompleteMultipartUpload_law : forall o s b key id cs s' r, CompleteMultipartUpload o s b key id cs = (s', r) ->
    StronglySorted Z.lt (map cp_PartNumber cs) ->
    (forall k, k = key \/ cobject s' b k = cobject s b k) /\ (forall i, i <> id -> cupload s' b i = cupload s b i) /\
    shrunk (cupload s b id) (cupload s' b id) /\
    (((forall k, cobject s' b k = cobject s b k) /\ r <> SvcOk tt) \/
     exists u chunks, cupload s b id = Some u /\ Forall2 (fun c x => up_parts u !! cp_PartNumber c = Some x) cs chunks /\
       cobject s' b key = Some (concat chunks, up_meta u));
  AbortMultipartUpload_law : forall o s b key id s' r, AbortMultipartUpload o s b key id = (s', r) -> id <> "" ->
    (forall k, cobject s' b k = cobject s b k) /\ (forall i, i <> id -> cupload s' b i = cupload s b i) /\
    shrunk (cupload s b id) (cupload s' b id)
}.

(** ** Metadata and tags *)

Lemma lower_metadata_app l kv : lower_metadata (l ++ [kv]) = <[ToLower kv.1 := kv.2]> (lower_metadata l).
Proof. unfold lower_metadata. by rewrite foldl_app. Qed.

(** Whatever the order of the headers, the metadata is read back. *)
Lemma lower_metadata_eq meta l : headers_of meta l -> lower_metadata l = meta.
Proof.
  intros Hh.
  assert (forall l', (forall x, In x l' -> In x l) -> headers_of (lower_metadata l') l') as Hsub.
  2:{ apply map_eq. intros k. apply option_eq. intros v. rewrite (Hsub l (fun x Hx => Hx) k v). symmetry. apply Hh. }
  induction l' as [|[k0 v0] l' IH] using rev_ind; intros Hin k v; [split; [done|by intros (? & [] & _)]|].
  assert (forall x, In x l' -> In x l) as Hin' by (intros x Hx; apply Hin, in_or_app; by left).
  rewrite lower_metadata_app, lookup_insert_Some, (IH Hin' k v). cbn [fst snd]. split.
  - intros [[<- <-]|[_ (k' & Hk' & <-)]]; [exists k0|exists k']; (split; [apply in_or_app|done]); [right; by left|by left].
  - intros (k' & Hk' & Hk). destruct (decide (ToLower k0 = k)) as [He|Hne]; [left; split; [done|]|right; split; [done|]].
    + assert (meta !! k = Some v0 /\ meta !! k = Some v) as [E1 E2]; [|congruence].
      split; apply Hh; [exists k0|exists k']; (split; [apply Hin|done]); [apply in_or_app; right; by left|done].
    + exists k'. apply in_app_iff in Hk' as [?|[[= -> ->]|[]]]; [done|by destruct Hne].
Qed.

Lemma is_quote_eq c : is_quote c = true -> c = "034"%char.
Proof. by destruct c as [[] [] [] [] [] [] [] []]. Qed.

Lemma drop_while_quote l : head l <> Some "034"%char -> drop_while is_quote l = l.
Proof.
  destruct l as [|c l]; [done|]. intros H. cbn [drop_while]. destruct (is_quote c) eqn:E; [|done].
  apply is_quote_eq in E as ->. by destruct H.
Qed.

Lemma chars_normalizeETag x : chars (normalizeETag x) = rev (drop_while is_quote (rev (drop_while is_quote (chars x)))).
Proof. unfold normalizeETag, Trim, TrimRight. by rewrite !String.list_ascii_of_string_of_list_ascii. Qed.

Lemma head_rev {A} (l : list A) : head (rev l) = last l.
Proof. destruct l as [|x l _] using rev_ind; [done|]. by rewrite rev_app_distr, last_snoc. Qed.

(** Both forms of a tag are one tag. *)
Lemma normalizeETag_form e x : bare e -> etag_form e x -> normalizeETag x = e.
Proof.
  intros [Hh Hl] Hx. rewrite <- head_rev in Hl. apply chars_inj. rewrite chars_normalizeETag. destruct Hx as [->| ->].
  - rewrite (drop_while_quote (chars e)), drop_while_quote by done. apply rev_involutive.
  - change (chars (String "034" ?t)) with ("034"%char :: chars t). rewrite chars_app.
    change (drop_while is_quote ("034"%char :: ?t)) with (drop_while is_quote t).
    change (chars (String "034" "")) with ["034"%char].
    destruct (chars e) as [|c l] eqn:E; [done|]. rewrite <- E in *. rewrite (drop_while_quote (chars e ++ _)); [|by rewrite E in Hh |- *].
    rewrite rev_app_distr. change (drop_while is_quote (rev ["034"%char] ++ ?t)) with (drop_while is_quote t).
    rewrite drop_while_quote by done. apply rev_involutive.
Qed.

(** ** Pages *)

Lemma StronglySorted_filter_lt (P : Z -> Prop) `{!forall x, Decision (P x)} l : StronglySorted Z.lt l -> StronglySorted Z.lt (filter P l).
Proof.
  induction 1 as [|x l Hl IH Hx]; [constructor|]. rewrite filter_cons. case_decide; [|done]. constructor; [done|].
  rewrite List.Forall_forall in Hx |- *. intros y [_ Hy]%list_elem_of_In%list_elem_of_filter. by apply Hx, list_elem_of_In.
Qed.

Lemma part_numbers_sorted u : StronglySorted Z.lt (part_numbers u).
Proof. apply StronglySorted_filter_lt, StronglySorted_seqZ. Qed.

Lemma part_numbers_count u : (length (part_numbers u) <= Z.to_nat MaxPartsPerUpload)%nat.
Proof. unfold part_numbers. etrans; [apply length_filter|]. by rewrite length_seqZ. Qed.

Lemma elem_of_part_numbers u n : n ∈ part_numbers u <-> is_Some (up_parts u !! n) /\ 1 <= n <= MaxPartsPerUpload.
Proof. unfold part_numbers. rewrite list_elem_of_filter, elem_of_seqZ. unfold MaxPartsPerUpload. split; intros []; (split; [done|lia]). Qed.

Lemma filter_every (P : Z -> Prop) `{!forall x, Decision (P x)} l : Forall P l -> filter P l = l.
Proof. induction 1 as [|x l Hx _ IH]; [done|]. by rewrite filter_cons_True, IH. Qed.

Lemma filter_never (P : Z -> Prop) `{!forall x, Decision (P x)} l : Forall (fun x => ~ P x) l -> filter P l = [].
Proof. induction 1 as [|x l Hx _ IH]; [done|]. by rewrite filter_cons_False. Qed.

Lemma numbers_after_0 u : numbers_after 0 u = part_numbers u.
Proof. apply filter_every, Forall_forall. intros n Hn%elem_of_part_numbers. lia. Qed.

Lemma numbers_after_later marker x (l : list Z) : marker <= x ->
  filter (fun n => x < n) l = filter (fun n => x < n) (filter (fun n => marker < n) l).
Proof.
  intros Hm. induction l as [|n l IH]; [done|]. rewrite !filter_cons. destruct (decide (marker < n)).
  - rewrite filter_cons, IH. done.
  - rewrite decide_False by lia. done.
Qed.

(** The page after the one that ends at [x] starts at what this one left out. *)
Lemma numbers_after_next marker u ns rest x : numbers_after marker u = ns ++ rest -> last ns = Some x -> numbers_after x u = rest.
Proof.
  intros E Hx. pose proof (part_numbers_sorted u) as Hs.
  apply (StronglySorted_filter_lt (fun n => marker < n)) in Hs. fold (numbers_after marker u) in Hs. rewrite E in Hs.
  apply last_Some in Hx as [ns' ->].
  assert (marker < x) as Hm.
  { assert (x ∈ numbers_after marker u) as Hin by (rewrite E; set_solver). by apply list_elem_of_filter in Hin as [? _]. }
  unfold numbers_after. rewrite (numbers_after_later marker) by lia. fold (numbers_after marker u). rewrite E, filter_app.
  rewrite filter_never, filter_every; [done| |].
  - apply Forall_forall. intros y Hy. eapply StronglySorted_app_1_elem_of; [exact Hs|set_solver|done].
  - apply StronglySorted_app_1_l in Hs. apply Forall_app. split; [|constructor; [lia|constructor]].
    apply Forall_forall. intros y Hy. enough (y < x) by lia. eapply StronglySorted_app_1_elem_of; [exact Hs|done|set_solver].
Qed.

(** ** The driver *)

Section driver.
Context {S io : Type} {Hcore : S3Core S io} {Hclaws : S3CoreLaws S io} (d : S3).

#[local] Abbreviation bucket := (s3_bucket d).

(** A part of the upload, as the driver lists it. *)
Definition listed (s : S) (id : string) (u : Upload) (p : Part) : Prop :=
  exists c, up_parts u !! pn_Number p = Some c /\ pn_Size p = zlen c /\ pn_ETag p = cetag s bucket id (pn_Number p).

Lemma part_of_listed s id u p :
  (exists c, up_parts u !! sp_PartNumber p = Some c /\ sp_Size p = zlen c /\
     etag_form (cetag s bucket id (sp_PartNumber p)) (sp_ETag p)) -> listed s id u (part_of p).
Proof. intros (c & ? & ? & He). exists c. cbn. split_and!; [done..|]. apply normalizeETag_form; [apply cetag_bare|done]. Qed.

Lemma page_listed s id u ps :
  Forall (fun p => exists c, up_parts u !! sp_PartNumber p = Some c /\ sp_Size p = zlen c /\
     etag_form (cetag s bucket id (sp_PartNumber p)) (sp_ETag p)) ps -> Forall (listed s id u) (map part_of ps).
Proof. intros H. apply Forall_map. eapply Forall_impl; [exact H|]. intros p. apply part_of_listed. Qed.

(** A listing whose calls are answered ends, and has every part from the marker on. *)
Lemma list_pages_all s key id u o : cupload s bucket id = Some u -> up_key u = key -> (forall k, canswers (o k) = true) ->
  forall fuel k marker out, (length (numbers_after marker u) < fuel)%nat ->
  exists ps, list_pages d fuel o k s key id marker out = Ok (out ++ ps) /\ map pn_Number ps = numbers_after marker u /\
    Forall (listed s id u) ps.
Proof.
  intros Hu Hkey Ho. induction fuel as [|fuel IH]; intros k marker out Hf; [lia|]. cbn [list_pages].
  destruct (ListObjectParts_answers (o k) s bucket key id marker 1000 u) as [page Ep]; [done..|]. rewrite Ep.
  destruct (ListObjectParts_law _ _ _ _ _ _ _ _ Ep) as (u' & rest & Hu' & Hn & Hp & Ht). rewrite Hu in Hu'. injection Hu' as <-.
  apply page_listed in Hp. set (ps := map part_of (pg_ObjectParts page)) in *.
  assert (map pn_Number ps = map sp_PartNumber (pg_ObjectParts page)) as Hps by (unfold ps; by rewrite map_map).
  rewrite <- Hps in *. destruct (pg_IsTruncated page).
  - pose proof (numbers_after_next _ _ _ _ _ Hn Ht) as Hrest.
    destruct (IH (Datatypes.S k) (pg_NextPartNumberMarker page) (out ++ ps)) as (qs & -> & Hq & Hql).
    + rewrite Hrest. rewrite Hn, length_app in Hf. destruct (map pn_Number ps); [done|]. cbn in Hf. lia.
    + exists (ps ++ qs). rewrite app_assoc, map_app, Hq, Hrest, Hn. split_and!; [done..|]. by apply Forall_app.
  - exists ps. rewrite Hn, Ht, app_nil_r. done.
Qed.

Lemma s3_ListParts_all s key id u o : cupload s bucket id = Some u -> up_key u = key -> (forall k, canswers (o k) = true) ->
  exists ps, s3_ListParts d o s key id = Ok ps /\ map pn_Number ps = part_numbers u /\ Forall (listed s id u) ps.
Proof.
  intros Hu Hkey Ho. unfold s3_ListParts. rewrite <- numbers_after_0. eapply list_pages_all; [done..|].
  rewrite numbers_after_0. pose proof (part_numbers_count u). unfold page_fuel, MaxPartsPerUpload in *. lia.
Qed.

(** Whatever the calls do, what is listed is stored. *)
Lemma list_pages_listed s key id o ps : forall fuel k marker out, list_pages d fuel o k s key id marker out = Ok ps ->
  exists u qs, cupload s bucket id = Some u /\ ps = out ++ qs /\ Forall (listed s id u) qs.
Proof.
  induction fuel as [|fuel IH]; intros k marker out E; [done|]. cbn [list_pages] in E.
  destruct (ListObjectParts _ _ _ _ _ _ _) as [page|c] eqn:Ep; [|by destruct (notFound c)].
  destruct (ListObjectParts_law _ _ _ _ _ _ _ _ Ep) as (u & rest & Hu & _ & Hp & _). apply page_listed in Hp.
  destruct (pg_IsTruncated page); [|injection E as <-; eauto].
  apply IH in E as (u' & qs & Hu' & -> & Hq). rewrite Hu in Hu'. injection Hu' as <-.
  exists u. eexists. rewrite <- app_assoc. split_and!; [done..|]. by apply Forall_app.
Qed.

Lemma s3_UploadPart_listed o s key id n data s' p : s3_UploadPart d o s key id n data = (s', Ok p) ->
  exists u, cupload s' bucket id = Some u /\ up_key u = key /\ listed s' id u p /\ pn_Number p = n /\ 1 <= n <= MaxPartsPerUpload.
Proof.
  unfold s3_UploadPart. destruct (_ || _) eqn:En; [done|]. zbool. destruct (PutObjectPart _ _ _ _ _ _ _) as [s1 [q|c]] eqn:Ep; [|done].
  intros [= <- <-]. destruct (PutObjectPart_law _ _ _ _ _ _ _ _ _ Ep) as (_ & _ & Hn & Hsz & He & u & Hu & Hk & Hu'); [lia|].
  eexists. split; [exact Hu'|]. cbn [up_key]. split_and!; [done| |done|lia|lia]. apply part_of_listed.
  exists data. cbn [up_parts]. rewrite Hn, lookup_insert_eq. done.
Qed.

(** ** The contract *)

Lemma s3_same_keys pre tn1 t1 p1 b1 tn2 t2 p2 b2 : valid_position tn1 t1 b1 -> valid_position tn2 t2 b2 ->
  SegmentKeyTenant pre tn1 t1 p1 b1 = SegmentKeyTenant pre tn2 t2 p2 b2 -> tn1 = tn2 /\ t1 = t2 /\ p1 = p2 /\ b1 = b2.
Proof. intros H1 H2 E. apply (fs_same_keys pre); [done..|]. by rewrite E. Qed.

Lemma s3_Get_spec o s key data : s3_Get d o s key = Ok data -> exists meta, cobject s bucket key = Some (data, meta).
Proof.
  unfold s3_Get. destruct (GetObject _ _ _ _) as [x|c] eqn:E; [|by destruct (notFound c)].
  intros [= <-]. by eapply GetObject_law.
Qed.

Lemma s3_Stat_spec o s key i : s3_Stat d o s key = Ok i ->
  exists data meta, cobject s bucket key = Some (data, meta) /\ oi_Size i = zlen data /\ (true = true -> oi_Metadata i = meta).
Proof.
  unfold s3_Stat. destruct (StatObject _ _ _ _) as [x|c] eqn:E; [|by destruct (notFound c)].
  intros [= <-]. destruct (StatObject_law _ _ _ _ _ E) as (data & meta & ? & ? & ?). exists data, meta. cbn.
  split_and!; [done..|]. intros _. by apply lower_metadata_eq.
Qed.

Lemma putOptions_meta meta : default ∅ (po_UserMetadata (putOptions d meta)) = meta.
Proof. cbn. case_bool_decide; by subst. Qed.

Lemma s3_Create_spec o id s key meta s' r : s3_CreateMultipart d o id s key meta = (s', r) -> cupload s bucket id = None -> lower_keys meta ->
  (forall k, cobject s' bucket k = cobject s bucket k) /\ (forall i, i <> id -> cupload s' bucket i = cupload s bucket i) /\
  (forall i, r = Ok i -> i = id /\ id <> "" /\ cupload s' bucket id = Some (mkUpload key meta ∅)).
Proof.
  unfold s3_CreateMultipart. destruct (NewMultipartUpload _ _ _ _ _ _) as [s1 r1] eqn:E. intros H Hn Hl.
  destruct (NewMultipartUpload_law _ _ _ _ _ _ _ _ E Hn) as (Ho & Hi & Hok). rewrite putOptions_meta in Hok.
  destruct r1 as [i|c]; injection H as <- <-; split_and!; try done.
  intros i' [= <-]. destruct (Hok i eq_refl) as (-> & ? & m & Hu & Hm). by rewrite Hu, Hm.
Qed.

Lemma s3_UploadPart_spec o s key id n data s' r : s3_UploadPart d o s key id n data = (s', r) ->
  (forall k, cobject s' bucket k = cobject s bucket k) /\ (forall i, i <> id -> cupload s' bucket i = cupload s bucket i) /\
  (forall p, r = Ok p -> pn_Number p = n /\ pn_Size p = zlen data /\
     exists u, cupload s bucket id = Some u /\ cupload s' bucket id = Some (mkUpload (up_key u) (up_meta u) (<[n := data]> (up_parts u)))) /\
  (is_ok r = false -> perhaps_stored n data (cupload s bucket id) (cupload s' bucket id)).
Proof.
  unfold s3_UploadPart. destruct (_ || _) eqn:En; [intros [= <- <-]; split_and!; [done..|intros _; by left]|]. zbool.
  destruct (PutObjectPart _ _ _ _ _ _ _) as [s1 r1] eqn:E. intros Heq.
  destruct (PutObjectPart_law _ _ _ _ _ _ _ _ _ E) as (Ho & Hi & Hr); [lia|].
  destruct r1 as [p|c]; injection Heq as <- <-; split_and!; try done.
  intros p' [= <-]. destruct Hr as (? & ? & _ & u & ? & _ & ?). cbn. split_and!; [done..|]. by exists u.
Qed.

Lemma s3_ListParts_spec o s key id ps : s3_ListParts d o s key id = Ok ps ->
  exists u, cupload s bucket id = Some u /\
    Forall (fun p => exists data, up_parts u !! pn_Number p = Some data /\ pn_Size p = zlen data) ps.
Proof.
  intros (u & qs & Hu & -> & Hq)%list_pages_listed. exists u. split; [done|]. eapply Forall_impl; [exact Hq|].
  intros p (c & ? & ? & _). by exists c.
Qed.

Lemma s3_Complete_spec o s key id ps s' r : s3_CompleteMultipart d o s key id ps = (s', r) -> StronglySorted Z.lt (map pn_Number ps) ->
  (forall k, k = key \/ cobject s' bucket k = cobject s bucket k) /\ (forall i, i <> id -> cupload s' bucket i = cupload s bucket i) /\
  shrunk (cupload s bucket id) (cupload s' bucket id) /\
  (((forall k, cobject s' bucket k = cobject s bucket k) /\ r <> Ok tt) \/
   exists u chunks meta, cupload s bucket id = Some u /\ Forall2 (fun p c => up_parts u !! pn_Number p = Some c) ps chunks /\
     (forall k, k = key -> cobject s' bucket k = Some (concat chunks, meta)) /\
     (true = true -> meta !! "sha256" = up_meta u !! "sha256")).
Proof.
  unfold s3_CompleteMultipart. destruct (CompleteMultipartUpload _ _ _ _ _ _) as [s1 r1] eqn:E. intros H Hs.
  destruct (CompleteMultipartUpload_law _ _ _ _ _ _ _ _ E) as (Ho & Hi & Hsh & Hc); [by rewrite map_map|].
  assert (s' = s1 /\ (r = Ok tt -> r1 = SvcOk tt)) as [-> Hr] by (destruct r1 as [[]|c]; by injection H as <- <-).
  split_and!; [done..|]. destruct Hc as [[? Hne]|(u & chunks & Hu & Hf & Hobj)]; [left; by auto|right].
  exists u, chunks, (up_meta u). split_and!; [done| |by intros k ->|done]. clear - Hf. remember (map _ ps) as cs eqn:Ecs. revert ps Ecs.
  induction Hf as [|c x cs xs Hc _ IH]; intros [|p ps] Ecs; try done. injection Ecs as -> Ecs. constructor; [done|by apply IH].
Qed.

Lemma s3_Abort_spec o s key id s' r : s3_AbortMultipart d o s key id = (s', r) -> id <> "" ->
  (forall k, cobject s' bucket k = cobject s bucket k) /\ (forall i, i <> id -> cupload s' bucket i = cupload s bucket i) /\
  shrunk (cupload s bucket id) (cupload s' bucket id).
Proof.
  unfold s3_AbortMultipart. destruct (AbortMultipartUpload _ _ _ _ _) as [s1 r1] eqn:E. intros [= <- <-] Hid.
  by destruct (AbortMultipartUpload_law _ _ _ _ _ _ _ E Hid) as (? & ? & ?).
Qed.

#[export] Instance s3_laws : @StoreLaws S (nat -> io) (s3_store d) :=
  Build_StoreLaws S (nat -> io) (s3_store d) (fun s k => cobject s bucket k) (fun s id => cupload s bucket id) eq (fun _ => true)
    (fun _ => eq_refl) s3_same_keys (fun o => s3_Get_spec (o 0%nat)) (fun o => s3_Stat_spec (o 0%nat))
    (fun o => s3_Create_spec (o 0%nat)) (fun o => s3_UploadPart_spec (o 0%nat)) s3_ListParts_spec
    (fun o => s3_Complete_spec (o 0%nat)) (fun o => s3_Abort_spec (o 0%nat)).
End driver.
