(* ===== verification/S3Props.v ===== *)
(** * What the S3 driver guarantees

    Parts that were uploaded are found again, page by page and tag by tag; an
    upload through the driver archives the segment; the settings of the driver mean
    what they say.  A small service shows that what is assumed of S3 can hold. *)

From S2P Require Import Prelude Bytes Names Log LogRecover Manifest Cache ObjStore Uploader UploaderFacts UploaderProps GoText S3 S3Facts.

#[local] Open Scope Z_scope.

#[local] Abbreviation ukey := ObjStore.up_key.

(** ** A small service

    Objects and uploads by bucket and name; pages of two parts; tags quoted in
    listings only; metadata keys that come back capitalised.  A call works, works
    while its answer is lost, or does not arrive. *)

Record service := mkService { sv_objects : gmap (string * string) (list byte * gmap string string); sv_uploads : gmap (string * string) Upload }.
Inductive call := Works | Lost | Down.

Definition answer {A} (o : call) (a : A) : svc A := match o with Works => SvcOk a | _ => SvcErr "RequestTimeout" end.
Definition arrives (o : call) : bool := match o with Works => true | _ => false end.
Definition effect (o : call) (s s' : service) : service := match o with Down => s | _ => s' end.

Definition tag (n : Z) : string := if Z.even n then "9bb58f26" else "d41d8cd9".
Definition quoted (e : string) : string := String "034" (e +:+ String "034" "").
Definition cap (k : string) : string := match k with "" => "" | String c k => String (upper_char c) k end.

Definition sv_StatObject (o : call) (s : service) (b key : string) : svc s3_info :=
  match sv_objects s !! (b, key) with
  | None => SvcErr "NoSuchKey"
  | Some (data, meta) =>
      if bool_decide (map_Forall (fun k _ => ToLower (cap k) = k) meta)
      then answer o (mkS3Info (zlen data) (quoted "0cc175b9") (map (fun kv => (cap kv.1, kv.2)) (map_to_list meta)))
      else SvcErr "InternalError"
  end.
Definition sv_GetObject (o : call) (s : service) (b key : string) : svc (list byte) :=
  match sv_objects s !! (b, key) with None => SvcErr "NoSuchKey" | Some (data, _) => answer o data end.
Definition sv_RemoveObject (o : call) (s : service) (b key : string) : service * svc unit :=
  (effect o s (mkService (delete (b, key) (sv_objects s)) (sv_uploads s)), answer o tt).
Definition sv_NewMultipartUpload (o : call) (id : string) (s : service) (b key : string) (opts : s3_put) : service * svc string :=
  if String.eqb id "" then (s, SvcErr "InternalError")
  else (effect o s (mkService (sv_objects s) (<[(b, id) := mkUpload key (default ∅ (po_UserMetadata opts)) ∅]> (sv_uploads s))), answer o id).

Definition sv_with (s : service) (b key id : string) : option Upload :=
  u ← sv_uploads s !! (b, id); if String.eqb (ukey u) key then Some u else None.

Definition sv_PutObjectPart (o : call) (s : service) (b key id : string) (n : Z) (data : list byte) : service * svc s3_part :=
  match sv_with s b key id with
  | None => (s, SvcErr "NoSuchUpload")
  | Some u => (effect o s (mkService (sv_objects s) (<[(b, id) := mkUpload (ukey u) (up_meta u) (<[n := data]> (up_parts u))]> (sv_uploads s))),
               answer o (mkS3Part n (tag n) (zlen data)))
  end.

(** The numbers of the parts that are after [marker], sorted. *)
Definition sv_numbers (marker : Z) (u : Upload) : list Z :=
  merge_sort Z.le (filter (fun n => marker < n /\ 1 <= n <= MaxPartsPerUpload) (map_to_list (up_parts u)).*1).

Definition sv_ListObjectParts (o : call) (s : service) (b key id : string) (marker limit : Z) : svc s3_page :=
  match sv_with s b key id with
  | None => SvcErr "NoSuchUpload"
  | Some u =>
      let ns := sv_numbers marker u in
      let page := take (Z.to_nat (Z.max 1 (Z.min limit 2))) ns in
      answer o (mkS3Page (map (fun n => mkS3Part n (quoted (tag n)) (zlen (default [] (up_parts u !! n)))) page)
        (bool_decide (page <> ns)) (default marker (last page)))
  end.

Fixpoint sv_assemble (u : Upload) (cs : list s3_done) : option (list (list byte)) :=
  match cs with
  | [] => Some []
  | c :: cs =>
      x ← up_parts u !! cp_PartNumber c; xs ← sv_assemble u cs;
      if String.eqb (cp_ETag c) (tag (cp_PartNumber c)) then Some (x :: xs) else None
  end.
Definition sv_CompleteMultipartUpload (o : call) (s : service) (b key id : string) (cs : list s3_done) : service * svc unit :=
  match sv_with s b key id with
  | None => (s, SvcErr "NoSuchUpload")
  | Some u =>
      match sv_assemble u cs with
      | None => (s, SvcErr "InvalidPart")
      | Some xs => (effect o s (mkService (<[(b, key) := (concat xs, up_meta u)]> (sv_objects s)) (delete (b, id) (sv_uploads s))), answer o tt)
      end
  end.
Definition sv_AbortMultipartUpload (o : call) (s : service) (b key id : string) : service * svc unit :=
  match sv_with s b key id with
  | None => (s, SvcErr "NoSuchUpload")
  | Some _ => (effect o s (mkService (sv_objects s) (delete (b, id) (sv_uploads s))), answer o tt)
  end.

#[export] Instance sv_core : S3Core service call := {
  StatObject := sv_StatObject; GetObject := sv_GetObject; RemoveObject := sv_RemoveObject; NewMultipartUpload := sv_NewMultipartUpload;
  PutObjectPart := sv_PutObjectPart; ListObjectParts := sv_ListObjectParts; CompleteMultipartUpload := sv_CompleteMultipartUpload;
  AbortMultipartUpload := sv_AbortMultipartUpload
}.

(** ** The service is one *)

Lemma tag_bare n : bare (tag n).
Proof. unfold tag. destruct (Z.even n); by split. Qed.

Lemma sv_with_Some s b key id u : sv_with s b key id = Some u -> sv_uploads s !! (b, id) = Some u /\ ukey u = key.
Proof. unfold sv_with. destruct (sv_uploads s !! _) as [x|]; [|done]. cbn. destruct (String.eqb_spec (ukey x) key); [|done]. by intros [= <-]. Qed.

Lemma shrunk_None u : shrunk u None.
Proof. by intros ?. Qed.

Lemma sv_numbers_after marker u : sv_numbers marker u = numbers_after marker u.
Proof.
  assert (forall l, StronglySorted Z.lt l -> StronglySorted Z.le l /\ NoDup l) as Hlt.
  { induction 1 as [|x l _ [??] Hx]; split; constructor; auto; [eapply List.Forall_impl; [|exact Hx]; cbn; lia|].
    intros Hin%list_elem_of_In. rewrite List.Forall_forall in Hx. specialize (Hx x Hin). lia. }
  destruct (Hlt (numbers_after marker u)) as [Hs Hn]; [apply StronglySorted_filter_lt, part_numbers_sorted|].
  apply (StronglySorted_unique Z.le); [apply StronglySorted_merge_sort; apply _|done|].
  unfold sv_numbers. rewrite merge_sort_Permutation. apply NoDup_Permutation; [apply NoDup_filter, NoDup_fst_map_to_list|done|].
  intros n. unfold numbers_after. rewrite !list_elem_of_filter, elem_of_part_numbers, list_elem_of_fmap. split.
  - intros [[??] ([n' c] & -> & Hc%elem_of_map_to_list)]. split_and!; [done|by eexists|lia..].
  - intros (? & [c Hc] & ?). split; [done|]. exists (n, c). split; [done|]. by apply elem_of_map_to_list.
Qed.

Lemma sv_headers (meta : gmap string string) : map_Forall (fun k _ => ToLower (cap k) = k) meta ->
  headers_of meta (map (fun kv => (cap kv.1, kv.2)) (map_to_list meta)).
Proof.
  intros Hk k v. split.
  - intros H. exists (cap k). split; [|by apply (Hk k v)]. apply in_map_iff. exists (k, v). split; [done|]. by apply list_elem_of_In, elem_of_map_to_list.
  - intros (k' & ([k0 v0] & [= <- <-] & Hin%list_elem_of_In%elem_of_map_to_list)%in_map_iff & <-). by rewrite (Hk k0 v0 Hin).
Qed.

Lemma sv_assemble_chunks u cs : forall xs, sv_assemble u cs = Some xs -> Forall2 (fun c x => up_parts u !! cp_PartNumber c = Some x) cs xs.
Proof.
  induction cs as [|c cs IH]; cbn; intros xs H; [injection H as <-; constructor|].
  destruct (up_parts u !! _) as [x|] eqn:E; [|done]. cbn in H. destruct (sv_assemble u cs) as [xs'|]; [|done]. cbn in H.
  destruct (String.eqb _ _); [|done]. injection H as <-. constructor; auto.
Qed.

#[local] Ltac frame := first [done | by intros; cbn; rewrite lookup_insert_ne by congruence | by intros; cbn; rewrite lookup_delete_ne by congruence].

Lemma sv_New_law o id s b key opts s' r : sv_NewMultipartUpload o id s b key opts = (s', r) -> sv_uploads s !! (b, id) = None ->
  (forall k, sv_objects s' !! (b, k) = sv_objects s !! (b, k)) /\ (forall i, i <> id -> sv_uploads s' !! (b, i) = sv_uploads s !! (b, i)) /\
  forall i, r = SvcOk i -> i = id /\ id <> "" /\
    exists meta, sv_uploads s' !! (b, id) = Some (mkUpload key meta ∅) /\
      (lower_keys (default ∅ (po_UserMetadata opts)) -> meta = default ∅ (po_UserMetadata opts)).
Proof.
  unfold sv_NewMultipartUpload. intros E _. destruct (String.eqb_spec id "") as [|Hid]; [by injection E as <- <-|].
  destruct o; injection E as <- <-; (split_and!; [frame..|]); intros i [= <-].
  split_and!; [done..|]. eexists. cbn. by rewrite lookup_insert_eq.
Qed.

Lemma sv_Put_law o s b key id n data s' r : sv_PutObjectPart o s b key id n data = (s', r) ->
  (forall k, sv_objects s' !! (b, k) = sv_objects s !! (b, k)) /\ (forall i, i <> id -> sv_uploads s' !! (b, i) = sv_uploads s !! (b, i)) /\
  match r with
  | SvcOk p => sp_PartNumber p = n /\ sp_Size p = zlen data /\ etag_form (tag n) (sp_ETag p) /\
      exists u, sv_uploads s !! (b, id) = Some u /\ ukey u = key /\
        sv_uploads s' !! (b, id) = Some (mkUpload (ukey u) (up_meta u) (<[n := data]> (up_parts u)))
  | SvcErr _ => perhaps_stored n data (sv_uploads s !! (b, id)) (sv_uploads s' !! (b, id))
  end.
Proof.
  unfold sv_PutObjectPart. destruct (sv_with s b key id) as [u|] eqn:Eu; [|intros [= <- <-]; split_and!; [done..|by left]].
  apply sv_with_Some in Eu as [Eu Hk]. destruct o; intros [= <- <-]; (split; [frame|split; [frame|]]); cbn [effect answer].
  - split_and!; [done|done|by left|]. exists u. cbn. by rewrite lookup_insert_eq.
  - right. exists u. cbn. by rewrite lookup_insert_eq.
  - by left.
Qed.

Lemma sv_List_law o s b key id marker limit page : sv_ListObjectParts o s b key id marker limit = SvcOk page ->
  exists u rest, sv_uploads s !! (b, id) = Some u /\ numbers_after marker u = map sp_PartNumber (pg_ObjectParts page) ++ rest /\
    Forall (fun p => exists c, up_parts u !! sp_PartNumber p = Some c /\ sp_Size p = zlen c /\
              etag_form (tag (sp_PartNumber p)) (sp_ETag p)) (pg_ObjectParts page) /\
    (if pg_IsTruncated page then last (map sp_PartNumber (pg_ObjectParts page)) = Some (pg_NextPartNumberMarker page) else rest = []).
Proof.
  unfold sv_ListObjectParts. destruct (sv_with s b key id) as [u|] eqn:Eu; [|done]. apply sv_with_Some in Eu as [Eu _].
  rewrite sv_numbers_after. set (n := Z.to_nat _). destruct o; intros [= <-]. exists u, (drop n (numbers_after marker u)). cbn.
  rewrite map_map. cbn. rewrite map_id, take_drop. split_and!; [done|done| |].
  - apply Forall_map, Forall_forall. intros x Hx. apply (subseteq_take n) in Hx. cbn.
    apply list_elem_of_filter in Hx as [_ [[c Hc] _]%elem_of_part_numbers]. exists c. rewrite Hc. split_and!; [done..|by right].
  - case_bool_decide as Hne.
    + destruct (numbers_after marker u) as [|x ns]; [by destruct n|]. assert (exists n', n = Datatypes.S n') as [n' ->] by (exists (pred n); lia).
      cbn [take]. by destruct (last (x :: take n' ns)) eqn:El; [|apply last_None in El].
    + apply (f_equal length) in Hne. rewrite length_take in Hne. apply drop_ge. lia.
Qed.

Lemma sv_Complete_law o s b key id cs s' r : sv_CompleteMultipartUpload o s b key id cs = (s', r) ->
  (forall k, k = key \/ sv_objects s' !! (b, k) = sv_objects s !! (b, k)) /\
  (forall i, i <> id -> sv_uploads s' !! (b, i) = sv_uploads s !! (b, i)) /\
  shrunk (sv_uploads s !! (b, id)) (sv_uploads s' !! (b, id)) /\
  (((forall k, sv_objects s' !! (b, k) = sv_objects s !! (b, k)) /\ r <> SvcOk tt) \/
   exists u chunks, sv_uploads s !! (b, id) = Some u /\ Forall2 (fun c x => up_parts u !! cp_PartNumber c = Some x) cs chunks /\
     sv_objects s' !! (b, key) = Some (concat chunks, up_meta u)).
Proof.
  assert (forall r', (s, r') = (s', r) -> r' <> SvcOk tt -> (forall k, k = key \/ sv_objects s' !! (b, k) = sv_objects s !! (b, k)) /\
    (forall i, i <> id -> sv_uploads s' !! (b, i) = sv_uploads s !! (b, i)) /\
    shrunk (sv_uploads s !! (b, id)) (sv_uploads s' !! (b, id)) /\
    (forall k, sv_objects s' !! (b, k) = sv_objects s !! (b, k)) /\ r <> SvcOk tt) as Hnop.
  { intros r' [= <- <-] ?. split_and!; try done; [by right|apply shrunk_refl]. }
  unfold sv_CompleteMultipartUpload. destruct (sv_with s b key id) as [u|] eqn:Eu; [|intros E; by destruct (Hnop _ E) as (?&?&?&?); auto].
  destruct (sv_assemble u cs) as [xs|] eqn:Ex; [|intros E; by destruct (Hnop _ E) as (?&?&?&?); auto].
  apply sv_with_Some in Eu as [Eu Hk]. apply sv_assemble_chunks in Ex.
  destruct o; [| |intros E; by destruct (Hnop _ E) as (?&?&?&?); auto]; intros [= <- <-]; clear Hnop; cbn;
    (split_and!; [intros k; destruct (decide (k = key)); [by left|right; rewrite lookup_insert_ne by congruence; done]|frame|
       rewrite lookup_delete_eq; apply shrunk_None|right; exists u, xs; by rewrite lookup_insert_eq]).
Qed.

Lemma sv_Abort_law o s b key id s' r : sv_AbortMultipartUpload o s b key id = (s', r) ->
  (forall k, sv_objects s' !! (b, k) = sv_objects s !! (b, k)) /\ (forall i, i <> id -> sv_uploads s' !! (b, i) = sv_uploads s !! (b, i)) /\
  shrunk (sv_uploads s !! (b, id)) (sv_uploads s' !! (b, id)).
Proof.
  unfold sv_AbortMultipartUpload. destruct (sv_with s b key id) as [u|]; [|intros [= <- <-]; split_and!; [done..|apply shrunk_refl]].
  destruct o; intros [= <- <-]; (split_and!; [frame..|]); cbn; rewrite ?lookup_delete_eq; [apply shrunk_None..|apply shrunk_refl].
Qed.

#[export] Program Instance sv_laws : S3CoreLaws service call := {|
  cobject s b k := sv_objects s !! (b, k);
  cupload s b id := sv_uploads s !! (b, id);
  cetag s b id n := tag n;
  canswers := arrives;
  cetag_bare _ _ _ := tag_bare
|}.
Next Obligation.
  intros o s b key data. cbn. unfold sv_GetObject. destruct (sv_objects s !! _) as [[x meta]|]; [|done]. destruct o; intros [= <-]. by exists meta.
Qed.
Next Obligation.
  intros o s b key i. cbn. unfold sv_StatObject. destruct (sv_objects s !! _) as [[x meta]|]; [|done]. case_bool_decide; [|done].
  destruct o; intros [= <-]. exists x, meta. split_and!; [done..|]. by apply sv_headers.
Qed.
Next Obligation. exact sv_New_law. Qed.
Next Obligation. intros. by eapply sv_Put_law. Qed.
Next Obligation.
  intros o s b key id marker limit u. cbn. unfold sv_ListObjectParts, sv_with. intros Ho -> <- _. cbn. rewrite String.eqb_refl.
  destruct o; try done. by eexists.
Qed.
Next Obligation. exact sv_List_law. Qed.
Next Obligation. intros. by eapply sv_Complete_law. Qed.
Next Obligation. intros. by eapply sv_Abort_law. Qed.

(** ** Uploaded parts are found again *)

Lemma listed_eq {S io} `{S3CoreLaws S io} d (s : S) id u p q : listed d s id u p -> listed d s id u q -> pn_Number p = pn_Number q -> p = q.
Proof.
  destruct p, q. intros (c & Hc & Hs & He) (c' & Hc' & Hs' & He') Hn. cbn in *. subst. rewrite Hc in Hc'. by injection Hc' as <-.
Qed.

(** C31: A part that was accepted is what a later listing finds: on any service
    that keeps what S3 documents, when the calls of the listing are answered,
    [ListParts] returns, after as many pages as it takes, every part of the upload
    in ascending order, and among them the very part [UploadPart] returned, with
    its number, its size and its tag, whichever of the two calls puts quotes around
    tags. *)
Theorem s3_upload_listed {S io} `{S3CoreLaws S io} d o o' (s : S) key id n data s' p :
  s3_UploadPart d o s key id n data = (s', Ok p) -> (forall k, canswers (o' k) = true) ->
  exists u ps, cupload s' (s3_bucket d) id = Some u /\ s3_ListParts d o' s' key id = Ok ps /\ In p ps /\
    map pn_Number ps = part_numbers u /\ Forall (listed d s' id u) ps.
Proof.
  intros Hup Ho. destruct (s3_UploadPart_listed _ _ _ _ _ _ _ _ _ Hup) as (u & Hu & Hk & Hp & Hn & Hr).
  destruct (s3_ListParts_all d s' key id u o' Hu Hk Ho) as (ps & Hl & Hns & Hf). exists u, ps. split_and!; [done..| |done|done].
  assert (In n (map pn_Number ps)) as (q & Hq & Hin)%in_map_iff.
  { rewrite Hns. apply list_elem_of_In, elem_of_part_numbers. split; [|done]. destruct Hp as (c & Hc & _). rewrite Hn in Hc. by eexists. }
  rewrite List.Forall_forall in Hf. rewrite (listed_eq d s' id u p q); [done|done|by apply Hf|congruence].
Qed.

Definition sv_cfg (endpoint : string) (insecure skip : bool) : S3Config :=
  mkS3Config "archive" endpoint "eu" "path" "AK" "SK" "" insecure "" skip "".
Definition sv_driver : S3 := mkS3 (sv_cfg "" false false) "s3.amazonaws.com" (mkS3Options (StaticV4 "AK" "SK" "") true "eu" BucketLookupPath None).

(** Five parts, listed in three pages; the third is uploaded again. *)
Definition sv_five : service :=
  mkService ∅ {[ ("archive", "u1") := mkUpload "k" ∅ (list_to_map (map (fun n => (n, [x01])) [1; 2; 3; 4; 5])) ]}.

Lemma s3_upload_listed_witness :
  let '(s', r) := s3_UploadPart sv_driver Works sv_five "k" "u1" 3 [x01; x02] in
  r = Ok (mkObjPart 3 "d41d8cd9" 2) /\
  exists u ps, cupload s' "archive" "u1" = Some u /\ s3_ListParts sv_driver (fun _ => Works) s' "k" "u1" = Ok ps /\
    In (mkObjPart 3 "d41d8cd9" 2) ps /\ map pn_Number ps = part_numbers u /\ Forall (listed sv_driver s' "u1" u) ps.
Proof.
  destruct (s3_UploadPart sv_driver Works sv_five "k" "u1" 3 [x01; x02]) as [s' r] eqn:E.
  assert (r = Ok (mkObjPart 3 "d41d8cd9" 2)) as -> by (change r with (s', r).2; rewrite <- E; vm_compute; reflexivity).
  split; [reflexivity|]. apply (s3_upload_listed sv_driver Works (fun _ => Works) sv_five "k" "u1" 3 [x01; x02] s'); [exact E|reflexivity].
Defined.

Example five_parts_three_pages :
  (ps ← s3_ListParts sv_driver (fun _ => Works) sv_five "k" "u1"; Ok (map pn_Number ps)) = Ok [1; 2; 3; 4; 5] /\
  s3_ListParts sv_driver (fun k => if decide (k = 2%nat) then Down else Works) sv_five "k" "u1" = Err (EMsg "RequestTimeout") /\
  s3_ListParts sv_driver (fun _ => Works) sv_five "k" "u2" = Err (ESentinel ErrNotFound).
Proof. vm_compute. split_and!; reflexivity. Qed.

(** ** Archiving to S3 *)

(** The uploader over the S3 driver: if an upload reports success, the object
    in the bucket is the segment that was hashed and the manifest has its entry;
    it always returns, and changes no other object. *)
Theorem s3_archives {S io} `{S3CoreLaws S io} d sha256 mac cfg seg (e : upload_env (io := nat -> io)) data (s : S) m s' m' r :
  (forall x y, sha256 x = sha256 y -> x = y) -> 0 < uc_PartSize cfg ->
  valid_position (source_tenant cfg seg) (ss_Topic seg) (ss_BaseOffset seg) ->
  archive_inv (Hlaws := s3_laws d) sha256 cfg s m -> unknown (Hlaws := s3_laws d) s m (ue_id e) -> ue_file e = Some data ->
  Manifest_Lookup m (ss_Topic seg) (ss_Partition seg) (ss_BaseOffset seg) = None ->
  uploadOne (H := s3_store d) sha256 mac cfg e seg s m = (s', m', r) ->
  archive_inv (Hlaws := s3_laws d) sha256 cfg s' m' /\ r <> Diverge /\
  (forall k, k = source_key cfg seg \/ cobject s' (s3_bucket d) k = cobject s (s3_bucket d) k) /\
  (r = Ok tt -> exists meta size, cobject s' (s3_bucket d) (source_key cfg seg) = Some (data, meta) /\ zlen data <= size /\
     Manifest_Lookup m' (ss_Topic seg) (ss_Partition seg) (ss_BaseOffset seg) = Some (entry_of mac cfg e seg size (sha256 data))).
Proof.
  intros Hinj Hps Hv Hinv Hfr Hfile Hl Hup.
  by destruct (uploadOne_spec (Hlaws := s3_laws d) sha256 mac cfg Hinj Hps seg e data Hv s m s' m' r Hinv Hfr Hfile Hl Hup).
Qed.

(** The sample upload, interrupted after its first part, resumed on S3: the first
    part is not sent again. *)
Definition s3_env : upload_env (io := nat -> call) :=
  mkUploadEnv (Some up_data) true true (true, true) (fun _ => Works) (fun _ => Works) "u2" (fun n _ => if n =? 1 then Down else Works)
    (fun _ => true) (fun _ => Works) (fun _ => Works) (fun _ => true) true true (true, true) 50.
Definition s3_interrupted : service :=
  mkService ∅ {[ ("archive", "u1") := mkUpload up_key (object_meta up_seg (hex_sha up_data)) {[ 1 := take 4 up_data ]} ]}.

Example s3_resumed :
  let '(s', _, r) := uploadOne (H := s3_store sv_driver) hex_sha toy_mac (up_cfg 4) s3_env up_seg s3_interrupted up_manifest in
  r = Ok tt /\ s3_Get sv_driver Works s' up_key = Ok up_data /\
  (i ← s3_Stat sv_driver Works s' up_key; Ok (oi_Size i, oi_ETag i, oi_Metadata i !! "sha256")) = Ok (9, "0cc175b9", Some (hex_sha up_data)).
Proof. vm_compute. split_and!; reflexivity. Qed.

(** The service stores the part but its answer is lost: the upload fails, and the
    next sweep starts afresh. *)
Example s3_answer_lost :
  let '(s', r) := s3_UploadPart sv_driver Lost s3_interrupted up_key "u1" 2 [x05] in
  r = Err (EMsg "RequestTimeout") /\ is_Some (u ← sv_uploads s' !! ("archive", "u1"); up_parts u !! 2).
Proof. vm_compute. split; [reflexivity|by eexists]. Qed.

(** ** Settings *)

Lemma s3_endpoint_secure cfg : (s3_endpoint cfg).2 = negb (sc_Insecure cfg || String.prefix "http://" (sc_Endpoint cfg)).
Proof.
  unfold s3_endpoint. destruct (String.eqb_spec (sc_Endpoint cfg) "") as [->|_]; [by destruct (sc_Insecure cfg)|].
  destruct (String.prefix "http://" _); [by destruct (sc_Insecure cfg)|]. destruct (String.prefix "https://" _); by destruct (sc_Insecure cfg).
Qed.

(** A driver that was built reaches its bucket with the settings it was given:
    plain HTTP only when it was asked for, by setting or by scheme; a certificate is
    left unverified only when that was asked for; the given certificates are the
    ones that are trusted; and keys that were given are the ones that are used. *)
Theorem NewS3_settings n cfg d : NewS3 n cfg = Ok d ->
  s3_bucket d = sc_Bucket cfg /\ sc_Bucket cfg <> "" /\ nt_BucketExists n (s3_addr d) (s3_opts d) (sc_Bucket cfg) = Ok true /\
  so_Secure (s3_opts d) = negb (sc_Insecure cfg || String.prefix "http://" (sc_Endpoint cfg)) /\
  (forall t, so_TLS (s3_opts d) = Some t -> st_InsecureSkipVerify t = sc_SkipVerify cfg) /\
  (so_Secure (s3_opts d) = true -> sc_CAFile cfg <> "" -> exists pem, nt_ReadFile n (sc_CAFile cfg) = Ok pem /\
     nt_AppendCertsFromPEM n pem = true /\ so_TLS (s3_opts d) = Some (mkS3Tls (sc_SkipVerify cfg) (Some pem))) /\
  (sc_AccessKey cfg <> "" -> sc_SecretKey cfg <> "" /\ so_Creds (s3_opts d) = StaticV4 (sc_AccessKey cfg) (sc_SecretKey cfg) (sc_SessionToken cfg)).
Proof.
  unfold NewS3. destruct (String.eqb_spec (sc_Bucket cfg) "") as [|Hb]; [done|]. pose proof (s3_endpoint_secure cfg) as Hs.
  destruct (s3_endpoint cfg) as [ep secure]. cbn in Hs. destruct (s3_lookup cfg) as [lk| | |]; try done.
  destruct (buildCredentials cfg) as [cr| | |] eqn:Ec; try done. destruct (s3_transport n cfg secure) as [tr| | |] eqn:Et; try done. cbn.
  destruct (nt_NewCore _ _ _); [done|]. destruct (nt_BucketExists _ _ _ _) as [[]| | |] eqn:Ee; try done. cbn. intros [= <-].
  unfold s3_bucket. cbn. split_and!; try done; clear Hs Ee.
  - unfold s3_transport in Et. intros t ->. destruct (_ && _); [|done]. destruct (negb _); [|by injection Et as <-].
    destruct (nt_ReadFile _ _); try done. cbn in Et. destruct (nt_AppendCertsFromPEM _ _); [|done]. by injection Et as <-.
  - unfold s3_transport in Et. intros -> Hca. apply String.eqb_neq in Hca. rewrite Hca in Et. cbn in Et.
    destruct (nt_ReadFile _ _) as [pem| | |]; try done. cbn in Et. destruct (nt_AppendCertsFromPEM n pem) eqn:Ep; [|done].
    injection Et as <-. by exists pem.
  - unfold buildCredentials in Ec. intros Hk. apply String.eqb_neq in Hk. rewrite Hk in Ec. cbn in Ec.
    destruct (String.eqb_spec (sc_SecretKey cfg) ""); [done|]. by injection Ec as <-.
Qed.

Example endpoints :
  s3_endpoint (sv_cfg "https://s3.eu.example.com/" false false) = ("s3.eu.example.com", true) /\
  s3_endpoint (sv_cfg "http://localhost:9000" false false) = ("localhost:9000", false) /\
  s3_endpoint (sv_cfg "https://minio:9000" true false) = ("minio:9000", false) /\
  s3_endpoint (sv_cfg "HTTPS://minio:9000" false false) = ("HTTPS://minio:9000", true).
Proof. vm_compute. split_and!; reflexivity. Qed.
