(* ===== verification/Webhook.v ===== *)
(** * The webhook forwarder (internal/webhook/forwarder.go)

    Records of a topic are posted to an endpoint; a record whose attempts are
    exhausted is parked in a dead-letter file of JSON lines, which an operator can
    have redelivered.  The JSON encodings are a class with its laws; what the
    network and the disk do is an argument of each operation. *)

From stdpp Require Import pretty.
From S2P Require Import Prelude Bytes Names Text GoText Log LogRecover Manifest Cache.

#[local] Open Scope Z_scope.

(** ** Data *)

Record Subscription := mkSub {
  sb_Topic : string;
  sb_URL : string;
  sb_Method : string;
  sb_Headers : list (string * string);    (* in the order the map yields them *)
  sb_FilterEventType : string;
  sb_AutoOffsetReset : string;
  sb_GroupID : string
}.

Record WebhookConfig := mkWebhooks { wc_FormatVersion : Z; wc_Subscriptions : list Subscription }.

Record WRecord := mkWRecord {
  wr_Topic : string;
  wr_Partition : Z;
  wr_Offset : Z;
  wr_Key : list byte;
  wr_Value : list byte;
  wr_Timestamp : Z
}.

Record dlqEntry := mkDlq {
  de_Topic : string;
  de_Partition : Z;
  de_Offset : Z;
  de_Key : list byte;
  de_Value : list byte;
  de_Timestamp : Z;
  de_FailedAt : Z;
  de_LastError : string
}.

Definition entry_record (e : dlqEntry) : WRecord :=
  mkWRecord (de_Topic e) (de_Partition e) (de_Offset e) (de_Key e) (de_Value e) (de_Timestamp e).

Record stats := mkStats { st_delivered : Z; st_failed : Z; st_lastError : string; st_lastDeliveredAt : Z }.

(** The manager: the configuration file, the started subscriptions with their
    statistics, the dead-letter files, and the keys with a redelivery in flight. *)
Inductive config_file := ConfigAbsent | ConfigUnreadable | ConfigCorrupt | ConfigOk (c : WebhookConfig).

Record Manager := mkManager {
  mg_config : config_file;
  mg_cancels : gset string;
  mg_stats : gmap string stats;
  mg_dlq : gmap string (list byte);
  mg_dlqBusy : gset string
}.

Definition NewManager (c : config_file) (files : gmap string (list byte)) : Manager := mkManager c ∅ ∅ files ∅.

Definition set_stats (m : Manager) (s : gmap string stats) : Manager :=
  mkManager (mg_config m) (mg_cancels m) s (mg_dlq m) (mg_dlqBusy m).
Definition set_dlq (m : Manager) (f : gmap string (list byte)) : Manager :=
  mkManager (mg_config m) (mg_cancels m) (mg_stats m) f (mg_dlqBusy m).
Definition set_busy (m : Manager) (b : gset string) : Manager :=
  mkManager (mg_config m) (mg_cancels m) (mg_stats m) (mg_dlq m) b.

(** ** Configuration *)

Definition LoadConfig (m : Manager) : res WebhookConfig :=
  match mg_config m with
  | ConfigAbsent => Ok (mkWebhooks 1 [])
  | ConfigUnreadable => Err (EMsg "read webhooks.json")
  | ConfigCorrupt => Err (EMsg "parse webhooks.json")
  | ConfigOk c => Ok c
  end.

(** [ok] is whether both the write of the temporary file and the rename succeed. *)
Definition SaveConfig (ok : bool) (m : Manager) (c : WebhookConfig) : Manager * res unit :=
  if ok then (mkManager (ConfigOk (mkWebhooks 1 (wc_Subscriptions c))) (mg_cancels m) (mg_stats m) (mg_dlq m) (mg_dlqBusy m), Ok tt)
  else (m, Err (EMsg "write webhooks.json")).

(** ** Starting *)

Definition sub_key (topic url : string) : string := topic +:+ "::" +:+ url.

(** [start]: the manager, and the key of the goroutine that is started. *)
Definition start (m : Manager) (s : Subscription) : Manager * option string :=
  if String.eqb (sb_URL s) "" || String.eqb (sb_Topic s) "" then (m, None)
  else
    let key := sub_key (sb_Topic s) (sb_URL s) in
    if bool_decide (key ∈ mg_cancels m) then (m, None)
    else (mkManager (mg_config m) ({[ key ]} ∪ mg_cancels m) (<[key := mkStats 0 0 "" 0]> (mg_stats m)) (mg_dlq m) (mg_dlqBusy m), Some key).

Fixpoint start_all (m : Manager) (l : list Subscription) : Manager * list (string * Subscription) :=
  match l with
  | [] => (m, [])
  | s :: l =>
      let (m, started) := start m s in
      let (m, rest) := start_all m l in
      (m, match started with Some k => (k, s) :: rest | None => rest end)
  end.

Definition Manager_Run (m : Manager) : Manager * res (list (string * Subscription)) :=
  match LoadConfig m with
  | Ok c => let (m, l) := start_all m (wc_Subscriptions c) in (m, Ok l)
  | Err e => (m, Err e)
  | _ => (m, Panic)
  end.

(** ** Lines *)

(** [bytes.Split(raw, "\n")]. *)
Fixpoint split_nl (l : list byte) : list (list byte) :=
  match l with
  | [] => [[]]
  | b :: l =>
      if Byte.eqb b x0a then [] :: split_nl l
      else match split_nl l with
      | [] => [[b]]
      | w :: ws => (b :: w) :: ws
      end
  end.

(** [bytes.Join(ls, "\n")] with the newline that is appended to it. *)
Definition join_nl (ls : list (list byte)) : list byte := concat (map (fun l => l ++ [x0a]) ls).

(** [countJSONLLines]: the scanner gives up at a line of eight megabytes. *)
Definition maxLine : Z := 8 * 1024 * 1024.
Fixpoint count_lines (ls : list (list byte)) : Z :=
  match ls with
  | [] => 0
  | l :: ls => if zlen l >=? maxLine then 0 else (if bool_decide (TrimSpace l = []) then 0 else 1) + count_lines ls
  end.
Definition countJSONLLines (files : gmap string (list byte)) (path : string) : Z :=
  match files !! path with Some raw => count_lines (split_nl raw) | None => 0 end.

(** ** Sending *)

(** The headers are the [Header.Set] calls, in order. *)
Record request := mkRequest { rq_method : string; rq_url : string; rq_headers : list (string * string); rq_body : list byte }.

(** What comes of one attempt: the request cannot be built, no response, or a
    response with a status. *)
Inductive http := HttpInvalid (msg : string) | HttpNoResponse (msg : string) | HttpStatus (code : Z).

Definition build_request (method : string) (s : Subscription) (raw : list byte) : request :=
  mkRequest method (sb_URL s)
    ([("Content-Type", "application/json"); ("User-Agent", "kafka-wire-webhook/1.0")] ++ sb_Headers s) raw.

(** [deliverOnce]: whether to retry, and the error; the request that was sent, if
    it could be built. *)
Definition deliverOnce (h : http) (method : string) (s : Subscription) (raw : list byte) : option request * bool * option error :=
  match h with
  | HttpInvalid msg => (None, false, Some (EMsg msg))
  | HttpNoResponse msg => (Some (build_request method s raw), true, Some (EMsg msg))
  | HttpStatus c =>
      if (200 <=? c) && (c <? 300) then (Some (build_request method s raw), false, None)
      else (Some (build_request method s raw), (c <? 400) || (c >=? 500), Some (EMsg ("HTTP " +:+ pretty c)))
  end.

Definition delays : list Z := [0; 1000; 5000; 30000; 120000; 300000].   (* milliseconds *)

Definition sent (o : option request) : list request := match o with Some r => [r] | None => [] end.

(** The attempts from number [attempt] on.  [cancelled i] is whether the context
    ends during the delay in front of attempt [i]. *)
Fixpoint deliver_loop (ds : list Z) (attempt : nat) (cancelled : nat -> bool) (net : nat -> http)
    (method : string) (s : Subscription) (raw : list byte) (lastErr : error) : list request * res unit :=
  match ds with
  | [] => ([], Err lastErr)
  | d :: ds =>
      if (d >? 0) && cancelled attempt then ([], Err (EMsg "context canceled"))
      else
        let '(rq, retryable, derr) := deliverOnce (net attempt) method s raw in
        match derr with
        | None => (sent rq, Ok tt)
        | Some er =>
            if negb retryable && (1 <=? attempt)%nat then (sent rq, Err er)
            else let (rqs, r) := deliver_loop ds (S attempt) cancelled net method s raw er in (sent rq ++ rqs, r)
        end
  end.

(** ** The encodings

    [marshal_envelope] is [json.Marshal] of the envelope, which fails when the
    record's value is not JSON; [event_type] decodes the probe; the two others are
    the codec of a dead letter. *)

Class Json := {
  marshal_envelope : WRecord -> option (list byte);
  event_type : list byte -> option string;
  marshal_entry : dlqEntry -> option (list byte);
  unmarshal_entry : list byte -> option dlqEntry
}.

Definition ascii_topic (s : string) : Prop := forall c, string_In c s -> code c < 128.

(** An encoded line: not empty, without newlines and without white space at its
    ends; it decodes to the same record. *)
Definition line_shaped (l : list byte) : Prop := l <> [] /\ ~ In x0a l /\ TrimSpace l = l.
Class JsonLaws `{Json} := {
  marshal_line : forall e l, marshal_entry e = Some l -> line_shaped l;
  unmarshal_marshal : forall e l, marshal_entry e = Some l -> ascii_topic (de_Topic e) ->
    exists e', unmarshal_entry l = Some e' /\ entry_record e' = entry_record e
}.

Section forwarder.
Context `{Json} (hash : string -> string).   (* the first eight bytes of SHA-256, in hexadecimal *)

Definition dlqPath (key : string) : string := hash key +:+ ".jsonl".
Definition claimPath (key : string) : string := dlqPath key +:+ ".processing".

Definition deliver (cancelled : nat -> bool) (net : nat -> http) (method : string) (s : Subscription) (rec : WRecord)
  : list request * res unit :=
  match marshal_envelope rec with
  | None => ([], Err (EWrap "marshal envelope" (EMsg "invalid JSON")))
  | Some raw => deliver_loop delays 0 cancelled net method s raw (EMsg "")
  end.

Definition matchesEventType (value : list byte) (want : string) : bool :=
  match event_type value with Some t => String.eqb t want | None => false end.

Definition markDelivered (now : Z) (s : stats) : stats := mkStats (st_delivered s + 1) (st_failed s) (st_lastError s) now.
Definition markFailed (er : error) (s : stats) : stats := mkStats (st_delivered s) (st_failed s + 1) (error_text er) (st_lastDeliveredAt s).

(** ** The dead-letter file *)

(** An append to a file: all of it, nothing, all of it without the sync, or some
    bytes before the failure. *)
Inductive append_io := AppOk | AppNothing | AppUnsynced | AppTorn (n : nat).

Definition append_file (o : append_io) (files : gmap string (list byte)) (path : string) (data : list byte)
  : gmap string (list byte) * res unit :=
  let old := default [] (files !! path) in
  match o with
  | AppOk => (<[path := old ++ data]> files, Ok tt)
  | AppNothing => (files, Err (EMsg "open"))
  | AppUnsynced => (<[path := old ++ data]> files, Err (EMsg "sync"))
  | AppTorn n => (<[path := old ++ take n data]> files, Err (EMsg "write"))
  end.

Definition appendDLQ (o : append_io) (now : Z) (files : gmap string (list byte)) (key : string) (rec : WRecord) (er : error)
  : gmap string (list byte) * res unit :=
  match marshal_entry (mkDlq (wr_Topic rec) (wr_Partition rec) (wr_Offset rec) (wr_Key rec) (wr_Value rec) (wr_Timestamp rec)
                         now (error_text er)) with
  | None => (files, Err (EMsg "marshal"))
  | Some raw => append_file o files (dlqPath key) (raw ++ [x0a])
  end.

Definition dlqCount (files : gmap string (list byte)) (key : string) : Z :=
  countJSONLLines files (dlqPath key) + countJSONLLines files (claimPath key).

Definition ends_with_nl (l : list byte) : bool := match last l with Some b => Byte.eqb b x0a | None => false end.

Definition appendRawLocked (o : append_io) (files : gmap string (list byte)) (path : string) (data : list byte)
  : gmap string (list byte) * res unit :=
  if bool_decide (TrimSpace data = []) then (files, Ok tt)
  else append_file o files path (if ends_with_nl data then data else data ++ [x0a]).

(** ** The loop over a subscription's records *)

Record record_env := mkRecordEnv { re_cancelled : nat -> bool; re_net : nat -> http; re_append : append_io; re_now : Z }.

Definition run_record (s : Subscription) (key : string) (m : Manager) (rec : WRecord) (e : record_env) : Manager * list request :=
  let method := if String.eqb (sb_Method s) "" then "POST" else sb_Method s in
  if negb (String.eqb (sb_FilterEventType s) "") && negb (matchesEventType (wr_Value rec) (sb_FilterEventType s)) then (m, [])
  else
    let (rqs, r) := deliver (re_cancelled e) (re_net e) method s rec in
    match r with
    | Ok _ => (set_stats m (alter (markDelivered (re_now e)) key (mg_stats m)), rqs)
    | Err er =>
        let m := set_stats m (alter (markFailed er) key (mg_stats m)) in
        (set_dlq m (appendDLQ (re_append e) (re_now e) (mg_dlq m) key rec er).1, rqs)
    | _ => (m, rqs)
    end.

(** [runOne] on the records the channel yields until it is closed or the context
    ends. *)
Fixpoint runOne (s : Subscription) (key : string) (m : Manager) (recs : list (WRecord * record_env)) : Manager * list request :=
  match recs with
  | [] => (m, [])
  | (rec, e) :: recs =>
      let (m, rqs) := run_record s key m rec e in
      let (m, rest) := runOne s key m recs in (m, rqs ++ rest)
  end.

(** What [runOne] subscribes with: the group and the offset reset. *)
Definition subscribe_args (s : Subscription) : string * string :=
  (if String.eqb (sb_GroupID s) "" then "kafka-wire-webhook-" +:+ sb_Topic s else sb_GroupID s,
   if String.eqb (sb_AutoOffsetReset s) "" then "latest" else sb_AutoOffsetReset s).

(** ** Redelivery *)

Definition find_sub (topic url : string) (c : WebhookConfig) : option Subscription :=
  List.find (fun s => String.eqb (sb_Topic s) topic && String.eqb (sb_URL s) url) (wc_Subscriptions c).

(** The claim, under the lock: a leftover claim is folded back, then the file is
    renamed.  [None]: there is nothing to redeliver. *)
Record claim_io := mkClaimIo { ci_readable : bool; ci_fold : append_io; ci_remove : bool; ci_rename : bool }.

Definition fold_back (o : claim_io) (files : gmap string (list byte)) (key : string) : gmap string (list byte) * res unit :=
  match files !! claimPath key with
  | None => (files, Ok tt)
  | Some leftover =>
      if negb (ci_readable o) then (files, Err (EMsg "read claim"))
      else match appendRawLocked (ci_fold o) files (dlqPath key) leftover with
      | (files, Ok _) => if ci_remove o then (delete (claimPath key) files, Ok tt) else (files, Err (EMsg "remove claim"))
      | (files, r) => (files, r)
      end
  end.

Definition claim (o : claim_io) (m : Manager) (key : string) : Manager * res bool :=
  if bool_decide (key ∈ mg_dlqBusy m) then (m, Err (EMsg "redelivery already in progress"))
  else match fold_back o (mg_dlq m) key with
  | (files, Ok _) =>
      match files !! dlqPath key with
      | None => (set_dlq m files, Ok false)
      | Some raw =>
          if ci_rename o
          then (set_busy (set_dlq m (<[claimPath key := raw]> (delete (dlqPath key) files))) ({[ key ]} ∪ mg_dlqBusy m), Ok true)
          else (set_dlq m files, Err (EMsg "rename"))
      end
  | (files, Err er) => (set_dlq m files, Err er)
  | (files, _) => (set_dlq m files, Panic)
  end.

(** One line of the claimed file: what is kept of it and what was sent.  [None]
    is kept when it was delivered. *)
Definition redeliver_line (h : http) (now : Z) (method : string) (s : Subscription) (line : list byte)
  : option (list byte) * list request :=
  match unmarshal_entry line with
  | None => (Some line, [])
  | Some e =>
      let '(rqs, derr) := match marshal_envelope (entry_record e) with
                          | None => ([], Some (EMsg "invalid JSON"))
                          | Some raw => let '(rq, _, derr) := deliverOnce h method s raw in (sent rq, derr)
                          end in
      match derr with
      | None => (None, rqs)
      | Some er =>
          let e := mkDlq (de_Topic e) (de_Partition e) (de_Offset e) (de_Key e) (de_Value e) (de_Timestamp e) now (error_text er) in
          (Some (default line (marshal_entry e)), rqs)
      end
  end.

Definition nonblank (lines : list (list byte)) : list (list byte) :=
  List.filter (fun l => negb (bool_decide (l = []))) (map TrimSpace lines).

(** The loop; [None] in the environment of a line is that the context has ended. *)
Fixpoint redeliver_lines (env : nat -> option (http * Z)) (i : nat) (method : string) (s : Subscription)
    (lines kept : list (list byte)) (redelivered : Z) : list (list byte) * Z * list request :=
  match lines with
  | [] => (kept, redelivered, [])
  | line :: rest =>
      if bool_decide (TrimSpace line = []) then redeliver_lines env (Datatypes.S i) method s rest kept redelivered
      else match env i with
      | None => (kept ++ nonblank lines, redelivered, [])
      | Some (h, now) =>
          let (k, rqs) := redeliver_line h now method s (TrimSpace line) in
          let '(kept, redelivered) := match k with Some l => (kept ++ [l], redelivered) | None => (kept, redelivered + 1) end in
          let '(kept, redelivered, rest) := redeliver_lines env (Datatypes.S i) method s rest kept redelivered in
          (kept, redelivered, rqs ++ rest)
      end
  end.

(** The end, under the lock: what is kept goes back to the file, the claim goes. *)
Definition finish (o : append_io) (removed : bool) (files : gmap string (list byte)) (key : string) (kept : list (list byte))
  : gmap string (list byte) * res unit :=
  match (if bool_decide (kept = []) then (files, Ok tt) else appendRawLocked o files (dlqPath key) (join_nl kept)) with
  | (files, Ok _) => (if removed then delete (claimPath key) files else files, Ok tt)
  | (files, r) => (files, r)
  end.

(** The result carries the two counts also when the last write fails. *)
Record redeliver_env := mkRedeliver {
  rd_claim : claim_io;
  rd_read : bool;
  rd_lines : nat -> option (http * Z);
  rd_others : gmap string (list byte) -> gmap string (list byte);   (* what others do to the files meanwhile *)
  rd_append : append_io;
  rd_removed : bool
}.

Definition RedeliverDLQ (e : redeliver_env) (m : Manager) (topic url : string) : Manager * (Z * Z * res unit) * list request :=
  let key := sub_key topic url in
  match LoadConfig m with
  | Ok c =>
      match find_sub topic url c with
      | None => (m, (0, 0, Err (EMsg "no subscription")), [])
      | Some s =>
          let method := if String.eqb (sb_Method s) "" then "POST" else sb_Method s in
          match claim (rd_claim e) m key with
          | (m, Ok true) =>
              let unbusy m := set_busy m (mg_dlqBusy m ∖ {[ key ]}) in
              match mg_dlq m !! claimPath key with
              | Some raw =>
                  if negb (rd_read e) then (unbusy m, (0, 0, Err (EMsg "read claim")), [])
                  else
                    let '(kept, redelivered, rqs) := redeliver_lines (rd_lines e) 0 method s (split_nl raw) [] 0 in
                    let (files, r) := finish (rd_append e) (rd_removed e) (rd_others e (mg_dlq m)) key kept in
                    (unbusy (set_dlq m files), (redelivered, zlen kept, r), rqs)
              | None => (unbusy m, (0, 0, Err (EMsg "read claim")), [])
              end
          | (m, Ok false) => (m, (0, 0, Ok tt), [])
          | (m, Err er) => (m, (0, 0, Err er), [])
          | (m, _) => (m, (0, 0, Panic), [])
          end
      end
  | Err er => (m, (0, 0, Err er), [])
  | _ => (m, (0, 0, Panic), [])
  end.

(** ** Status *)

(** [splitKey]: at the first double colon. *)
Fixpoint splitKey (k : string) : string * string :=
  match k with
  | EmptyString => ("", "")
  | String c rest =>
      match rest with
      | String d tl =>
          if Ascii.eqb c ":" && Ascii.eqb d ":" then ("", tl)
          else let (t, u) := splitKey rest in (String c t, u)
      | EmptyString => (String c "", "")
      end
  end.

Record SubscriptionStatus := mkStatus {
  ws_Topic : string; ws_URL : string; ws_Delivered : Z; ws_Failed : Z; ws_DeadLettered : Z; ws_LastError : string; ws_LastDeliveredAt : Z
}.

Definition Manager_Snapshot (m : Manager) : list SubscriptionStatus :=
  map (fun ks : string * stats =>
         let (t, u) := splitKey ks.1 in
         mkStatus t u (st_delivered ks.2) (st_failed ks.2) (dlqCount (mg_dlq m) ks.1) (st_lastError ks.2) (st_lastDeliveredAt ks.2))
    (map_to_list (mg_stats m)).

End forwarder.
