(* ===== verification/WebhookFacts.v ===== *)
(** * The dead-letter files of the webhook forwarder

    Files are sequences of whole lines; a redelivery interleaves with deliveries
    that park new records, with a cancelled context and with crashes.  The
    invariant: a record that was parked has been delivered since, or is still in
    the file or in the claim. *)

From S2P Require Import Prelude Bytes Names Log LogRecover Manifest Cache GoText Webhook.

#[local] Open Scope Z_scope.

(** ** Lines *)

Lemma split_nl_app l rest : ~ In x0a l -> split_nl (l ++ x0a :: rest) = l :: split_nl rest.
Proof.
  induction l as [|b l IH]; intros Hn; [done|]. cbn [app split_nl].
  destruct (Byte.eqb b x0a) eqn:E; [apply Byte.byte_dec_bl in E; subst; destruct Hn; by left|].
  by rewrite IH by (intros ?; apply Hn; by right).
Qed.

Lemma split_join_nl ls : Forall line_shaped ls -> split_nl (join_nl ls) = ls ++ [[]].
Proof.
  induction 1 as [|l ls (_ & Hn & _) _ IH]; [done|]. unfold join_nl in *. cbn [map concat].
  rewrite <- app_assoc. cbn [app]. by rewrite split_nl_app, IH.
Qed.

Lemma join_nl_app a b : join_nl (a ++ b) = join_nl a ++ join_nl b.
Proof. unfold join_nl. by rewrite map_app, concat_app. Qed.

Lemma nonblank_shaped ls : Forall line_shaped ls -> nonblank (ls ++ [[]]) = ls.
Proof.
  induction 1 as [|l ls (Hne & _ & Ht) _ IH]; [done|]. unfold nonblank in *. cbn [app map List.filter].
  rewrite Ht, bool_decide_false by done. cbn [negb]. by rewrite IH.
Qed.

Lemma nonblank_Forall ls : Forall (fun l => l = [] \/ line_shaped l) ls -> Forall line_shaped (nonblank ls).
Proof.
  intros Hs. unfold nonblank. apply List.Forall_forall. intros l Hl.
  apply filter_In in Hl as [Hin Hne]. apply in_map_iff in Hin as (l0 & <- & Hl0). rewrite List.Forall_forall in Hs.
  destruct (Hs l0 Hl0) as [->|Hsh]; [done|]. by rewrite (proj2 (proj2 Hsh)).
Qed.

Lemma ends_with_nl_join ls : ls <> [] -> ends_with_nl (join_nl ls) = true.
Proof.
  destruct ls as [|l ls] using rev_ind; [done|]. intros _. unfold ends_with_nl.
  rewrite join_nl_app. unfold join_nl at 2. cbn. rewrite app_nil_r, app_assoc. by rewrite last_snoc.
Qed.

(** ** Trimming *)

Lemma find_prefix_none (ws : list (list byte)) (l w : list byte) : List.find (fun w => bool_decide (w `prefix_of` l)) ws = None -> In w ws -> ~ w `prefix_of` l.
Proof. intros Hf Hw Hp. apply (List.find_none _ _ Hf) in Hw. by rewrite bool_decide_true in Hw. Qed.

(** Trimming that leaves nothing ends with a removed sequence. *)
Lemma trim_front_nil fuel ws l : trim_front fuel ws l = [] -> l = [] \/ exists w, In w ws /\ w `suffix_of` l.
Proof.
  revert l. induction fuel as [|fuel IH]; intros l; cbn; [by left|].
  destruct (List.find _ ws) as [w|] eqn:E; [|by left]. apply List.find_some in E as [Hw Hp%bool_decide_eq_true].
  intros H. destruct Hp as [k ->]. rewrite drop_app_length in H. right.
  destruct (IH _ H) as [->|(w' & Hw' & Hs)].
  - exists w. split; [done|]. by rewrite app_nil_r.
  - exists w'. split; [done|]. by apply suffix_app_r.
Qed.

Lemma trim_front_fixed ws l : trim_front (length l) ws l = l -> l <> [] -> Forall (fun w => w <> []) ws ->
  List.find (fun w => bool_decide (w `prefix_of` l)) ws = None.
Proof.
  intros H Hne Hws. destruct l as [|b l]; [done|]. cbn [length trim_front] in H.
  destruct (List.find _ ws) as [w|] eqn:E; [|done]. exfalso. apply List.find_some in E as [Hw _].
  rewrite List.Forall_forall in Hws. specialize (Hws w Hw).
  assert (forall n k, (length (trim_front n ws k) <= length k)%nat) as Hlen.
  { clear. induction n as [|n IH]; intros k; cbn; [done|]. destruct (List.find _ ws); [|done].
    etrans; [apply IH|]. rewrite length_drop. lia. }
  pose proof (Hlen (length l) (drop (length w) (b :: l))) as Hl. rewrite H in Hl. revert Hl. rewrite length_drop.
  destruct w; [done|]. cbn. lia.
Qed.

Lemma spaces_nl w : In w spaces -> In x0a w -> w = [x0a].
Proof. unfold spaces. cbn. intuition (subst; cbn in *; intuition discriminate). Qed.

(** A trimmed line does not start with white space. *)
Lemma TrimSpace_fixed l : TrimSpace l = l -> l <> [] -> List.find (fun w => bool_decide (w `prefix_of` l)) spaces = None.
Proof.
  intros H Hne. apply trim_front_fixed; [|done|apply spaces_nonempty].
  assert (forall n ws k, trim_front n ws k `suffix_of` k) as Hsuf.
  { clear. induction n as [|n IH]; intros ws k; cbn; [done|]. destruct (List.find _ ws) as [w|]; [|done].
    etrans; [apply IH|]. apply suffix_drop. }
  pose proof (Hsuf (length l) spaces l) as Hs. set (f := trim_front (length l) spaces l) in *.
  pose proof (Hsuf (length f) (map (@rev byte) spaces) (rev f)) as Hs2.
  assert (length l <= length f)%nat as Hl.
  { apply (f_equal length) in H. unfold TrimSpace in H. fold f in H. rewrite length_rev in H.
    apply suffix_length in Hs2. rewrite length_rev in Hs2. lia. }
  destruct Hs as [k Hk]. pose proof (f_equal length Hk) as E. rewrite length_app in E.
  destruct k; [done|]. cbn in E. lia.
Qed.

Lemma TrimSpace_join l ls : line_shaped l -> TrimSpace (join_nl (l :: ls)) <> [].
Proof.
  intros (Hne & Hn & Ht). set (raw := join_nl (l :: ls)).
  assert (forall w, In w spaces -> ~ w `prefix_of` raw) as Hno.
  { intros w Hw [k Hk]. apply (find_prefix_none spaces l w); [by apply TrimSpace_fixed|done|].
    unfold raw, join_nl in Hk. cbn [map concat] in Hk. rewrite <- app_assoc in Hk. cbn [app] in Hk.
    apply app_eq_inv in Hk as [(k' & Hl & _)|(k' & Hw' & Hk)]; [by exists k'|].
    destruct k' as [|b k']; [rewrite app_nil_r in Hw'; subst w; by exists []; rewrite app_nil_r|].
    injection Hk as <- _. assert (w = [x0a]) as ->.
    { apply spaces_nl; [done|]. rewrite Hw'. apply in_or_app. right. by left. }
    destruct l as [|c l]; [done|]. injection Hw' as <- Hw'. exfalso. by destruct l. }
  assert (trim_front (length raw) spaces raw = raw) as Hf.
  { destruct (length raw) as [|n]; [done|]. cbn [trim_front]. destruct (List.find _ spaces) as [w|] eqn:E; [|done].
    apply List.find_some in E as [Hw Hp%bool_decide_eq_true]. by destruct (Hno w Hw). }
  unfold TrimSpace. rewrite Hf. intros H. apply (f_equal (@rev byte)) in H. rewrite rev_involutive in H. change (rev []) with (@nil byte) in H.
  apply trim_front_nil in H as [H|(w' & Hw & Hs)].
  - apply (f_equal length) in H. rewrite length_rev in H. unfold raw, join_nl in H. cbn in H. rewrite !length_app in H. cbn in H. lia.
  - apply in_map_iff in Hw as (w & <- & Hw). apply (Hno w Hw). destruct Hs as [k Hk].
    apply (f_equal (@rev byte)) in Hk. rewrite rev_involutive, rev_app_distr, rev_involutive in Hk. by exists (rev k).
Qed.

(** ** Interleavings *)

Section dlq.
Context `{JsonLaws} (hash : string -> string) (sub : Subscription) (method key : string).

#[local] Abbreviation main := (dlqPath hash key).
#[local] Abbreviation claimed := (claimPath hash key).

Lemma paths_differ : claimed <> main.
Proof.
  unfold claimPath. intros E. apply (f_equal String.length) in E. rewrite string_length_app in E. cbn in E. lia.
Qed.

(** The manager, the redelivery in flight (the lines ahead of it and the lines it
    keeps), the records whose parking was acknowledged, and the records a
    redelivery got through. *)
Record dlq_state := mkDlqState {
  ds_m : Manager;
  ds_run : option (list (list byte) * list (list byte));
  ds_parked : list WRecord;
  ds_done : list WRecord
}.

Definition whole (o : append_io) : Prop := match o with AppTorn _ => False | _ => True end.

Definition unbusy (m : Manager) : Manager := set_busy m (mg_dlqBusy m ∖ {[ key ]}).

(** The record a delivered line stood for. *)
Definition done_by (line : list byte) (k : option (list byte)) : list WRecord :=
  match k, unmarshal_entry line with None, Some e => [entry_record e] | _, _ => [] end.
Definition keep (k : option (list byte)) : list (list byte) := match k with Some l => [l] | None => [] end.

(** What may happen next, each under the lock or without touching the files. *)
Inductive dlq_step : dlq_state -> dlq_state -> Prop :=
| step_park o now rec er m run parked done files r :
    whole o -> appendDLQ hash o now (mg_dlq m) key rec er = (files, r) ->
    dlq_step (mkDlqState m run parked done)
             (mkDlqState (set_dlq m files) run (if is_ok r then rec :: parked else parked) done)
| step_claim o m m' r raw run parked done :
    whole (ci_fold o) -> claim hash o m key = (m', r) -> (r = Ok true -> mg_dlq m' !! claimed = Some raw) ->
    dlq_step (mkDlqState m run parked done)
             (mkDlqState m' (if decide (r = Ok true) then Some (split_nl raw, []) else run) parked done)
| step_unreadable m lines kept parked done :
    dlq_step (mkDlqState m (Some (lines, kept)) parked done) (mkDlqState (unbusy m) None parked done)
| step_blank m line rest kept parked done :
    TrimSpace line = [] ->
    dlq_step (mkDlqState m (Some (line :: rest, kept)) parked done) (mkDlqState m (Some (rest, kept)) parked done)
| step_line h now m line rest kept parked done k rqs :
    TrimSpace line <> [] -> redeliver_line h now method sub (TrimSpace line) = (k, rqs) ->
    dlq_step (mkDlqState m (Some (line :: rest, kept)) parked done)
             (mkDlqState m (Some (rest, kept ++ keep k)) parked (done_by (TrimSpace line) k ++ done))
| step_cancel m lines kept parked done :
    dlq_step (mkDlqState m (Some (lines, kept)) parked done) (mkDlqState m (Some ([], kept ++ nonblank lines)) parked done)
| step_finish o removed m kept parked done files r :
    whole o -> finish hash o removed (mg_dlq m) key kept = (files, r) ->
    dlq_step (mkDlqState m (Some ([], kept)) parked done) (mkDlqState (unbusy (set_dlq m files)) None parked done)
| step_crash m run parked done :
    dlq_step (mkDlqState m run parked done) (mkDlqState (set_busy m ∅) None parked done).

(** ** The invariant *)

Definition recs (ls : list (list byte)) : list WRecord := omap (fun l => entry_record <$> unmarshal_entry l) ls.

Definition file_lines (files : gmap string (list byte)) (path : string) (ls : list (list byte)) : Prop :=
  default [] (files !! path) = join_nl ls /\ Forall line_shaped ls.

Record dlq_inv (s : dlq_state) : Prop := {
  di_files : exists mls cls, file_lines (mg_dlq (ds_m s)) main mls /\ file_lines (mg_dlq (ds_m s)) claimed cls /\
    (forall r, r ∈ ds_parked s -> ascii_topic (wr_Topic r) -> r ∈ ds_done s \/ r ∈ recs mls \/ r ∈ recs cls) /\
    (forall rest kept, ds_run s = Some (rest, kept) ->
       Forall line_shaped kept /\ Forall (fun l => l = [] \/ line_shaped l) rest /\
       (forall r, ascii_topic (wr_Topic r) -> r ∈ recs cls -> r ∈ ds_done s \/ r ∈ recs kept \/ r ∈ recs (nonblank rest)));
  di_busy : key ∈ mg_dlqBusy (ds_m s) <-> is_Some (ds_run s)
}.

Lemma line_recs_app a b : recs (a ++ b) = recs a ++ recs b.
Proof. apply omap_app. Qed.

Lemma elem_recs r l ls e : In l ls -> unmarshal_entry l = Some e -> entry_record e = r -> r ∈ recs ls.
Proof.
  intros Hl He <-. apply list_elem_of_omap. exists l. split; [by apply list_elem_of_In|]. by rewrite He.
Qed.

Lemma append_file_lines o files path data files' r ls ls' : whole o -> file_lines files path ls -> data = join_nl ls' ->
  Forall line_shaped ls' -> append_file o files path data = (files', r) ->
  (forall p, p <> path -> files' !! p = files !! p) /\
  ((is_ok r = false /\ files' = files) \/ file_lines files' path (ls ++ ls')).
Proof.
  intros Ho [Hd Hs] -> Hs' E. destruct o; try done; injection E as <- <-;
    (split; [intros p Hp; by rewrite ?lookup_insert_ne by congruence|]); try (by left); right; split;
    try (by apply Forall_app); rewrite lookup_insert_eq; cbn; rewrite Hd; by rewrite join_nl_app.
Qed.

Lemma appendRaw_lines o files path files' r ls ls' : whole o -> file_lines files path ls ->
  Forall line_shaped ls' -> appendRawLocked o files path (join_nl ls') = (files', r) ->
  (forall p, p <> path -> files' !! p = files !! p) /\
  ((is_ok r = false /\ files' = files) \/ file_lines files' path (ls ++ ls')).
Proof.
  intros Ho Hf Hs'. unfold appendRawLocked. destruct ls' as [|l ls'].
  { cbn. intros [= <- <-]. split; [done|]. right. by rewrite app_nil_r. }
  rewrite bool_decide_false by (apply TrimSpace_join; by apply Forall_cons in Hs' as [? _]).
  rewrite ends_with_nl_join by done. intros E. by eapply append_file_lines.
Qed.

(** One line: delivered, or kept as a line with the same record. *)
Lemma redeliver_line_spec h now line k rqs r e : line_shaped line -> redeliver_line h now method sub line = (k, rqs) ->
  Forall line_shaped (keep k) /\
  (unmarshal_entry line = Some e -> entry_record e = r -> ascii_topic (wr_Topic r) -> r ∈ done_by line k \/ r ∈ recs (keep k)).
Proof.
  intros Hl. unfold redeliver_line, done_by. destruct (unmarshal_entry line) as [e0|] eqn:Eu.
  2:{ intros [= <- <-]. split; [by constructor|done]. }
  set (out := match marshal_envelope (entry_record e0) with None => _ | Some raw => _ end).
  destruct out as [rq derr]. destruct derr as [er|]; intros [= <- <-].
  2:{ split; [constructor|]. intros [= ->] <- _. left. by apply list_elem_of_singleton. }
  set (e1 := mkDlq _ _ _ _ _ _ _ _). cbn [keep]. destruct (marshal_entry e1) as [l1|] eqn:Em; cbn [default from_option].
  - split; [constructor; [by eapply marshal_line|constructor]|]. intros [= <-] <- Ha. right.
    destruct (unmarshal_marshal e1 l1 Em Ha) as (e' & He' & Hr). eapply elem_recs; [by left|exact He'|]. by rewrite Hr.
  - split; [by constructor|]. intros [= <-] <- _. right. eapply elem_recs; [by left|exact Eu|done].
Qed.

Lemma keep_case r k ls : r ∈ recs (keep k) -> r ∈ recs (ls ++ keep k).
Proof. rewrite line_recs_app. intros. apply elem_of_app. by right. Qed.

Lemma file_lines_other files files' path ls : files' !! path = files !! path -> file_lines files path ls -> file_lines files' path ls.
Proof. unfold file_lines. by intros ->. Qed.

Lemma park_inv o now rec er m run parked done files r :
  dlq_inv (mkDlqState m run parked done) -> whole o -> appendDLQ hash o now (mg_dlq m) key rec er = (files, r) ->
  dlq_inv (mkDlqState (set_dlq m files) run (if is_ok r then rec :: parked else parked) done).
Proof.
  intros [(mls & cls & Hm & Hc & Hsafe & Hrun) Hb] Ho E. cbn [ds_m ds_run ds_parked ds_done] in *. unfold appendDLQ in E.
  set (en := mkDlq _ _ _ _ _ _ _ _) in E. destruct (marshal_entry en) as [raw|] eqn:Em.
  2:{ injection E as <- <-. split; [|done]. by exists mls, cls. }
  assert (raw ++ [x0a] = join_nl [raw]) as Hraw by (unfold join_nl; cbn; by rewrite app_nil_r).
  rewrite Hraw in E. pose proof (marshal_line _ _ Em) as Hl.
  destruct (append_file_lines o _ _ _ _ _ mls [raw] Ho Hm eq_refl ltac:(by constructor) E) as [Hoth [[Hr ->]|Hm']].
  { rewrite Hr. split; [|done]. by exists mls, cls. }
  split; [|done]. exists (mls ++ [raw]), cls. cbn [ds_m ds_run ds_parked ds_done mg_dlq set_dlq]. split_and!; [done| | |done].
  - eapply file_lines_other; [|done]. apply Hoth, paths_differ.
  - rewrite line_recs_app. intros x Hx Ha. setoid_rewrite elem_of_app.
    assert (x = rec \/ x ∈ parked) as [->|Hin].
    { destruct (is_ok r); [|by right]. by apply elem_of_cons in Hx. }
    + right; left; right. destruct (unmarshal_marshal en raw Em Ha) as (e' & He' & Hr').
      eapply elem_recs; [by left|exact He'|]. rewrite Hr'. by destruct rec.
    + destruct (Hsafe x Hin Ha) as [?|[?|?]]; auto.
Qed.

Lemma fold_back_inv o m run parked done files r :
  dlq_inv (mkDlqState m run parked done) -> whole (ci_fold o) -> run = None -> fold_back hash o (mg_dlq m) key = (files, r) ->
  dlq_inv (mkDlqState (set_dlq m files) None parked done) /\ (is_ok r = true -> files !! claimed = None).
Proof.
  intros [(mls & cls & Hm & Hc & Hsafe & Hrun) Hb] Ho -> E. cbn [ds_m ds_run ds_parked ds_done] in *. unfold fold_back in E.
  destruct (mg_dlq m !! claimed) as [raw|] eqn:Ecl.
  2:{ injection E as <- <-. split; [|done]. split; [|done]. by exists mls, cls. }
  destruct (ci_readable o); cbn [negb] in E.
  2:{ injection E as <- <-. split; [|done]. split; [|done]. by exists mls, cls. }
  pose proof Hc as [Hd Hcs]. rewrite Ecl in Hd. cbn in Hd. subst raw.
  destruct (appendRawLocked _ _ _ _) as [files1 r1] eqn:Ea.
  destruct (appendRaw_lines _ _ _ _ _ _ _ Ho Hm Hcs Ea) as [Hoth Hcase].
  assert (file_lines files1 claimed cls) as Hc1 by (eapply file_lines_other; [|done]; apply Hoth, paths_differ).
  assert (dlq_inv (mkDlqState (set_dlq m files1) None parked done)) as Hinv1.
  { split; [|done]. cbn [ds_m ds_run ds_parked ds_done mg_dlq set_dlq]. destruct Hcase as [[_ ->]|Hm1]; [by exists mls, cls|].
    exists (mls ++ cls), cls. split_and!; [done|done| |done]. intros x Hx Ha. rewrite line_recs_app, elem_of_app.
    destruct (Hsafe x Hx Ha) as [?|[?|?]]; auto. }
  destruct r1 as [[]| | |]; try (injection E as <- <-; by split).
  destruct (ci_remove o); injection E as <- <-; [|by split]. split; [|intros _; by rewrite lookup_delete_eq].
  destruct Hcase as [[? _]|Hm1]; [done|]. split; [|done]. exists (mls ++ cls), []. cbn [ds_m ds_run ds_parked ds_done mg_dlq set_dlq].
  split_and!; [| | |done].
  - eapply file_lines_other; [|exact Hm1]. rewrite lookup_delete_ne; [done|]. apply paths_differ.
  - split; [by rewrite lookup_delete_eq|constructor].
  - intros x Hx Ha. rewrite line_recs_app, elem_of_app. destruct (Hsafe x Hx Ha) as [?|[?|?]]; auto.
Qed.

Lemma set_dlq_same m : set_dlq m (mg_dlq m) = m.
Proof. by destruct m. Qed.

Lemma claim_inv o m m' r raw run parked done :
  dlq_inv (mkDlqState m run parked done) -> whole (ci_fold o) -> claim hash o m key = (m', r) ->
  (r = Ok true -> mg_dlq m' !! claimed = Some raw) ->
  dlq_inv (mkDlqState m' (if decide (r = Ok true) then Some (split_nl raw, []) else run) parked done).
Proof.
  intros Hinv Ho E Hraw. unfold claim in E. case_bool_decide as Hbusy; [by injection E as <- <-|].
  assert (run = None) as Hrun.
  { destruct run; [|done]. destruct Hbusy. apply (di_busy _ Hinv). by eexists. }
  destruct (fold_back hash o (mg_dlq m) key) as [files rf] eqn:Ef.
  destruct (fold_back_inv _ _ _ _ _ _ _ Hinv Ho Hrun Ef) as [Hinv1 Hcl].
  assert (forall rr, (set_dlq m files, rr) = (m', r) -> rr <> Ok true ->
    dlq_inv (mkDlqState m' (if decide (r = Ok true) then Some (split_nl raw, []) else run) parked done)) as Hnop.
  { intros rr [= <- <-] Hr. rewrite decide_False by done. by rewrite Hrun. }
  destruct rf as [[]| | |]; try (by eapply Hnop). specialize (Hcl eq_refl).
  destruct (files !! main) as [mraw|] eqn:Em; [|by eapply Hnop]. destruct (ci_rename o); [|by eapply Hnop].
  injection E as <- <-. rewrite decide_True by done. specialize (Hraw eq_refl). cbn in Hraw.
  rewrite lookup_insert_eq in Hraw. injection Hraw as <-.
  destruct Hinv1 as [(mls & cls & [Hm Hms] & Hc & Hsafe & _) _]. cbn [ds_m ds_run ds_parked ds_done mg_dlq set_dlq] in *.
  rewrite Em in Hm. cbn in Hm. subst mraw. destruct Hc as [Hc Hcs]. rewrite Hcl in Hc. cbn in Hc.
  assert (cls = []) as -> by (destruct cls; [done|]; by destruct l).
  split; [|split; [by eexists|intros _; cbn; set_solver]]. exists [], mls. cbn [ds_m ds_run ds_parked ds_done mg_dlq set_dlq set_busy].
  split_and!.
  - split; [|constructor]. rewrite lookup_insert_ne by apply paths_differ. by rewrite lookup_delete_eq.
  - split; [|done]. by rewrite lookup_insert_eq.
  - intros x Hx Ha. destruct (Hsafe x Hx Ha) as [?|[?|?]]; auto.
  - intros rest kept [= <- <-]. rewrite split_join_nl by done. split_and!; [constructor| |].
    + apply Forall_app. split; [|by constructor; [left|constructor]]. eapply Forall_impl; [exact Hms|]. auto.
    + intros x _ Hx. right; right. by rewrite nonblank_shaped.
Qed.

Lemma nonblank_cons line rest : line_shaped line -> nonblank (line :: rest) = line :: nonblank rest.
Proof. intros (Hne & _ & Ht). unfold nonblank. cbn. by rewrite Ht, bool_decide_false. Qed.

Lemma line_inv h now m line rest kept parked done k rqs :
  dlq_inv (mkDlqState m (Some (line :: rest, kept)) parked done) -> TrimSpace line <> [] ->
  redeliver_line h now method sub (TrimSpace line) = (k, rqs) ->
  dlq_inv (mkDlqState m (Some (rest, kept ++ keep k)) parked (done_by (TrimSpace line) k ++ done)).
Proof.
  intros [(mls & cls & Hm & Hc & Hsafe & Hrun) Hb] Hne E. cbn [ds_m ds_run ds_parked ds_done] in *.
  destruct (Hrun _ _ eq_refl) as (Hks & [Hl Hrs]%Forall_cons & Hcov).
  destruct Hl as [->|Hl]; [done|]. pose proof Hl as (_ & _ & Ht). rewrite Ht in *.
  split; [|by split; [intros _; eexists|intros _; apply Hb; by eexists]]. exists mls, cls. cbn [ds_m ds_run ds_parked ds_done].
  split_and!; [done|done| |].
  - intros x Hx Ha. rewrite elem_of_app. destruct (Hsafe x Hx Ha) as [?|?]; auto.
  - intros rest' kept' [= <- <-]. split_and!; [|done|].
    + apply Forall_app. split; [done|]. by destruct (redeliver_line_spec _ _ _ _ _ (mkWRecord "" 0 0 [] [] 0) (mkDlq "" 0 0 [] [] 0 0 "") Hl E).
    + intros x Ha Hx. rewrite line_recs_app, !elem_of_app. destruct (Hcov x Ha Hx) as [?|[?|Hin]]; auto.
      rewrite nonblank_cons in Hin by done. cbn [recs omap list_omap] in Hin.
      destruct (unmarshal_entry line) as [e|] eqn:Eu; cbn in Hin; [|auto].
      apply elem_of_cons in Hin as [->|?]; [|auto].
      destruct (redeliver_line_spec _ _ _ _ _ (entry_record e) e Hl E) as [_ [?|?]]; auto.
Qed.

Lemma unbusy_free m : key ∉ mg_dlqBusy (unbusy m).
Proof. cbn. intros [_ Hn]%elem_of_difference. apply Hn. by apply elem_of_singleton. Qed.

Lemma finish_inv o removed m kept parked done files r :
  dlq_inv (mkDlqState m (Some ([], kept)) parked done) -> whole o -> finish hash o removed (mg_dlq m) key kept = (files, r) ->
  dlq_inv (mkDlqState (unbusy (set_dlq m files)) None parked done).
Proof.
  intros [(mls & cls & Hm & Hc & Hsafe & Hrun) Hb] Ho E. cbn [ds_m ds_run ds_parked ds_done] in *.
  destruct (Hrun _ _ eq_refl) as (Hks & _ & Hcov).
  split; [|split; [by intros ?%unbusy_free|by intros [? ?]]]. cbn [ds_m ds_run ds_parked ds_done mg_dlq unbusy set_dlq set_busy].
  unfold finish in E.
  assert (exists files1 r1, (if bool_decide (kept = []) then (mg_dlq m, Ok tt) else appendRawLocked o (mg_dlq m) main (join_nl kept)) = (files1, r1) /\
    (forall p, p <> main -> files1 !! p = mg_dlq m !! p) /\
    ((is_ok r1 = false /\ files1 = mg_dlq m) \/ file_lines files1 main (mls ++ kept))) as (files1 & r1 & E1 & Hoth & Hcase).
  { case_bool_decide as Hk.
    - exists (mg_dlq m), (Ok tt). split_and!; try done. right. subst kept. by rewrite app_nil_r.
    - destruct (appendRawLocked _ _ _ _) as [f1 r1] eqn:Ea. exists f1, r1. split; [done|]. by eapply appendRaw_lines. }
  rewrite E1 in E. assert (file_lines files1 claimed cls) as Hc1 by (eapply file_lines_other; [|done]; apply Hoth, paths_differ).
  assert (is_ok r1 = false -> files = files1) as Herr by (destruct r1; try done; by injection E as <- _).
  destruct Hcase as [[Hr ->]|Hm1]; [rewrite Herr by done; by exists mls, cls|].
  destruct (is_ok r1 && removed) eqn:Er.
  - apply andb_true_iff in Er as [Hr ->]. destruct r1 as [[]| | |]; try done. injection E as <- _.
    exists (mls ++ kept), []. split_and!; [| | |done].
    + eapply file_lines_other; [|exact Hm1]. rewrite lookup_delete_ne; [done|]. apply paths_differ.
    + split; [by rewrite lookup_delete_eq|constructor].
    + intros x Hx Ha. rewrite line_recs_app, elem_of_app. destruct (Hsafe x Hx Ha) as [?|[?|Hin]]; auto.
      destruct (Hcov x Ha Hin) as [?|[?|Hn]]; auto.
  - assert (files = files1) as ->.
    { destruct r1 as [[]| | |]; cbn in Er; try (by apply Herr). subst removed. by injection E as <- _. }
    exists (mls ++ kept), cls. split_and!; [done|done| |done].
    intros x Hx Ha. rewrite line_recs_app, elem_of_app. destruct (Hsafe x Hx Ha) as [?|[?|?]]; auto.
Qed.

Lemma dlq_step_inv s s' : dlq_inv s -> dlq_step s s' -> dlq_inv s'.
Proof.
  intros Hinv Hstep. destruct Hstep.
  - by eapply park_inv.
  - by eapply claim_inv.
  - destruct Hinv as [(mls & cls & Hm & Hc & Hsafe & _) _]. split; [by exists mls, cls|].
    split; [by intros ?%unbusy_free|by intros [? ?]].
  - destruct Hinv as [(mls & cls & Hm & Hc & Hsafe & Hrun) Hb]. cbn [ds_m ds_run ds_parked ds_done] in *.
    destruct (Hrun _ _ eq_refl) as (Hks & [_ Hrs]%Forall_cons & Hcov). split; [|by rewrite Hb; split; by eexists].
    exists mls, cls. split_and!; try done. intros rest' kept' [= <- <-]. split_and!; try done.
    intros x Ha Hx. destruct (Hcov x Ha Hx) as [?|[?|Hin]]; auto. right; right. revert Hin. unfold nonblank. cbn.
    by rewrite bool_decide_true.
  - by eapply line_inv.
  - destruct Hinv as [(mls & cls & Hm & Hc & Hsafe & Hrun) Hb]. cbn [ds_m ds_run ds_parked ds_done] in *.
    destruct (Hrun _ _ eq_refl) as (Hks & Hrs & Hcov). split; [|by rewrite Hb; split; by eexists].
    exists mls, cls. split_and!; try done. intros rest' kept' [= <- <-]. split_and!; [|constructor|].
    + apply Forall_app. split; [done|]. by apply nonblank_Forall.
    + intros x Ha Hx. rewrite line_recs_app, elem_of_app. destruct (Hcov x Ha Hx) as [?|[?|?]]; auto.
  - by eapply finish_inv.
  - destruct Hinv as [(mls & cls & Hm & Hc & Hsafe & _) _]. split; [by exists mls, cls|].
    split; [by intros ?%elem_of_empty|by intros [? ?]].
Qed.

End dlq.
