(* ===== verification/WebhookProps.v ===== *)
(** * What the webhook forwarder guarantees

    Parked records are never lost, deliveries are attempted a bounded number of
    times, and every record is accounted for. *)

From S2P Require Import Prelude Bytes Names Log LogRecover Manifest Cache GoText Webhook WebhookFacts.
From stdpp Require Import countable relations.

#[local] Open Scope Z_scope.

(** ** A sample codec

    An entry is numbered and the number written in binary, so that every law of
    [JsonLaws] holds; a value is JSON when it is not empty. *)

#[local] Instance byte_countable : Countable byte.
Proof.
  refine (inj_countable Byte.to_N Byte.of_N _). intros b. apply Byte.of_to_N.
Defined.

#[local] Instance dlqEntry_eq_dec : EqDecision dlqEntry.
Proof. solve_decision. Defined.

#[local] Instance dlqEntry_countable : Countable dlqEntry.
Proof.
  refine (inj_countable'
    (fun e => (de_Topic e, de_Partition e, de_Offset e, de_Key e, de_Value e, de_Timestamp e, de_FailedAt e, de_LastError e))
    (fun '(t, p, o, k, v, ts, f, l) => mkDlq t p o k v ts f l) _). by intros [].
Defined.

Fixpoint pos_bytes (p : positive) : list byte :=
  match p with xH => [x62] | xO p => x30 :: pos_bytes p | xI p => x31 :: pos_bytes p end.
Fixpoint bytes_pos (l : list byte) : option positive :=
  match l with
  | [] => None
  | b :: l =>
      if Byte.eqb b x62 then match l with [] => Some xH | _ => None end
      else if Byte.eqb b x30 then xO <$> bytes_pos l else if Byte.eqb b x31 then xI <$> bytes_pos l else None
  end.

#[local] Instance toy_json : Json := {|
  marshal_envelope r := match wr_Value r with [] => None | v => Some v end;
  event_type v := Some (String.string_of_list_byte v);
  marshal_entry e := Some (pos_bytes (encode e));
  unmarshal_entry l := bytes_pos l ≫= decode
|}.

Lemma bytes_pos_bytes p : bytes_pos (pos_bytes p) = Some p.
Proof. induction p as [p IH|p IH|]; cbn; by rewrite ?IH. Qed.

Lemma pos_bytes_chars p b : In b (pos_bytes p) -> b = x30 \/ b = x31 \/ b = x62.
Proof. induction p as [p IH|p IH|]; cbn; intros [<-|Hin]; auto. destruct Hin. Qed.

(** Bytes that occur in no white space are not trimmed. *)
Lemma spaces_chars w b : In w spaces -> In b w -> b <> x30 /\ b <> x31 /\ b <> x62.
Proof. unfold spaces. cbn. intuition (subst; cbn in *; intuition (subst; discriminate)). Qed.

Lemma pos_bytes_shaped p : line_shaped (pos_bytes p).
Proof.
  assert (forall b, In b (pos_bytes p) -> forall w, In w spaces -> ~ In b w) as Hno.
  { intros b Hb w Hw Hin. destruct (spaces_chars w b Hw Hin) as (? & ? & ?). destruct (pos_bytes_chars p b Hb) as [->|[->| ->]]; done. }
  split_and!.
  - by destruct p.
  - intros Hin. apply (Hno _ Hin [x0a]); [|by left]. right. by left.
  - apply TrimSpace_id. intros b w Hb Hw Hin. by apply (Hno b Hb w).
Qed.

#[local] Instance toy_laws : JsonLaws.
Proof.
  split.
  - intros e l [= <-]. apply pos_bytes_shaped.
  - intros e l [= <-] _. exists e. split; [|done]. unfold unmarshal_entry, toy_json. rewrite bytes_pos_bytes. apply decode_encode.
Qed.

(** ** Nothing parked is lost *)

(** The record is on a line of the file. *)
Definition on_file `{Json} (files : gmap string (list byte)) (path : string) (r : WRecord) : Prop :=
  exists raw line e, files !! path = Some raw /\ In line (split_nl raw) /\ unmarshal_entry (TrimSpace line) = Some e /\ entry_record e = r.

Lemma recs_on_file `{JsonLaws} files path ls r : file_lines files path ls -> r ∈ recs ls -> on_file files path r.
Proof.
  intros [Hd Hs] (line & Hl%list_elem_of_In & Hr)%list_elem_of_omap.
  destruct (unmarshal_entry line) as [e|] eqn:Eu; [|done]. injection Hr as Hr.
  destruct (files !! path) as [raw|] eqn:Ef; cbn in Hd; subst; [|by destruct ls as [|l0 ls0]; [destruct Hl|destruct l0]].
  exists (join_nl ls), line, e. rewrite split_join_nl by done. split_and!; [done|apply in_or_app; by left| |done].
  rewrite List.Forall_forall in Hs. by rewrite (proj2 (proj2 (Hs _ Hl))).
Qed.

(** C15: A dead letter is never lost.  Start from dead-letter files of whole lines
    and let anything happen in any order: records being parked, redeliveries that
    claim the file, send line by line, are cancelled, fail to read or write, or
    finish, second redeliveries being refused, and crashes at any point (writes do
    not tear).  Every record whose parking was acknowledged has been accepted by
    the endpoint since, or is still on a line of the file or of the claim, where
    the next redelivery finds it. *)
Theorem dlq_never_lost `{JsonLaws} hash sub method key m mls cls s rec :
  file_lines (mg_dlq m) (dlqPath hash key) mls -> file_lines (mg_dlq m) (claimPath hash key) cls -> key ∉ mg_dlqBusy m ->
  rtc (dlq_step hash sub method key) (mkDlqState m None [] []) s ->
  rec ∈ ds_parked s -> ascii_topic (wr_Topic rec) ->
  rec ∈ ds_done s \/ on_file (mg_dlq (ds_m s)) (dlqPath hash key) rec \/ on_file (mg_dlq (ds_m s)) (claimPath hash key) rec.
Proof.
  intros Hm Hc Hb Hsteps Hp Ha.
  assert (dlq_inv hash key s) as [(mls' & cls' & Hm' & Hc' & Hsafe & _) _].
  { assert (dlq_inv hash key (mkDlqState m None [] [])) as Hinit.
    { split; [|by split; [|intros [? ?]]]. exists mls, cls. split_and!; try done. intros r Hr. by apply elem_of_nil in Hr. }
    clear Hm Hc Hb Hp. induction Hsteps as [|s1 s2 s3 Hst _ IH]; [done|]. apply IH. by eapply dlq_step_inv. }
  destruct (Hsafe rec Hp Ha) as [?|[?|?]]; [by left|right; left|right; right]; by eapply recs_on_file.
Qed.

Definition sample_sub : Subscription := mkSub "orders" "http://hook" "" [] "" "" "".
Definition sample_key : string := sub_key "orders" "http://hook".
Definition sample_rec : WRecord := mkWRecord "orders" 0 7 [] [x7b; x7d] 1000.
Definition sample_manager : Manager := NewManager (ConfigOk (mkWebhooks 1 [sample_sub])) ∅.
Definition good_claim : claim_io := mkClaimIo true AppOk true true.
Definition parked_manager : Manager :=
  set_dlq sample_manager (appendDLQ (fun k => k) AppOk 5 ∅ sample_key sample_rec (EMsg "HTTP 503")).1.
Definition claimed_manager : Manager := (claim (fun k => k) good_claim parked_manager sample_key).1.

Lemma ascii_orders : ascii_topic "orders".
Proof. intros c Hc. cbn in Hc. intuition (subst; vm_compute; reflexivity). Qed.

(** The record is parked, claimed by a redelivery, and the process crashes. *)
Lemma dlq_never_lost_witness :
  sample_rec ∈ @nil WRecord \/ on_file (mg_dlq (set_busy claimed_manager ∅)) (dlqPath (fun k => k) sample_key) sample_rec \/
  on_file (mg_dlq (set_busy claimed_manager ∅)) (claimPath (fun k => k) sample_key) sample_rec.
Proof.
  apply (dlq_never_lost (fun k => k) sample_sub "POST" sample_key sample_manager [] []
           (mkDlqState (set_busy claimed_manager ∅) None [sample_rec] []) sample_rec).
  - split; [vm_compute; reflexivity|constructor].
  - split; [vm_compute; reflexivity|constructor].
  - apply not_elem_of_empty.
  - eapply rtc_l; [exact (step_park _ _ _ _ AppOk 5 sample_rec (EMsg "HTTP 503") sample_manager None [] [] _ _ I eq_refl)|].
    eapply rtc_l.
    { apply (step_claim _ _ _ _ good_claim parked_manager claimed_manager (Ok true)
        (default [] (mg_dlq claimed_manager !! claimPath (fun k => k) sample_key)) None [sample_rec] []);
        [exact I|vm_compute; reflexivity|intros _; vm_compute; reflexivity]. }
    rewrite decide_True by reflexivity. eapply rtc_l; [apply step_crash|]. apply rtc_refl.
  - left.
  - exact ascii_orders.
Defined.

(** ** Delivering *)

Definition accepted (h : http) : bool := match h with HttpStatus c => (200 <=? c) && (c <? 300) | _ => false end.
Definition may_retry (h : http) : bool :=
  match h with HttpInvalid _ => false | HttpNoResponse _ => true | HttpStatus c => (c <? 400) || (c >=? 500) end.

Lemma deliverOnce_cases h method s raw : exists rq retry derr, deliverOnce h method s raw = (rq, retry, derr) /\
  (sent rq = [] \/ sent rq = [build_request method s raw]) /\ (derr = None <-> accepted h = true) /\
  (accepted h = true -> sent rq = [build_request method s raw]) /\ (accepted h = false -> retry = may_retry h).
Proof.
  destruct h as [msg|msg|c]; cbn.
  - eexists _, _, _. split; [done|]. split_and!; try done; [by left].
  - eexists _, _, _. split; [done|]. split_and!; try done; [by right].
  - destruct ((200 <=? c) && (c <? 300)); eexists _, _, _; (split; [done|]); split_and!; try done; by right.
Qed.

(** Attempt [i] is reached and accepted. *)
Definition succeeds_at (cancelled : nat -> bool) (net : nat -> http) (a i : nat) : Prop :=
  accepted (net i) = true /\ (forall j, (a <= j < i)%nat -> accepted (net j) = false) /\
  (forall j, (1 <= j)%nat -> (a <= j <= i)%nat -> cancelled j = false) /\
  (forall j, (1 <= j)%nat -> (a <= j < i)%nat -> may_retry (net j) = true).

Lemma deliver_loop_spec ds : forall a cancelled net method s raw le,
  (forall j d, ds !! j = Some d -> (d >? 0) = (1 <=? a + j)%nat) ->
  let '(rqs, r) := deliver_loop ds a cancelled net method s raw le in
  (length rqs <= length ds)%nat /\ Forall (eq (build_request method s raw)) rqs /\
  (r = Ok tt <-> exists i, (a <= i < a + length ds)%nat /\ succeeds_at cancelled net a i) /\ r <> Panic /\ r <> Diverge /\
  (r = Ok tt -> build_request method s raw ∈ rqs).
Proof.
  induction ds as [|d ds IH]; intros a cancelled net method s raw le Hds; cbn [deliver_loop].
  { split_and!; try done. split; [done|]. intros (i & Hi & _). cbn in Hi. lia. }
  rewrite (Hds O d eq_refl), Nat.add_0_r.
  destruct ((1 <=? a)%nat && cancelled a) eqn:Ec.
  { apply andb_true_iff in Ec as [Ha%Nat.leb_le Ec]. split_and!; try done; [cbn; lia|]. split; [done|].
    intros (i & Hi & _ & _ & Hcan & _). rewrite Hcan in Ec by lia. done. }
  destruct (deliverOnce_cases (net a) method s raw) as (rq & retry & derr & -> & Hsent & Hderr & Hacc1 & Hretry).
  assert (Forall (eq (build_request method s raw)) (sent rq) /\ (length (sent rq) <= 1)%nat) as [Hrq Hlen].
  { destruct Hsent as [-> | ->]; cbn; split; try lia; by repeat constructor. }
  assert (forall j, (1 <= j)%nat -> j = a -> cancelled j = false) as Hca.
  { intros j Hj ->. rewrite (proj2 (Nat.leb_le _ _) Hj) in Ec. done. }
  destruct derr as [er|].
  2:{ split_and!; try done; [cbn; lia| |intros _; rewrite Hacc1 by (by apply Hderr); by left].
      split; [|done]. intros _. exists a. split; [cbn; lia|]. split_and!.
      - by apply Hderr.
      - intros j Hj. lia.
      - intros j Hj1 Hj2. apply Hca; lia.
      - intros j Hj1 Hj2. lia. }
  assert (accepted (net a) = false) as Hacc. { apply not_true_iff_false. intros E%Hderr. done. }
  rewrite Hretry by done. destruct (may_retry (net a)) eqn:Em; cbn [negb andb]; [|destruct (1 <=? a)%nat eqn:Ea].
  2:{ apply Nat.leb_le in Ea. split_and!; try done; [cbn; lia|]. split; [done|].
      intros (i & Hi & Hai & Hno & _ & Hr). destruct (decide (i = a)) as [->|]; [congruence|].
      rewrite Hr in Em by lia. done. }
  all: specialize (IH (S a) cancelled net method s raw er);
    destruct (deliver_loop ds (S a) cancelled net method s raw er) as [rqs r];
    destruct IH as (Hl & Hf & Hiff & Hp & Hdv & Hin); [intros j d' Hj; rewrite (Hds (S j) d' Hj); f_equal; lia|];
    (split_and!; [rewrite length_app; cbn; lia|by apply Forall_app| |done|done|intros ?; apply elem_of_app; right; by apply Hin]); rewrite Hiff; split.
  all: intros (i & Hi & Hai & Hno & Hcan & Hr).
  all: try (exists i; split; [cbn in *; lia|]; split_and!;
    [done
    |intros j Hj; destruct (decide (j = a)) as [->|]; [done|apply Hno; lia]
    |intros j Hj1 Hj2; destruct (decide (j = a)) as [->|]; [by apply Hca|apply Hcan; lia]
    |intros j Hj1 Hj2; destruct (decide (j = a)) as [->|]; [try done; apply Nat.leb_gt in Ea; lia|apply Hr; lia]]; fail).
  all: assert (i <> a) by congruence; exists i; split; [cbn in *; lia|]; split_and!;
    [done|intros j Hj; apply Hno; lia|intros j Hj1 Hj2; apply Hcan; lia|intros j Hj1 Hj2; apply Hr; lia].
Qed.

(** Delivery is bounded and honest.  A record whose value can be enveloped is
    posted at most six times, always as the same request, within delays of 456
    seconds in total; the delivery reports success exactly when some attempt is
    reached and answered with a 2xx status: no earlier one was accepted, none of
    the attempts in between (but the first) was refused for good, and the context
    did not end while waiting.  A record that cannot be enveloped is not sent. *)
Theorem deliver_exact `{Json} cancelled net method s rec :
  let '(rqs, r) := deliver cancelled net method s rec in
  (length rqs <= 6)%nat /\ foldr Z.add 0 delays = 456000 /\
  match marshal_envelope rec with
  | None => rqs = [] /\ is_ok r = false
  | Some raw => Forall (eq (build_request method s raw)) rqs /\
      (r = Ok tt <-> exists i, (i < 6)%nat /\ succeeds_at cancelled net 0 i)
  end.
Proof.
  unfold deliver. destruct (marshal_envelope rec) as [raw|]; [|by split; [cbn; lia|]].
  pose proof (deliver_loop_spec delays 0 cancelled net method s raw (EMsg "")) as Hl.
  destruct (deliver_loop _ _ _ _ _ _ _ _) as [rqs r]. destruct Hl as (H1 & H2 & H3 & _).
  { intros j d. unfold delays. do 6 (destruct j as [|j]; [by intros [= <-]|]). done. }
  split_and!; [done|done|done|]. rewrite H3. cbn. split; intros (i & ? & ?); exists i; (split; [lia|done]).
Qed.

(** A value that is not JSON is never sent: the record goes to the dead letters
    and stays there through every redelivery. *)
Example not_json_never_sent :
  let r := mkWRecord "orders" 0 7 [] [] 1000 in
  deliver (fun _ => false) (fun _ => HttpStatus 200) "POST" sample_sub r = ([], Err (EWrap "marshal envelope" (EMsg "invalid JSON"))) /\
  let m := set_dlq sample_manager (appendDLQ (fun k => k) AppOk 5 ∅ sample_key r (EMsg "")).1 in
  let '(_, res, rqs) := RedeliverDLQ (fun k => k) (mkRedeliver good_claim true (fun _ => Some (HttpStatus 200, 9)) id AppOk true) m "orders" "http://hook" in
  res = (0, 1, Ok tt) /\ rqs = [].
Proof. vm_compute. repeat split. Qed.

(** A write that is cut short leaves a line without its end; the next record is
    appended to it and can no longer be decoded, so no redelivery sends it. *)
Example torn_append_hides_next :
  let r2 := mkWRecord "orders" 0 8 [] [x7b; x7d] 1001 in
  let files1 := (appendDLQ (fun k => k) (AppTorn 10) 5 ∅ sample_key sample_rec (EMsg "HTTP 503")).1 in
  let '(files2, r) := appendDLQ (fun k => k) AppOk 6 files1 sample_key r2 (EMsg "HTTP 503") in
  let '(_, res, rqs) := RedeliverDLQ (fun k => k) (mkRedeliver good_claim true (fun _ => Some (HttpStatus 200, 9)) id AppOk true)
                          (set_dlq sample_manager files2) "orders" "http://hook" in
  r = Ok tt /\ res = (0, 1, Ok tt) /\ rqs = [].
Proof. vm_compute. repeat split. Qed.

(** ** Redelivering *)

Section redeliver.
Context `{JsonLaws} (hash : string -> string) (method : string) (sub : Subscription).

(** The record was posted to the endpoint. *)
Definition posted (rqs : list request) (r : WRecord) : Prop :=
  exists raw, marshal_envelope r = Some raw /\ build_request method sub raw ∈ rqs.

Lemma done_by_posted h now line k rqs r : redeliver_line h now method sub line = (k, rqs) -> r ∈ done_by line k -> posted rqs r.
Proof.
  unfold redeliver_line, done_by. destruct (unmarshal_entry line) as [e|]; [|intros [= <- <-] Hr; by apply elem_of_nil in Hr].
  destruct (marshal_envelope (entry_record e)) as [raw|] eqn:Em.
  2:{ intros [= <- <-] Hr. by apply elem_of_nil in Hr. }
  destruct (deliverOnce_cases h method sub raw) as (rq & retry & derr & -> & _ & Hd & Hs & _).
  destruct derr as [er|]; intros [= <- <-] Hr; [by apply elem_of_nil in Hr|]. apply list_elem_of_singleton in Hr as ->.
  exists raw. split; [done|]. rewrite Hs by (by apply Hd). by left.
Qed.

Lemma posted_app a b r : posted a r \/ posted b r -> posted (a ++ b) r.
Proof. intros [(raw & ? & ?)|(raw & ? & ?)]; exists raw; (split; [done|]); apply elem_of_app; auto. Qed.

Lemma redeliver_lines_spec env lines : forall i kept n kept' n' rqs,
  Forall (fun l => l = [] \/ line_shaped l) lines -> Forall line_shaped kept ->
  redeliver_lines env i method sub lines kept n = (kept', n', rqs) ->
  Forall line_shaped kept' /\ n' + zlen kept' = n + zlen kept + zlen (nonblank lines) /\
  (forall r, ascii_topic (wr_Topic r) -> r ∈ recs kept \/ r ∈ recs (nonblank lines) -> r ∈ recs kept' \/ posted rqs r).
Proof.
  induction lines as [|line lines IH]; intros i kept n kept' n' rqs Hl Hk; cbn [redeliver_lines].
  { intros [= <- <- <-]. split_and!; [done|change (zlen (nonblank [])) with 0; lia|].
    intros r _ [?|Hn]; [by left|by apply elem_of_nil in Hn]. }
  apply Forall_cons in Hl as [[->|Hl] Hls].
  { change (TrimSpace []) with (@nil byte). rewrite bool_decide_true by done. intros E. change (nonblank ([] :: lines)) with (nonblank lines).
    by eapply IH. }
  pose proof Hl as (Hne & _ & Ht). rewrite Ht, bool_decide_false by done. rewrite nonblank_cons by done.
  destruct (env i) as [[h now]|].
  - destruct (redeliver_line h now method sub line) as [k rq] eqn:Er.
    assert (forall e r, unmarshal_entry line = Some e -> entry_record e = r -> ascii_topic (wr_Topic r) ->
      posted rq r \/ r ∈ recs (keep k)) as Hcov.
    { intros e r He Hr Ha. destruct (redeliver_line_spec sub method h now line k rq r e Hl Er) as [_ [?|?]]; auto. left. by eapply done_by_posted. }
    destruct (redeliver_line_spec sub method h now line k rq (mkWRecord "" 0 0 [] [] 0) (mkDlq "" 0 0 [] [] 0 0 "") Hl Er) as [Hks _].
    assert (forall r, ascii_topic (wr_Topic r) -> r ∈ recs (line :: nonblank lines) -> posted rq r \/ r ∈ recs (keep k) \/ r ∈ recs (nonblank lines)) as Hhead.
    { intros r Ha Hr. cbn [recs omap list_omap] in Hr. destruct (unmarshal_entry line) as [e|] eqn:Eu; cbn in Hr; [|auto].
      apply elem_of_cons in Hr as [->|?]; [|auto]. destruct (Hcov e _ eq_refl eq_refl Ha); auto. }
    set (kn := match k with Some l => (kept ++ [l], n) | None => (kept, n + 1) end).
    assert (kn = (kept ++ keep k, n + (1 - zlen (keep k)))) as ->.
    { unfold kn. destruct k as [l0|]; cbn [keep]; [change (zlen [l0]) with 1|change (zlen (@nil (list byte))) with 0; rewrite app_nil_r]; f_equal; lia. }
    destruct (redeliver_lines env (S i) method sub lines _ _) as [[kept1 n1] rest] eqn:Eloop. intros [= <- <- <-].
    apply IH in Eloop as (Hks' & Hn & Hcov'); [|done|by apply Forall_app]. rewrite zlen_app in Hn. split_and!; [done|rewrite zlen_cons; lia|].
    intros r Ha Hr. assert (posted rq r \/ r ∈ recs (kept ++ keep k) \/ r ∈ recs (nonblank lines)) as [?|Hr'].
    { rewrite line_recs_app, elem_of_app. destruct Hr as [?|Hr]; [auto|]. destruct (Hhead r Ha Hr) as [?|[?|?]]; auto. }
    + right. apply posted_app. by left.
    + destruct (Hcov' r Ha Hr') as [?|?]; [by left|]. right. apply posted_app. by right.
  - intros [= <- <- <-].
    rewrite zlen_app. split_and!; [|lia|].
    + apply Forall_app. split; [done|]. constructor; [done|]. by apply nonblank_Forall.
    + intros r _ Hr. left. rewrite line_recs_app, elem_of_app. tauto.
Qed.

(** Folding back and claiming, when no call fails. *)
Lemma claim_good m key mls cls o : ci_readable o = true -> ci_fold o = AppOk -> ci_remove o = true -> ci_rename o = true ->
  file_lines (mg_dlq m) (dlqPath hash key) mls -> file_lines (mg_dlq m) (claimPath hash key) cls -> key ∉ mg_dlqBusy m ->
  exists files raw, fold_back hash o (mg_dlq m) key = (files, Ok tt) /\ files !! claimPath hash key = None /\
    default [] (files !! dlqPath hash key) = raw /\ raw = join_nl (mls ++ cls) /\
    claim hash o m key = match files !! dlqPath hash key with
      | None => (set_dlq m files, Ok false)
      | Some raw => (set_busy (set_dlq m (<[claimPath hash key := raw]> (delete (dlqPath hash key) files))) ({[ key ]} ∪ mg_dlqBusy m), Ok true)
      end.
Proof.
  intros H1 H2 H3 H4 Hm [Hc Hcs] Hb. unfold claim. rewrite bool_decide_false by done. rewrite H4.
  assert (exists files, fold_back hash o (mg_dlq m) key = (files, Ok tt) /\ files !! claimPath hash key = None /\
    file_lines files (dlqPath hash key) (mls ++ cls)) as (files & -> & Hcl & [Hd _]).
  { unfold fold_back. destruct (mg_dlq m !! claimPath hash key) as [raw|] eqn:Ecl; cbn in Hc.
    - subst raw. rewrite H1, H2, H3. cbn [negb]. destruct (appendRawLocked _ _ _ _) as [f1 r1] eqn:Ea.
      destruct (appendRaw_lines AppOk _ _ _ _ _ _ I Hm Hcs Ea) as [Hoth Hcase].
      assert (is_ok r1 = true) as Hr.
      { unfold appendRawLocked in Ea. case_bool_decide; injection Ea as <- <-; done. }
      destruct r1 as [[]| | |]; try done. destruct Hcase as [[? _]|Hf]; [done|].
      exists (delete (claimPath hash key) f1). split_and!; [done|by rewrite lookup_delete_eq|].
      eapply file_lines_other; [|exact Hf]. apply lookup_delete_ne, paths_differ.
    - exists (mg_dlq m). split_and!; [done|done|]. assert (cls = []) as -> by (destruct cls as [|[] ]; done). by rewrite app_nil_r. }
  exists files, (join_nl (mls ++ cls)). by split_and!.
Qed.

End redeliver.

(** Redelivery accounts for every line.  With dead-letter files of whole
    lines (also a claim left behind by a crash) and no disk failure, a redelivery
    reports how many records the endpoint accepted and how many remain, and the two
    add up to the lines there were; the remaining lines are in the file, the claim
    is gone, and every record is on one of them or was posted, whatever the
    endpoint answers and whenever the context ends. *)
Theorem RedeliverDLQ_accounts `{JsonLaws} hash m c topic url sub mls cls env now_files m' n k r rqs :
  LoadConfig m = Ok c -> find_sub topic url c = Some sub ->
  file_lines (mg_dlq m) (dlqPath hash (sub_key topic url)) mls -> file_lines (mg_dlq m) (claimPath hash (sub_key topic url)) cls ->
  sub_key topic url ∉ mg_dlqBusy m -> (forall f, now_files f = f) ->
  RedeliverDLQ hash (mkRedeliver (mkClaimIo true AppOk true true) true env now_files AppOk true) m topic url = (m', (n, k, r), rqs) ->
  r = Ok tt /\ n + k = zlen (mls ++ cls) /\ mg_dlq m' !! claimPath hash (sub_key topic url) = None /\
  exists kept, file_lines (mg_dlq m') (dlqPath hash (sub_key topic url)) kept /\ zlen kept = k /\
    forall x, ascii_topic (wr_Topic x) -> x ∈ recs (mls ++ cls) ->
      x ∈ recs kept \/ posted (if String.eqb (sb_Method sub) "" then "POST" else sb_Method sub) sub rqs x.
Proof.
  intros Hload Hfind Hm Hc Hb Hothers. unfold RedeliverDLQ. rewrite Hload, Hfind. cbn [rd_claim].
  set (key := sub_key topic url) in *. set (method := if String.eqb (sb_Method sub) "" then "POST" else sb_Method sub).
  destruct (claim_good hash m key mls cls (mkClaimIo true AppOk true true) eq_refl eq_refl eq_refl eq_refl Hm Hc Hb)
    as (files & raw & _ & Hcl & Hd & -> & Hclaim).
  assert (Forall line_shaped (mls ++ cls)) as Hs by (apply Forall_app; split; [apply Hm|apply Hc]).
  rewrite Hclaim. destruct (files !! dlqPath hash key) as [raw|] eqn:Ef; cbn in Hd.
  2:{ assert (mls ++ cls = []) as E0 by (destruct (mls ++ cls) as [|[] ]; done). intros [= <- <- <- <- <-]. rewrite E0.
      split_and!; [done|done|done|]. exists []. split_and!; [|done|].
      - split; [cbn; by rewrite Ef|constructor].
      - intros x _ Hx. by apply elem_of_nil in Hx. }
  subst raw. cbn [mg_dlq set_busy set_dlq rd_read rd_lines rd_others rd_append rd_removed negb]. rewrite lookup_insert_eq, Hothers.
  rewrite split_join_nl by done. destruct (redeliver_lines env 0 method sub _ [] 0) as [[kept n1] rqs1] eqn:El.
  assert (Forall (fun l => l = [] \/ line_shaped l) ((mls ++ cls) ++ [[]])) as Hlines.
  { apply Forall_app. split; [|by constructor; [left|constructor]]. eapply Forall_impl; [exact Hs|]. auto. }
  destruct (redeliver_lines_spec hash method sub env _ _ _ _ _ _ _ Hlines (Forall_nil_2 _) El) as (Hks & Hn & Hcov).
  rewrite nonblank_shaped in Hn, Hcov by done. change (zlen (@nil (list byte))) with 0 in Hn.
  set (files1 := <[claimPath hash key := join_nl (mls ++ cls)]> (delete (dlqPath hash key) files)).
  assert (file_lines files1 (dlqPath hash key) []) as Hm1.
  { split; [|constructor]. unfold files1. rewrite lookup_insert_ne by apply paths_differ. by rewrite lookup_delete_eq. }
  destruct (finish hash AppOk true files1 key kept) as [files2 r2] eqn:Efin. intros [= <- <- <- <- <-].
  assert (exists f, r2 = Ok tt /\ files2 = delete (claimPath hash key) f /\ file_lines f (dlqPath hash key) kept) as (f & -> & -> & Hf).
  { unfold finish in Efin. case_bool_decide as Hk; [injection Efin as <- <-; subst kept; by exists files1|].
    destruct (appendRawLocked AppOk files1 _ _) as [f1 r1] eqn:Ea. destruct (appendRaw_lines AppOk _ _ _ _ _ _ I Hm1 Hks Ea) as [_ Hcase].
    unfold appendRawLocked in Ea. destruct kept as [|l0 ls0]; [done|].
    rewrite bool_decide_false in Ea by (apply TrimSpace_join; by apply Forall_cons in Hks as [? _]).
    injection Ea as <- <-. injection Efin as <- <-. destruct Hcase as [[? _]|?]; [done|]. by eexists. }
  split; [done|]. split; [lia|]. split; [cbn; by rewrite lookup_delete_eq|]. exists kept. split; [|split; [done|]].
  - eapply file_lines_other; [|exact Hf]. cbn. apply lookup_delete_ne, paths_differ.
  - intros x Ha Hx. apply Hcov; auto.
Qed.

Lemma RedeliverDLQ_accounts_witness :
  exists m' n k r rqs,
    RedeliverDLQ (fun k => k) (mkRedeliver good_claim true (fun _ => Some (HttpStatus 503, 9)) (fun f => f) AppOk true)
      parked_manager "orders" "http://hook" = (m', (n, k, r), rqs) /\
    r = Ok tt /\ n + k = 1.
Proof.
  destruct (RedeliverDLQ (fun k => k) (mkRedeliver good_claim true (fun _ => Some (HttpStatus 503, 9)) (fun f => f) AppOk true)
      parked_manager "orders" "http://hook") as [[m' [[n k] r]] rqs] eqn:E.
  exists m', n, k, r, rqs. split; [reflexivity|].
  destruct (RedeliverDLQ_accounts (fun k => k) parked_manager (mkWebhooks 1 [sample_sub]) "orders" "http://hook" sample_sub
    [default [] (marshal_entry (mkDlq "orders" 0 7 [] [x7b; x7d] 1000 5 "HTTP 503"))] []
    (fun _ => Some (HttpStatus 503, 9)) (fun f => f) m' n k r rqs) as (Hr & Hn & _).
  - reflexivity.
  - reflexivity.
  - split; [vm_compute; reflexivity|]. constructor; [apply pos_bytes_shaped|constructor].
  - split; [vm_compute; reflexivity|constructor].
  - apply not_elem_of_empty.
  - reflexivity.
  - exact E.
  - split; [exact Hr|exact Hn].
Defined.

(** ** A subscription *)

Definition wanted `{Json} (s : Subscription) (rec : WRecord) : bool :=
  String.eqb (sb_FilterEventType s) "" || matchesEventType (wr_Value rec) (sb_FilterEventType s).
Definition sub_method (s : Subscription) : string := if String.eqb (sb_Method s) "" then "POST" else sb_Method s.

(** What one run of a subscription leaves behind. *)
Record accounted `{Json} (hash : string -> string) (s : Subscription) (key : string) (m m' : Manager) (st : stats)
    (ls : list (list byte)) (rs : list WRecord) (rqs : list request) : Prop := {
  ac_stats : exists st', mg_stats m' !! key = Some st' /\
    exists parked, file_lines (mg_dlq m') (dlqPath hash key) (ls ++ parked) /\
      st_failed st' = st_failed st + zlen parked /\
      st_delivered st' + zlen parked = st_delivered st + zlen (List.filter (wanted s) rs) /\
      forall r, In r rs -> wanted s r = true -> ascii_topic (wr_Topic r) -> r ∈ recs parked \/ posted (sub_method s) s rqs r
}.

Lemma deliver_posted `{Json} cancelled net method s rec rqs r :
  deliver cancelled net method s rec = (rqs, r) -> r <> Panic /\ r <> Diverge /\ (r = Ok tt -> posted method s rqs rec).
Proof.
  unfold deliver. destruct (marshal_envelope rec) as [raw|] eqn:Em; [|by intros [= <- <-]]. intros E.
  pose proof (deliver_loop_spec delays 0 cancelled net method s raw (EMsg "")) as Hl. rewrite E in Hl.
  destruct Hl as (_ & _ & _ & ? & ? & Hin); [|split_and!; [done|done|]; intros Hr; exists raw; auto].
  intros j d. unfold delays. do 6 (destruct j as [|j]; [by intros [= <-]|]). done.
Qed.

Lemma run_record_accounts `{JsonLaws} hash s key m rec e m' rqs st ls :
  (forall en, is_Some (marshal_entry en)) -> re_append e = AppOk ->
  mg_stats m !! key = Some st -> file_lines (mg_dlq m) (dlqPath hash key) ls ->
  run_record hash s key m rec e = (m', rqs) -> accounted hash s key m m' st ls [rec] rqs.
Proof.
  intros Hmar Happ Hst Hls. unfold run_record.
  assert (negb (String.eqb (sb_FilterEventType s) "") && negb (matchesEventType (wr_Value rec) (sb_FilterEventType s)) = negb (wanted s rec)) as ->
    by (unfold wanted; by rewrite negb_orb).
  destruct (wanted s rec) eqn:Ew; cbn [negb].
  2:{ intros [= <- <-]. split. exists st. split; [done|]. exists []. cbn [List.filter]. rewrite Ew, app_nil_r.
      split_and!; [done|rewrite zlen_nil; lia|done|]. intros r [<-|[]]. congruence. }
  destruct (deliver (re_cancelled e) (re_net e) _ s rec) as [rq r] eqn:Ed.
  destruct (deliver_posted _ _ _ _ _ _ _ Ed) as (Hnp & Hnd & Hposted).
  destruct r as [[]|er| |]; [| |done|done].
  - intros [= <- <-]. split. exists (markDelivered (re_now e) st). cbn [mg_stats set_stats mg_dlq].
    split; [by rewrite lookup_alter_eq, Hst|]. exists []. cbn [List.filter]. rewrite Ew, app_nil_r.
    change (zlen (@nil (list byte))) with 0. change (zlen [rec]) with 1. cbn [markDelivered st_failed st_delivered].
    split_and!; [done|lia|lia|]. intros r [<-|[]] _ _. right. by apply Hposted.
  - unfold appendDLQ. set (en := mkDlq _ _ _ _ _ _ _ _). destruct (Hmar en) as [raw Hraw]. rewrite Hraw, Happ.
    intros [= <- <-]. split. exists (markFailed er st). cbn [mg_stats set_stats set_dlq mg_dlq].
    split; [by rewrite lookup_alter_eq, Hst|]. exists [raw]. cbn [List.filter]. rewrite Ew.
    change (zlen [raw]) with 1. change (zlen [rec]) with 1. cbn [markFailed st_failed st_delivered]. split_and!.
    + destruct Hls as [Hd Hs]. split; [|apply Forall_app; split; [done|]; constructor; [by eapply marshal_line|constructor]].
      rewrite lookup_insert_eq. cbn. rewrite Hd, join_nl_app. do 2 f_equal. unfold join_nl. cbn. by rewrite app_nil_r.
    + lia.
    + lia.
    + intros r [<-|[]] _ Ha. left. destruct (unmarshal_marshal en raw Hraw Ha) as (e' & He' & Hr').
      eapply elem_recs; [by left|exact He'|]. rewrite Hr'. by destruct rec.
Qed.

(** A subscription accounts for every record.  Of the records it reads, those
    that pass the filter are each counted once, as delivered or as failed; the
    failed ones are exactly the lines added to the dead-letter file; and every
    record that passes was posted and accepted or is on one of those lines, whatever
    the endpoint answers and whenever the context ends.  (Dead letters can be
    written.) *)
Theorem runOne_accounts `{JsonLaws} hash s key m l m' rqs st ls :
  (forall en, is_Some (marshal_entry en)) -> Forall (fun x => re_append x.2 = AppOk) l ->
  mg_stats m !! key = Some st -> file_lines (mg_dlq m) (dlqPath hash key) ls ->
  runOne hash s key m l = (m', rqs) -> accounted hash s key m m' st ls (map fst l) rqs.
Proof.
  intros Hmar. revert m st ls rqs. induction l as [|[rec e] l IH]; intros m st ls rqs Hio Hst Hls; cbn [runOne map fst].
  { intros [= <- <-]. split. exists st. split; [done|]. exists []. rewrite app_nil_r.
    cbn [List.filter]. change (zlen (@nil (list byte))) with 0. change (zlen (@nil WRecord)) with 0. split_and!; [done|lia|lia|]. intros r []. }
  apply Forall_cons in Hio as [Ho Hio]. destruct (run_record hash s key m rec e) as [m1 rq1] eqn:E1.
  destruct (run_record_accounts _ _ _ _ _ _ _ _ _ _ Hmar Ho Hst Hls E1) as [(st1 & Hst1 & p1 & Hf1 & Hfail1 & Hdel1 & Hcov1)].
  destruct (runOne hash s key m1 l) as [m2 rq2] eqn:E2. intros [= <- <-].
  destruct (IH _ _ _ _ Hio Hst1 Hf1 E2) as [(st2 & Hst2 & p2 & Hf2 & Hfail2 & Hdel2 & Hcov2)].
  split. exists st2. split; [done|]. exists (p1 ++ p2). rewrite app_assoc, zlen_app.
  change (rec :: map fst l) with ([rec] ++ map fst l). rewrite List.filter_app, zlen_app. split_and!; [done|lia|lia|].
  intros r Hin Hw Ha. rewrite line_recs_app, elem_of_app. apply in_app_or in Hin as [Hin|Hin].
  - destruct (Hcov1 r Hin Hw Ha) as [?|?]; [auto|]. right. apply posted_app. by left.
  - destruct (Hcov2 r Hin Hw Ha) as [?|?]; [auto|]. right. apply posted_app. by right.
Qed.

Definition started_manager : Manager := (start sample_manager sample_sub).1.
Definition sample_events : list (WRecord * record_env) :=
  [(sample_rec, mkRecordEnv (fun _ => false) (fun i => if (i <? 2)%nat then HttpStatus 503 else HttpStatus 204) AppOk 20);
   (mkWRecord "orders" 0 8 [] [x31] 1001, mkRecordEnv (fun _ => false) (fun _ => HttpStatus 404) AppOk 21)].

Lemma runOne_accounts_witness :
  let '(m', rqs) := runOne (fun k => k) sample_sub sample_key started_manager sample_events in
  (length rqs = 5)%nat /\ accounted (fun k => k) sample_sub sample_key started_manager m' (mkStats 0 0 "" 0) [] (map fst sample_events) rqs.
Proof.
  destruct (runOne (fun k => k) sample_sub sample_key started_manager sample_events) as [m' rqs] eqn:E.
  split; [change rqs with (m', rqs).2; rewrite <- E; vm_compute; reflexivity|].
  apply (runOne_accounts (fun k => k) sample_sub sample_key started_manager sample_events m' rqs (mkStats 0 0 "" 0) []).
  - intros en. eexists. reflexivity.
  - constructor; [reflexivity|]. constructor; [reflexivity|]. constructor.
  - vm_compute. reflexivity.
  - split; [vm_compute; reflexivity|constructor].
  - exact E.
Defined.

(** The key of a subscription is taken apart again when the topic has no colon;
    otherwise the status names the wrong topic and endpoint. *)
Lemma splitKey_sub_key topic url : no_char ":" topic -> splitKey (sub_key topic url) = (topic, url).
Proof.
  unfold sub_key. induction topic as [|c topic IH]; intros Hn; [done|].
  change (String c topic +:+ "::" +:+ url) with (String c (topic +:+ "::" +:+ url)). cbn [splitKey].
  assert (c <> ":"%char) as Hc by (intros ->; apply Hn; by left).
  assert (no_char ":" topic) as Hn' by (intros ?; apply Hn; by right). specialize (IH Hn').
  destruct (topic +:+ "::" +:+ url) as [|d tl] eqn:E; [by destruct topic|].
  rewrite (proj2 (Ascii.eqb_neq c ":") Hc). cbn [andb]. by rewrite IH.
Qed.

Example splitKey_ambiguous : splitKey (sub_key "a:" "http://hook") = ("a", ":http://hook").
Proof. reflexivity. Qed.
