(* ===== verification/Config.v ===== *)
(** * Settings (internal/config/config.go)

    The configuration is one nested struct; its tags are the only source of its
    paths, defaults and documentation, and the code walks it by reflection.  So the
    struct types are data here, a value is a tree of the same shape, and the walks
    are recursions over the types.  [setField] is the one parser of settings. *)

From S2P Require Import Prelude Bytes Names Text GoText.

#[local] Open Scope Z_scope.

(** ** Types and values *)

Inductive kind := KString | KBool | KFloat64 | KInt | KInt32 | KInt64 | KDuration.
Record tags := mkTags { tg_name : string; tg_yaml : string; tg_def : string; tg_doc : string }.
#[warnings="-register-all"]
Inductive gotype := TLeaf (k : kind) | TStruct (fs : list (tags * gotype)).

#[warnings="-register-all"]
Inductive value := VString (s : string) | VBool (b : bool) | VFloat (f : float64) | VInt (z : Z) | VStruct (vs : list value).

Definition leaf (name yaml : string) (k : kind) (def doc : string) : tags * gotype := (mkTags name yaml def doc, TLeaf k).
Definition strct (name yaml : string) (t : gotype) : tags * gotype := (mkTags name yaml "" "", t).

Definition ListenersConfig : gotype := TStruct [
   leaf "Kafka" "kafka" KString "127.0.0.1:9092"
     "address the Kafka protocol listener binds to. Use 0.0.0.0:9092 to accept remote clients, but read the security note first";
   leaf "Admin" "admin" KString "127.0.0.1:8080"
     "address the HTTP admin and Prometheus listener binds to";
   leaf "AdvertisedHost" "advertisedhost" KString ""
     "hostname clients are told to reconnect to. Empty derives it from listeners.kafka. Set this behind NAT, a load balancer, or Docker port mapping";
   leaf "AdvertisedPort" "advertisedport" KInt "0"
     "port clients are told to reconnect to. 0 derives it from listeners.kafka. Set this when the published port differs from the bound port"].

Definition StorageConfig : gotype := TStruct [
   leaf "DataDir" "datadir" KString "./kafka-wire-data"
     "directory holding topics, consumer group state, and metadata. Must be on a durable filesystem";
   leaf "SegmentBytes" "segmentbytes" KInt64 "1GiB"
     "roll to a new log segment once the active one exceeds this size";
   leaf "SegmentAge" "segmentage" KDuration "168h"
     "roll to a new log segment once the active one is this old, even if it is not full";
   leaf "IndexInterval" "indexinterval" KInt64 "16KiB"
     "add a sparse index entry every this many bytes of log. Lower means faster lookups and bigger indexes";
   leaf "RetentionAge" "retentionage" KDuration "168h"
     "delete log segments older than this. 0 disables age-based retention. With cold storage on, a segment is only deleted once it is archived";
   leaf "RetentionSize" "retentionsize" KInt64 "-1"
     "delete oldest segments once a partition exceeds this many bytes. -1 means unlimited. With cold storage on, a segment is only deleted once it is archived";
   leaf "FsyncMode" "fsyncmode" KString "interval"
     "durability policy: none (fastest, relies on the OS), interval (fsync on a timer), always (fsync every append, slowest and safest)";
   leaf "FsyncInterval" "fsyncinterval" KDuration "5s"
     "how often to fsync when storage.fsyncmode is interval";
   leaf "DiskFreeMin" "diskfreemin" KFloat64 "0.10"
     "pause writes when the fraction of free disk space drops below this. 0 disables the guard"].

Definition FSArchiveConfig : gotype := TStruct [
   leaf "Path" "path" KString ""
     "directory to archive segments into when archive.backend is fs. Point this at an NFS or SMB mount for off-box durability"].

Definition S3ArchiveConfig : gotype := TStruct [
   leaf "Bucket" "bucket" KString ""
     "bucket name. Required when archive.backend is s3";
   leaf "Endpoint" "endpoint" KString ""
     "S3 API endpoint. Empty means AWS. Examples: http://minio:9000, https://ACCOUNT.r2.cloudflarestorage.com, https://storage.googleapis.com";
   leaf "Region" "region" KString "us-east-1"
     "region string. Cloudflare R2 and Tigris want auto. Many self-hosted stores ignore it but still require a value";
   leaf "Addressing" "addressing" KString "auto"
     "bucket addressing: auto, path, or virtual. MinIO, Ceph and SeaweedFS generally need path";
   leaf "AccessKey" "accesskey" KString ""
     "access key. Empty falls through to AWS_ACCESS_KEY_ID, then the shared credentials file, then the instance credential endpoint";
   leaf "SecretKey" "secretkey" KString ""
     "secret key. Prefer KAFKA_WIRE_ARCHIVE_S3_SECRETKEY_FILE over putting this in a config file";
   leaf "SessionToken" "sessiontoken" KString ""
     "session token for temporary credentials";
   leaf "Insecure" "insecure" KBool "false"
     "talk plain HTTP instead of HTTPS. Only for an in-cluster store on a trusted network";
   leaf "CAFile" "cafile" KString ""
     "PEM bundle for a store using a private certificate authority";
   leaf "SkipVerify" "skipverify" KBool "false"
     "do not verify the store TLS certificate. Debugging only";
   leaf "PartSize" "partsize" KInt64 "8MiB"
     "multipart part size. Minimum 5MiB on most stores. Set 64MiB for Storj. segmentbytes divided by this must stay under 10000";
   leaf "StorageClass" "storageclass" KString ""
     "value for x-amz-storage-class. Leave empty to omit the header. Never use an archival class: consumers fetch from this bucket"].

Definition ArchiveConfig : gotype := TStruct [
   leaf "Backend" "backend" KString "none"
     "cold storage tier: none, fs, or s3. s3 covers AWS plus every S3-compatible store";
   leaf "Prefix" "prefix" KString "kafka-wire/"
     "key prefix for archived segments. Lets several brokers share one bucket";
   leaf "Age" "age" KDuration "1h"
     "a sealed segment becomes eligible for upload once it is this old";
   leaf "LocalRetention" "localretention" KDuration "24h"
     "not enforced yet: archived segments stay on local disk until storage.retentionage or storage.retentionsize removes them";
   leaf "Concurrency" "concurrency" KInt "2"
     "how many segment uploads may run at once. Multiply by archive.s3.partsize to budget memory";
   leaf "CacheBytes" "cachebytes" KInt64 "2GiB"
     "size of the on-disk LRU cache holding segments restored from cold storage";
   strct "FS" "fs" FSArchiveConfig;
   strct "S3" "s3" S3ArchiveConfig].

Definition LimitsConfig : gotype := TStruct [
   leaf "MaxRequestBytes" "maxrequestbytes" KInt32 "4MiB"
     "largest single protocol request accepted. Must exceed the largest batch any producer sends";
   leaf "MaxConnections" "maxconnections" KInt "1024"
     "cap on concurrent client connections. 0 means unlimited";
   leaf "MemoryBytes" "memorybytes" KInt64 "0"
     "soft heap ceiling handed to the Go runtime, with 20 percent reserved as headroom. 0 disables it"].

Definition AuthConfig : gotype := TStruct [
   leaf "SASLEnabled" "saslenabled" KBool "false"
     "require SASL authentication on the Kafka listener";
   leaf "UsersFile" "usersfile" KString ""
     "path to the JSON file holding SCRAM credentials. Required when auth.saslenabled is true";
   leaf "AllowAnon" "allowanon" KBool "false"
     "permit a non-loopback listener with authentication disabled. The broker refuses to start without this, on purpose"].

Definition TLSConfig : gotype := TStruct [
   leaf "CertFile" "certfile" KString ""
     "PEM certificate for the Kafka listener. Set both certfile and keyfile to enable TLS";
   leaf "KeyFile" "keyfile" KString ""
     "PEM private key for the Kafka listener";
   leaf "ClientCA" "clientca" KString ""
     "PEM bundle of client certificate authorities. Setting it requires and verifies client certificates (mutual TLS)";
   leaf "MinVersion" "minversion" KString "1.2"
     "minimum TLS version: 1.2 or 1.3"].

Definition AdminConfig : gotype := TStruct [
   leaf "Token" "token" KString ""
     "bearer token required by the admin API. Empty leaves the admin API open, which is refused on a non-loopback bind";
   leaf "Enabled" "enabled" KBool "true"
     "serve the HTTP admin API and Prometheus metrics"].

Definition ClusterConfig : gotype := TStruct [
   leaf "ID" "id" KString "kafka-wire"
     "cluster identifier reported to clients in Metadata";
   leaf "BrokerID" "brokerid" KInt32 "1"
     "numeric broker id reported to clients"].

Definition ShutdownConfig : gotype := TStruct [
   leaf "Grace" "grace" KDuration "25s"
     "how long to finish in-flight work after a termination signal. Keep it below your orchestrator's kill timeout: Kubernetes terminationGracePeriodSeconds, Docker stop_grace_period, Nomad kill_timeout, systemd TimeoutStopSec"].

Definition LogConfig : gotype := TStruct [
   leaf "Level" "level" KString "info"
     "debug, info, warn, or error";
   leaf "Format" "format" KString "text"
     "text for a human at a terminal, json for a log pipeline"].

Definition RootConfig : gotype := TStruct [
   strct "Listeners" "listeners" ListenersConfig;
   strct "Storage" "storage" StorageConfig;
   strct "Archive" "archive" ArchiveConfig;
   strct "Limits" "limits" LimitsConfig;
   strct "Auth" "auth" AuthConfig;
   strct "TLS" "tls" TLSConfig;
   strct "Admin" "admin" AdminConfig;
   strct "Cluster" "cluster" ClusterConfig;
   strct "Shutdown" "shutdown" ShutdownConfig;
   strct "Log" "log" LogConfig].

#[global] Instance kind_eq : EqDecision kind.
Proof. solve_decision. Defined.

(** ** Parsing one setting *)

Definition parseBool (raw : string) : res bool :=
  let l := ToLower (TrimSpaceS raw) in
  if bool_decide (l ∈ ["1"; "true"; "yes"; "on"]) then Ok true
  else if bool_decide (l ∈ ["0"; "false"; "no"; "off"]) then Ok false
  else Err (EMsg "want true or false").

Definition size_suffixes : list (string * Z) :=
  [("KIB", 2 ^ 10); ("MIB", 2 ^ 20); ("GIB", 2 ^ 30); ("TIB", 2 ^ 40);
   ("KB", 2 ^ 10); ("MB", 2 ^ 20); ("GB", 2 ^ 30); ("TB", 2 ^ 40);
   ("K", 2 ^ 10); ("M", 2 ^ 20); ("G", 2 ^ 30); ("T", 2 ^ 40); ("B", 1)].

Definition ParseSize `{Platform} (raw : string) : res Z :=
  let s := TrimSpaceS raw in
  if String.eqb s "" then Ok 0
  else match ParseInt s with
  | Some n => Ok n
  | None =>
      let up := ToUpper s in
      match List.find (fun sm => has_suffix up sm.1) size_suffixes with
      | Some (suf, mult) =>
          match ParseFloat (TrimSpaceS (trim_suffix up suf)) with
          | None => Err (EMsg "want a size such as 512MiB")
          | Some f => Ok (int64_of_float (f64_mul f (f64_of_Z mult)))
          end
      | None => Err (EMsg "want a size such as 1GiB or a plain byte count")
      end
  end.

(** Nanoseconds; a plain number is milliseconds. *)
Definition ParseDuration (raw : string) : res Z :=
  let s := TrimSpaceS raw in
  if String.eqb s "" then Ok 0
  else match ParseInt s with
  | Some n => Ok (i64 (n * 10 ^ 6))
  | None => match time_ParseDuration s with Some d => Ok d | None => Err (EMsg "want a duration such as 30s or 168h") end
  end.

(** The width of an integer kind. *)
Definition width (k : kind) : Z := match k with KInt32 => 32 | _ => 64 end.

(** [setField]: the value the field of kind [k] gets.  A struct is not supported. *)
Definition setField `{Platform} (t : gotype) (raw : string) : res value :=
  match t with
  | TLeaf KString => Ok (VString raw)
  | TLeaf KBool => b ← parseBool raw; Ok (VBool b)
  | TLeaf KFloat64 => match ParseFloat raw with Some f => Ok (VFloat f) | None => Err (EMsg "want a number") end
  | TLeaf KDuration => d ← ParseDuration raw; Ok (VInt d)
  | TLeaf k =>
      n ← ParseSize raw;
      if (- 2 ^ (width k - 1) <=? n) && (n <? 2 ^ (width k - 1)) then Ok (VInt n) else Err (EMsg "value does not fit")
  | TStruct _ => Err (EMsg "unsupported kind struct")
  end.

(** ** Defaults *)

Fixpoint zero_value (t : gotype) : value :=
  match t with
  | TLeaf KString => VString ""
  | TLeaf KBool => VBool false
  | TLeaf KFloat64 => VFloat (S754_zero false)
  | TLeaf _ => VInt 0
  | TStruct fs => VStruct ((fix go fs := match fs with [] => [] | (_, t) :: fs => zero_value t :: go fs end) fs)
  end.

Fixpoint applyDefaults `{Platform} (t : gotype) (v : value) : res value :=
  match t, v with
  | TStruct fs, VStruct vs =>
      vs ← (fix go fs vs :=
        match fs, vs with
        | [], _ => Ok []
        | (tg, ft) :: fs, fv :: vs =>
            fv ← match ft with
                 | TStruct _ => applyDefaults ft fv
                 | TLeaf _ => if String.eqb (tg_def tg) "" then Ok fv else wrap_err (tg_name tg) (setField ft (tg_def tg))
                 end;
            vs ← go fs vs; Ok (fv :: vs)
        | _ :: _, [] => Panic
        end) fs vs;
      Ok (VStruct vs)
  | _, _ => Panic
  end.

Definition Default `{Platform} : res value :=
  match applyDefaults RootConfig (zero_value RootConfig) with Ok c => Ok c | _ => Panic end.

(** ** Paths and environment names *)

Definition EnvPrefix : string := "KAFKA_WIRE".

Definition dot_to_under (c : ascii) : ascii := if Ascii.eqb c "." then "_"%char else c.
Definition EnvName (path : string) : string := EnvPrefix +:+ "_" +:+ ToUpper (string_map dot_to_under path).

Record Field := mkField { fd_Path : string; fd_Env : string; fd_Default : string; fd_Doc : string; fd_Secret : bool; fd_Kind : string }.

Definition secretPaths : list string := ["admin.token"; "archive.s3.secretkey"; "archive.s3.accesskey"; "archive.s3.sessiontoken"].

Definition kindName (k : kind) : string :=
  match k with
  | KDuration => "duration"
  | KString => "string"
  | KBool => "bool"
  | KFloat64 => "float"
  | KInt | KInt32 | KInt64 => "size"
  end.

Definition join_path (prefix name : string) : string := if String.eqb prefix "" then name else prefix +:+ "." +:+ name.

Fixpoint walk (t : gotype) (prefix : string) : list Field :=
  match t with
  | TLeaf _ => []
  | TStruct fs =>
      (fix go fs :=
        match fs with
        | [] => []
        | (tg, ft) :: fs =>
            if String.eqb (tg_yaml tg) "" then go fs
            else
              let path := join_path prefix (tg_yaml tg) in
              match ft with
              | TStruct _ => walk ft path
              | TLeaf k => [mkField path (EnvName path) (tg_def tg) (tg_doc tg) (bool_decide (path ∈ secretPaths)) (kindName k)]
              end ++ go fs
        end) fs
  end.

Definition Fields : list Field := walk RootConfig "".

(** [fieldByPath]: the position of the field and its type.  Asking a leaf for its
    fields panics. *)
Fixpoint find_field (seg : string) (fs : list (tags * gotype)) (i : nat) : option (nat * gotype) :=
  match fs with
  | [] => None
  | (tg, t) :: fs => if String.eqb (tg_yaml tg) seg then Some (i, t) else find_field seg fs (S i)
  end.

Fixpoint resolve (t : gotype) (segs : list string) : res (option (list nat * gotype)) :=
  match segs with
  | [] => Ok (Some ([], t))
  | seg :: segs =>
      match t with
      | TLeaf _ => Panic
      | TStruct fs =>
          match find_field seg fs 0 with
          | None => Ok None
          | Some (i, t) => r ← resolve t segs; Ok (match r with Some (p, t) => Some (i :: p, t) | None => None end)
          end
      end
  end.

Definition fieldByPath (path : string) : res (option (list nat * gotype)) := resolve RootConfig (split_on "." path).

Fixpoint get_at (v : value) (p : list nat) {struct p} : option value :=
  match p with
  | [] => Some v
  | i :: p => match v with VStruct vs => v ← vs !! i; get_at v p | _ => None end
  end.

Fixpoint set_at (v : value) (p : list nat) (x : value) {struct p} : value :=
  match p with
  | [] => x
  | i :: p => match v with VStruct vs => VStruct (alter (fun v => set_at v p x) i vs) | _ => v end
  end.

(** Reading a setting: [c.Storage.DataDir] is [as_str c "storage.datadir"]. *)
Definition setting (c : value) (path : string) : option value :=
  match fieldByPath path with Ok (Some (p, _)) => get_at c p | _ => None end.
Definition as_str (c : value) (path : string) : string := match setting c path with Some (VString s) => s | _ => "" end.
Definition as_bool (c : value) (path : string) : bool := match setting c path with Some (VBool b) => b | _ => false end.
Definition as_int (c : value) (path : string) : Z := match setting c path with Some (VInt z) => z | _ => 0 end.
Definition as_float (c : value) (path : string) : float64 := match setting c path with Some (VFloat f) => f | _ => S754_nan end.

(** [SearchPaths]: where a configuration file is looked for. *)
Definition path_elems (s : string) : list string := List.filter (fun e => negb (String.eqb e "" || String.eqb e ".")) (split_on "/" s).

(** The elements of a path, with [..] resolved; nothing is above the root. *)
Fixpoint clean_elems (rooted : bool) (out : list string) (l : list string) : list string :=
  match l with
  | [] => rev out
  | e :: l =>
      if String.eqb e ".." then
        match out with
        | [] => clean_elems rooted (if rooted then [] else [".."]) l
        | o :: out' => if String.eqb o ".." then clean_elems rooted (".." :: out) l else clean_elems rooted out' l
        end
      else clean_elems rooted (e :: out) l
  end.

Fixpoint join_with (sep : string) (l : list string) : string :=
  match l with
  | [] => ""
  | [x] => x
  | x :: l => x +:+ sep +:+ join_with sep l
  end.

Definition Clean (s : string) : string :=
  let rooted := match s with String c _ => Ascii.eqb c "/" | _ => false end in
  let body := join_with "/" (clean_elems rooted [] (path_elems s)) in
  if rooted then "/" +:+ body else if String.eqb body "" then "." else body.
Definition Join (l : list string) : string :=
  match List.filter (fun e => negb (String.eqb e "")) l with [] => "" | l => Clean (join_with "/" l) end.

Definition SearchPaths (xdg : string) (home : option string) : list string :=
  ["kafka-wire.yaml"; "kafka-wire.yml"] ++
  (if String.eqb xdg "" then [] else [Join [xdg; "kafka-wire"; "kafka-wire.yaml"]]) ++
  (match home with Some h => [Join [h; ".config"; "kafka-wire"; "kafka-wire.yaml"]] | None => [] end) ++
  [Join ["/etc"; "kafka-wire"; "kafka-wire.yaml"]].

Example search_example : SearchPaths "/x/" (Some "/home/a/../b") =
  ["kafka-wire.yaml"; "kafka-wire.yml"; "/x/kafka-wire/kafka-wire.yaml"; "/home/b/.config/kafka-wire/kafka-wire.yaml"; "/etc/kafka-wire/kafka-wire.yaml"].
Proof. reflexivity. Qed.

Example default_example : exists c, Default = Ok c /\ as_int c "storage.segmentbytes" = 2 ^ 30 /\
  as_int c "archive.s3.partsize" = 8 * 2 ^ 20 /\ as_int c "storage.retentionage" = 168 * 3600 * 10 ^ 9 /\ as_str c "listeners.kafka" = "127.0.0.1:9092".
Proof. eexists. split; [vm_compute; reflexivity|]. vm_compute. repeat split. Qed.
