(* ===== verification/ConfigLoad.v ===== *)
(** * Loading the configuration (internal/config/load.go)

    Four layers over the defaults: the file, the environment, files named by the
    environment, and the flags.  The YAML parser is a parameter; its result is a
    tree.  Problems are collected, not stopped at, and are values here where the
    code has text. *)

From stdpp Require Import pretty.
From S2P Require Import Prelude Bytes Names Text GoText Config.

#[local] Open Scope Z_scope.

(** ** Suggestions *)

Definition min3 (a b c : Z) : Z := let a := if b <? a then b else a in if c <? a then c else a.

(** One row of the table: the row for a prefix of [a], extended by [c].  [left] is
    [cur[j-1]], [diag] is [prev[j-1]]. *)
Fixpoint next_row (c : ascii) (left diag : Z) (prev : list Z) (b : string) : list Z :=
  match b, prev with
  | String d b, p :: prev =>
      let cost := if Ascii.eqb c d then 0 else 1 in
      let x := min3 (left + 1) (p + 1) (diag + cost) in
      x :: next_row c x p prev b
  | _, _ => []
  end.

Fixpoint iota (i : Z) (b : string) : list Z :=
  match b with EmptyString => [i] | String _ b => i :: iota (i + 1) b end.

Fixpoint edit_rows (a : string) (i : Z) (prev : list Z) (b : string) : list Z :=
  match a with
  | EmptyString => prev
  | String c a =>
      match prev with
      | [] => []
      | diag :: rest => edit_rows a (i + 1) (i :: next_row c i diag rest b) b
      end
  end.

Definition editDistance (a b : string) : Z := default 0 (last (edit_rows a 1 (iota 0 b) b)).

(** [known] in the order in which the map is traversed. *)
Fixpoint suggest_loop (bad : string) (known : list string) (best : string) (bestD : Z) : string * Z :=
  match known with
  | [] => (best, bestD)
  | k :: known => let d := editDistance bad k in if d <? bestD then suggest_loop bad known k d else suggest_loop bad known best bestD
  end.

Definition suggest (bad : string) (known : list string) : option string :=
  let (best, bestD) := suggest_loop bad known "" (2 ^ 30) in
  if negb (String.eqb best "") && (bestD <=? 3) then Some best else None.

(** ** Flattening YAML *)

(** A number carries the text that [fmt] prints for it; [YOther] is a list or
    another type. *)
#[warnings="-register-all"]
Inductive yaml := YMap (m : list (string * yaml)) | YNull | YBool (b : bool) | YNumber (text : string) | YString (s : string) | YOther.

Fixpoint flatten (path : string) (v : yaml) (out : gmap string string) : res (gmap string string) :=
  match v with
  | YMap m =>
      (fix go m out :=
        match m with
        | [] => Ok out
        | (k, v) :: m => out ← flatten (join_path path k) v out; go m out
        end) m out
  | YNull => Ok (<[path := ""]> out)
  | YBool b => Ok (<[path := if b then "true" else "false"]> out)
  | YNumber t => Ok (<[path := if has_suffix t ".0" then trim_suffix t ".0" else t]> out)
  | YString s => Ok (<[path := s]> out)
  | YOther => Err (EMsg "lists and nested documents are not valid here")
  end.

(** The parser gives the top mapping, or fails. *)
Definition flattenYAML (unmarshal : list byte -> option (list (string * yaml))) (raw : list byte) : res (gmap string string) :=
  match unmarshal raw with
  | None => Err (EMsg "yaml")
  | Some root => flatten "" (YMap root) ∅
  end.

(** ** Sorted keys *)

Fixpoint insert_string (s : string) (l : list string) : list string :=
  match l with [] => [s] | x :: l => if String.leb s x then s :: x :: l else x :: insert_string s l end.
Definition sortedKeys {V} (m : gmap string V) : list string := foldr insert_string [] (map fst (map_to_list m)).

(** ** Validation *)

Inductive complaint :=
  | CDataDir | CKafkaEmpty | CSameListener (addr : string) | CFsyncMode (s : string) | CDiskFree (f : float64) | CSegmentBytes (z : Z)
  | CLogLevel (s : string) | CLogFormat (s : string) | CTLSVersion (s : string) | CTLSPair | CTLSClientCA | CNoUsers
  | COpenKafka (addr : string) | COpenAdmin (addr : string) | CFsPath | CBucket | CPartSize (z : Z) | CAddressing (s : string)
  | CParts (segment part parts : Z) (advice : string) | CStorageClass (s : string) | CBackend (s : string) | CLocalRetention (local age : Z).

Definition isArchivalClass (s : string) : bool := bool_decide (ToUpper s ∈ ["GLACIER"; "DEEP_ARCHIVE"; "GLACIER_IR"; "SNOW"]).

(** [addr[:i]] for the last colon [i], the whole when there is none. *)
Fixpoint before_last_colon (s : string) : option string :=
  match s with
  | EmptyString => None
  | String c s => match before_last_colon s with
                  | Some t => Some (String c t)
                  | None => if Ascii.eqb c ":" then Some "" else None
                  end
  end.

Definition is_bracket (c : ascii) : bool := Ascii.eqb c "[" || Ascii.eqb c "]".
Definition isPublicBind (addr : string) : bool :=
  let host := Trim is_bracket (default addr (before_last_colon addr)) in
  negb (bool_decide (host ∈ ["127.0.0.1"; "localhost"; "::1"; "[::1]"])).

(** The loop doubles at most 64 times before [p] exceeds every [int64]. *)
Fixpoint pow2_loop (fuel : nat) (p n : Z) : res Z :=
  match fuel with
  | O => Diverge
  | S fuel => if p <? n then pow2_loop fuel (i64 (p * 2)) n else Ok p
  end.
Definition roundUpPow2 (n : Z) : res Z := pow2_loop 64 (5 * 1024 * 1024) n.

Definition humanSize (n : Z) : string :=
  if n >=? 2 ^ 30 then pretty (Z.shiftr n 30) +:+ "GiB"
  else if n >=? 2 ^ 20 then pretty (Z.shiftr n 20) +:+ "MiB"
  else if n >=? 2 ^ 10 then pretty (Z.shiftr n 10) +:+ "KiB"
  else pretty n.

Definition only_if (b : bool) (c : complaint) : list complaint := if b then [c] else [].

Definition check_parts (c : value) : list complaint :=
  let seg := as_int c "storage.segmentbytes" in
  let part := as_int c "archive.s3.partsize" in
  if part >? 0 then
    let parts := Z.quot seg part in
    only_if (parts >? 10000) (CParts seg part parts (match roundUpPow2 (Z.quot seg 10000) with Ok p => humanSize p | _ => "" end))
  else [].

Definition check_backend (c : value) : list complaint :=
  let b := as_str c "archive.backend" in
  if String.eqb b "none" then []
  else if String.eqb b "fs" then only_if (String.eqb (as_str c "archive.fs.path") "") CFsPath
  else if String.eqb b "s3" then
    only_if (String.eqb (as_str c "archive.s3.bucket") "") CBucket ++
    only_if (as_int c "archive.s3.partsize" <? 5 * 1024 * 1024) (CPartSize (as_int c "archive.s3.partsize")) ++
    only_if (negb (bool_decide (as_str c "archive.s3.addressing" ∈ ["auto"; "path"; "virtual"]))) (CAddressing (as_str c "archive.s3.addressing")) ++
    check_parts c ++
    only_if (negb (String.eqb (as_str c "archive.s3.storageclass") "") && isArchivalClass (as_str c "archive.s3.storageclass"))
      (CStorageClass (as_str c "archive.s3.storageclass"))
  else [CBackend b].

(** [Validate]: every complaint, in the order of the checks. *)
Definition Validate (c : value) : list complaint :=
  let kafka := as_str c "listeners.kafka" in
  let admin := as_str c "listeners.admin" in
  only_if (String.eqb (as_str c "storage.datadir") "") CDataDir ++
  only_if (String.eqb kafka "") CKafkaEmpty ++
  only_if (String.eqb kafka admin) (CSameListener kafka) ++
  only_if (negb (bool_decide (as_str c "storage.fsyncmode" ∈ ["none"; "interval"; "always"]))) (CFsyncMode (as_str c "storage.fsyncmode")) ++
  only_if (f64_lt (as_float c "storage.diskfreemin") (f64_of_Z 0) || f64_le (f64_of_Z 1) (as_float c "storage.diskfreemin"))
    (CDiskFree (as_float c "storage.diskfreemin")) ++
  only_if (as_int c "storage.segmentbytes" <=? 0) (CSegmentBytes (as_int c "storage.segmentbytes")) ++
  only_if (negb (bool_decide (as_str c "log.level" ∈ ["debug"; "info"; "warn"; "error"]))) (CLogLevel (as_str c "log.level")) ++
  only_if (negb (bool_decide (as_str c "log.format" ∈ ["text"; "json"]))) (CLogFormat (as_str c "log.format")) ++
  only_if (negb (bool_decide (as_str c "tls.minversion" ∈ ["1.2"; "1.3"]))) (CTLSVersion (as_str c "tls.minversion")) ++
  only_if (xorb (String.eqb (as_str c "tls.certfile") "") (String.eqb (as_str c "tls.keyfile") "")) CTLSPair ++
  only_if (negb (String.eqb (as_str c "tls.clientca") "") && String.eqb (as_str c "tls.certfile") "") CTLSClientCA ++
  only_if (as_bool c "auth.saslenabled" && String.eqb (as_str c "auth.usersfile") "") CNoUsers ++
  only_if (isPublicBind kafka && negb (as_bool c "auth.saslenabled") && negb (as_bool c "auth.allowanon")) (COpenKafka kafka) ++
  only_if (isPublicBind admin && as_bool c "admin.enabled" && String.eqb (as_str c "admin.token") "" && negb (as_bool c "auth.allowanon"))
    (COpenAdmin admin) ++
  check_backend c ++
  only_if (negb (String.eqb (as_str c "archive.backend") "none") && (as_int c "archive.localretention" >? 0) &&
           (as_int c "archive.localretention" <? as_int c "archive.age"))
    (CLocalRetention (as_int c "archive.localretention") (as_int c "archive.age")).

(** ** Loading *)

Inductive problem :=
  | UnknownSetting (file path : string) (hint : option string)
  | BadFileValue (file path : string) (e : error)
  | BothSet (env : string)
  | BadEnv (env : string) (e : error)
  | UnreadableEnvFile (env file : string)
  | BadEnvFile (env file : string) (e : error)
  | UnknownFlag (path : string)
  | BadFlag (path : string) (e : error).

Inductive load_error :=
  | ConfigUnreadable (file : string)
  | ConfigInvalid (file : string) (e : error)
  | Unusable (problems : list problem)
  | Rejected (complaints : list complaint).

Record Loaded := mkLoaded { ld_Config : value; ld_Sources : gmap string string; ld_File : string }.
Inductive load_result := LoadOk (l : Loaded) | LoadErr (e : load_error) | LoadPanic.

(** What the process sees: the environment, the files, the directories of the
    search paths, the YAML parser, and the order in which maps are traversed. *)
Record sysenv := mkSys {
  w_env : string -> option string;
  w_read : string -> option (list byte);
  w_exists : string -> bool;
  w_home : option string;
  w_yaml : list byte -> option (list (string * yaml));
  w_known : string -> list string     (* while looking for a key like this one *)
}.
Record Options := mkOptions { op_File : string; op_Overrides : gmap string string }.

(** What a layer works on. *)
Record loading := mkLoading { lg_cfg : value; lg_sources : gmap string string; lg_problems : list problem }.

Definition complain (s : loading) (p : problem) : loading := mkLoading (lg_cfg s) (lg_sources s) (lg_problems s ++ [p]).

(** [setField] on the field at [path], with its source; or a problem. *)
Definition assign `{Platform} (s : loading) (path : string) (raw source : string) (bad : error -> problem) : res loading :=
  f ← fieldByPath path;
  match f with
  | None => Panic      (* a zero reflect.Value has no kind that can be set *)
  | Some (p, t) =>
      match setField t raw with
      | Ok v => Ok (mkLoading (set_at (lg_cfg s) p v) (<[path := source]> (lg_sources s)) (lg_problems s))
      | Err e => Ok (complain s (bad e))
      | _ => Panic
      end
  end.

Definition knownPaths : list string := map fd_Path Fields.

(** [filepath.Base] of a path that names a file. *)
Definition Base (s : string) : string := default "" (last (split_on "/" s)).

Definition file_step `{Platform} (w : sysenv) (file : string) (flat : gmap string string) (s : loading) (path : string) : res loading :=
  if negb (bool_decide (path ∈ knownPaths)) then Ok (complain s (UnknownSetting file path (suggest path (w_known w path))))
  else assign s path (default "" (flat !! path)) ("file:" +:+ Base file) (BadFileValue file path).

Fixpoint steps {A} (f : loading -> A -> res loading) (s : loading) (l : list A) : res loading :=
  match l with [] => Ok s | x :: l => s ← f s x; steps f s l end.

Definition is_eol (c : ascii) : bool := (code c =? 10) || (code c =? 13).

Definition env_step `{Platform} (w : sysenv) (s : loading) (f : Field) : res loading :=
  match w_env w (fd_Env f +:+ "_FILE"), w_env w (fd_Env f) with
  | Some _, Some _ => Ok (complain s (BothSet (fd_Env f)))
  | None, Some plain => assign s (fd_Path f) plain ("env:" +:+ fd_Env f) (BadEnv (fd_Env f))
  | Some file, None =>
      match w_read w file with
      | None => Ok (complain s (UnreadableEnvFile (fd_Env f) file))
      | Some b =>
          assign s (fd_Path f) (TrimRight is_eol (String.string_of_list_byte b)) ("file-env:" +:+ fd_Env f +:+ "_FILE") (BadEnvFile (fd_Env f) file)
      end
  | None, None => Ok s
  end.

Definition flag_step `{Platform} (overrides : gmap string string) (s : loading) (path : string) : res loading :=
  f ← fieldByPath path;
  match f with
  | None => Ok (complain s (UnknownFlag path))
  | Some _ => assign s path (default "" (overrides !! path)) "flag" (BadFlag path)
  end.

(** Which file is read, and whether it must exist. *)
Definition config_path (w : sysenv) (o : Options) : string * bool :=
  if negb (String.eqb (op_File o) "") then (op_File o, true)
  else match w_env w (EnvPrefix +:+ "_CONFIG") with
  | Some v => if negb (String.eqb v "") then (v, true)
              else (default "" (List.find (w_exists w) (SearchPaths (default "" (w_env w "XDG_CONFIG_HOME")) (w_home w))), false)
  | None => (default "" (List.find (w_exists w) (SearchPaths (default "" (w_env w "XDG_CONFIG_HOME")) (w_home w))), false)
  end.

(** The file layer: what the file says, and the file that is used. *)
Definition file_layer (w : sysenv) (o : Options) : load_error + (gmap string string * string) :=
  let (filePath, mustExist) := config_path w o in
  if String.eqb filePath "" then inr (∅, "")
  else match w_read w filePath with
  | None => if mustExist then inl (ConfigUnreadable filePath) else inr (∅, "")
  | Some raw =>
      match flattenYAML (w_yaml w) raw with
      | Ok flat => inr (flat, filePath)
      | Err e => inl (ConfigInvalid filePath e)
      | _ => inl (ConfigInvalid filePath (EMsg "yaml"))
      end
  end.

Definition initial `{Platform} : res loading :=
  cfg ← Default;
  Ok (mkLoading cfg (list_to_map (map (fun f => (fd_Path f, "default")) Fields)) []).

Definition all_layers `{Platform} (w : sysenv) (o : Options) (flat : gmap string string) (used : string) : res loading :=
  s ← initial;
  s ← steps (file_step w used flat) s (sortedKeys flat);
  s ← steps (env_step w) s Fields;
  steps (flag_step (op_Overrides o)) s (sortedKeys (op_Overrides o)).

Definition Load `{Platform} (w : sysenv) (o : Options) : load_result :=
  match file_layer w o with
  | inl e => LoadErr e
  | inr (flat, used) =>
      match all_layers w o flat used with
      | Ok s =>
          if negb (bool_decide (lg_problems s = [])) then LoadErr (Unusable (lg_problems s))
          else match Validate (lg_cfg s) with
          | [] => LoadOk (mkLoaded (lg_cfg s) (lg_sources s) used)
          | cs => LoadErr (Rejected cs)
          end
      | _ => LoadPanic
      end
  end.
