(* ===== verification/ConfigFacts.v ===== *)
(** * Facts about settings

    Values of the configuration have the types of its fields, a position is
    assigned without touching the others, and every parser stays in range. *)

From S2P Require Import Prelude Bytes Names Text GoText Config ConfigLoad.

#[local] Open Scope Z_scope.

(** ** Typing *)

Definition leaf_typed (k : kind) (v : value) : Prop :=
  match k, v with
  | KString, VString _ | KBool, VBool _ | KFloat64, VFloat _ => True
  | (KInt | KInt32 | KInt64 | KDuration), VInt z => in_s (width k) z
  | _, _ => False
  end.

Fixpoint has_type (t : gotype) (v : value) : Prop :=
  match t with
  | TLeaf k => leaf_typed k v
  | TStruct fs =>
      match v with
      | VStruct vs =>
          (fix go fs vs : Prop :=
            match fs, vs with
            | [], [] => True
            | (_, t) :: fs, v :: vs => has_type t v /\ go fs vs
            | _, _ => False
            end) fs vs
      | _ => False
      end
  end.

(** The fields one by one. *)
Lemma has_type_struct fs v : has_type (TStruct fs) v <-> exists vs, v = VStruct vs /\ Forall2 (fun f v => has_type f.2 v) fs vs.
Proof.
  cbn. split.
  - destruct v as [| | | |vs]; try done. intros Hgo. exists vs. split; [done|].
    revert vs Hgo. induction fs as [|[tg t] fs IH]; intros [|v vs]; try done. intros [Hv Hgo]. constructor; auto.
  - intros (vs & -> & Hf). induction Hf as [|[tg t] v fs vs Hv Hf IH]; [done|]. by split.
Qed.

Lemma find_field_lookup seg fs i j t : find_field seg fs i = Some (j, t) ->
  exists k tg, (j = i + k)%nat /\ fs !! k = Some (tg, t).
Proof.
  revert i. induction fs as [|[tg t'] fs IH]; intros i; cbn; [done|].
  destruct (String.eqb _ _); [intros [= <- <-]; exists O, tg; by rewrite Nat.add_0_r|].
  intros (k & tg' & -> & Hk)%IH. exists (S k), tg'. split; [lia|done].
Qed.

Lemma resolve_get segs : forall t v p t', has_type t v -> resolve t segs = Ok (Some (p, t')) ->
  exists v', get_at v p = Some v' /\ has_type t' v'.
Proof.
  induction segs as [|seg segs IH]; intros t v p t' Ht; cbn.
  { intros [= <- <-]. by exists v. }
  destruct t as [k|fs]; [done|]. destruct (find_field seg fs 0) as [[i t1]|] eqn:Ef; [|done].
  destruct (find_field_lookup _ _ _ _ _ Ef) as (k & tg & -> & Hk). cbn [plus] in *.
  apply has_type_struct in Ht as (vs & -> & Hf).
  destruct (Forall2_lookup_l _ _ _ _ _ Hf Hk) as (v1 & Hv1 & Ht1).
  destruct (resolve t1 segs) as [[[p1 t2]|]| | |] eqn:Er; cbn; try done. intros [= <- <-].
  destruct (IH _ _ _ _ Ht1 Er) as (v' & Hg & Ht'). exists v'. cbn. by rewrite Hv1.
Qed.

Lemma resolve_set segs : forall t v p t' x, has_type t v -> resolve t segs = Ok (Some (p, t')) -> has_type t' x ->
  has_type t (set_at v p x).
Proof.
  induction segs as [|seg segs IH]; intros t v p t' x Ht; cbn.
  { by intros [= <- <-]. }
  destruct t as [k|fs]; [done|]. destruct (find_field seg fs 0) as [[i t1]|] eqn:Ef; [|done].
  destruct (find_field_lookup _ _ _ _ _ Ef) as (k & tg & -> & Hk). cbn [plus] in *.
  apply has_type_struct in Ht as (vs & -> & Hf).
  destruct (resolve t1 segs) as [[[p1 t2]|]| | |] eqn:Er; cbn; try done. intros [= <- <-] Hx.
  apply has_type_struct. eexists. split; [done|]. apply Forall2_same_length_lookup. split.
  { rewrite length_alter. by apply Forall2_length in Hf. }
  intros j [tg' tj] vj Hj. rewrite list_lookup_alter. case_decide as Hjk; cbn.
  - subst j. rewrite Hk in Hj. injection Hj as <- <-. destruct (vs !! k) as [v0|] eqn:Ev; cbn; [|done]. intros [= <-].
    eapply IH; [|exact Er|done]. exact (Forall2_lookup_lr _ _ _ _ _ _ Hf Hk Ev).
  - intros Hvj. exact (Forall2_lookup_lr _ _ _ _ _ _ Hf Hj Hvj).
Qed.

(** ** Positions *)

Fixpoint diverge (p q : list nat) : bool :=
  match p, q with
  | i :: p, j :: q => if (i =? j)%nat then diverge p q else true
  | _, _ => false
  end.

Lemma get_set_same p : forall v x, is_Some (get_at v p) -> get_at (set_at v p x) p = Some x.
Proof.
  induction p as [|i p IH]; intros v x; cbn; [done|]. destruct v as [| | | |vs]; cbn; try (by intros [? ?]).
  rewrite list_lookup_alter_eq. destruct (vs !! i) as [v|]; cbn; [|by intros [? ?]]. apply IH.
Qed.

Lemma get_set_other p : forall q v x, diverge p q = true -> get_at (set_at v p x) q = get_at v q.
Proof.
  induction p as [|i p IH]; intros [|j q] v x; cbn; try done. destruct v as [| | | |vs]; cbn; try done.
  destruct (i =? j)%nat eqn:E.
  - apply Nat.eqb_eq in E as <-. intros Hd. rewrite list_lookup_alter_eq. destruct (vs !! i) as [v|]; cbn; [|done]. by apply IH.
  - apply Nat.eqb_neq in E. intros _. by rewrite list_lookup_alter_ne.
Qed.

(** ** The known paths *)

Definition position (path : string) : list nat :=
  match fieldByPath path with Ok (Some (p, _)) => p | _ => [] end.
Definition is_leaf (path : string) : bool :=
  match fieldByPath path with Ok (Some (_, TLeaf _)) => true | _ => false end.

Lemma known_table :
  forallb (fun p => is_leaf p && forallb (fun q => String.eqb p q || diverge (position p) (position q)) knownPaths) knownPaths = true.
Proof. vm_compute. reflexivity. Qed.

Lemma known_leaf path : path ∈ knownPaths -> exists p k, fieldByPath path = Ok (Some (p, TLeaf k)).
Proof.
  intros Hp%list_elem_of_In. pose proof known_table as Ht. rewrite forallb_forall in Ht. apply Ht, andb_true_iff in Hp as [Hl _].
  unfold is_leaf in Hl. destruct (fieldByPath path) as [[[p [k|fs]]|]| | |]; try done. by exists p, k.
Qed.

Lemma known_diverge p q : p ∈ knownPaths -> q ∈ knownPaths -> p <> q -> diverge (position p) (position q) = true.
Proof.
  intros Hp%list_elem_of_In Hq%list_elem_of_In Hne. pose proof known_table as Ht. rewrite forallb_forall in Ht.
  apply Ht, andb_true_iff in Hp as [_ Hd]. rewrite forallb_forall in Hd. apply Hd, orb_true_iff in Hq as [He|Hd']; [|done].
  by apply String.eqb_eq in He.
Qed.

Lemma known_NoDup : NoDup knownPaths.
Proof. apply (bool_decide_unpack _). vm_compute. exact I. Qed.

(** ** Ranges *)

Lemma ParseInt_range s n : ParseInt s = Some n -> in_s 64 n.
Proof.
  unfold ParseInt. destruct (match s with EmptyString => _ | _ => _ end) as [z|]; [|done].
  destruct (_ && _) eqn:E; [|done]. intros [= <-]. unfold in_s. lia.
Qed.

Lemma int64_of_float_range `{Platform} x : in_s 64 (int64_of_float x).
Proof.
  unfold int64_of_float. pose proof (overflow_range x) as Ho.
  destruct (f64_trunc x) as [z|]; [|exact Ho]. destruct (_ && _) eqn:E; [|exact Ho]. unfold in_s. lia.
Qed.

Lemma ParseSize_range `{Platform} raw n : ParseSize raw = Ok n -> in_s 64 n.
Proof.
  unfold ParseSize. destruct (String.eqb _ ""); [intros [= <-]; by unfold in_s|].
  destruct (ParseInt (TrimSpaceS raw)) as [z|] eqn:Ez; [intros [= <-]; by eapply ParseInt_range|].
  destruct (List.find _ size_suffixes) as [[suf mult]|]; [|done].
  destruct (ParseFloat _) as [f|]; [|done]. intros [= <-]. apply int64_of_float_range.
Qed.

(** Numbers without a minus sign stay so. *)
Definition nonneg (x : float64) : Prop :=
  match x with S754_zero s | S754_infinity s | S754_finite s _ _ => s = false | S754_nan => True end.

Lemma round_aux_nonneg prec emax m e l : nonneg (binary_round_aux prec emax false m e l).
Proof.
  unfold binary_round_aux. destruct (shr_fexp _ _ _ _ _) as [mrs e']. destruct (shr_fexp _ _ _ _ _) as [mrs' e''].
  destruct (shr_m mrs'); cbn; try done. by destruct (Z.leb _ _).
Qed.

Lemma of_Z_nonneg z : 0 <= z -> nonneg (f64_of_Z z).
Proof.
  unfold f64_of_Z, binary_normalize, binary_round. destruct z as [|p|p]; [done| |lia]. intros _.
  destruct (shl_align _ _ _) as [mz ez]. apply round_aux_nonneg.
Qed.

Lemma mul_nonneg x y : nonneg x -> nonneg y -> nonneg (f64_mul x y).
Proof. unfold f64_mul, SFmul. destruct x, y; cbn; intros; subst; try done. apply round_aux_nonneg. Qed.

Lemma div_nonneg x y : nonneg x -> nonneg y -> nonneg (f64_div x y).
Proof.
  unfold f64_div, SFdiv. destruct x, y; cbn -[SFdiv_core_binary]; intros; subst; try done.
  destruct (SFdiv_core_binary _ _ _ _ _ _) as [[q e'] l]. apply round_aux_nonneg.
Qed.

Lemma trunc_nonneg x z : nonneg x -> f64_trunc x = Some z -> 0 <= z.
Proof.
  unfold f64_trunc, signed. destruct x as [s|s| |s m e]; cbn; intros Hs; try done; [intros [= <-]; lia|]. subst s. intros [= <-].
  destruct (e >=? 0) eqn:E; [apply Z.mul_nonneg_nonneg; [lia|apply Z.pow_nonneg; lia]|].
  apply Z.div_pos; [lia|]. apply Z.pow_pos_nonneg; lia.
Qed.

Lemma digit_range c d : digit c = Some d -> 0 <= d <= 9.
Proof. unfold digit. destruct (_ && _) eqn:E; [|done]. intros [= <-]. lia. Qed.

Lemma leadingInt_nonneg s : forall x v r, 0 <= x -> leadingInt x s = Some (v, r) -> 0 <= v.
Proof.
  induction s as [|c s IH]; intros x v r Hx; cbn [leadingInt]; [by intros [= <- <-]|].
  destruct (digit c) as [d|] eqn:Ed; [|by intros [= <- <-]]. apply digit_range in Ed.
  destruct (x >? _); [done|]. destruct (x * 10 + d >? _); [done|]. apply IH. lia.
Qed.

Lemma leadingFraction_nonneg s : forall o x sc, 0 <= x -> nonneg sc ->
  let '(f, sc', _) := leadingFraction o x sc s in 0 <= f /\ nonneg sc'.
Proof.
  induction s as [|c s IH]; intros o x sc Hx Hsc; cbn [leadingFraction]; [done|].
  destruct (digit c) as [d|] eqn:Ed; [|done]. apply digit_range in Ed.
  destruct o; [by apply IH|]. destruct (x >? _); [by apply IH|]. destruct (x * 10 + d >? _); [by apply IH|].
  apply IH; [lia|]. apply mul_nonneg; [done|]. by apply of_Z_nonneg.
Qed.

Lemma unit_pos u z : unitMap u = Some z -> 0 < z.
Proof. unfold unitMap. repeat (destruct (_ : bool); [intros [= <-]; lia|]). done. Qed.

Lemma duration_term_range s v r : duration_term s = Some (v, r) -> 0 <= v <= 2 ^ 63.
Proof.
  unfold duration_term. destruct s as [|c s']; [done|]. set (s := String c s') in *.
  destruct (negb _); [done|]. destruct (leadingInt 0 s) as [[v0 s1]|] eqn:Ev; [|done]. apply leadingInt_nonneg in Ev; [|lia].
  assert (exists f sc s2 post, 0 <= f /\ nonneg sc /\
    match s1 with
    | String d t => if Ascii.eqb d "." then let '(f, scale, r) := leadingFraction false 0 (f64_of_Z 1) t in (f, scale, r, negb (String.eqb r t))
                    else (0, f64_of_Z 1, s1, false)
    | EmptyString => (0, f64_of_Z 1, s1, false)
    end = (f, sc, s2, post)) as (f & sc & s2 & post & Hf & Hsc & ->).
  { assert (nonneg (f64_of_Z 1)) by by apply of_Z_nonneg.
    destruct s1 as [|d t]; [by exists 0, (f64_of_Z 1), "", false|].
    destruct (Ascii.eqb d "."); [|by exists 0, (f64_of_Z 1), (String d t), false].
    pose proof (leadingFraction_nonneg t false 0 (f64_of_Z 1)) as Hl. destruct (leadingFraction _ _ _ t) as [[f sc] r0].
    destruct Hl as [? ?]; [lia|done|]. by exists f, sc, r0, (negb (String.eqb r0 t)). }
  destruct (_ && _); [done|]. destruct (unit_prefix s2) as [u s3]. destruct (unitMap u) as [z|] eqn:Eu; [|done]. apply unit_pos in Eu.
  destruct (v0 >? _); [done|]. destruct (_ >? 2 ^ 63) eqn:E2; [done|]. intros [= <- <-]. split; [|lia].
  assert (0 <= v0 * z) by nia. destruct (f >? 0); [|done]. apply Z.add_nonneg_nonneg; [done|].
  destruct (f64_trunc _) as [y|] eqn:Ey; cbn; [|lia]. eapply trunc_nonneg; [|exact Ey].
  apply mul_nonneg; [by apply of_Z_nonneg|]. apply div_nonneg; [apply of_Z_nonneg; lia|done].
Qed.

Lemma duration_terms_range fuel : forall d s v, 0 <= d <= 2 ^ 63 -> duration_terms fuel d s = Some v -> 0 <= v <= 2 ^ 63.
Proof.
  induction fuel as [|fuel IH]; intros d [|c s] v Hd; cbn [duration_terms]; [intros [= <-]; done|done|intros [= <-]; done|].
  destruct (duration_term _) as [[x r]|] eqn:Et; [|done]. apply duration_term_range in Et.
  destruct (d + x >? 2 ^ 63) eqn:E; [done|]. apply IH. lia.
Qed.

Lemma ParseDuration_range raw d : ParseDuration raw = Ok d -> in_s 64 d.
Proof.
  unfold ParseDuration. destruct (String.eqb _ ""); [intros [= <-]; by unfold in_s|].
  destruct (ParseInt _) as [z|]; [intros [= <-]; apply wrap_s_range; lia|].
  destruct (time_ParseDuration _) as [z|] eqn:Ez; [|done]. intros [= <-].
  unfold time_ParseDuration in Ez. destruct (strip_sign _) as [neg s].
  destruct (String.eqb s "0"); [injection Ez as <-; by unfold in_s|]. destruct (String.eqb s ""); [done|].
  destruct (duration_terms _ 0 s) as [v|] eqn:Et; [|done]. apply duration_terms_range in Et; [|lia].
  destruct neg; [injection Ez as <-; apply wrap_s_range; lia|].
  destruct (v >? 2 ^ 63 - 1) eqn:E; [done|]. injection Ez as <-. unfold in_s. lia.
Qed.

Lemma setField_typed `{Platform} t raw v : setField t raw = Ok v -> has_type t v.
Proof.
  destruct t as [[]|fs]; cbn; try done.
  - by intros [= <-].
  - destruct (parseBool raw); cbn; try done. by intros [= <-].
  - destruct (ParseFloat raw); [|done]. by intros [= <-].
  - destruct (ParseSize raw) as [n| | |] eqn:E; cbn; try done. apply ParseSize_range in E. destruct (_ && _); [|done]. by intros [= <-].
  - destruct (ParseSize raw) as [n| | |] eqn:E; cbn; try done. destruct (_ && _) eqn:E2; [|done]. intros [= <-]. unfold in_s. lia.
  - destruct (ParseSize raw) as [n| | |] eqn:E; cbn; try done. apply ParseSize_range in E. destruct (_ && _); [|done]. by intros [= <-].
  - destruct (ParseDuration raw) as [n| | |] eqn:E; cbn; try done. apply ParseDuration_range in E. by intros [= <-].
Qed.

(** A parser gives a value or an error. *)
Lemma setField_cases `{Platform} t raw : (exists v, setField t raw = Ok v) \/ (exists e, setField t raw = Err e).
Proof.
  assert (forall raw, (exists v, ParseSize raw = Ok v) \/ (exists e, ParseSize raw = Err e)) as Hs.
  { intros r. unfold ParseSize. destruct (String.eqb _ _); [eauto|]. destruct (ParseInt _); [eauto|].
    destruct (List.find _ _) as [[? ?]|]; [|eauto]. destruct (ParseFloat _); eauto. }
  destruct t as [[]|fs]; cbn; eauto.
  - unfold parseBool. repeat (case_bool_decide; cbn; eauto).
  - destruct (ParseFloat raw); eauto.
  - destruct (Hs raw) as [[v ->]|[e ->]]; cbn; eauto. destruct (_ && _); eauto.
  - destruct (Hs raw) as [[v ->]|[e ->]]; cbn; eauto. destruct (_ && _); eauto.
  - destruct (Hs raw) as [[v ->]|[e ->]]; cbn; eauto. destruct (_ && _); eauto.
  - unfold ParseDuration. destruct (String.eqb _ _); cbn; eauto. destruct (ParseInt _); cbn; eauto.
    destruct (time_ParseDuration _); cbn; eauto.
Qed.
