(* ===== verification/ConfigProps.v ===== *)
(** * Loading the configuration: what it guarantees

    Every setting comes from the highest layer that gives it, and all problems are
    reported together. *)

From Stdlib Require Import Permutation.
From S2P Require Import Prelude Bytes Names Text GoText Config ConfigLoad ConfigFacts.

#[local] Open Scope Z_scope.
#[local] Arguments has_type : simpl never.
#[local] Arguments RootConfig : simpl never.
#[local] Arguments fieldByPath : simpl never.
#[local] Arguments setField : simpl never.

(** ** One assignment *)

Definition parsed `{Platform} (path raw : string) : res value :=
  match fieldByPath path with Ok (Some (_, t)) => setField t raw | Ok None => Err (EMsg "no field") | _ => Panic end.

Definition view (s : loading) (path : string) : option string * option value := (lg_sources s !! path, setting (lg_cfg s) path).

(** What a layer does with one path. *)
Inductive action := Skip | Blame (p : problem) | Assign (raw src : string) (bad : error -> problem).

Definition perform `{Platform} (s : loading) (path : string) (a : action) : res loading :=
  match a with
  | Skip => Ok s
  | Blame p => Ok (complain s p)
  | Assign raw src bad => assign s path raw src bad
  end.

(** The path can be assigned to, or is a group of settings. *)
Definition assignable (path : string) : Prop :=
  path ∈ knownPaths \/ exists p fs, fieldByPath path = Ok (Some (p, TStruct fs)).

Definition bad_value `{Platform} (path raw : string) (bad : error -> problem) : list problem :=
  match parsed path raw with Err e => [bad e] | _ => [] end.
Definition blames `{Platform} (path : string) (a : action) : list problem :=
  match a with Skip => [] | Blame p => [p] | Assign raw _ bad => bad_value path raw bad end.
Definition after `{Platform} (path : string) (a : action) (old : option string * option value) : option string * option value :=
  match a with
  | Assign raw src _ => match parsed path raw with Ok v => (Some src, Some v) | _ => old end
  | _ => old
  end.

Lemma setting_position c path : path ∈ knownPaths -> setting c path = get_at c (position path).
Proof. intros (p & k & E)%known_leaf. unfold setting, position. by rewrite E. Qed.

Lemma perform_spec `{Platform} s path a :
  (match a with Assign _ _ _ => assignable path | _ => True end) -> has_type RootConfig (lg_cfg s) ->
  exists s', perform s path a = Ok s' /\ has_type RootConfig (lg_cfg s') /\ lg_problems s' = lg_problems s ++ blames path a /\
    forall q, q ∈ knownPaths -> view s' q = if String.eqb path q then after q a (view s q) else view s q.
Proof.
  intros Ha Ht. destruct a as [|p|raw src bad]; cbn.
  - exists s. split_and!; try done; [by rewrite app_nil_r|]. intros q _. by destruct (String.eqb _ _).
  - exists (complain s p). split_and!; try done. intros q _. by destruct (String.eqb _ _).
  - unfold assign, bad_value, parsed.
    assert (exists p t, fieldByPath path = Ok (Some (p, t)) /\ ((exists fs, t = TStruct fs) \/ path ∈ knownPaths)) as (p & t & Ef & Hk).
    { destruct Ha as [Hk|(p & fs & E)]; [destruct (known_leaf path Hk) as (p & k & E)|]; eauto 10. }
    rewrite Ef. cbn. destruct (setField_cases t raw) as [[v Ev]|[e Ev]]; rewrite Ev.
    + assert (path ∈ knownPaths) as Hp by (destruct Hk as [[fs ->]|?]; [done|done]).
      eexists. split; [done|]. cbn. split; [eapply resolve_set; [done|exact Ef|by eapply setField_typed]|].
      split; [by rewrite app_nil_r|]. intros q Hq. unfold view. cbn. destruct (String.eqb path q) eqn:Eq.
      * apply String.eqb_eq in Eq as <-. rewrite lookup_insert_eq. unfold setting. rewrite Ef, Ev.
        rewrite get_set_same; [done|]. destruct (resolve_get _ _ _ _ _ Ht Ef) as (x & Hx & _). by exists x.
      * apply String.eqb_neq in Eq. rewrite lookup_insert_ne by done. f_equal. rewrite !setting_position by done.
        apply get_set_other. pose proof (known_diverge path q Hp Hq Eq) as Hd. unfold position in Hd at 1. by rewrite Ef in Hd.
    + exists (complain s (bad e)). split_and!; try done. intros q Hq. destruct (String.eqb path q) eqn:Eq; [|done].
      apply String.eqb_eq in Eq as <-. by rewrite Ef, Ev.
Qed.

(** ** One layer *)

Lemma steps_spec `{Platform} {A} (f : loading -> A -> res loading) (path : A -> string) (act : A -> action) l :
  (forall s x, x ∈ l -> f s x = perform s (path x) (act x)) ->
  (forall x, x ∈ l -> match act x with Assign _ _ _ => assignable (path x) | _ => True end) ->
  NoDup (map path l) -> forall s, has_type RootConfig (lg_cfg s) ->
  exists s', steps f s l = Ok s' /\ has_type RootConfig (lg_cfg s') /\
    lg_problems s' = lg_problems s ++ flat_map (fun x => blames (path x) (act x)) l /\
    forall q, q ∈ knownPaths ->
      view s' q = match List.find (fun x => String.eqb (path x) q) l with Some x => after q (act x) (view s q) | None => view s q end.
Proof.
  induction l as [|x l IH]; intros Hf Ha Hnd s Ht; cbn [steps flat_map List.find].
  { exists s. by rewrite app_nil_r. }
  cbn in Hnd. apply NoDup_cons in Hnd as [Hx Hnd].
  destruct (perform_spec s (path x) (act x)) as (s1 & E1 & Ht1 & Hp1 & Hv1); [apply Ha; by left|done|].
  rewrite Hf by by left. rewrite E1. cbn.
  destruct (IH (fun s y Hy => Hf s y (list_elem_of_further _ _ _ Hy)) (fun y Hy => Ha y (list_elem_of_further _ _ _ Hy)) Hnd s1 Ht1) as (s2 & E2 & Ht2 & Hp2 & Hv2).
  exists s2. split_and!; [done|done|by rewrite Hp2, Hp1, app_assoc|]. intros q Hq. rewrite Hv2, Hv1 by done.
  destruct (String.eqb (path x) q) eqn:Eq; [|done]. apply String.eqb_eq in Eq as <-.
  destruct (List.find (fun x0 => String.eqb (path x0) (path x)) l) as [y|] eqn:Ey; [|done].
  apply List.find_some in Ey as [Hy He]. apply String.eqb_eq in He. exfalso. apply Hx. rewrite <- He.
  apply list_elem_of_In, in_map. done.
Qed.

(** ** The keys of a map *)

Lemma insert_string_perm s l : Permutation (insert_string s l) (s :: l).
Proof.
  induction l as [|x l IH]; cbn; [done|]. destruct (String.leb s x); [done|]. rewrite IH. apply perm_swap.
Qed.

Lemma sortedKeys_perm {V} (m : gmap string V) : Permutation (sortedKeys m) (map fst (map_to_list m)).
Proof.
  unfold sortedKeys. induction (map fst (map_to_list m)) as [|x l IH]; cbn; [done|]. rewrite insert_string_perm. by constructor.
Qed.

Lemma sortedKeys_NoDup {V} (m : gmap string V) : NoDup (sortedKeys m).
Proof. rewrite sortedKeys_perm. apply (NoDup_fst_map_to_list m). Qed.

Lemma sortedKeys_elem {V} (m : gmap string V) k : k ∈ sortedKeys m <-> is_Some (m !! k).
Proof.
  rewrite sortedKeys_perm, list_elem_of_In, in_map_iff. split.
  - intros ([k' v] & <- & Hin%list_elem_of_In). apply elem_of_map_to_list in Hin. by exists v.
  - intros [v Hv]. exists (k, v). split; [done|]. by apply list_elem_of_In, elem_of_map_to_list.
Qed.

Lemma find_key l q : List.find (fun x => String.eqb x q) l = if bool_decide (q ∈ l) then Some q else None.
Proof.
  induction l as [|x l IH]; cbn; [done|]. destruct (String.eqb x q) eqn:E.
  - apply String.eqb_eq in E as ->. rewrite bool_decide_true; [done|by left].
  - apply String.eqb_neq in E. rewrite IH. case_bool_decide as H1; case_bool_decide as H2; try done.
    + exfalso. apply H2. by right.
    + apply elem_of_cons in H2 as [?|?]; congruence.
Qed.

Lemma find_sortedKeys {V} (m : gmap string V) q :
  List.find (fun x => String.eqb x q) (sortedKeys m) = match m !! q with Some _ => Some q | None => None end.
Proof.
  rewrite find_key. case_bool_decide as Hq; rewrite sortedKeys_elem in Hq.
  - by destruct Hq as [v ->].
  - apply eq_None_not_Some in Hq. by rewrite Hq.
Qed.

(** ** The layers *)

Definition file_action (w : sysenv) (used : string) (flat : gmap string string) (path : string) : action :=
  if bool_decide (path ∈ knownPaths) then Assign (default "" (flat !! path)) ("file:" +:+ Base used) (BadFileValue used path)
  else Blame (UnknownSetting used path (suggest path (w_known w path))).

Definition env_action (w : sysenv) (f : Field) : action :=
  match w_env w (fd_Env f +:+ "_FILE"), w_env w (fd_Env f) with
  | Some _, Some _ => Blame (BothSet (fd_Env f))
  | None, Some plain => Assign plain ("env:" +:+ fd_Env f) (BadEnv (fd_Env f))
  | Some file, None =>
      match w_read w file with
      | None => Blame (UnreadableEnvFile (fd_Env f) file)
      | Some b => Assign (TrimRight is_eol (String.string_of_list_byte b)) ("file-env:" +:+ fd_Env f +:+ "_FILE") (BadEnvFile (fd_Env f) file)
      end
  | None, None => Skip
  end.

Definition flag_action (overrides : gmap string string) (path : string) : action :=
  match fieldByPath path with
  | Ok None => Blame (UnknownFlag path)
  | _ => Assign (default "" (overrides !! path)) "flag" (BadFlag path)
  end.

(** The flags name settings or groups of settings, or nothing. *)
Definition flags_ok (o : Options) : Prop :=
  forall path, is_Some (op_Overrides o !! path) -> assignable path \/ fieldByPath path = Ok None.

(** Every problem of every layer. *)
Definition all_problems `{Platform} (w : sysenv) (o : Options) (flat : gmap string string) (used : string) : list problem :=
  flat_map (fun p => blames p (file_action w used flat p)) (sortedKeys flat) ++
  flat_map (fun f => blames (fd_Path f) (env_action w f)) Fields ++
  flat_map (fun p => blames p (flag_action (op_Overrides o) p)) (sortedKeys (op_Overrides o)).

(** Where a setting comes from, and its text; [None] is the default. *)
Definition effective (w : sysenv) (o : Options) (flat : gmap string string) (used : string) (f : Field) : option (string * string) :=
  match op_Overrides o !! fd_Path f with
  | Some v => Some ("flag", v)
  | None =>
      match w_env w (fd_Env f), w_env w (fd_Env f +:+ "_FILE") with
      | Some v, _ => Some ("env:" +:+ fd_Env f, v)
      | None, Some file =>
          Some ("file-env:" +:+ fd_Env f +:+ "_FILE", TrimRight is_eol (String.string_of_list_byte (default [] (w_read w file))))
      | None, None =>
          match flat !! fd_Path f with
          | Some v => Some ("file:" +:+ Base used, v)
          | None => None
          end
      end
  end.

Definition settled `{Platform} (w : sysenv) (o : Options) (flat : gmap string string) (used : string)
    (dflt cfg : value) (sources : gmap string string) (f : Field) : Prop :=
  match effective w o flat used f with
  | Some (src, raw) => sources !! fd_Path f = Some src /\ exists v, parsed (fd_Path f) raw = Ok v /\ setting cfg (fd_Path f) = Some v
  | None => sources !! fd_Path f = Some "default" /\ setting cfg (fd_Path f) = setting dflt (fd_Path f)
  end.

Lemma Fields_known f : f ∈ Fields -> fd_Path f ∈ knownPaths.
Proof. intros Hf. by apply list_elem_of_In, in_map, list_elem_of_In. Qed.

Lemma find_field_path f : f ∈ Fields -> List.find (fun x => String.eqb (fd_Path x) (fd_Path f)) Fields = Some f.
Proof.
  pose proof known_NoDup as Hnd. unfold knownPaths in Hnd. induction Fields as [|x l IH]; intros Hf; [by apply elem_of_nil in Hf|].
  cbn in *. apply NoDup_cons in Hnd as [Hx Hnd]. destruct (String.eqb (fd_Path x) (fd_Path f)) eqn:E.
  - apply String.eqb_eq in E. apply elem_of_cons in Hf as [->|Hf]; [done|]. exfalso. apply Hx. rewrite E.
    by apply list_elem_of_In, in_map, list_elem_of_In.
  - apply IH; [done|]. apply elem_of_cons in Hf as [->|Hf]; [|done]. by rewrite String.eqb_refl in E.
Qed.

(** The defaults parse, to the same values on every platform, and are typed. *)
Definition default_value : value := Eval vm_compute in match Default with Ok c => c | _ => VStruct [] end.

Lemma Default_value `{Platform} : Default = Ok default_value.
Proof. vm_compute. reflexivity. Qed.

Lemma initial_value `{Platform} :
  initial = Ok (mkLoading default_value (list_to_map (map (fun f => (fd_Path f, "default")) Fields)) []).
Proof. unfold initial. destruct Default as [c| | |] eqn:E; rewrite Default_value in E; [|done..]. injection E as <-. reflexivity. Qed.

Lemma default_typed : has_type RootConfig default_value.
Proof. vm_compute. repeat split; discriminate. Qed.

Lemma all_layers_spec `{Platform} w o flat used : flags_ok o ->
  exists s, all_layers w o flat used = Ok s /\ has_type RootConfig (lg_cfg s) /\ lg_problems s = all_problems w o flat used /\
    (lg_problems s = [] -> forall f, f ∈ Fields -> settled w o flat used default_value (lg_cfg s) (lg_sources s) f).
Proof.
  intros Hflags. unfold all_layers. rewrite initial_value. cbn [mbind res_bind].
  set (s0 := mkLoading default_value _ []).
  assert (forall f, f ∈ Fields -> view s0 (fd_Path f) = (Some "default", setting default_value (fd_Path f))) as Hv0.
  { intros f Hf. unfold view, s0. cbn [lg_sources lg_cfg]. f_equal. apply elem_of_list_to_map_1.
    - rewrite <- list_fmap_compose. exact known_NoDup.
    - apply list_elem_of_In, in_map_iff. exists f. split; [done|]. by apply list_elem_of_In. }
  destruct (steps_spec (file_step w used flat) id (file_action w used flat) (sortedKeys flat)) with (s := s0) as (s1 & E1 & Ht1 & Hp1 & Hv1).
  { intros s x _. unfold file_step, file_action, id. by case_bool_decide. }
  { intros x _. unfold file_action. case_bool_decide; [by left|done]. }
  { rewrite map_id. apply sortedKeys_NoDup. }
  { exact default_typed. }
  rewrite E1. cbn [mbind res_bind].
  destruct (steps_spec (env_step w) fd_Path (env_action w) Fields) with (s := s1) as (s2 & E2 & Ht2 & Hp2 & Hv2).
  { intros s x _. unfold env_step, env_action. by repeat case_match. }
  { intros x Hx. unfold env_action. repeat case_match; try done; left; by apply Fields_known. }
  { exact known_NoDup. }
  { exact Ht1. }
  rewrite E2. cbn [mbind res_bind].
  destruct (steps_spec (flag_step (op_Overrides o)) id (flag_action (op_Overrides o)) (sortedKeys (op_Overrides o))) with (s := s2)
    as (s3 & E3 & Ht3 & Hp3 & Hv3).
  { intros s x Hx. unfold flag_step, flag_action, id. apply sortedKeys_elem, Hflags in Hx.
    destruct (fieldByPath x) as [[[p t]|]| | |] eqn:Ef; try done.
    all: destruct Hx as [[Hk|(p & fs & E)]|E]; [apply known_leaf in Hk as (? & ? & ?); congruence|congruence|congruence]. }
  { intros x Hx. unfold flag_action. apply sortedKeys_elem, Hflags in Hx.
    destruct (fieldByPath x) as [[[p t]|]| | |] eqn:Ef; try done; destruct Hx as [Hx|?]; try done. }
  { rewrite map_id. apply sortedKeys_NoDup. }
  { exact Ht2. }
  exists s3. split_and!; [done|done| |].
  { rewrite Hp3, Hp2, Hp1. unfold all_problems, s0. cbn [lg_problems]. by rewrite app_nil_l, <- app_assoc. }
  rewrite Hp3, Hp2, Hp1. intros [[Hno1 Hno2]%app_eq_nil Hno3]%app_eq_nil. cbn in Hno1.
  intros f Hf. pose proof (Fields_known f Hf) as Hk.
  assert (forall (A : Type) (l : list A) g x, flat_map g l = @nil problem -> x ∈ l -> g x = []) as Hnone.
  { intros A l g x Hl Hx. induction l as [|y l IH]; [by apply elem_of_nil in Hx|]. cbn in Hl. apply app_eq_nil in Hl as [? ?].
    apply elem_of_cons in Hx as [->|?]; auto. }
  assert (forall raw bad, bad_value (fd_Path f) raw bad = [] -> exists v, parsed (fd_Path f) raw = Ok v) as Hok.
  { intros raw bad. unfold bad_value, parsed. destruct (known_leaf _ Hk) as (p & k & ->).
    destruct (setField_cases (TLeaf k) raw) as [[v ->]|[e ->]]; [by exists v|done]. }
  specialize (Hv3 _ Hk). specialize (Hv2 _ Hk). specialize (Hv1 _ Hk). rewrite (Hv0 f Hf) in Hv1.
  rewrite find_field_path in Hv2 by done. unfold id in Hv1, Hv3. rewrite find_sortedKeys in Hv1, Hv3.
  unfold settled, effective. destruct (op_Overrides o !! fd_Path f) as [v|] eqn:Eo.
  {
    assert (fd_Path f ∈ sortedKeys (op_Overrides o)) as Hin by (apply sortedKeys_elem; by exists v).
    pose proof (Hnone _ _ _ _ Hno3 Hin) as Hb. unfold flag_action, id in Hb, Hv3. destruct (known_leaf _ Hk) as (p & k & Ef).
    rewrite Ef, Eo in Hb, Hv3. cbn in Hb, Hv3. destruct (Hok _ _ Hb) as [x Hx]. rewrite Hx in Hv3. injection Hv3 as -> ->.
    split; [done|]. by exists x. }
  rewrite Hv2 in Hv3.
  pose proof (Hnone _ _ _ _ Hno2 Hf) as Hb. unfold env_action in Hb, Hv3.
  assert (forall src raw v old, view s3 (fd_Path f) = match parsed (fd_Path f) raw with Ok x => (Some src, Some x) | _ => old end ->
    parsed (fd_Path f) raw = Ok v -> lg_sources s3 !! fd_Path f = Some src /\
      exists v', parsed (fd_Path f) raw = Ok v' /\ setting (lg_cfg s3) (fd_Path f) = Some v') as Hset.
  { intros src raw v old Hview Hp. rewrite Hp in Hview. injection Hview as Hs Hc. split; [done|]. by exists v. }
  destruct (w_env w (fd_Env f)) as [v|] eqn:Ee, (w_env w (fd_Env f +:+ "_FILE")) as [file|] eqn:Eg; cbn in Hb, Hv3; try done.
  - destruct (Hok _ _ Hb) as [x Hx]. by eapply Hset.
  - destruct (w_read w file) as [b|]; cbn in Hb, Hv3; [|done]. destruct (Hok _ _ Hb) as [x Hx]. by eapply Hset.
  - rewrite Hv1 in Hv3. destruct (flat !! fd_Path f) as [v|] eqn:Efl; [|by injection Hv3 as -> ->].
    assert (fd_Path f ∈ sortedKeys flat) as Hin by (apply sortedKeys_elem; by exists v).
    pose proof (Hnone _ _ _ _ Hno1 Hin) as Hb1. unfold file_action, id in Hb1, Hv3.
    rewrite bool_decide_true, Efl in Hb1, Hv3 by done. cbn in Hb1, Hv3. destruct (Hok _ _ Hb1) as [x Hx]. by eapply Hset.
Qed.

(** C16: Loading resolves every setting to the highest layer that gives it, and
    reports everything that is wrong at once.  Once the file is read, the problems
    are those of all the keys of the file, of all the environment variables and of
    all the flags; if there are any, exactly this list is the error.  Otherwise each
    setting has the value its text parses to, where the text is the flag's, else the
    variable's, else that of the file the variable names (without its line ends),
    else the configuration file's, and else it has its default, and the recorded
    source says which; then the configuration is returned if validation has no
    complaint, and refused with all complaints if it has. *)
Theorem Load_spec `{Platform} w o flat used :
  flags_ok o -> file_layer w o = inr (flat, used) ->
  match all_problems w o flat used with
  | [] => exists cfg sources,
      (forall f, f ∈ Fields -> settled w o flat used default_value cfg sources f) /\
      Load w o = match Validate cfg with [] => LoadOk (mkLoaded cfg sources used) | cs => LoadErr (Rejected cs) end
  | ps => Load w o = LoadErr (Unusable ps)
  end.
Proof.
  intros Hflags Hfile. destruct (all_layers_spec w o flat used Hflags) as (s & Es & Ht & Hp & Hset).
  unfold Load. rewrite Hfile, Es, <- Hp. destruct (lg_problems s) as [|p ps] eqn:E.
  - exists (lg_cfg s), (lg_sources s). split; [by apply Hset|]. rewrite bool_decide_true by done. done.
  - rewrite bool_decide_false by done. done.
Qed.

Definition sample_sys : sysenv := mkSys
  (fun k => if String.eqb k "KAFKA_WIRE_LOG_LEVEL" then Some "warn"
            else if String.eqb k "KAFKA_WIRE_ADMIN_TOKEN_FILE" then Some "/run/token"
            else if String.eqb k "KAFKA_WIRE_STORAGE_DATADIR" then Some "/env" else None)
  (fun f => if String.eqb f "/run/token" then Some (String.list_byte_of_string ("secret" +:+ String "010" "")) else Some [])
  (fun _ => true) None
  (fun _ => Some [("log", YMap [("level", YString "debug"); ("format", YString "json")]);
                  ("storage", YMap [("datadir", YString "/file"); ("segmentbytes", YString "64MiB")])])
  (fun _ => knownPaths).
Definition sample_options : Options := mkOptions "conf/kafka-wire.yaml" {[ "storage.datadir" := "/flag" ]}.
Definition sample_flat : gmap string string :=
  match flattenYAML (w_yaml sample_sys) [] with Ok m => m | _ => ∅ end.

Lemma sample_flags : flags_ok sample_options.
Proof.
  intros path [v Hv]. left. left. unfold sample_options in Hv. cbn [op_Overrides] in Hv. apply lookup_singleton_Some in Hv as [<- _].
  apply (bool_decide_unpack _). vm_compute. exact I.
Qed.

Lemma sample_file : file_layer sample_sys sample_options = inr (sample_flat, "conf/kafka-wire.yaml").
Proof. exact (@eq_refl _ (file_layer sample_sys sample_options) <: file_layer sample_sys sample_options = inr (sample_flat, "conf/kafka-wire.yaml")). Qed.
Lemma sample_problems : all_problems sample_sys sample_options sample_flat "conf/kafka-wire.yaml" = [].
Proof. vm_compute. reflexivity. Qed.

Lemma Load_spec_witness :
  all_problems sample_sys sample_options sample_flat "conf/kafka-wire.yaml" = [] /\
  match all_problems sample_sys sample_options sample_flat "conf/kafka-wire.yaml" with
  | [] => exists cfg sources,
      (forall f, f ∈ Fields -> settled sample_sys sample_options sample_flat "conf/kafka-wire.yaml" default_value cfg sources f) /\
      Load sample_sys sample_options = match Validate cfg with [] => LoadOk (mkLoaded cfg sources "conf/kafka-wire.yaml") | cs => LoadErr (Rejected cs) end
  | ps => Load sample_sys sample_options = LoadErr (Unusable ps)
  end.
Proof.
  split; [exact sample_problems|]. apply (Load_spec sample_sys sample_options sample_flat "conf/kafka-wire.yaml").
  - exact sample_flags.
  - exact sample_file.
Defined.

(** The layers at work: the flag beats the variable, which beats the file. *)
Example sample_loaded :
  match Load sample_sys sample_options with
  | LoadOk l => as_str (ld_Config l) "storage.datadir" = "/flag" /\ as_str (ld_Config l) "log.level" = "warn" /\
      as_str (ld_Config l) "log.format" = "json" /\ as_str (ld_Config l) "admin.token" = "secret" /\
      as_int (ld_Config l) "storage.segmentbytes" = 2 ^ 26 /\
      ld_Sources l !! "log.format" = Some "file:kafka-wire.yaml" /\ ld_Sources l !! "tls.minversion" = Some "default"
  | _ => False
  end.
Proof. vm_compute. repeat split. Qed.

(** What these inputs load as. *)
Definition sample_load : Loaded :=
  match Load sample_sys sample_options with LoadOk l => l | _ => mkLoaded (VStruct []) ∅ "" end.
Lemma sample_Load : Load sample_sys sample_options = LoadOk sample_load.
Proof. exact (@eq_refl _ (Load sample_sys sample_options) <: Load sample_sys sample_options = LoadOk sample_load). Qed.
