(* ===== verification/ConfigText.v ===== *)
(** * Suggestions, environment names and sizes

    The edit distance is the least number of edits, the names of the environment
    variables can be read back, and a size means what it says. *)

From Stdlib Require Import Permutation.
From S2P Require Import Prelude Bytes Names Text GoText Config ConfigLoad ConfigFacts.

#[local] Open Scope Z_scope.

(** ** Edits *)

(** [edits a b n]: [n] insertions, deletions and replacements of a character turn
    [a] into [b]. *)
Inductive edits : list ascii -> list ascii -> Z -> Prop :=
| edits_nil : edits [] [] 0
| edits_keep c a b n : edits a b n -> edits (c :: a) (c :: b) n
| edits_replace c d a b n : edits a b n -> edits (c :: a) (d :: b) (n + 1)
| edits_insert d a b n : edits a b n -> edits a (d :: b) (n + 1)
| edits_delete c a b n : edits a b n -> edits (c :: a) b (n + 1).
Create HintDb edits.
#[local] Hint Constructors edits : edits.

Definition least_edits (a b : list ascii) (n : Z) : Prop := edits a b n /\ forall m, edits a b m -> n <= m.

Lemma edits_app a b n : edits a b n -> forall a' b' m, edits a' b' m -> edits (a ++ a') (b ++ b') (n + m).
Proof.
  induction 1; intros a' b' m Hm; cbn [app]; eauto with edits.
  - replace (n + 1 + m) with (n + m + 1) by lia. eauto with edits.
  - replace (n + 1 + m) with (n + m + 1) by lia. eauto with edits.
  - replace (n + 1 + m) with (n + m + 1) by lia. eauto with edits.
Qed.

Lemma edits_from_nil b n : edits [] b n <-> n = zlen b.
Proof.
  split.
  - intros He. remember [] as a eqn:Ea. induction He; try done. rewrite zlen_cons, IHHe by done. lia.
  - intros ->. induction b as [|d b IH]; [constructor|]. rewrite zlen_cons, Z.add_comm. by constructor.
Qed.

Lemma edits_to_nil a n : edits a [] n <-> n = zlen a.
Proof.
  split.
  - intros He. remember [] as b eqn:Eb. induction He; try done. rewrite zlen_cons, IHHe by done. lia.
  - intros ->. induction a as [|d a IH]; [constructor|]. rewrite zlen_cons, Z.add_comm. by constructor.
Qed.

Definition cost (c d : ascii) : Z := if Ascii.eqb c d then 0 else 1.

Lemma edits_pair c d : edits [c] [d] (cost c d).
Proof.
  unfold cost. destruct (Ascii.eqb c d) eqn:E; [apply Ascii.eqb_eq in E as ->; apply edits_keep; constructor|].
  apply (edits_replace c d [] [] 0). constructor.
Qed.

(** The edits seen from the last characters: these are paired, or one of them is
    left alone. *)
Lemma edits_last A B n : edits A B n -> forall a c b d, A = a ++ [c] -> B = b ++ [d] ->
  (exists m, edits a b m /\ m + cost c d <= n) \/ (exists m, edits A b m /\ m + 1 <= n) \/ (exists m, edits a B m /\ m + 1 <= n).
Proof.
  assert (Hcost : forall c d, 0 <= cost c d <= 1) by (intros; unfold cost; destruct (Ascii.eqb _ _); lia).
  assert (Hhead : forall x y A B n a c b d, edits A B n -> x :: A = a ++ [c] -> y :: B = b ++ [d] ->
    (forall a c b d, A = a ++ [c] -> B = b ++ [d] ->
      (exists m, edits a b m /\ m + cost c d <= n) \/ (exists m, edits A b m /\ m + 1 <= n) \/ (exists m, edits a B m /\ m + 1 <= n)) ->
    (exists m, edits a b m /\ m + cost c d <= n + cost x y) \/
    (exists m, edits (x :: A) b m /\ m + 1 <= n + cost x y) \/ (exists m, edits a (y :: B) m /\ m + 1 <= n + cost x y)).
  { clear A B n. intros x y A B n a c b d He Ea Eb IH. pose proof (edits_pair x y) as Hxy.
    destruct a as [|x' a]; injection Ea as -> Ea; destruct b as [|y' b]; injection Eb as -> Eb; try subst A; try subst B.
    - left. exists 0. apply edits_from_nil in He. subst n. split; [constructor|]. change (zlen (@nil ascii)) with 0. lia.
    - apply edits_from_nil in He. rewrite zlen_app in He. change (zlen [d]) with 1 in He. right. left.
      exists (cost c y' + zlen b). split; [|lia]. exact (edits_app _ _ _ Hxy [] b _ (proj2 (edits_from_nil b _) eq_refl)).
    - apply edits_to_nil in He. rewrite zlen_app in He. change (zlen [c]) with 1 in He. right. right.
      exists (cost x' d + zlen a). split; [|lia]. exact (edits_app _ _ _ Hxy a [] _ (proj2 (edits_to_nil a _) eq_refl)).
    - destruct (IH a c b d eq_refl eq_refl) as [(m & Hm & Hle)|[(m & Hm & Hle)|(m & Hm & Hle)]].
      + left. exists (cost x' y' + m). split; [|lia]. exact (edits_app _ _ _ Hxy _ _ _ Hm).
      + right. left. exists (cost x' y' + m). split; [|lia]. exact (edits_app _ _ _ Hxy _ _ _ Hm).
      + right. right. exists (cost x' y' + m). split; [|lia]. exact (edits_app _ _ _ Hxy _ _ _ Hm). }
  induction 1 as [|x A B n He IH|x y A B n He IH|y A B n He IH|x A B n He IH]; intros a c b d Ea Eb.
  - by destruct a.
  - assert (cost x x = 0) as E0 by (unfold cost; by rewrite Ascii.eqb_refl).
    pose proof (Hhead x x A B n a c b d He Ea Eb IH) as Hcases. by rewrite E0, Z.add_0_r in Hcases.
  - pose proof (Hcost x y). destruct (Hhead x y A B n a c b d He Ea Eb IH) as [(m & Hm & Hle)|[(m & Hm & Hle)|(m & Hm & Hle)]];
      [left|right; left|right; right]; exists m; (split; [done|lia]).
  - destruct b as [|y' b]; injection Eb as -> Eb; subst; [right; left; exists n; split; [done|lia]|].
    destruct (IH a c b d eq_refl eq_refl) as [(m & Hm & Hle)|[(m & Hm & Hle)|(m & Hm & Hle)]];
      [left|right; left|right; right]; exists (m + 1); (split; [by constructor|lia]).
  - destruct a as [|x' a]; injection Ea as -> Ea; subst; [right; right; exists n; split; [done|lia]|].
    destruct (IH a c b d eq_refl eq_refl) as [(m & Hm & Hle)|[(m & Hm & Hle)|(m & Hm & Hle)]];
      [left|right; left|right; right]; exists (m + 1); (split; [by constructor|lia]).
Qed.

Lemma min3_spec a b c : (min3 a b c = a \/ min3 a b c = b \/ min3 a b c = c) /\ min3 a b c <= a /\ min3 a b c <= b /\ min3 a b c <= c.
Proof. unfold min3. destruct (b <? a) eqn:E1; destruct (c <? _) eqn:E2; zbool; lia. Qed.

(** The recurrence of the table. *)
Lemma least_last a c b d x y z :
  least_edits (a ++ [c]) b x -> least_edits a (b ++ [d]) y -> least_edits a b z ->
  least_edits (a ++ [c]) (b ++ [d]) (min3 (x + 1) (y + 1) (z + cost c d)).
Proof.
  intros [Hx Lx] [Hy Ly] [Hz Lz]. destruct (min3_spec (x + 1) (y + 1) (z + cost c d)) as (Hcase & H1 & H2 & H3). split.
  - destruct Hcase as [-> |[-> | ->]].
    + rewrite <- (app_nil_r (a ++ [c])). apply edits_app; [done|]. apply (edits_insert d [] [] 0). constructor.
    + rewrite <- (app_nil_r (b ++ [d])). apply edits_app; [done|]. apply (edits_delete c [] [] 0). constructor.
    + apply edits_app; [done|]. apply edits_pair.
  - intros m Hm. destruct (edits_last _ _ _ Hm a c b d eq_refl eq_refl) as [(k & Hk & ?)|[(k & Hk & ?)|(k & Hk & ?)]].
    + specialize (Lz k Hk). lia.
    + specialize (Lx k Hk). lia.
    + specialize (Ly k Hk). lia.
Qed.

(** A row of the table behind the prefix [pre]. *)
Fixpoint row (a pre b : list ascii) (l : list Z) : Prop :=
  match b, l with
  | [], [] => True
  | d :: b, x :: l => least_edits a (pre ++ [d]) x /\ row a (pre ++ [d]) b l
  | _, _ => False
  end.

Lemma next_row_spec c : forall b a pre left diag prev,
  least_edits (a ++ [c]) pre left -> least_edits a pre diag -> row a pre (chars b) prev ->
  row (a ++ [c]) pre (chars b) (next_row c left diag prev b).
Proof.
  induction b as [|d b IH]; intros a pre left diag [|p prev] Hl Hd; cbn; try done. intros [Hp Hr].
  pose proof (least_last a c pre d left p diag Hl Hp Hd) as Hx. split; [exact Hx|]. by apply IH.
Qed.

Lemma least_nil_l b : least_edits [] b (zlen b).
Proof. split; [by apply edits_from_nil|]. intros m ->%edits_from_nil. lia. Qed.
Lemma least_nil_r a : least_edits a [] (zlen a).
Proof. split; [by apply edits_to_nil|]. intros m ->%edits_to_nil. lia. Qed.

Lemma iota_row b : forall pre, exists l, iota (zlen pre) b = zlen pre :: l /\ row [] pre (chars b) l.
Proof.
  induction b as [|d b IH]; intros pre; cbn [iota chars].
  { by exists []. }
  destruct (IH (pre ++ [d])) as (l & El & Hl). rewrite zlen_app in El. change (zlen [d]) with 1 in El.
  exists ((zlen pre + 1) :: l). rewrite El. split; [done|]. cbn [row]. split; [|done].
  pose proof (least_nil_l (pre ++ [d])) as Hn. rewrite zlen_app in Hn. exact Hn.
Qed.

Lemma edit_rows_spec b : forall a done x l, x = zlen done -> row done [] (chars b) l ->
  exists y l', edit_rows a (zlen done + 1) (x :: l) b = y :: l' /\ least_edits (done ++ chars a) [] y /\ row (done ++ chars a) [] (chars b) l'.
Proof.
  induction a as [|c a IH]; intros done x l -> Hl; cbn [edit_rows chars].
  { exists (zlen done), l. rewrite app_nil_r. split; [reflexivity|]. split; [apply least_nil_r|exact Hl]. }
  destruct (IH (done ++ [c]) (zlen done + 1) (next_row c (zlen done + 1) (zlen done) l b)) as (y & l' & E & H1 & H2).
  - rewrite zlen_app. reflexivity.
  - apply next_row_spec; [|apply least_nil_r|exact Hl]. pose proof (least_nil_r (done ++ [c])) as Hn. by rewrite zlen_app in Hn.
  - rewrite zlen_app in E. change (zlen [c]) with 1 in E. exists y, l'. rewrite <- app_assoc in H1, H2. by rewrite E.
Qed.

Lemma row_last a : forall b pre x l, least_edits a pre x -> row a pre b l -> least_edits a (pre ++ b) (default 0 (last (x :: l))).
Proof.
  induction b as [|d b IH]; intros pre x [|y l] Hx; cbn [row]; try done; [by rewrite app_nil_r|].
  intros [Hy Hr]. rewrite (cons_middle d pre b), app_assoc. change (last (x :: y :: l)) with (last (y :: l)). by apply IH.
Qed.

Lemma editDistance_least a b : least_edits (chars a) (chars b) (editDistance a b).
Proof.
  unfold editDistance. destruct (iota_row b []) as (l & El & Hl). change (zlen (@nil ascii)) with 0 in El. rewrite El.
  destruct (edit_rows_spec b a [] 0 l eq_refl Hl) as (y & l' & E & H1 & H2). change (zlen (@nil ascii) + 1) with 1 in E.
  rewrite E. exact (row_last _ _ [] _ _ H1 H2).
Qed.

(** ** Suggestions *)

Lemma suggest_loop_spec bad : forall known best bestD,
  let '(k, d) := suggest_loop bad known best bestD in
  d <= bestD /\ (forall k', k' ∈ known -> d <= editDistance bad k') /\
  ((k = best /\ d = bestD) \/ (k ∈ known /\ d = editDistance bad k)).
Proof.
  induction known as [|x known IH]; intros best bestD; cbn [suggest_loop].
  { split_and!; [lia|by intros k' ?%elem_of_nil|by left]. }
  destruct (editDistance bad x <? bestD) eqn:E; zbool;
    [specialize (IH x (editDistance bad x))|specialize (IH best bestD)];
    destruct (suggest_loop bad known _ _) as [k d]; destruct IH as (H1 & H2 & H3); split_and!; try lia.
  - intros k' [->|?]%elem_of_cons; [lia|auto].
  - destruct H3 as [[-> ->]|[? ?]]; right; (split; [|done]); [by left|by right].
  - intros k' [->|?]%elem_of_cons; [lia|auto].
  - destruct H3 as [?|[? ?]]; [by left|]. right. split; [by right|done].
Qed.

(** C39: The hint for a misspelt setting is a nearest one.  [editDistance] is the
    least number of insertions, deletions and replacements between two strings; and
    in whatever order the known settings are traversed, the setting suggested for a
    key is at distance three or less with no known setting nearer, and none is
    suggested only if every known setting needs more than three edits. *)
Theorem suggest_nearest a b bad known : Permutation known knownPaths ->
  least_edits (chars a) (chars b) (editDistance a b) /\
  match suggest bad known with
  | Some k => k ∈ knownPaths /\ exists n, n <= 3 /\ edits (chars bad) (chars k) n /\
      forall k' n', k' ∈ knownPaths -> edits (chars bad) (chars k') n' -> n <= n'
  | None => forall k n, k ∈ knownPaths -> edits (chars bad) (chars k) n -> 3 < n
  end.
Proof.
  intros Hperm. split; [apply editDistance_least|]. unfold suggest.
  pose proof (suggest_loop_spec bad known "" (2 ^ 30)) as Hs. destruct (suggest_loop bad known "" (2 ^ 30)) as [k d].
  destruct Hs as (_ & Hmin & Hk).
  assert (forall k' n', k' ∈ knownPaths -> edits (chars bad) (chars k') n' -> d <= n') as Hall.
  { intros k' n' Hin He. rewrite <- Hperm in Hin. specialize (Hmin k' Hin).
    pose proof (proj2 (editDistance_least bad k') n' He). lia. }
  assert (forall x, x ∈ knownPaths -> x <> "") as Hne.
  { intros x Hx ->. revert Hx. apply (bool_decide_unpack _). vm_compute. exact I. }
  destruct (String.eqb k "") eqn:Ek; cbn [negb andb].
  { apply String.eqb_eq in Ek as ->. destruct Hk as [[_ ->]|[Hin _]]; [|rewrite Hperm in Hin; by apply Hne in Hin].
    intros x n Hx Hn. specialize (Hall x n Hx Hn). lia. }
  destruct Hk as [[-> _]|[Hin ->]]; [done|]. destruct (editDistance bad k <=? 3) eqn:E; zbool.
  - rewrite Hperm in Hin. split; [done|]. exists (editDistance bad k). split_and!; [lia|apply editDistance_least|done].
  - intros x n Hx Hn. specialize (Hall x n Hx Hn). lia.
Qed.

Lemma same_known : Permutation knownPaths knownPaths.
Proof. reflexivity. Qed.

Lemma suggest_nearest_witness :
  suggest "archive.s3.buckett" knownPaths = Some "archive.s3.bucket" /\
  least_edits (chars "kitten") (chars "sitting") (editDistance "kitten" "sitting").
Proof.
  split; [vm_compute; reflexivity|].
  pose proof (suggest_nearest "kitten" "sitting" "archive.s3.buckett" knownPaths same_known) as H.
  destruct H as [H _].
  exact H.
Defined.

(** ** Environment names *)

Definition plain_char (c : ascii) : bool :=
  ((97 <=? code c) && (code c <=? 122)) || ((48 <=? code c) && (code c <=? 57)) || Ascii.eqb c ".".

Definition read_env_char (c : ascii) : ascii := if Ascii.eqb c "_" then "."%char else lower_char c.
Fixpoint string_drop (n : nat) (s : string) : string :=
  match n, s with S n, String _ s => string_drop n s | _, _ => s end.
(** The path a name of a variable stands for. *)
Definition path_of_env (env : string) : string := string_map read_env_char (string_drop 11 env).

Lemma ascii_ind256 (P : ascii -> bool) : forallb (fun n => P (ascii_of_nat n)) (seq 0 256) = true -> forall c, P c = true.
Proof.
  intros Hall c. rewrite <- (ascii_nat_embedding c). rewrite forallb_forall in Hall. apply Hall, in_seq.
  pose proof (nat_ascii_bounded c). lia.
Qed.

Lemma env_char_back c : plain_char c = true -> code (upper_char (dot_to_under c)) < 128 /\ read_env_char (upper_char (dot_to_under c)) = c.
Proof.
  intros Hc. pose proof (ascii_ind256 (fun c => negb (plain_char c) ||
    ((code (upper_char (dot_to_under c)) <? 128) && (code (dot_to_under c) <? 128) && Ascii.eqb (read_env_char (upper_char (dot_to_under c))) c))
    eq_refl c) as H. cbn beta in H. rewrite Hc in H. cbn [negb orb] in H. apply andb_true_iff in H as [[H1 _]%andb_true_iff H2].
  apply Ascii.eqb_eq in H2. zbool. done.
Qed.

Lemma ToUpper_ascii s : string_forallb (fun c => code c <? 128) s = true -> ToUpper s = string_map upper_char s.
Proof.
  induction s as [|c s IH]; [done|]. cbn [string_forallb]. intros [Hc Hs]%andb_true_iff. zbool.
  cbn [ToUpper string_map]. destruct s as [|d s]; [done|].
  rewrite (proj2 (Z.eqb_neq (code c) 196)), (proj2 (Z.eqb_neq (code c) 197)) by lia. cbn [andb]. by rewrite IH.
Qed.

Lemma plain_upper path : string_forallb plain_char path = true ->
  string_map read_env_char (ToUpper (string_map dot_to_under path)) = path.
Proof.
  intros Hp. rewrite ToUpper_ascii.
  - induction path as [|c path IH]; [done|]. cbn [string_forallb string_map] in *. apply andb_true_iff in Hp as [Hc Hp].
    rewrite (proj2 (env_char_back c Hc)). f_equal. by apply IH.
  - induction path as [|c path IH]; [done|]. cbn [string_forallb string_map] in *. apply andb_true_iff in Hp as [Hc Hp].
    rewrite IH by done. rewrite andb_true_r.
    pose proof (ascii_ind256 (fun c => negb (plain_char c) || (code (dot_to_under c) <? 128)) eq_refl c) as H. cbn beta in H. by rewrite Hc in H.
Qed.

(** The names of the environment variables are unambiguous in both directions.
    A path of lower-case letters, digits and dots is read back from its variable;
    every setting has such a path; and no variable of a setting, none that names a
    file for one, and not the variable with the configuration file's path, is the
    same as another. *)
Theorem env_names_unambiguous :
  (forall path, string_forallb plain_char path = true -> path_of_env (EnvName path) = path) /\
  Forall (fun f => string_forallb plain_char (fd_Path f) = true /\ fd_Env f = EnvName (fd_Path f)) Fields /\
  NoDup ((EnvPrefix +:+ "_CONFIG") :: map fd_Env Fields ++ map (fun f => fd_Env f +:+ "_FILE") Fields).
Proof.
  split_and!.
  - intros path Hp. unfold path_of_env, EnvName. cbn [EnvPrefix string_drop String.append]. by apply plain_upper.
  - apply (bool_decide_unpack _). vm_compute. exact I.
  - apply (bool_decide_unpack _). vm_compute. exact I.
Qed.

(** ** Sizes *)

Lemma digits2_log2 m : Zpos (digits2_pos m) = Z.log2 (Zpos m) + 1.
Proof.
  induction m as [m IH|m IH|]; cbn [digits2_pos]; [| |done]; rewrite Pos2Z.inj_succ, IH.
  - rewrite (Pos2Z.inj_xI m). rewrite Z.add_comm, Z.log2_succ_double by lia. lia.
  - rewrite (Pos2Z.inj_xO m). rewrite Z.log2_double by lia. lia.
Qed.

Lemma iter_xO m d : Zpos (Pos.iter xO m d) = Zpos m * 2 ^ Zpos d.
Proof.
  induction d as [|d IH] using Pos.peano_ind; [cbn; lia|].
  rewrite Pos.iter_succ, Pos2Z.inj_xO, IH, Pos2Z.inj_succ, Z.pow_succ_r by lia. lia.
Qed.

Lemma round_exact M e : Z.log2 (Zpos M) = 52 -> -1074 <= e <= 971 -> binary_round_aux 53 1024 false (Zpos M) e loc_Exact = S754_finite false M e.
Proof.
  intros Hl He. unfold binary_round_aux, shr_fexp. cbn [shr_record_of_loc Zdigits2]. rewrite digits2_log2, Hl.
  assert (fexp 53 1024 (52 + 1 + e) - e = 0) as -> by (unfold fexp, emin; lia). cbn [shr loc_of_shr_record round_nearest_even shr_m shr_record_of_loc Zdigits2].
  rewrite digits2_log2, Hl. assert (fexp 53 1024 (52 + 1 + e) - e = 0) as -> by (unfold fexp, emin; lia). cbn [shr shr_m].
  by rewrite (proj2 (Z.leb_le e (1024 - 53))) by lia.
Qed.

(** The mantissa of a product with a power of two ends in zeros. *)
Lemma round_shift M e : Z.log2 (Zpos M) = 52 -> -1074 <= e + 52 <= 971 ->
  binary_round_aux 53 1024 false (Zpos (M * 4503599627370496)) e loc_Exact = S754_finite false M (e + 52).
Proof.
  intros Hl He. assert ((M * 4503599627370496)%positive = Pos.iter xO M 52) as ->.
  { apply Pos2Z.inj. rewrite iter_xO, Pos2Z.inj_mul. reflexivity. }
  unfold binary_round_aux at 1, shr_fexp at 1. cbn [shr_record_of_loc Zdigits2]. rewrite digits2_log2, iter_xO, Z.log2_mul_pow2, Hl by lia.
  assert (fexp 53 1024 (52 + 52 + 1 + e) - e = 52) as -> by (unfold fexp, emin; lia).
  pose proof (round_exact M (e + 52) Hl He) as Hr. unfold binary_round_aux in Hr.
  cbn [shr shr_record_of_loc].
  assert (iter_pos shr_1 52 {| shr_m := Zpos M * 2 ^ 52; shr_r := false; shr_s := false |} =
          {| shr_m := Zpos M; shr_r := false; shr_s := false |}) as -> by (rewrite <- iter_xO; reflexivity).
  unfold shr_fexp in Hr at 1. cbn [shr_record_of_loc Zdigits2] in Hr. rewrite digits2_log2, Hl in Hr.
  assert (fexp 53 1024 (52 + 1 + (e + 52)) - (e + 52) = 0) as E0 by (unfold fexp, emin; lia). rewrite E0 in Hr. cbn [shr] in Hr. exact Hr.
Qed.

Lemma of_Z_exact m : Zpos m < 2 ^ 53 -> exists M, f64_of_Z (Zpos m) = S754_finite false M (Z.log2 (Zpos m) - 52) /\
  Zpos M = Zpos m * 2 ^ (52 - Z.log2 (Zpos m)) /\ Z.log2 (Zpos M) = 52.
Proof.
  intros Hm. assert (0 <= Z.log2 (Zpos m) <= 52) as Hl.
  { split; [apply Z.log2_nonneg|]. assert (Z.log2 (Zpos m) < 53); [|lia]. by apply Z.log2_lt_pow2. }
  unfold f64_of_Z, binary_normalize, binary_round. rewrite digits2_log2.
  assert (fexp 53 1024 (Z.log2 (Zpos m) + 1 + 0) = Z.log2 (Zpos m) - 52) as -> by (unfold fexp, emin; lia).
  unfold shl_align. destruct (Z.log2 (Zpos m) - 52 - 0) as [|d|d] eqn:Ed; [|lia|].
  - assert (Z.log2 (Zpos m) = 52) as E by lia. exists m. rewrite E. rewrite round_exact by (rewrite ?E; lia). split_and!; [done|cbn; lia|done].
  - assert (Z.log2 (Zpos m) - 52 = Zneg d) as E by lia. rewrite E. exists (Pos.iter xO m d).
    assert (Z.log2 (Zpos (Pos.iter xO m d)) = 52) as El by (rewrite iter_xO, Z.log2_mul_pow2 by lia; lia).
    rewrite round_exact by lia. split_and!; [done| |done]. rewrite iter_xO. do 2 f_equal. lia.
Qed.

Lemma size_exact `{Platform} n k : 0 <= n < 2 ^ 53 -> In k [0; 10; 20; 30; 40] -> n * 2 ^ k < 2 ^ 63 ->
  int64_of_float (f64_mul (f64_of_Z n) (f64_of_Z (2 ^ k))) = n * 2 ^ k.
Proof.
  intros Hn Hk Hlt. assert (0 <= k <= 40) as Hkr by (cbn in Hk; lia).
  assert (f64_of_Z (2 ^ k) = S754_finite false 4503599627370496 (k - 52)) as E2.
  { cbn in Hk. destruct Hk as [<-|[<-|[<-|[<-|[<-|[]]]]]]; reflexivity. }
  destruct n as [|m|m]; [by rewrite E2| |lia].
  destruct (of_Z_exact m) as (M & EM & HM & Hl); [lia|]. rewrite EM, E2. unfold f64_mul, SFmul. cbn [xorb].
  assert (0 <= Z.log2 (Zpos m) <= 52) as Hlm by (split; [apply Z.log2_nonneg|assert (Z.log2 (Zpos m) < 53); [apply Z.log2_lt_pow2; lia|lia]]).
  rewrite round_shift by lia. set (l := Z.log2 (Zpos m)) in *.
  replace (l - 52 + (k - 52) + 52) with (l + k - 52) by lia.
  assert (f64_trunc (S754_finite false M (l + k - 52)) = Some (Zpos m * 2 ^ k)) as Et.
  { unfold f64_trunc, signed. f_equal. rewrite HM. destruct (l + k - 52 >=? 0) eqn:E; zbool.
    - rewrite <- Z.mul_assoc, <- Z.pow_add_r by lia. do 2 f_equal. lia.
    - replace (52 - l) with (k + - (l + k - 52)) by lia. rewrite Z.pow_add_r by lia. rewrite Z.mul_assoc. apply Z.div_mul.
      apply Z.pow_nonzero; lia. }
  unfold int64_of_float. rewrite Et. rewrite (proj2 (Z.ltb_lt _ _) Hlt).
  assert (0 <= Zpos m * 2 ^ k) by (apply Z.mul_nonneg_nonneg; [lia|apply Z.pow_nonneg; lia]).
  by rewrite (proj2 (Z.leb_le (- 2 ^ 63) (Zpos m * 2 ^ k))) by lia.
Qed.

(** Suffixes, seen from the end. *)
Fixpoint is_prefix (x l : list ascii) : bool :=
  match x, l with
  | [], _ => true
  | c :: x, d :: l => Ascii.eqb c d && is_prefix x l
  | _ :: _, [] => false
  end.

Lemma is_prefix_spec x l : is_prefix x l = true <-> exists q, l = x ++ q.
Proof.
  revert l. induction x as [|c x IH]; intros l; cbn; [split; [by exists l|done]|].
  destruct l as [|d l]; [split; [done|by intros [? ?]]|]. rewrite andb_true_iff, Ascii.eqb_eq, IH. split.
  - intros [-> [q ->]]. by exists q.
  - intros [q [= -> ->]]. split; [done|]. by exists q.
Qed.

Lemma has_suffix_rev s x : has_suffix s x = is_prefix (rev (chars x)) (rev (chars s)).
Proof.
  apply eq_iff_eq_true. rewrite is_prefix_spec. unfold has_suffix. rewrite andb_true_iff, String.eqb_eq, Nat.leb_le, !chars_length. split.
  - intros [Hle E]. apply (f_equal chars) in E. rewrite chars_substring in E.
    exists (rev (take (length (chars s) - length (chars x)) (chars s))). rewrite <- rev_app_distr. f_equal.
    rewrite <- E at 2. rewrite (take_ge (drop _ _)) by (rewrite length_drop; lia). by rewrite take_drop.
  - intros [q E]. apply (f_equal (@rev ascii)) in E. rewrite rev_involutive, rev_app_distr, rev_involutive in E.
    rewrite E, length_app. split; [lia|]. apply chars_inj. rewrite chars_substring, E.
    rewrite drop_app_length' by lia. apply take_ge. lia.
Qed.

Lemma trim_suffix_app a x : trim_suffix (a +:+ x) x = a.
Proof.
  unfold trim_suffix. apply chars_inj. rewrite chars_substring, drop_0, chars_app, !chars_length, chars_app, length_app.
  apply take_app_length'. lia.
Qed.

(** Digits. *)
Definition is_digit (c : ascii) : bool := (48 <=? code c) && (code c <=? 57).
Definition word_char (c : ascii) : bool :=
  is_digit c || ((97 <=? code c) && (code c <=? 122)) || ((65 <=? code c) && (code c <=? 90)).

Lemma digits_chars s : forall acc n, digits_from acc s = Some n -> string_forallb is_digit s = true.
Proof.
  induction s as [|c s IH]; intros acc n; cbn; [done|]. unfold digit, is_digit. destruct (_ && _); [|done]. cbn. apply IH.
Qed.

Lemma digits_nonneg s : forall acc n, 0 <= acc -> digits_from acc s = Some n -> 0 <= n.
Proof.
  induction s as [|c s IH]; intros acc n Ha; cbn; [by intros [= <-]|]. destruct (digit c) as [d|] eqn:Ed; [|done].
  apply digit_range in Ed. apply IH. lia.
Qed.

Lemma string_forallb_app f a b : string_forallb f (a +:+ b) = string_forallb f a && string_forallb f b.
Proof. induction a as [|c a IH]; [done|]. change (String c a +:+ b) with (String c (a +:+ b)). cbn. by rewrite IH, andb_assoc. Qed.
Lemma string_forallb_impl f g s : (forall c, f c = true -> g c = true) -> string_forallb f s = true -> string_forallb g s = true.
Proof. intros Hfg. induction s as [|c s IH]; cbn; [done|]. intros [H1 H2]%andb_true_iff. by rewrite Hfg, IH. Qed.

Lemma space_bytes w b : In w spaces -> In b w -> b2z b < 48 \/ 128 <= b2z b.
Proof.
  intros Hw Hb. assert (forallb (fun w => forallb (fun b => (b2z b <? 48) || (128 <=? b2z b)) w) spaces = true) as Hall by reflexivity.
  rewrite forallb_forall in Hall. apply Hall in Hw. rewrite forallb_forall in Hw. apply Hw, orb_true_iff in Hb. lia.
Qed.

Lemma byte_code c : b2z (byte_of_ascii c) = code c.
Proof. apply Z.eqb_eq. exact (ascii_ind256 (fun c => b2z (byte_of_ascii c) =? code c) eq_refl c). Qed.

Lemma TrimSpaceS_word s : string_forallb word_char s = true -> TrimSpaceS s = s.
Proof.
  intros Hs. unfold TrimSpaceS. rewrite TrimSpace_id; [apply string_of_list_of_string|].
  intros b w Hb Hw Hin. destruct (space_bytes w b Hw Hin) as [Hlo|Hhi].
  all: unfold String.list_byte_of_string in Hb; apply in_map_iff in Hb as (c & <- & Hc); rewrite byte_code in *.
  all: assert (word_char c = true) as Hwc by (clear Hin; induction s as [|d s IH]; [done|]; cbn in Hs, Hc; apply andb_true_iff in Hs as [? ?]; destruct Hc as [->|?]; [done|auto]).
  all: unfold word_char, is_digit in Hwc; lia.
Qed.

Lemma digits_from_letter s c t : forall acc, is_digit c = false -> digits_from acc (s +:+ String c t) = None.
Proof.
  induction s as [|d s IH]; intros acc Hc.
  - change ("" +:+ String c t) with (String c t). cbn [digits_from]. unfold digit. unfold is_digit in Hc. by rewrite Hc.
  - change (String d s +:+ String c t) with (String d (s +:+ String c t)). cbn. destruct (digit d); [by apply IH|done].
Qed.

Lemma digit_char c : is_digit c = true -> Ascii.eqb c "+" = false /\ Ascii.eqb c "-" = false /\ Ascii.eqb c "_" = false /\ Ascii.eqb c "." = false /\
  upper_char c = c /\ lower_char c = c /\ word_char c = true /\ code c < 128 /\ digit c = Some (code c - 48) /\
  forall d, In d (chars "KMGTIinax") -> Ascii.eqb d c = false.
Proof.
  intros Hc. pose proof (ascii_ind256 (fun c => negb (is_digit c) ||
    (negb (Ascii.eqb c "+") && negb (Ascii.eqb c "-") && negb (Ascii.eqb c "_") && negb (Ascii.eqb c ".") && Ascii.eqb (upper_char c) c &&
     Ascii.eqb (lower_char c) c && word_char c && (code c <? 128) && forallb (fun d => negb (Ascii.eqb d c)) (chars "KMGTIinax"))) eq_refl c) as H.
  cbn beta in H. rewrite Hc in H. cbn [negb orb] in H. rewrite !andb_true_iff, !negb_true_iff in H.
  destruct H as [[[[[[[[H1 H2] H3] H4] H5] H6] H7] H8] H9]. apply Ascii.eqb_eq in H5, H6.
  assert (digit c = Some (code c - 48)) as Hdig by (unfold digit; unfold is_digit in Hc; by rewrite Hc).
  assert (code c < 128) by lia. split_and!; try done.
  intros d Hd. rewrite forallb_forall in H9. apply H9, negb_true_iff in Hd. done.
Qed.

Lemma ParseInt_digits s n : digits s = Some n -> ParseInt s = if n <? 2 ^ 63 then Some n else None.
Proof.
  unfold digits. destruct s as [|c s]; [done|]. cbn [String.eqb]. intros Hd.
  pose proof (digits_chars _ _ _ Hd) as Hc. cbn in Hc. apply andb_true_iff in Hc as [Hc _].
  destruct (digit_char c Hc) as (H1 & H2 & _). unfold ParseInt. rewrite H1, H2. unfold digits. cbn [String.eqb]. rewrite Hd.
  assert (0 <= n) by (eapply digits_nonneg; [|exact Hd]; lia).
  by rewrite (proj2 (Z.leb_le (- 2 ^ 63) n)) by lia.
Qed.

Lemma scaled_zero p : f64_scaled false p false 0 = f64_of_Z (Zpos p).
Proof. unfold f64_scaled, signed, f64_of_Z. change (10 ^ 0) with 1. by rewrite Z.mul_1_r. Qed.

Lemma ParseFloat_digits s n : digits s = Some n -> n < 2 ^ 53 -> ParseFloat s = Some (f64_of_Z n).
Proof.
  unfold digits. destruct s as [|c s]; [done|]. cbn [String.eqb]. intros Hd Hn.
  pose proof (digits_chars _ _ _ Hd) as Hall. cbn [string_forallb] in Hall. apply andb_true_iff in Hall as [Hc Hs].
  destruct (digit_char c Hc) as (H1 & H2 & H3 & H4 & _ & Hlow & _ & _ & Hdig & Hne).
  assert (strip_sign (String c s) = (false, String c s)) as Es by (unfold strip_sign; by rewrite H1, H2).
  assert (forall x s', In x (chars "KMGTIinax") -> String.eqb (ToLower (String c s)) (String x s') = false) as Hlw.
  { intros x s' Hx. unfold ToLower. cbn [string_map String.eqb]. rewrite Hlow, Ascii.eqb_sym, Hne by done. done. }
  unfold ParseFloat. rewrite Es, !Hlw by (cbn; tauto). cbn [orb].
  assert (readFloat (String c s) = Some (match n with Zpos p => f64_of_Z (Zpos p) | _ => S754_zero false end)) as ->.
  { unfold readFloat. rewrite Es.
    assert (match String c s with
            | String a (String b ((String _ _) as t)) => if Ascii.eqb a "0" && Ascii.eqb (lower_char b) "x" then (true, t) else (false, String c s)
            | _ => (false, String c s) end = (false, String c s)) as ->.
    { destruct s as [|b [|e t]]; try done. cbn in Hs. apply andb_true_iff in Hs as [Hb _].
      destruct (digit_char b Hb) as (_ & _ & _ & _ & _ & -> & _ & _ & _ & Hnb). rewrite (Ascii.eqb_sym b "x"), (Hnb "x"%char) by (cbn; tauto).
      by rewrite andb_false_r. }
    assert (forall t acc m dg, string_forallb is_digit t = true -> digits_from acc t = Some m ->
      scan_mantissa false (mkMant acc 0 false dg false) t = (mkMant m 0 false (dg || negb (String.eqb t "")) false, "")) as Hscan.
    { clear. induction t as [|c t IH]; intros acc m dg; cbn [string_forallb digits_from scan_mantissa].
      - intros _ [= <-]. cbn. by rewrite orb_false_r.
      - intros [Hc Ht]%andb_true_iff. destruct (digit_char c Hc) as (_ & _ & -> & -> & _ & _ & _ & _ & -> & _).
        intros Hm. cbn [mt_dot mt_value mt_frac mt_under]. rewrite (IH _ m true Ht Hm). by rewrite orb_true_r. }
    rewrite (Hscan (String c s) 0 n false) by (cbn [string_forallb]; rewrite ?Hc, ?Hs; done).
    cbn -[f64_scaled f64_of_Z]. destruct n as [|p|p]; try done. by rewrite scaled_zero. }
  destruct n as [|p|p]; [done| |].
  - destruct (of_Z_exact p) as (M & -> & _); [lia|]. done.
  - apply digits_nonneg in Hd; lia.
Qed.

Lemma map_string_app f a b : string_map f (a +:+ b) = string_map f a +:+ string_map f b.
Proof. induction a as [|c a IH]; [done|]. change (String c a +:+ b) with (String c (a +:+ b)). cbn [string_map]. by rewrite IH. Qed.

Lemma upper_digits s : string_forallb is_digit s = true -> string_map upper_char s = s.
Proof.
  induction s as [|c s IH]; cbn; [done|]. intros [Hc Hs]%andb_true_iff. destruct (digit_char c Hc) as (_ & _ & _ & _ & -> & _). by rewrite IH.
Qed.

(** After digits, the first suffix of the list that matches is the whole one. *)
Lemma find_suffix s SUF mult : string_forallb is_digit s = true -> s <> "" -> In (SUF, mult) size_suffixes ->
  List.find (fun sm => has_suffix (s +:+ SUF) sm.1) size_suffixes = Some (SUF, mult).
Proof.
  intros Hs Hne Hin. destruct (rev (chars s)) as [|c r] eqn:Er.
  { apply (f_equal (@rev ascii)) in Er. rewrite rev_involutive in Er. destruct s; done. }
  assert (is_digit c = true) as Hc.
  { assert (In c (chars s)) as Hc by (apply in_rev; rewrite Er; by left). clear Er Hne.
    induction s as [|d s IH]; [done|]. cbn in Hs, Hc. apply andb_true_iff in Hs as [? ?]. destruct Hc as [->|?]; auto. }
  destruct (digit_char c Hc) as (_ & _ & _ & _ & _ & _ & _ & _ & _ & Hx).
  assert (Ascii.eqb "K" c = false /\ Ascii.eqb "M" c = false /\ Ascii.eqb "G" c = false /\ Ascii.eqb "T" c = false /\ Ascii.eqb "I" c = false)
    as (HK & HM & HG & HT & HI) by (split_and!; apply Hx; cbn; tauto).
  assert (forall x, has_suffix (s +:+ SUF) x = is_prefix (rev (chars x)) (rev (chars SUF) ++ c :: r)) as Hsuf.
  { intros x. rewrite has_suffix_rev, chars_app, rev_app_distr, Er. done. }
  unfold size_suffixes in *. cbn [List.find fst]. rewrite !Hsuf.
  cbn [In] in Hin. repeat destruct Hin as [Hin|Hin]; try done; injection Hin as <- <-; cbn [chars rev app is_prefix];
    rewrite ?HK, ?HM, ?HG, ?HT, ?HI; reflexivity.
Qed.

(** C38: A size means what it says.  A number of bytes that fits is itself; a number
    below 2^53 with any of the suffixes, in any letter case, is that number times the
    power of 1024 the suffix names, exactly, as long as the product fits, although
    the code goes through floating point. *)
Theorem ParseSize_exact `{Platform} s n : digits s = Some n ->
  (n < 2 ^ 63 -> ParseSize s = Ok n) /\
  forall suf mult, string_forallb word_char suf = true -> In (ToUpper suf, mult) size_suffixes ->
    n < 2 ^ 53 -> n * mult < 2 ^ 63 -> ParseSize (s +:+ suf) = Ok (n * mult).
Proof.
  intros Hd. assert (s <> "" /\ string_forallb is_digit s = true) as [Hne Hall].
  { unfold digits in Hd. destruct s as [|c s]; [done|]. cbn [String.eqb] in Hd. split; [done|]. exact (digits_chars _ _ _ Hd). }
  assert (forall c, word_char c = true -> (code c <? 128) = true) as Hascii by (intros c; unfold word_char, is_digit; lia).
  assert (forall c, is_digit c = true -> word_char c = true) as Hdw by (intros c Hc; unfold word_char; by rewrite Hc).
  pose proof (string_forallb_impl _ _ _ Hdw Hall) as Hword.
  assert (forall t, s +:+ t <> "") as Hne' by (intros t; by destruct s). split.
  { intros Hn. unfold ParseSize. rewrite TrimSpaceS_word by done. rewrite (proj2 (String.eqb_neq s "")) by done.
    rewrite (ParseInt_digits s n Hd). by rewrite (proj2 (Z.ltb_lt _ _) Hn). }
  intros suf mult Hsw Hin Hn Hlt. unfold ParseSize.
  assert (string_forallb word_char (s +:+ suf) = true) as Hw by (by rewrite string_forallb_app, Hword, Hsw).
  rewrite TrimSpaceS_word by done. rewrite (proj2 (String.eqb_neq (s +:+ suf) "")) by done.
  rewrite (ToUpper_ascii (s +:+ suf)) by (eapply string_forallb_impl; [exact Hascii|exact Hw]).
  rewrite map_string_app, (upper_digits s) by done.
  rewrite (ToUpper_ascii suf) in Hin by (eapply string_forallb_impl; [exact Hascii|exact Hsw]).
  assert (ParseInt (s +:+ suf) = None) as ->.
  { destruct suf as [|c suf]; [cbn in Hin; intuition discriminate|].
    assert (is_digit c = false) as Hc.
    { destruct (is_digit c) eqn:Hc; [|done]. destruct (digit_char c Hc) as (_ & _ & _ & _ & Hu & _ & _ & _ & _ & Hx). exfalso.
      assert (forall d, In d (chars "KMGTI") \/ d = "B"%char -> d <> c) as Hxd.
      { intros d [Hin'| ->] <-; [|by vm_compute in Hc]. assert (In d (chars "KMGTIinax")) as Hin2 by (cbn in *; tauto).
        apply Hx in Hin2. by rewrite Ascii.eqb_refl in Hin2. }
      cbn [string_map] in Hin. rewrite Hu in Hin. unfold size_suffixes in Hin. cbn [In] in Hin.
      repeat destruct Hin as [Hin|Hin]; try done; injection Hin as Hin _ _; eapply Hxd; try exact Hin; cbn; tauto. }
    unfold ParseInt. destruct s as [|d s]; [done|]. change (String d s +:+ String c suf) with (String d (s +:+ String c suf)).
    cbn in Hall. apply andb_true_iff in Hall as [Hdg _]. destruct (digit_char d Hdg) as (-> & -> & _). unfold digits. cbn [String.eqb].
    change (String d (s +:+ String c suf)) with (String d s +:+ String c suf). by rewrite digits_from_letter. }
  rewrite (find_suffix s (string_map upper_char suf) mult) by done.
  rewrite trim_suffix_app, TrimSpaceS_word by done. rewrite (ParseFloat_digits s n Hd Hn).
  assert (0 <= n) by (unfold digits in Hd; destruct (String.eqb s ""); [done|]; eapply digits_nonneg; [|exact Hd]; lia).
  assert (exists k, mult = 2 ^ k /\ In k [0; 10; 20; 30; 40]) as (k & -> & Hk).
  { unfold size_suffixes in Hin. cbn [In] in Hin. repeat destruct Hin as [Hin|Hin]; try done; injection Hin as _ <-.
    all: first [exists 0; split; [reflexivity|cbn; tauto]|exists 10; split; [reflexivity|cbn; tauto]|exists 20; split; [reflexivity|cbn; tauto]
      |exists 30; split; [reflexivity|cbn; tauto]|exists 40; split; [reflexivity|cbn; tauto]]. }
  by rewrite size_exact.
Qed.

Lemma ParseSize_exact_witness : ParseSize "512MiB" = Ok (512 * 2 ^ 20) /\ ParseSize "9007199254740991" = Ok 9007199254740991.
Proof.
  split.
  - apply (proj2 (ParseSize_exact "512" 512 eq_refl) "MiB" (2 ^ 20)); [reflexivity| |lia|lia]. right. left. reflexivity.
  - apply (proj1 (ParseSize_exact "9007199254740991" 9007199254740991 eq_refl)). lia.
Defined.

(** Beyond that the conversion is left to the platform, without an error: on amd64
    a size that is too large becomes the least integer, which retention reads as no
    limit; and a plain number of milliseconds wraps. *)
Example ParseSize_overflow : ParseSize "8388608TiB" = Ok (- 2 ^ 63).
Proof. vm_compute. reflexivity. Qed.
Example ParseDuration_wraps : ParseDuration "10000000000000" = Ok (-8446744073709551616).
Proof. vm_compute. reflexivity. Qed.
