(* ===== verification/Admin.v ===== *)
(** * The admin API (internal/admin/http.go)

    The HTTP handlers over the broker's operations: the token guard, the routes,
    and what each route answers and changes.  Decoding a request body is the JSON
    codec's and a class; a response is its status and its JSON value. *)

From stdpp Require Import pretty.
From S2P Require Import Prelude Bytes Names Text GoText Segment Log Offsets Group Acl Manifest Cache Broker TopicApi GroupApi.

#[local] Open Scope Z_scope.

(** ** Requests and responses *)

Record http_request := mkHttp { hr_Method : string; hr_Path : string; hr_Authorization : string; hr_Body : list byte }.

#[warnings="-register-all"]
Inductive json := JBool (b : bool) | JNum (z : Z) | JStr (s : string) | JTime (t : option Z) | JList (l : list json) | JObj (l : list (string * json)).

Record http_response := mkResp { rs_status : Z; rs_body : json }.

Definition writeJSON (status : Z) (body : json) : http_response := mkResp status body.
Definition writeError (status : Z) (msg : string) : http_response := writeJSON status (JObj [("error", JStr msg)]).

(** The bodies of the three endpoints that read one. *)
Record acl_body := mkAclBody { ab_Name : string; ab_TopicPrefixes : list PrefixACL; ab_Groups : list PrefixACL }.
Record reset_body := mkResetBody { rb_GroupID : string; rb_Topic : string; rb_Strategy : string; rb_TimestampMS : Z }.
Record topic_body := mkTopicBody { tb_Name : string; tb_Partitions : Z; tb_ReplicationFactor : Z }.
Class AdminJson := {
  decode_acl : list byte -> option acl_body;
  decode_reset : list byte -> option reset_body;
  decode_topic : list byte -> option topic_body
}.

Record admin_config := mkAdmin { ac_AdminToken : string; ac_started : Z }.

(** The world during one request: the clock, the files, and the orders in which
    Go's maps are traversed. *)
Record adminenv := mkAdminEnv {
  ae_now : Z;
  ae_open : openenv;
  ae_acl : bool;
  ae_persist : string -> Z -> persist_outcome;
  ae_all : gmap string Topic -> list string;
  ae_principals : gmap string Principal -> list string;
  ae_offsets : gmap string (gmap Z CommittedOffset) -> list string;
  ae_parts : gmap Z CommittedOffset -> list Z;
  ae_members : iteration;
  ae_live : gmap string liveGroup -> list string
}.

Definition set_acl (b : Broker) (a : ACLStore) : Broker :=
  mkBroker (b_cfg b) (b_store b) (b_guard b) (b_topics b) (b_topicsjson b) (b_disk b) (b_groups b) a (b_archive b).
Definition set_store (b : Broker) (s : OffsetStore) : Broker :=
  set_groupcoord b (mkCoord s (gc_live (b_groups b)) (gc_rounds (b_groups b))).
Definition b_offsets (b : Broker) : OffsetStore := gc_store (b_groups b).

(** ** Access control *)

Definition ops_json (ops : list string) : json := JList (map JStr ops).
Definition principal_json (p : Principal) : json :=
  JObj ((match pr_TenantID p with Some t => [("tenant_id", JStr t)] | None => [] end) ++
        [("topic_prefixes", JList (map (fun a => JObj [("prefix", JStr (pa_Prefix a)); ("ops", ops_json (pa_Ops a))]) (pr_TopicPrefixes p)));
         ("groups", JList (map (fun a => JObj [("id_prefix", JStr (pa_Prefix a)); ("ops", ops_json (pa_Ops a))]) (pr_Groups p)))]).

Section handlers.
Context `{AdminJson} (cfg : admin_config) (e : adminenv).

Definition acls (b : Broker) (r : http_request) : Broker * res http_response :=
  if String.eqb (hr_Method r) "GET" then
    (b, Ok (writeJSON 200 (JObj [("configured", JBool (Configured (b_acl b)));
       ("principals", JList (flat_map (fun n => match acl_state (b_acl b) !! n with Some p => [principal_json p] | None => [] end)
                               (ae_principals e (acl_state (b_acl b)))))])))
  else if String.eqb (hr_Method r) "POST" then
    match decode_acl (hr_Body r) with
    | None => (b, Ok (writeError 400 "body"))
    | Some req =>
        match Acl_Upsert (ae_acl e) (b_acl b) (ab_Name req) (mkPrincipal None (ab_TopicPrefixes req) (ab_Groups req)) with
        | (a, Ok _) => (set_acl b a, Ok (writeJSON 200 (JObj [("upserted", JStr (ab_Name req))])))
        | (a, Err er) => (set_acl b a, Ok (writeError 400 (error_text er)))
        | (a, _) => (set_acl b a, Panic)
        end
    end
  else (b, Ok (writeError 405 "GET or POST only")).

(** What follows a prefix of the path. *)
Definition after_prefix (prefix path : string) : string :=
  String.substring (String.length prefix) (String.length path - String.length prefix) path.

Definition aclDetail (b : Broker) (r : http_request) : Broker * res http_response :=
  let name := after_prefix "/v1/acls/" (hr_Path r) in
  if String.eqb name "" then (b, Ok (writeError 400 "principal name required"))
  else if String.eqb (hr_Method r) "GET" then
    (b, Ok (match acl_state (b_acl b) !! name with Some p => writeJSON 200 (principal_json p) | None => writeError 404 "principal not found" end))
  else if String.eqb (hr_Method r) "DELETE" then
    match Acl_Delete (ae_acl e) (b_acl b) name with
    | (a, Ok _) => (set_acl b a, Ok (writeJSON 200 (JObj [("deleted", JStr name)])))
    | (a, Err er) => (set_acl b a, Ok (writeError 500 (error_text er)))
    | (a, _) => (set_acl b a, Panic)
    end
  else (b, Ok (writeError 405 "GET or DELETE only")).

(** ** Resetting offsets *)

(** [None]: the strategy is not one. *)
Definition reset_target (l : Log) (strategy : string) (ts : Z) : res (option Z) :=
  if String.eqb strategy "earliest" then Ok (Some (EarliestOffset l))
  else if String.eqb strategy "latest" then Ok (Some (LatestOffset l))
  else if String.eqb strategy "timestamp" then
    r ← Log_LookupOffsetByTimestamp l ts;
    Ok (Some (if (r.2 : bool) then r.1 else EarliestOffset l))
  else Ok None.

Definition reset := (string * Z * Z)%type.
Inductive reset_out := ResetOk (l : list reset) | ResetStop (r : res http_response).

Fixpoint reset_parts (b : Broker) (body : reset_body) (topic : string) (t : Topic) (ps : list Z) (done : list reset) : Broker * reset_out :=
  match ps with
  | [] => (b, ResetOk done)
  | p :: ps =>
      match Topic_Partition t p with
      | None => reset_parts b body topic t ps done
      | Some l =>
          match reset_target l (rb_Strategy body) (rb_TimestampMS body) with
          | Ok (Some off) =>
              match CommitOffset (ae_now e) (ae_persist e topic p) (b_offsets b) (rb_GroupID body) topic p off 0 "reset-via-admin" with
              | (s, Ok _) => reset_parts (set_store b s) body topic t ps (done ++ [(topic, p, off)])
              | (s, Err er) => (set_store b s, ResetStop (Ok (writeError 500 (error_text er))))
              | (s, _) => (set_store b s, ResetStop Panic)
              end
          | Ok None => (b, ResetStop (Ok (writeError 400 "strategy must be earliest|latest|timestamp")))
          | Err er => (b, ResetStop (Err er))
          | _ => (b, ResetStop Panic)
          end
      end
  end.

Fixpoint reset_topics (b : Broker) (body : reset_body) (offs : gmap string (gmap Z CommittedOffset)) (topics : list string) (done : list reset)
  : Broker * reset_out :=
  match topics with
  | [] => (b, ResetOk done)
  | topic :: topics =>
      if negb (String.eqb (rb_Topic body) "") && negb (String.eqb (rb_Topic body) topic) then reset_topics b body offs topics done
      else match b_topics b !! topic with
      | None => reset_topics b body offs topics done
      | Some t =>
          match reset_parts b body topic t (ae_parts e (default ∅ (offs !! topic))) done with
          | (b, ResetOk done) => reset_topics b body offs topics done
          | (b, stop) => (b, stop)
          end
      end
  end.

Definition reset_json (r : reset) : json := JObj [("topic", JStr r.1.1); ("partition", JNum r.1.2); ("new_offset", JNum r.2)].

(** [Offsets().Get] makes a group it does not know. *)
Definition resetOffset (b : Broker) (r : http_request) : Broker * res http_response :=
  if negb (String.eqb (hr_Method r) "POST") then (b, Ok (writeError 405 "POST only"))
  else match decode_reset (hr_Body r) with
  | None => (b, Ok (writeError 400 "body"))
  | Some body =>
      if String.eqb (rb_GroupID body) "" then (b, Ok (writeError 400 "group_id required"))
      else
        let (s, gs) := OffsetStore_Get (ae_now e) (b_offsets b) (rb_GroupID body) in
        match reset_topics (set_store b s) body (gs_Offsets gs) (ae_offsets e (gs_Offsets gs)) [] with
        | (b, ResetOk l) =>
            (b, Ok (writeJSON 200 (JObj [("group_id", JStr (rb_GroupID body)); ("reset", JList (map reset_json l)); ("count", JNum (zlen l))])))
        | (b, ResetStop r) => (b, r)
        end
  end.

(** ** The archive, the cluster *)

Definition optional (k v : string) : list (string * json) := if String.eqb v "" then [] else [(k, JStr v)].

Definition entry_json (s : SegmentEntry) : json :=
  JObj ([("topic", JStr (se_Topic s)); ("partition", JNum (se_Partition s)); ("base_offset", JNum (se_BaseOffset s));
         ("next_offset", JNum (se_NextOffset s)); ("size_bytes", JNum (se_SizeBytes s)); ("sha256", JStr (se_SHA256 s));
         ("s3_key", JStr (se_S3Key s)); ("uploaded_at", JTime (Some (se_UploadedAt s)))] ++
        optional "tenant_id" (se_TenantID s) ++ optional "hmac_signature" (se_HMACSignature s)).
Definition part_json (p : PendingUploadPart) : json :=
  JObj [("part_number", JNum (pp_PartNumber p)); ("etag", JStr (pp_ETag p)); ("size_bytes", JNum (pp_SizeBytes p))].
Definition pending_json (p : PendingUpload) : json :=
  JObj ([("topic", JStr (pu_Topic p)); ("partition", JNum (pu_Partition p)); ("base_offset", JNum (pu_BaseOffset p))] ++
        (if pu_NextOffset p =? 0 then [] else [("next_offset", JNum (pu_NextOffset p))]) ++
        optional "tenant_id" (pu_TenantID p) ++ optional "sha256" (pu_SHA256 p) ++
        [("s3_key", JStr (pu_S3Key p)); ("upload_id", JStr (pu_UploadID p)); ("parts", JList (map part_json (pu_Parts p)));
         ("started_at", JTime (Some (pu_StartedAt p)))]).

Definition archive (b : Broker) : http_response :=
  match b_archive b with
  | None => writeJSON 200 (JObj [("enabled", JBool false); ("segments", JList [])])
  | Some a =>
      let all := Manifest_All (ar_manifest a) in
      writeJSON 200 (JObj [("enabled", JBool true); ("segments", JList (map entry_json all));
        ("pending", JList (map pending_json (PendingAll (ar_manifest a)))); ("total", JNum (zlen all))])
  end.

Definition health (b : Broker) : http_response :=
  writeJSON 200 (JObj [("status", JStr "ok"); ("uptime_secs", JNum (Z.quot (ae_now e - ac_started cfg) 1000000000));
    ("broker_id", JNum (BrokerID (b_cfg b))); ("cluster_id", JStr (ClusterID (b_cfg b)))]).

Definition cluster (b : Broker) : http_response :=
  writeJSON 200 (JObj [("broker_id", JNum (BrokerID (b_cfg b))); ("cluster_id", JStr (ClusterID (b_cfg b)));
    ("advertised_host", JStr (AdvertisedHost (b_cfg b))); ("advertised_port", JNum (AdvertisedPort (b_cfg b)));
    ("auto_create_topics", JBool (AutoCreateTopics (b_cfg b)))]).

(** ** Topics *)

Definition sum64 (l : list Z) : Z := foldl (fun n z => i64 (n + z)) 0 l.

Definition topicSummary (t : Topic) : json :=
  let logs := Topic_Logs t in
  JObj [("name", JStr (t_name t)); ("partitions", JNum (Topic_NumPartitions t)); ("replication_factor", JNum (ReplicationFactor (t_cfg t)));
    ("retention_ms", JNum (RetentionMS (t_cfg t))); ("retention_bytes", JNum (RetentionBytes (t_cfg t))); ("segment_bytes", JNum (tc_SegmentBytes (t_cfg t)));
    ("high_watermark_total", JNum (sum64 (map HighWatermark logs))); ("log_start_total", JNum (sum64 (map LogStartOffset logs)));
    ("local_size_bytes", JNum (sum64 (map logSize (flat_map AllSegments logs))))].

Definition topics (b : Broker) (r : http_request) : Broker * res http_response :=
  if String.eqb (hr_Method r) "GET" then
    (b, Ok (writeJSON 200 (JObj [("topics", JList (flat_map (fun n => match b_topics b !! n with Some t => [topicSummary t] | None => [] end)
                                                     (ae_all e (b_topics b))))])))
  else if String.eqb (hr_Method r) "POST" then
    match decode_topic (hr_Body r) with
    | None => (b, Ok (writeError 400 "body"))
    | Some body =>
        if String.eqb (tb_Name body) "" then (b, Ok (writeError 400 "name required"))
        else
          let partitions := if tb_Partitions body <=? 0 then 1 else tb_Partitions body in
          let rf := if tb_ReplicationFactor body <=? 0 then 1 else tb_ReplicationFactor body in
          match CreateTopic (ae_open e) b (tb_Name body) partitions rf with
          | (b, Ok _) => (b, Ok (writeJSON 201 (JObj [("name", JStr (tb_Name body)); ("partitions", JNum partitions)])))
          | (b, Err er) => (b, Ok (writeError (if errors_is er ErrTopicExists then 409 else 400) (error_text er)))
          | (b, _) => (b, Panic)
          end
    end
  else (b, Ok (writeError 405 "GET or POST only")).

Definition segment_json (s : Segment) : json :=
  JObj [("base_offset", JNum (baseOffset s)); ("next_offset", JNum (nextOffset s)); ("size_bytes", JNum (logSize s));
    ("sealed", JBool (sealed s)); ("created_at", JTime (Some (createdAt s)))].

Definition partitionDetails (t : Topic) : json :=
  JList (map (fun pl => JObj [("partition", JNum pl.1); ("high_watermark", JNum (HighWatermark pl.2));
    ("log_start_offset", JNum (LogStartOffset pl.2)); ("segments", JList (map segment_json (AllSegments pl.2)))]) (t_partitions t)).

Definition topicDetailFor (t : Topic) : json :=
  JObj [("name", JStr (t_name t)); ("partitions", JNum (Topic_NumPartitions t)); ("replication_factor", JNum (ReplicationFactor (t_cfg t)));
    ("retention_ms", JNum (RetentionMS (t_cfg t))); ("retention_bytes", JNum (RetentionBytes (t_cfg t))); ("segment_bytes", JNum (tc_SegmentBytes (t_cfg t)));
    ("partition_details", partitionDetails t)].

(** [rest[:i]] and [rest[i+1:]] at the first slash. *)
Fixpoint cut_slash (s : string) : string * string :=
  match s with
  | EmptyString => ("", "")
  | String c s => if Ascii.eqb c "/" then ("", s) else let (a, b) := cut_slash s in (String c a, b)
  end.

Definition topicDetail (b : Broker) (r : http_request) : Broker * res http_response :=
  let (name, subpath) := cut_slash (after_prefix "/v1/topics/" (hr_Path r)) in
  match b_topics b !! name with
  | None => (b, Ok (writeError 404 "topic not found"))
  | Some t =>
      if String.eqb subpath "" then
        if String.eqb (hr_Method r) "GET" then (b, Ok (writeJSON 200 (topicDetailFor t)))
        else if String.eqb (hr_Method r) "DELETE" then
          match DeleteTopic (ae_open e) b name with
          | (b, Ok _) => (b, Ok (writeJSON 200 (JObj [("deleted", JStr name)])))
          | (b, Err er) => (b, Ok (writeError 400 (error_text er)))
          | (b, _) => (b, Panic)
          end
        else (b, Ok (writeError 405 "GET or DELETE only"))
      else if String.eqb subpath "partitions" && String.eqb (hr_Method r) "GET"
      then (b, Ok (writeJSON 200 (JObj [("partitions", partitionDetails t)])))
      else (b, Ok (writeError 404 "no such resource"))
  end.

(** ** Groups *)

Definition lag_of (b : Broker) (topic : string) (partition : Z) (co : CommittedOffset) : list json :=
  match b_topics b !! topic with
  | None => []
  | Some t =>
      match Topic_Partition t partition with
      | None => []
      | Some l => [JObj [("topic", JStr topic); ("partition", JNum partition); ("committed", JNum (co_Offset co));
                         ("high_water", JNum (HighWatermark l)); ("lag", JNum (i64 (HighWatermark l - co_Offset co)))]]
      end
  end.

Definition groupLag (b : Broker) (groupID : string) : Broker * json :=
  let (s, gs) := OffsetStore_Get (ae_now e) (b_offsets b) groupID in
  let b := set_store b s in
  (b, JList (flat_map (fun topic =>
        let parts := default ∅ (gs_Offsets gs !! topic) in
        flat_map (fun p => match parts !! p with Some co => lag_of b topic p co | None => [] end) (ae_parts e parts))
      (ae_offsets e (gs_Offsets gs)))).

Definition groupSummary (b : Broker) (g : Snapshot) : Broker * json :=
  let (b, lag) := groupLag b (sn_GroupID g) in
  (b, JObj [("group_id", JStr (sn_GroupID g)); ("state", JStr (sn_State g)); ("generation", JNum (sn_Generation g));
            ("protocol", JStr (sn_Protocol g)); ("members", JNum (zlen (sn_Members g))); ("lag", lag)]).

Definition member_json (m : MemberSnapshot) : json :=
  JObj [("member_id", JStr (sn_MemberID m)); ("client_id", JStr (sn_ClientID m)); ("client_host", JStr (sn_ClientHost m));
        ("session_timeout_ms", JNum (sn_SessionTimeoutMS m)); ("last_heartbeat", JTime (sn_LastHeartbeat m))].

Definition groupDetailFor (b : Broker) (g : Snapshot) : Broker * json :=
  let (b, lag) := groupLag b (sn_GroupID g) in
  (b, JObj [("group_id", JStr (sn_GroupID g)); ("state", JStr (sn_State g)); ("generation", JNum (sn_Generation g));
            ("protocol", JStr (sn_Protocol g)); ("members", JList (map member_json (sn_Members g))); ("lag", lag)]).

Fixpoint summaries (b : Broker) (l : list Snapshot) : Broker * list json :=
  match l with
  | [] => (b, [])
  | g :: l => let (b, j) := groupSummary b g in let (b, js) := summaries b l in (b, j :: js)
  end.

Definition groups (b : Broker) : Broker * res http_response :=
  match AllGroups (ae_members e) (ae_live e) (b_groups b) with
  | Ok all => let (b, js) := summaries b all in (b, Ok (writeJSON 200 (JObj [("groups", JList js)])))
  | _ => (b, Panic)
  end.

Definition groupDetail (b : Broker) (r : http_request) : Broker * res http_response :=
  let id := after_prefix "/v1/groups/" (hr_Path r) in
  if String.eqb id "" then (b, Ok (writeError 400 "group id required"))
  else match AllGroups (ae_members e) (ae_live e) (b_groups b) with
  | Ok all =>
      match List.find (fun g => String.eqb (sn_GroupID g) id) all with
      | Some g => let (b, j) := groupDetailFor b g in (b, Ok (writeJSON 200 j))
      | None => (b, Ok (writeError 404 "group not found"))
      end
  | _ => (b, Panic)
  end.

(** ** Routes *)

Definition guard (next : Broker -> http_request -> Broker * res http_response) (b : Broker) (r : http_request) : Broker * res http_response :=
  if String.eqb (ac_AdminToken cfg) "" then next b r
  else if negb (String.prefix "Bearer " (hr_Authorization r)) then (b, Ok (writeError 401 "missing bearer token"))
  else if negb (String.eqb (after_prefix "Bearer " (hr_Authorization r)) (ac_AdminToken cfg)) then (b, Ok (writeError 401 "invalid token"))
  else next b r.

(** [Register]: the handler of a clean path; [None] where another handler of the
    server, or none, answers. *)
Definition Register (path : string) : option (Broker -> http_request -> Broker * res http_response) :=
  if String.eqb path "/health" then Some (fun b _ => (b, Ok (health b)))
  else if String.eqb path "/v1/cluster" then Some (guard (fun b _ => (b, Ok (cluster b))))
  else if String.eqb path "/v1/topics" then Some (guard topics)
  else if String.prefix "/v1/topics/" path then Some (guard topicDetail)
  else if String.eqb path "/v1/groups" then Some (guard (fun b _ => groups b))
  else if String.prefix "/v1/groups/" path then Some (guard groupDetail)
  else if String.eqb path "/v1/archive" then Some (guard (fun b _ => (b, Ok (archive b))))
  else if String.eqb path "/v1/replay/reset-offset" then Some (guard resetOffset)
  else if String.eqb path "/v1/acls" then Some (guard acls)
  else if String.prefix "/v1/acls/" path then Some (guard aclDetail)
  else None.

Definition admin_serve (b : Broker) (r : http_request) : Broker * res http_response :=
  match Register (hr_Path r) with
  | Some h => h b r
  | None => (b, Ok (writeError 404 "404 page not found"))
  end.
End handlers.
