(* ===== verification/AdminProps.v ===== *)
(** * The admin API: what it guarantees

    Without the token nothing is changed or shown; a reset of offsets moves exactly
    the committed offsets it reports. *)

From S2P Require Import Prelude Bytes Names Text GoText RecordBatch TimeIndex Segment SegmentFacts Log LogFacts Offsets Group Acl Manifest Cache Broker TopicApi GroupApi Admin Samples BrokerProps.

#[local] Open Scope Z_scope.

(** ** The token *)

Lemma prefix_after a : forall s, String.prefix a s = true -> s = a +:+ after_prefix a s.
Proof.
  induction a as [|c a IH]; intros s Hp.
  - unfold after_prefix. cbn [String.length]. rewrite Nat.sub_0_r. apply chars_inj. change ("" +:+ ?x) with x.
    rewrite chars_substring, drop_0, chars_length. symmetry. by apply take_ge.
  - destruct s as [|d s]; [done|]. cbn [String.prefix] in Hp. destruct (ascii_dec c d) as [->|]; [|done].
    rewrite (IH s Hp) at 1. done.
Qed.

Lemma after_prefix_app a s : String.prefix a (a +:+ s) = true /\ after_prefix a (a +:+ s) = s.
Proof.
  split.
  - induction a as [|c a IH]; [by destruct s|]. change (String c a +:+ s) with (String c (a +:+ s)). cbn [String.prefix].
    by destruct (ascii_dec c c).
  - unfold after_prefix. apply chars_inj. rewrite chars_substring, !chars_length, chars_app, length_app.
    rewrite drop_app_length. apply take_ge. lia.
Qed.

(** The guard lets exactly the bearer of the token through. *)
Lemma guard_spec cfg next b r : ac_AdminToken cfg <> "" ->
  (hr_Authorization r = "Bearer " +:+ ac_AdminToken cfg -> guard cfg next b r = next b r) /\
  (hr_Authorization r <> "Bearer " +:+ ac_AdminToken cfg -> exists msg, guard cfg next b r = (b, Ok (writeError 401 msg))).
Proof.
  intros Ht. unfold guard. rewrite (proj2 (String.eqb_neq _ _) Ht). split.
  - intros ->. destruct (after_prefix_app "Bearer " (ac_AdminToken cfg)) as [-> ->]. by rewrite String.eqb_refl.
  - intros Hne. destruct (String.prefix "Bearer " (hr_Authorization r)) eqn:Ep; [|by eexists].
    apply prefix_after in Ep. destruct (String.eqb _ (ac_AdminToken cfg)) eqn:Ee; [|by eexists].
    apply String.eqb_eq in Ee. rewrite Ee in Ep. done.
Qed.

(** What a request without the token gets. *)
Definition refused `{AdminJson} (cfg : admin_config) (e : adminenv) (b : Broker) (r : http_request) (out : Broker * res http_response) : Prop :=
  out.1 = b /\
  ((hr_Path r = "/health" /\ out.2 = Ok (health cfg e b)) \/ (exists msg, out.2 = Ok (writeError 401 msg)) \/
   out.2 = Ok (writeError 404 "404 page not found")).

Lemma admin_refuses `{AdminJson} cfg e b r : ac_AdminToken cfg <> "" ->
  hr_Authorization r <> "Bearer " +:+ ac_AdminToken cfg -> refused cfg e b r (admin_serve cfg e b r).
Proof.
  intros Ht Hne. assert (forall next, exists msg, guard cfg next b r = (b, Ok (writeError 401 msg))) as Hg.
  { intros next. exact (proj2 (guard_spec cfg next b r Ht) Hne). }
  unfold refused, admin_serve, Register.
  repeat match goal with
  | |- context [if ?c then _ else _] => let E := fresh "E" in destruct c eqn:E
  end.
  1: apply String.eqb_eq in E; cbn; by auto.
  all: try (by cbn; auto).
  all: match goal with |- context [guard _ ?next _ _] => destruct (Hg next) as [msg ->] end; cbn; eauto 6.
Qed.

(** With an admin token set, a request whose Authorization header is not
    [Bearer] and this very token changes nothing and learns nothing but the health
    report: whatever its method, path and body, the broker is as before, and the
    answer is the health report (for that path), the refusal, or that there is no
    such page. *)
Theorem admin_guarded `{AdminJson} cfg e b r : ac_AdminToken cfg <> "" ->
  hr_Authorization r <> "Bearer " +:+ ac_AdminToken cfg ->
  (admin_serve cfg e b r).1 = b /\
  ((hr_Path r = "/health" /\ (admin_serve cfg e b r).2 = Ok (health cfg e b)) \/
   (exists msg, (admin_serve cfg e b r).2 = Ok (writeError 401 msg)) \/
   (admin_serve cfg e b r).2 = Ok (writeError 404 "404 page not found")).
Proof. exact (admin_refuses cfg e b r). Qed.

(** ** Resetting offsets *)

(** What the time indexes of a log have sampled: times and offsets, oldest segment
    first. *)
Definition seg_samples (s : Segment) : list (Z * Z) :=
  map (fun e => (Timestamp e, baseOffset s + tRelOffset e)) (tix_entries (tix s)).
Definition samples (l : Log) : list (Z * Z) := concat (map seg_samples (segments l)).

(** The offset a strategy asks for, in terms of what the log holds: batches [bs]
    from offset [start] on. *)
Inductive gives (l : Log) (start : Z) (bs : list (list byte)) (ts : Z) : string -> Z -> Prop :=
| gives_earliest : gives l start bs ts "earliest" start
| gives_latest : gives l start bs ts "latest" (start + recs bs)
| gives_time t off : head (filter (fun x => ts <= x.1) (samples l)) = Some (t, off) -> gives l start bs ts "timestamp" off
| gives_no_time : (forall x, x ∈ samples l -> x.1 < ts) -> gives l start bs ts "timestamp" start.

(** Time indexes in order, as they stay as long as no batch is stamped with the
    last representable time, and offsets that fit. *)
Definition in_time (l : Log) : Prop :=
  Forall (fun s => timeindex_wf (tix s)) (segments l) /\ Forall (fun x => 0 <= x.2 < 2 ^ 63) (samples l).

Lemma log_wf_start start bs l : log_wf start bs l -> EarliestOffset l = start.
Proof.
  intros (bss & pre & abs & s & Hsegs & Hf & _). unfold EarliestOffset. rewrite Hsegs.
  inversion Hf; by subst.
Qed.

Lemma front_open o bss segs o' : front o bss segs o' -> Forall (fun s => closed s = false) segs.
Proof. induction 1 as [|? ? ? ? ? ? []]; constructor; auto. Qed.

Lemma log_wf_open start bs l : log_wf start bs l -> Forall (fun s => closed s = false) (segments l).
Proof.
  intros (bss & pre & abs & s & -> & Hf & Hs & _). apply Forall_app. split; [by eapply front_open|].
  constructor; [by destruct Hs|done].
Qed.

(** The lookup by time is the search through the samples in order. *)
Lemma lookup_ts_first ts segs : Forall (fun s => closed s = false) segs -> Forall (fun s => timeindex_wf (tix s)) segs ->
  Forall (fun x => 0 <= x.2 < 2 ^ 63) (concat (map seg_samples segs)) ->
  lookup_ts segs ts = Ok (match head (filter (fun x => ts <= x.1) (concat (map seg_samples segs))) with Some x => (x.2, true) | None => (0, false) end).
Proof.
  induction segs as [|s segs IH]; intros Hc Ht Hx; [done|].
  apply Forall_cons in Hc as [Hc1 Hc]. apply Forall_cons in Ht as [Ht1 Ht]. cbn [map concat] in *.
  apply Forall_app in Hx as [Hx1 Hx]. cbn [lookup_ts]. unfold Segment_LookupOffsetByTimestamp.
  rewrite Hc1, (TimeIndex_LookupOffset_linear _ _ Ht1), filter_app. unfold time_lookup_linear.
  assert (filter (fun x => ts <= x.1) (seg_samples s) =
    map (fun e => (Timestamp e, baseOffset s + tRelOffset e)) (filter (fun e => ts <= Timestamp e) (tix_entries (tix s)))) as ->.
  { unfold seg_samples. induction (tix_entries (tix s)) as [|e es IHe]; [done|]. cbn [map]. rewrite !filter_cons. cbn [fst].
    destruct (decide (ts <= Timestamp e)); cbn [map]; by rewrite IHe. }
  destruct (filter (fun e => ts <= Timestamp e) (tix_entries (tix s))) as [|e es] eqn:Ef; cbn [head map app mbind res_bind snd].
  - exact (IH Hc Ht Hx).
  - rewrite i64_small; [done|]. unfold seg_samples in Hx1. rewrite Forall_map, Forall_forall in Hx1.
    assert (e ∈ tix_entries (tix s)) as He by (eapply list_elem_of_filter; rewrite Ef; by left).
    apply Hx1 in He. cbn [snd] in He. lia.
Qed.

(** The code's choice is the one asked for, and there is one. *)
Lemma reset_target_gives l start bs strategy ts off : log_wf start bs l -> in_time l ->
  reset_target l strategy ts = Ok (Some off) <-> gives l start bs ts strategy off.
Proof.
  intros Hwf [Ht Hx]. pose proof (log_wf_start _ _ _ Hwf) as Hs. destruct (log_wf_chain _ _ _ Hwf) as (_ & Hh & _).
  pose proof (lookup_ts_first ts _ (log_wf_open _ _ _ Hwf) Ht Hx) as El.
  unfold reset_target, LatestOffset, Log_LookupOffsetByTimestamp. rewrite El, Hs, Hh. fold (samples l). split.
  - destruct (String.eqb_spec strategy "earliest") as [->|]; [intros [= <-]; constructor|].
    destruct (String.eqb_spec strategy "latest") as [->|]; [intros [= <-]; constructor|].
    destruct (String.eqb_spec strategy "timestamp") as [->|]; [|done]. cbn [mbind res_bind].
    destruct (filter (fun x => ts <= x.1) (samples l)) as [|[t o] es] eqn:Ef; cbn [head snd fst]; intros [= <-].
    + apply gives_no_time. intros x Hin. destruct (decide (ts <= x.1)) as [Hle|]; [|lia].
      assert (x ∈ filter (fun x => ts <= x.1) (samples l)) as Hf by (by apply list_elem_of_filter). rewrite Ef in Hf. by apply elem_of_nil in Hf.
    + apply (gives_time _ _ _ _ t). by rewrite Ef.
  - intros [| |t o E|Hno]; [done|done|by cbn; rewrite E|].
    cbn. destruct (filter (fun x => ts <= x.1) (samples l)) as [|x es] eqn:Ef; [done|].
    assert (x ∈ filter (fun x => ts <= x.1) (samples l)) as [Hle Hin]%list_elem_of_filter by (rewrite Ef; by left).
    specialize (Hno _ Hin). lia.
Qed.

Definition strategies : list string := ["earliest"; "latest"; "timestamp"].

Lemma reset_target_exists l start bs strategy ts : log_wf start bs l -> in_time l -> strategy ∈ strategies ->
  exists off, reset_target l strategy ts = Ok (Some off).
Proof.
  intros Hwf [Ht Hx] Hin. unfold reset_target, Log_LookupOffsetByTimestamp.
  rewrite (lookup_ts_first ts _ (log_wf_open _ _ _ Hwf) Ht Hx).
  repeat (apply elem_of_cons in Hin as [->|Hin]; [by eexists|]). by apply elem_of_nil in Hin.
Qed.

(** The offset the handler computes for a partition. *)
Definition is_target (b : Broker) (body : reset_body) (topic : string) (p off : Z) : Prop :=
  exists t l, b_topics b !! topic = Some t /\ Topic_Partition t p = Some l /\ reset_target l (rb_Strategy body) (rb_TimestampMS body) = Ok (Some off).

Lemma target_unique b body topic p o1 o2 : is_target b body topic p o1 -> is_target b body topic p o2 -> o1 = o2.
Proof. intros (t & l & H1 & H2 & H3) (t' & l' & H1' & H2' & H3'). congruence. Qed.

(** What the resets [l] make of a store. *)
Record resets_applied (now : Z) (gid : string) (s : OffsetStore) (l : list reset) (s' : OffsetStore) : Prop := {
  ra_wf : store_wf s';
  ra_set : forall t p off, (t, p, off) ∈ l -> FetchOffset s' gid t p = mkCommitted off 0 "reset-via-admin" now;
  ra_rest : forall g t p, g <> gid \/ (forall off, (t, p, off) ∉ l) -> FetchOffset s' g t p = FetchOffset s g t p
}.

Section reset.
Context `{AdminJson} (e : adminenv) (body : reset_body) (b0 : Broker).
Abbreviation gid := (rb_GroupID body).

(** A partition that exists has a target, and its commit is persisted. *)
Definition can_reset (topic : string) (p : Z) : Prop :=
  ae_persist e topic p = PersistOk /\
  forall t l, b_topics b0 !! topic = Some t -> Topic_Partition t p = Some l ->
    exists off, reset_target l (rb_Strategy body) (rb_TimestampMS body) = Ok (Some off).

Lemma reset_parts_spec s0 topic t ps : b_topics b0 !! topic = Some t ->
  ValidateName "group" gid = Ok tt -> ValidateName "topic" topic = Ok tt -> (forall p, p ∈ ps -> can_reset topic p) ->
  forall s done, resets_applied (ae_now e) gid s0 done s -> (forall x, x ∈ done -> is_target b0 body x.1.1 x.1.2 x.2) ->
  exists s' l, reset_parts e (set_store b0 s) body topic t ps done = (set_store b0 s', ResetOk (done ++ l)) /\
    resets_applied (ae_now e) gid s0 (done ++ l) s' /\ (forall x, x ∈ done ++ l -> is_target b0 body x.1.1 x.1.2 x.2) /\
    forall t' p off, (t', p, off) ∈ l <-> t' = topic /\ p ∈ ps /\ is_target b0 body topic p off.
Proof.
  intros Ht Hg Hn. induction ps as [|p ps IH]; intros Hcan s done Hra Htg; cbn [reset_parts].
  { exists s, []. rewrite app_nil_r. split_and!; try done. intros t' p off. split; [by intros ?%elem_of_nil|].
    intros (_ & ?%elem_of_nil & _). done. }
  assert (forall q, q ∈ ps -> can_reset topic q) as Hcan' by (intros q Hq; apply Hcan; by right).
  destruct (Topic_Partition t p) as [lg|] eqn:Ep.
  2:{ destruct (IH Hcan' s done Hra Htg) as (s' & l & E & H1 & H2 & H3). exists s', l. split_and!; try done.
      intros t' q off. rewrite H3, elem_of_cons. split; [intros (-> & ? & ?); auto|]. intros (-> & [->|Hq] & Hoff); [|done].
      destruct Hoff as (t2 & l2 & E1 & E2 & _). congruence. }
  destruct (Hcan p) as [Hper Htar]; [by left|]. destruct (Htar t lg Ht Ep) as [off Eoff]. rewrite Eoff, Hper.
  change (b_offsets (set_store b0 s)) with s.
  destruct (CommitOffset_ok (ae_now e) s gid topic p off 0 "reset-via-admin" (ra_wf _ _ _ _ _ Hra) Hg Hn) as (s1 & E1 & Hf1 & Hf2).
  pose proof (CommitOffset_wf (ae_now e) PersistOk s gid topic p off 0 "reset-via-admin" (ra_wf _ _ _ _ _ Hra)) as Hwf1.
  rewrite E1 in *. cbn in Hwf1. change (set_store (set_store b0 s) s1) with (set_store b0 s1).
  assert (is_target b0 body topic p off) as Hoff by (by exists t, lg).
  destruct (IH Hcan' s1 (done ++ [(topic, p, off)])) as (s' & l & E & H1 & H2 & H3).
  { split; [done| |].
    - intros t' q o [Hin|Hin%list_elem_of_singleton]%elem_of_app; [|by injection Hin as -> -> ->].
      destruct (decide ((t', q) = (topic, p))) as [[= -> ->]|Hne].
      + pose proof (Htg _ Hin) as Ho. cbn [fst snd] in Ho. by rewrite (target_unique _ _ _ _ _ _ Ho Hoff).
      + rewrite Hf2 by congruence. by apply (ra_set _ _ _ _ _ Hra).
    - intros g t' q Hc. rewrite Hf2.
      + apply (ra_rest _ _ _ _ _ Hra). destruct Hc as [?|Hc]; [by left|]. right. intros o Ho. apply (Hc o), elem_of_app. by left.
      + intros [= -> -> ->]. destruct Hc as [?|Hc]; [done|]. apply (Hc off), elem_of_app. right. by left. }
  { intros x [Hx|Hx%list_elem_of_singleton]%elem_of_app; [by apply Htg|]. by subst x. }
  exists s', ((topic, p, off) :: l). rewrite <- app_assoc in E, H1, H2. split_and!; try done.
  intros t' q o. rewrite (elem_of_cons l), H3, (elem_of_cons ps). split.
  - intros [[= -> -> ->]|(-> & ? & ?)]; split_and!; auto.
  - intros (-> & [->|?] & Ho); [left; by rewrite (target_unique _ _ _ _ _ _ Ho Hoff)|by right].
Qed.

Definition selected (topic : string) : Prop := rb_Topic body = "" \/ rb_Topic body = topic.

Lemma reset_topics_spec s0 offs ts : ValidateName "group" gid = Ok tt ->
  (forall topic, topic ∈ ts -> selected topic -> ValidateName "topic" topic = Ok tt /\
     forall p, p ∈ ae_parts e (default ∅ (offs !! topic)) -> can_reset topic p) ->
  forall s done, resets_applied (ae_now e) gid s0 done s -> (forall x, x ∈ done -> is_target b0 body x.1.1 x.1.2 x.2) ->
  exists s' l, reset_topics e (set_store b0 s) body offs ts done = (set_store b0 s', ResetOk (done ++ l)) /\
    resets_applied (ae_now e) gid s0 (done ++ l) s' /\
    forall t p off, (t, p, off) ∈ l <->
      t ∈ ts /\ selected t /\ p ∈ ae_parts e (default ∅ (offs !! t)) /\ is_target b0 body t p off.
Proof.
  intros Hg. induction ts as [|topic ts IH]; intros Hsel s done Hra Htg; cbn [reset_topics].
  { exists s, []. rewrite app_nil_r. split_and!; try done. intros t p off. split; [by intros ?%elem_of_nil|]. by intros (?%elem_of_nil & _). }
  assert (forall t, t ∈ ts -> selected t -> ValidateName "topic" t = Ok tt /\
     forall p, p ∈ ae_parts e (default ∅ (offs !! t)) -> can_reset t p) as Hsel' by (intros t Ht; apply Hsel; by right).
  assert (forall (P : Prop), (forall p off, selected topic -> is_target b0 body topic p off -> False) ->
    (exists s' l, reset_topics e (set_store b0 s) body offs ts done = (set_store b0 s', ResetOk (done ++ l)) /\
      resets_applied (ae_now e) gid s0 (done ++ l) s' /\
      forall t p off, (t, p, off) ∈ l <-> t ∈ topic :: ts /\ selected t /\ p ∈ ae_parts e (default ∅ (offs !! t)) /\ is_target b0 body t p off)) as Hskip.
  { intros _ Hno. destruct (IH Hsel' s done Hra Htg) as (s' & l & E & H1 & H2). exists s', l. split_and!; try done.
    intros t p off. rewrite H2, elem_of_cons. split; [intros (? & ? & ? & ?); split_and!; auto|]. intros ([->|?] & ? & ? & Ho); [|done]. by destruct (Hno p off). }
  destruct (negb (String.eqb (rb_Topic body) "") && negb (String.eqb (rb_Topic body) topic)) eqn:Ef.
  { apply (Hskip True). intros p off Hs _. apply andb_true_iff in Ef as [E1%negb_true_iff E2%negb_true_iff].
    apply String.eqb_neq in E1, E2. by destruct Hs. }
  assert (selected topic) as Hst.
  { apply andb_false_iff in Ef as [E1%negb_false_iff|E1%negb_false_iff]; apply String.eqb_eq in E1; [by left|by right]. }
  change (b_topics (set_store b0 s)) with (b_topics b0). destruct (b_topics b0 !! topic) as [t|] eqn:Et.
  2:{ apply (Hskip True). intros p off _ (t & l & E1 & _). congruence. }
  destruct (Hsel topic) as [Hn Hcan]; [by left|done|].
  destruct (reset_parts_spec s0 topic t _ Et Hg Hn Hcan s done Hra Htg) as (s1 & l1 & -> & Hra1 & Htg1 & Hl1).
  destruct (IH Hsel' s1 (done ++ l1) Hra1 Htg1) as (s2 & l2 & E2 & Hra2 & Hl2).
  exists s2, (l1 ++ l2). rewrite app_assoc. split_and!; try done. intros t' p off.
  rewrite elem_of_app, Hl1, Hl2, elem_of_cons. split.
  - intros [(-> & ? & ?)|(? & ? & ? & ?)]; split_and!; auto.
  - intros ([->|?] & ? & ? & ?); [left|right]; split_and!; auto.
Qed.
End reset.

Lemma resetOffset_spec `{AdminJson} e b r body :
  hr_Method r = "POST" -> decode_reset (hr_Body r) = Some body -> store_wf (b_offsets b) ->
  ValidateName "group" (rb_GroupID body) = Ok tt -> is_Some (os_groups (b_offsets b) !! rb_GroupID body) ->
  (forall m k, k ∈ ae_offsets e m <-> is_Some (m !! k)) -> (forall m k, k ∈ ae_parts e m <-> is_Some (m !! k)) ->
  (forall t ps, AllOffsets (b_offsets b) (rb_GroupID body) !! t = Some ps -> selected body t ->
     ValidateName "topic" t = Ok tt /\ forall p, is_Some (ps !! p) -> can_reset e body b t p) ->
  exists s' l, resetOffset e b r = (set_store b s', Ok (writeJSON 200
      (JObj [("group_id", JStr (rb_GroupID body)); ("reset", JList (map reset_json l)); ("count", JNum (zlen l))]))) /\
    resets_applied (ae_now e) (rb_GroupID body) (b_offsets b) l s' /\
    forall t p off, (t, p, off) ∈ l <->
      selected body t /\ (exists ps, AllOffsets (b_offsets b) (rb_GroupID body) !! t = Some ps /\ is_Some (ps !! p)) /\ is_target b body t p off.
Proof.
  intros Hm Hd Hwf Hg [gs Hgs] Ho Hp Hcan. unfold resetOffset. rewrite Hm, Hd. cbn [String.eqb negb].
  assert (rb_GroupID body <> "") as Hne by (intros E; rewrite E in Hg; done). rewrite (proj2 (String.eqb_neq _ _) Hne).
  unfold OffsetStore_Get. rewrite Hgs. unfold AllOffsets in *. rewrite Hgs in *.
  destruct (reset_topics_spec e body b (b_offsets b) (gs_Offsets gs) (ae_offsets e (gs_Offsets gs)) Hg) with (s := b_offsets b) (done := @nil reset)
    as (s' & l & E & Hra & Hl).
  - intros t Ht Hs. apply Ho in Ht as [ps Hps]. destruct (Hcan t ps Hps Hs) as [Hn Hc]. split; [done|].
    intros p Hin. rewrite Hps in Hin. apply Hc. by apply Hp.
  - split; [done| |done]. by intros t p off ?%elem_of_nil.
  - by intros x ?%elem_of_nil.
  - exists s', l. rewrite app_nil_l in *. rewrite E. split_and!; try done. intros t p off. rewrite Hl. split.
    + intros ([ps Hps]%Ho & Hs & Hin & Htg). rewrite Hps in Hin. split_and!; try done. exists ps. split; [done|]. by apply Hp.
    + intros (Hs & (ps & Hps & Hin) & Htg). split_and!; try done; [apply Ho; by exists ps|]. rewrite Hps. by apply Hp.
Qed.


(** ** Witnesses and examples *)

#[local] Instance toy_admin_json : AdminJson := {
  decode_acl := fun _ => Some (mkAclBody "svc" [mkPrefix "" ["read"]] []);
  decode_reset := fun raw => Some (mkResetBody (if bool_decide (raw = []) then "workers" else "ghost") "" (if bool_decide (raw = [x74]) then "timestamp" else "latest") 9000);
  decode_topic := fun _ => None
}.

Definition sample_adminenv : adminenv :=
  mkAdminEnv 7 sample_env true (fun _ _ => PersistOk) (fun m => (map_to_list m).*1) (fun m => (map_to_list m).*1)
    (fun m => (map_to_list m).*1) (fun m => (map_to_list m).*1) map_to_list (fun m => (map_to_list m).*1).
Definition committed_broker : Broker := set_store orders_broker committed_store.
Definition admin_request (method path token : string) (body : list byte) : http_request := mkHttp method path token body.

Lemma admin_guarded_witness :
  (admin_serve (mkAdmin "s3cret" 0) sample_adminenv orders_broker (admin_request "DELETE" "/v1/topics/orders" "Bearer guess" [])).1 = orders_broker.
Proof.
  refine (proj1 (admin_guarded (mkAdmin "s3cret" 0) sample_adminenv orders_broker (admin_request "DELETE" "/v1/topics/orders" "Bearer guess" []) _ _));
    intros Heq; discriminate Heq.
Defined.

Lemma keys_elem {K V} `{Countable K} (m : gmap K V) k : k ∈ (map_to_list m).*1 <-> is_Some (m !! k).
Proof.
  rewrite list_elem_of_fmap. split.
  - intros ([k' v] & -> & Hin%elem_of_map_to_list). by exists v.
  - intros [v Hv]. exists (k, v). split; [done|]. by apply elem_of_map_to_list.
Qed.

Lemma committed_wf : store_wf committed_store.
Proof. apply CommitOffset_wf. split; intros ? ? Hx; discriminate Hx. Qed.

Lemma committed_offsets : AllOffsets (b_offsets committed_broker) "workers" = {["orders" := {[0 := mkCommitted 42 0 "" 5]}]}.
Proof. vm_compute. reflexivity. Qed.

Lemma timeindex_wf_one t e : tix_entries t = [e] -> lastTS t = Timestamp e -> timeindex_wf t.
Proof. intros E El. split; rewrite E; [|by intros ? [= <-]]. repeat constructor. Qed.

Lemma timeindex_wf_two t e e' : tix_entries t = [e; e'] -> lastTS t = Timestamp e' -> time_lt e e' -> timeindex_wf t.
Proof. intros E El Hlt. split; rewrite E; [|by intros ? [= <-]]. constructor; [repeat constructor|by apply Forall_singleton]. Qed.

Lemma sample_in_time : in_time (sample_log FsyncAlways).
Proof.
  split.
  - apply (proj1 (Forall_map tix timeindex_wf _)).
    assert (exists t1 t2, map tix (segments (sample_log FsyncAlways)) = [t1; t2] /\
      tix_entries t1 = [mkTimeEntry 1000 0; mkTimeEntry 2000 3] /\ lastTS t1 = 2000 /\
      tix_entries t2 = [mkTimeEntry 3000 0] /\ lastTS t2 = 3000) as (t1 & t2 & -> & E1 & E2 & E3 & E4)
      by (do 2 eexists; vm_compute; split_and!; reflexivity).
    apply Forall_cons. split; [eapply timeindex_wf_two; [done..|by split]|]. apply Forall_singleton. by eapply timeindex_wf_one.
  - assert (samples (sample_log FsyncAlways) = [(1000, 0); (2000, 3); (3000, 5)]) as -> by (vm_compute; reflexivity).
    repeat constructor; cbn; lia.
Qed.

Lemma single_log (L : Log) name c t top p lg : ({[name := mkTopic name [(0, L)] c]} : gmap string Topic) !! t = Some top ->
  Topic_Partition top p = Some lg -> lg = L.
Proof.
  intros [<- <-]%lookup_singleton_Some Hl. apply Topic_Partition_in in Hl as [i Hi]. cbn [t_partitions] in Hi.
  apply list_elem_of_singleton in Hi. by injection Hi.
Qed.

Lemma orders_logs t top p lg : b_topics committed_broker !! t = Some top -> Topic_Partition top p = Some lg ->
  (exists start bs, log_wf start bs lg) /\ in_time lg.
Proof.
  intros Ht Hl. rewrite (single_log (sample_log FsyncAlways) "orders" (t_cfg orders) t top p lg Ht Hl).
  split; [exists 0, sample_batches; apply sample_log_wf|exact sample_in_time].
Qed.


(** A group nobody has heard of is not refused: the lookup makes it, so the answer
    is a success with no resets, and the group exists from then on. *)
Example reset_unknown_group :
  let '(b', r) := resetOffset sample_adminenv committed_broker (admin_request "POST" "/v1/replay/reset-offset" "" [x67]) in
  r = Ok (writeJSON 200 (JObj [("group_id", JStr "ghost"); ("reset", JList []); ("count", JNum 0)])) /\
  os_groups (b_offsets committed_broker) !! "ghost" = None /\ is_Some (os_groups (b_offsets b') !! "ghost").
Proof. vm_compute. split_and!; [reflexivity|reflexivity|by eexists]. Qed.

(** Seeking to a time behind the last record goes back to the first one. *)
Example seek_past_the_end : reset_target (sample_log FsyncAlways) "timestamp" 9000 = Ok (Some 0) /\ LatestOffset (sample_log FsyncAlways) = 6.
Proof. vm_compute. split; reflexivity. Qed.

(** The time indexes are samples: a lookup by time skips the batches that were not
    sampled.  Of three batches of one segment only the first one is, so a seek to
    the time of the second finds nothing. *)
Example seek_skips_unsampled :
  let c := mkConfig "/data" 10000 1000000 4096 FsyncNone 5000000000 in
  let l := match OpenLog (fun _ => (None, None)) 0 c None empty_dir with Ok l => l | _ => fresh_log FsyncNone end in
  let l := (Log_Append (fun _ => good_io 0) l [encode_batch 0 1 1000 [x61]; encode_batch 0 1 2000 [x62]; encode_batch 0 1 3000 [x63]]).1 in
  samples l = [(1000, 0)] /\ HighWatermark l = 3 /\ Log_LookupOffsetByTimestamp l 2000 = Ok (0, false) /\
  reset_target l "timestamp" 2000 = Ok (Some 0).
Proof. vm_compute. split_and!; reflexivity. Qed.

(** Updating a principal drops its tenant, and with it the isolation: [svc] of
    tenant [t1] afterwards passes the tenant check of any topic. *)
Example upsert_drops_tenant :
  let b := set_acl orders_broker sample_acl in
  let '(b', r) := acls sample_adminenv b (admin_request "POST" "/v1/acls" "" []) in
  let foreign := mkTopic "orders2" [] (mkTopicConfig 1 1 (-1) (-1) 100 "t2") in
  r = Ok (writeJSON 200 (JObj [("upserted", JStr "svc")])) /\
  TenantOf (b_acl b) "svc" = "t1" /\ verifyTopicTenant foreign (TenantOf (b_acl b) "svc") = Err (ESentinel ErrUnauthorizedTopic) /\
  TenantOf (b_acl b') "svc" = "" /\ verifyTopicTenant foreign (TenantOf (b_acl b') "svc") = Ok tt.
Proof. vm_compute. split_and!; reflexivity. Qed.
