(* ===== verification/Host.v ===== *)
(** * The host: disk guard, directory lock, background syncer
      (internal/storage/disk_guard.go, lock.go, lock_unix.go, syncer.go)

    What the broker does with the machine it runs on.  The file system's answers
    are arguments; the lock is a step relation over the processes that want the
    data directory, one step per system call. *)

From S2P Require Import Prelude Bytes OsFile RecordBatch Segment Log GoText.

#[local] Open Scope Z_scope.

(** ** The disk guard *)

Record DiskGuard := mkGuard { dg_threshold : float64; dg_paused : bool }.

Definition tenth : float64 := default S754_nan (ParseFloat "0.10").

Definition NewDiskGuard (threshold : float64) : DiskGuard :=
  mkGuard (if f64_le threshold (f64_of_Z 0) || f64_le (f64_of_Z 1) threshold then tenth else threshold) false.

(** [statfs]: free blocks, all blocks, block size. *)
Definition diskStats (st : option (Z * Z * Z)) : option (Z * Z) :=
  match st with
  | Some (bavail, blocks, bsize) => Some (u64 (bavail * bsize), u64 (blocks * bsize))
  | None => None
  end.

(** [checkOnce], with what [OnState] is told. *)
Definition checkOnce (g : DiskGuard) (st : option (Z * Z * Z)) : DiskGuard * option (bool * float64) :=
  match diskStats st with
  | None => (g, None)
  | Some (free, total) =>
      if total =? 0 then (g, None)
      else
        let frac := f64_div (f64_of_Z free) (f64_of_Z total) in
        let g := mkGuard (dg_threshold g) (f64_lt frac (dg_threshold g)) in
        (g, Some (dg_paused g, frac))
  end.

(** [Run]: the first check at once, then one per tick until it is stopped. *)
Definition guard_Run (g : DiskGuard) (sts : list (option (Z * Z * Z))) : DiskGuard := foldl (fun g st => (checkOnce g st).1) g sts.

(** [AttachDiskGuard] and [Paused] of the storage: logs opened from then on
    consult the guard. *)
Definition Storage_Paused (g : option DiskGuard) : bool := match g with Some g => dg_paused g | None => false end.
Definition with_guard (g : option DiskGuard) (l : Log) : Log :=
  mkLog (cfg l) (segments l) (logStart l) (option_map dg_paused g).

(** ** The syncer *)

Definition syncer_interval (interval : Z) : Z := if interval <=? 0 then 5 * 1000000000 else interval.

(** One tick: every log is synced; a failure is only reported. *)
Fixpoint syncer_tick (o : nat -> io) (logs : list Log) : list Log * list (res unit) :=
  match logs with
  | [] => ([], [])
  | l :: logs =>
      let (l, r) := FlushAndSync (o 0%nat) l in
      let (ls, rs) := syncer_tick (fun k => o (S k)) logs in (l :: ls, r :: rs)
  end.

(** ** The directory lock

    A process is between the two calls of [LockDir], holds the lock, or is between
    the unlocking and the removal of the file in [Release].  The lock belongs to the
    file that was opened (its inode), the name [.lock] to the directory. *)

Inductive lock_state := LockIdle | LockOpened (inode : nat) | LockHeld (inode : nat) | LockReleased.

Record lock_world := mkLockWorld {
  lw_name : option nat;                    (* the inode the name stands for *)
  lw_next : nat;                           (* inodes up to here have been used *)
  lw_holder : nat -> option nat;           (* the process that has locked an inode *)
  lw_proc : nat -> lock_state
}.

Definition upd {A} (f : nat -> A) (k : nat) (v : A) : nat -> A := fun n => if (n =? k)%nat then v else f n.

Inductive lock_step : lock_world -> lock_world -> Prop :=
(* LockDir: os.OpenFile with O_CREATE *)
| lock_open_old w p i : lw_proc w p = LockIdle -> lw_name w = Some i ->
    lock_step w (mkLockWorld (lw_name w) (lw_next w) (lw_holder w) (upd (lw_proc w) p (LockOpened i)))
| lock_open_new w p : lw_proc w p = LockIdle -> lw_name w = None ->
    lock_step w (mkLockWorld (Some (lw_next w)) (S (lw_next w)) (lw_holder w) (upd (lw_proc w) p (LockOpened (lw_next w))))
(* LockDir: flock with LOCK_EX|LOCK_NB, and the refusal *)
| lock_take w p i : lw_proc w p = LockOpened i -> lw_holder w i = None ->
    lock_step w (mkLockWorld (lw_name w) (lw_next w) (upd (lw_holder w) i (Some p)) (upd (lw_proc w) p (LockHeld i)))
| lock_refused w p i q : lw_proc w p = LockOpened i -> lw_holder w i = Some q ->
    lock_step w (mkLockWorld (lw_name w) (lw_next w) (lw_holder w) (upd (lw_proc w) p LockIdle))
(* Release: unlock and close, then remove the name *)
| lock_unlock w p i : lw_proc w p = LockHeld i ->
    lock_step w (mkLockWorld (lw_name w) (lw_next w) (upd (lw_holder w) i None) (upd (lw_proc w) p LockReleased))
| lock_remove w p : lw_proc w p = LockReleased ->
    lock_step w (mkLockWorld None (lw_next w) (lw_holder w) (upd (lw_proc w) p LockIdle))
(* the process dies: the kernel drops its lock *)
| lock_die w p : 
    lock_step w (mkLockWorld (lw_name w) (lw_next w)
      (match lw_proc w p with LockHeld i => upd (lw_holder w) i None | _ => lw_holder w end) (upd (lw_proc w) p LockIdle)).

Definition lock_start : lock_world := mkLockWorld None 0 (fun _ => None) (fun _ => LockIdle).
