(* ===== verification/HostProps.v ===== *)
(** * The host: what the lock, the syncer and the guard guarantee *)

From stdpp Require Import relations.
From S2P Require Import Prelude Bytes OsFile RecordBatch Index TimeIndex Segment SegmentFacts Log LogFacts LogRead LogRecover Samples LogProps GoText Host.

#[local] Open Scope Z_scope.

(** ** The lock *)

(** While a process shuts down, no other one starts or runs. *)
Definition quiet (w : lock_world) : Prop :=
  forall p, lw_proc w p = LockReleased -> forall q, q <> p -> lw_proc w q = LockIdle.
Definition quiet_step (w w' : lock_world) : Prop := lock_step w w' /\ quiet w'.

Definition uses (w : lock_world) (p i : nat) : Prop := lw_proc w p = LockOpened i \/ lw_proc w p = LockHeld i.

Record lock_inv (w : lock_world) : Prop := {
  li_quiet : quiet w;
  li_held : forall p i, lw_proc w p = LockHeld i -> lw_holder w i = Some p;
  li_name : forall p i, uses w p i -> lw_name w = Some i
}.

Lemma upd_eq {A} (f : nat -> A) k v : upd f k v k = v.
Proof. unfold upd. by rewrite Nat.eqb_refl. Qed.
Lemma upd_ne {A} (f : nat -> A) k v n : n <> k -> upd f k v n = f n.
Proof. unfold upd. intros H. by rewrite (proj2 (Nat.eqb_neq n k) H). Qed.
Lemma upd_case {A} (f : nat -> A) k v n x : upd f k v n = x -> (n = k /\ v = x) \/ (n <> k /\ f n = x).
Proof. intros <-. destruct (decide (n = k)) as [->|H]; [left; by rewrite upd_eq|right; by rewrite upd_ne]. Qed.

Lemma uses_upd w name next holder p st q i :
  uses (mkLockWorld name next holder (upd (lw_proc w) p st)) q i ->
  (q = p /\ (st = LockOpened i \/ st = LockHeld i)) \/ (q <> p /\ uses w q i).
Proof.
  unfold uses. cbn. destruct (decide (q = p)) as [->|Hne]; [rewrite upd_eq; auto|]. rewrite upd_ne by done. auto.
Qed.

Lemma quiet_step_inv w w' : lock_inv w -> quiet_step w w' -> lock_inv w'.
Proof.
  intros [Hq Hh Hn] [Hstep Hq'].
  destruct Hstep as [w p i Hp Hname|w p Hp Hname|w p i Hp Hfree|w p i owner Hp Htaken|w p i Hp|w p Hp|w p];
    (split; [exact Hq'| |]); cbn [lw_proc lw_holder lw_name] in *.
  - intros q j [[_ ?]|[_ ?]]%upd_case; [done|auto].
  - intros q j [[-> [[= <-]|?]]|[_ ?]]%uses_upd; [done|done|eauto].
  - intros q j [[_ ?]|[_ ?]]%upd_case; [done|auto].
  - intros q j [[-> [[= <-]|?]]|[_ Hu]]%uses_upd; [done|done|]. apply Hn in Hu. congruence.
  - intros q j [[-> [= <-]]|[_ Hj]]%upd_case; [apply upd_eq|]. apply Hh in Hj. rewrite upd_ne; [done|congruence].
  - intros q j [[-> [?|[= <-]]]|[_ ?]]%uses_upd; [done| |eauto]. apply (Hn p). by left.
  - intros q j [[_ ?]|[_ ?]]%upd_case; [done|auto].
  - intros q j [[-> [?|?]]|[_ ?]]%uses_upd; [done|done|eauto].
  - intros q j [[_ ?]|[Hne Hj]]%upd_case; [done|]. apply Hh in Hj, Hp. rewrite upd_ne; [done|congruence].
  - intros q j [[-> [?|?]]|[_ ?]]%uses_upd; [done|done|eauto].
  - intros q j [[_ ?]|[_ ?]]%upd_case; [done|auto].
  - intros q j [[-> [?|?]]|[Hne [Hu|Hu]]]%uses_upd; [done|done| |]; rewrite (Hq p Hp q Hne) in Hu; done.
  - intros q j [[_ ?]|[Hne Hj]]%upd_case; [done|]. destruct (lw_proc w p) as [|i|i|] eqn:Ep; auto.
    apply Hh in Hj, Ep. rewrite upd_ne; [done|congruence].
  - intros q j [[-> [?|?]]|[_ ?]]%uses_upd; [done|done|eauto].
Qed.

(** C40: At most one broker has the data directory.  Processes start, are refused,
    shut down and die in any order and between any two system calls; as long as none
    starts or runs while another one is between the two halves of its shutdown, no
    two processes ever hold the lock at the same time. *)
Theorem dirlock_exclusive w p q i j : rtc quiet_step lock_start w ->
  lw_proc w p = LockHeld i -> lw_proc w q = LockHeld j -> p = q.
Proof.
  intros Hsteps. assert (lock_inv w) as [_ Hh Hn].
  { assert (lock_inv lock_start) as Hinit by (split; [by intros ? ?|by intros ? ?|by intros ? ? [?|?]]).
    revert Hinit. induction Hsteps as [|w1 w2 w3 Hst _ IH]; [done|]. intros Hinv. apply IH. by eapply quiet_step_inv. }
  intros Hp Hq. assert (lw_name w = Some i) as E1 by (apply (Hn p); by right).
  assert (lw_name w = Some j) as E2 by (apply (Hn q); by right). assert (i = j) as <- by congruence.
  apply Hh in Hp, Hq. congruence.
Qed.

Definition held_once : lock_world := mkLockWorld (Some 0%nat) 1 (upd (fun _ => None) 0 (Some 5%nat)) (upd (upd (fun _ => LockIdle) 5 (LockOpened 0)) 5 (LockHeld 0)).

Lemma upd_quiet f p st : st <> LockReleased -> (forall q, f q <> LockReleased) -> forall q, upd f p st q <> LockReleased.
Proof. intros Hst Hf q [[_ ?]|[_ ?]]%upd_case; [done|by apply (Hf q)]. Qed.

Lemma dirlock_exclusive_witness : lw_proc held_once 5 = LockHeld 0 /\ (5 = 5)%nat.
Proof.
  split; [reflexivity|]. apply (dirlock_exclusive held_once 5 5 0 0); [|reflexivity|reflexivity].
  eapply rtc_l; [split; [exact (lock_open_new lock_start 5 eq_refl eq_refl)|]|].
  { intros q Hq. exfalso. revert Hq. by apply upd_quiet. }
  eapply rtc_l; [split; [exact (lock_take (mkLockWorld (Some 0%nat) 1 (fun _ => None) (upd (fun _ => LockIdle) 5 (LockOpened 0))) 5 0 eq_refl eq_refl)|]|].
  { intros q Hq. exfalso. revert Hq. apply upd_quiet; [done|]. by apply upd_quiet. }
  apply rtc_refl.
Defined.

(** Without that proviso two processes can hold it: the second one locks the file
    the first has just unlocked, the first then removes its name, and the third makes
    a new file. *)
Example dirlock_overlap : exists w, rtc lock_step lock_start w /\ lw_proc w 2 = LockHeld 0 /\ lw_proc w 3 = LockHeld 1.
Proof.
  eexists. split.
  - eapply rtc_l; [apply (lock_open_new lock_start 1); reflexivity|].
    eapply rtc_l; [apply (lock_take _ 1 0); reflexivity|].
    eapply rtc_l; [apply (lock_open_old _ 2 0); reflexivity|].
    eapply rtc_l; [apply (lock_unlock _ 1 0); reflexivity|].
    eapply rtc_l; [apply (lock_take _ 2 0); reflexivity|].
    eapply rtc_l; [apply (lock_remove _ 1); reflexivity|].
    eapply rtc_l; [apply (lock_open_new _ 3); reflexivity|].
    eapply rtc_l; [apply (lock_take _ 3 1); reflexivity|]. apply rtc_refl.
  - split; reflexivity.
Qed.

(** ** The syncer *)

(** Bytes of the log files, and those of the active one not yet on stable storage. *)
Definition total (l : Log) : Z := foldr (fun s n => fsize (logFile s) + n) 0 (segments l).
Definition unsynced (l : Log) : Z := match last (segments l) with Some s => fsize (logFile s) - fsynced (logFile s) | None => 0 end.

(** An operation that adds to the unsynced bytes no more than it writes. *)
Definition bounded_step (l l' : Log) : Prop := total l <= total l' /\ unsynced l' <= Z.max 0 (unsynced l) + (total l' - total l).

Lemma bounded_step_trans l1 l2 l3 : bounded_step l1 l2 -> bounded_step l2 l3 -> bounded_step l1 l3.
Proof. unfold bounded_step. lia. Qed.
Lemma bounded_step_refl l : bounded_step l l.
Proof. unfold bounded_step. lia. Qed.

Lemma total_snoc l pre s : segments l = pre ++ [s] -> total l = foldr (fun s n => fsize (logFile s) + n) 0 pre + fsize (logFile s).
Proof. unfold total. intros ->. induction pre as [|x pre IH]; cbn [app foldr]; lia. Qed.
Lemma unsynced_snoc l pre s : segments l = pre ++ [s] -> unsynced l = fsize (logFile s) - fsynced (logFile s).
Proof. unfold unsynced. intros ->. by rewrite last_snoc. Qed.

Lemma log_wf_total start bs l : log_wf start bs l -> total l = zlen (concat bs).
Proof.
  intros (bss & pre & abs & s & Hsegs & Hf & Hwf & _ & ->). rewrite (total_snoc l pre s Hsegs), concat_app, zlen_app.
  destruct Hwf as [Hdata _ _ _ _ _ _ _ _]. unfold fsize at 2. rewrite Hdata. f_equal. clear Hsegs.
  induction Hf as [|o bs bss s' segs o' Hs' _ _ _ _ IH]; [done|]. cbn [foldr concat]. rewrite concat_app, zlen_app.
  destruct Hs' as [Hd _ _ _ _ _ _ _ _]. unfold fsize at 1. rewrite Hd. f_equal. apply IH.
Qed.

Lemma Segment_Sync_files o s s' r : Segment_Sync o s = (s', r) ->
  fsize (logFile s') = fsize (logFile s) /\ (fsynced (logFile s') = fsynced (logFile s) \/ fsynced (logFile s') = fsize (logFile s)).
Proof.
  unfold Segment_Sync, file_sync, Index_Sync, TimeIndex_Sync. destruct (closed s); [intros [= <- <-]; auto|].
  destruct (io_slog o); [|intros [= <- <-]; auto].
  destruct (file_sync _ _) as [i [|?| |]]; try (intros [= <- <-]; cbn; auto).
  destruct (file_sync _ _) as [t rt]. intros [= <- <-]. cbn. auto.
Qed.

Lemma sync_active_bounded o l l' r : sync_active o l = (l', r) -> bounded_step l l'.
Proof.
  unfold sync_active. destruct (split_last (segments l)) as [[pre s]|] eqn:E; [|intros [= <- <-]; apply bounded_step_refl].
  destruct (Segment_Sync o s) as [s' r'] eqn:Es. intros [= <- <-]. apply Segment_Sync_files in Es as [Hz Hf].
  assert (segments l = pre ++ [s]) as Hsegs.
  { unfold split_last in E. destruct (last (segments l)) as [x|] eqn:El; [|done]. injection E as <- <-. apply last_Some in El as [k ->].
    rewrite length_app. cbn. by rewrite take_app_length' by lia. }
  unfold bounded_step. rewrite (total_snoc l pre s Hsegs), (unsynced_snoc l pre s Hsegs), (total_snoc _ pre s'), (unsynced_snoc _ pre s') by done.
  lia.
Qed.

Lemma roll_bounded o start bs l l' r : log_wf start bs l -> rollLocked o l = (l', r) -> bounded_step l l'.
Proof.
  intros (bss & pre & abs & s & Hsegs & Hf & Hwf & Hsl & ->). unfold rollLocked. rewrite Hsegs, split_last_snoc.
  destruct (nextOffset s =? baseOffset s); [intros [= <- <-]; apply bounded_step_refl|]. unfold Segment_Seal.
  destruct (Segment_Sync o s) as [s' r'] eqn:Es. pose proof (Segment_Sync_spec o abs s Hwf) as (s2 & r2 & E2 & Hwf2 & Hsc & Hr & _).
  rewrite Es in E2. injection E2 as <- <-. apply Segment_Sync_files in Es as [Hz Hfs].
  assert (bounded_step l (set_segments l (pre ++ [s']))) as Hstay.
  { unfold bounded_step. rewrite (total_snoc l pre s Hsegs), (unsynced_snoc l pre s Hsegs), (total_snoc _ pre s'), (unsynced_snoc _ pre s') by done. lia. }
  destruct Hr as [->|[er ->]]; [|by intros [= <- <-]].
  destruct (OpenSegment_empty (fun _ => (None, None)) (seg_opts (cfg l) (nextOffset (set_sealed s' true))) (io_now o)) as (seg & -> & Hwfn & _ & _ & _ & Hd).
  { cbn. pose proof (seg_wf_next_range _ _ Hwf2). destruct Hwf2. lia. }
  intros [= <- <-]. destruct Hwfn as [Hdata _ _ _ _ _ _ _ _]. unfold durable in Hd.
  assert (fsize (logFile seg) = 0) as H0 by (unfold fsize; by rewrite Hdata).
  unfold bounded_step. rewrite (total_snoc l pre s Hsegs), (unsynced_snoc l pre s Hsegs).
  rewrite (total_snoc _ (pre ++ [set_sealed s' true]) seg), (unsynced_snoc _ (pre ++ [set_sealed s' true]) seg) by (cbn; by rewrite <- app_assoc).
  rewrite foldr_app. cbn [foldr set_sealed logFile]. 
  assert (forall n, foldr (fun s n => fsize (logFile s) + n) n pre = foldr (fun s n => fsize (logFile s) + n) 0 pre + n) as Hfold.
  { intros n. clear. induction pre as [|x pre IH]; cbn [foldr]; lia. }
  rewrite (Hfold (fsize (logFile s') + 0)). lia.
Qed.

Lemma index_batch_file wi wt s h pos : logFile (index_batch wi wt s h pos) = logFile s.
Proof.
  unfold index_batch. repeat case_match; reflexivity.
Qed.

Lemma append_one_bounded o l pre s b s' x : segments l = pre ++ [s] -> fpos (logFile s) = fsize (logFile s) -> io_log o = None ->
  Segment_Append o s b = (s', Ok x) -> bounded_step l (set_segments l (pre ++ [s'])).
Proof.
  intros Hsegs Hpos Hio. unfold Segment_Append. destruct (sealed s); [done|].
  destruct (wrap_err _ _) as [h| | |]; try done. destruct (wrap_err _ _) as [?| | |]; try done. destruct (wrap_err _ _) as [?| | |]; try done.
  rewrite Hio, file_write_append by done. intros [= <- _].
  unfold bounded_step. rewrite (total_snoc l pre s Hsegs), (unsynced_snoc l pre s Hsegs).
  rewrite (total_snoc (set_segments l (pre ++ [_])) pre _ eq_refl), (unsynced_snoc (set_segments l (pre ++ [_])) pre _ eq_refl), index_batch_file.
  cbn [set_log logFile fsize fdata fsynced]. unfold fsize in *. cbn [fdata]. rewrite zlen_app. pose proof (zlen_nonneg b). lia.
Qed.

Lemma append_loop_bounded o batches : forall i start bs l l' r,
  log_wf start bs l -> Forall acceptable batches ->
  HighWatermark l + recs batches < 2 ^ 63 -> (forall k, io_log (o k) = None) ->
  append_loop o i l batches = (l', r) -> bounded_step l l'.
Proof.
  induction batches as [|b batches IH]; intros i start bs l l' r Hwf Hacc Hroom Hio.
  { intros [= <- <-]. apply bounded_step_refl. }
  apply Forall_cons in Hacc as [Hb Hacc].
  assert (0 <= recs batches) as Hnn.
  { clear -Hacc. induction Hacc as [|x xs (_ & _ & ?)]; cbn; [done|]. fold (recs xs). unfold records. lia. }
  cbn [recs foldr] in Hroom. fold (recs batches) in Hroom.
  pose proof Hwf as (bss & pre & abs & s & Hsegs & _ & Hswf & _).
  destruct (log_append_one (o i) start bs l pre s b) as (b' & s' & E1 & _ & Hrec & E2 & Hwf1); [done..|lia|done|].
  cbn [append_loop]. rewrite Hsegs, split_last_snoc, E1, E2.
  apply (append_one_bounded _ l pre) in E2; [|done|by destruct Hswf as [Hd -> _ _ _ _ _ _ _]; unfold fsize; rewrite Hd|done].
  set (l1 := set_segments l (pre ++ [s'])) in *.
  assert (HighWatermark l1 = HighWatermark l + records b) as Hhw.
  { rewrite (proj1 (proj2 (log_wf_chain _ _ _ Hwf1))), (proj1 (proj2 (log_wf_chain _ _ _ Hwf))), recs_app.
    cbn. lia. }
  intros E. eapply bounded_step_trans; [exact E2|]. destruct (negb _ && ShouldRoll _ _).
  - destruct (rollLocked_spec (o i) _ _ _ Hwf1) as (l2 & r2 & E3 & Hwf2 & _ & _ & _ & Hr2 & _). rewrite E3 in E.
    apply (roll_bounded _ _ _ _ _ _ Hwf1) in E3. pose proof (log_wf_hwm _ _ _ _ Hwf1 Hwf2) as Hh.
    destruct Hr2 as [->|[e ->]]; [|by injection E as <- <-].
    eapply bounded_step_trans; [exact E3|]. eapply (IH _ _ _ _ _ _ Hwf2 Hacc); [lia|done|exact E].
  - eapply (IH _ _ _ _ _ _ Hwf1 Hacc); [lia|done|exact E].
Qed.

Lemma Log_Append_bounded o start bs l batches l' r :
  log_wf start bs l -> Forall acceptable batches -> HighWatermark l + recs batches < 2 ^ 63 -> (forall k, io_log (o k) = None) ->
  Log_Append o l batches = (l', r) -> bounded_step l l'.
Proof.
  intros Hwf Hacc Hroom Hio. unfold Log_Append.
  case_bool_decide; [intros [= <- <-]; apply bounded_step_refl|]. case_bool_decide; [intros [= <- <-]; apply bounded_step_refl|].
  destruct (last (segments l)) as [s|]; [|intros [= <- <-]; apply bounded_step_refl].
  destruct (first_roll_spec (o 0%nat) start bs l (ShouldRoll (io_now (o 0%nat)) s) Hwf) as (l1 & r1 & E1 & Hwf1 & _ & Hr1 & _).
  pose proof (log_wf_hwm _ _ _ _ Hwf Hwf1) as Hh. rewrite E1.
  assert (bounded_step l l1) as Hb1.
  { destruct (ShouldRoll _ s); [by eapply roll_bounded|]. injection E1 as <- <-. apply bounded_step_refl. }
  destruct Hr1 as [->|[e ->]]; [|by intros [= <- <-]].
  destruct (validate_all batches); try (by intros [= <- <-]).
  destruct (append_loop o 1 l1 batches) as [l2 r2] eqn:E2.
  pose proof (append_loop_bounded _ _ _ _ _ _ _ _ Hwf1 Hacc ltac:(lia) Hio E2) as Hb2.
  pose proof (bounded_step_trans _ _ _ Hb1 Hb2) as Hb. destruct r2; try (by intros [= <- <-]).
  case_bool_decide; [|by intros [= <- <-]]. destruct (sync_active _ l2) as [l3 r3] eqn:E3. apply sync_active_bounded in E3.
  pose proof (bounded_step_trans _ _ _ Hb E3). by destruct r3; intros [= <- <-].
Qed.

(** The produces between two ticks: requests of well-behaved clients, each stored in
    full, in part (an fsync of a roll failed) or refused. *)
Inductive produces : Log -> Log -> Prop :=
| produces_none l : produces l l
| produces_more o l l1 l2 batches r :
    Forall acceptable batches -> HighWatermark l + recs batches < 2 ^ 63 -> (forall k, io_log (o k) = None) ->
    Log_Append o l batches = (l1, r) -> produces l1 l2 -> produces l l2.

Lemma Log_Append_grows o start bs l batches l' r :
  log_wf start bs l -> Forall acceptable batches -> HighWatermark l + recs batches < 2 ^ 63 -> (forall k, io_log (o k) = None) ->
  Log_Append o l batches = (l', r) -> exists more, log_wf start (bs ++ more) l' /\ (sealed_durable l -> sealed_durable l').
Proof.
  intros Hwf Hacc Hroom Hio E.
  destruct (decide (diskGuard l = Some true)) as [Hg|Hg].
  { unfold Log_Append in E. rewrite bool_decide_true in E by done. injection E as <- <-. exists []. by rewrite app_nil_r. }
  destruct (decide (batches = [])) as [->|Hne].
  { unfold Log_Append in E. rewrite bool_decide_false, bool_decide_true in E by done. injection E as <- <-. exists []. by rewrite app_nil_r. }
  destruct (Log_Append_spec o start bs l batches Hwf Hg Hne Hacc Hroom Hio) as (l2 & r2 & u & E2 & Happ & _).
  rewrite E in E2. injection E2 as <- <-. destruct Happ as (got & lft & bs' & _ & _ & _ & _ & Hwf' & _ & _ & Hsd). eauto.
Qed.

Lemma produces_bounded l l' : produces l l' -> forall start bs, log_wf start bs l -> sealed_durable l ->
  bounded_step l l' /\ exists more, log_wf start (bs ++ more) l' /\ sealed_durable l'.
Proof.
  induction 1 as [l|o l l1 l2 batches r Hacc Hroom Hio E _ IH]; intros start bs Hwf Hsd.
  { split; [apply bounded_step_refl|]. exists []. by rewrite app_nil_r. }
  destruct (Log_Append_grows _ _ _ _ _ _ _ Hwf Hacc Hroom Hio E) as (m1 & Hwf1 & Hs1).
  destruct (IH _ _ Hwf1 (Hs1 Hsd)) as (Hb & m2 & Hwf2 & Hs2). split.
  - eapply bounded_step_trans; [|exact Hb]. by eapply Log_Append_bounded.
  - exists (m1 ++ m2). by rewrite app_assoc.
Qed.

(** Everything is on stable storage after a tick that reports success. *)
Lemma FlushAndSync_unsynced o start bs l l' : log_wf start bs l -> sealed_durable l -> FlushAndSync o l = (l', Ok tt) ->
  log_wf start bs l' /\ sealed_durable l' /\ unsynced l' = 0.
Proof.
  intros Hwf Hsd E. destruct (sync_active_spec o _ _ _ Hwf) as (l2 & r2 & E2 & Hwf2 & _ & _ & _ & Hd & Hs).
  unfold FlushAndSync in E. rewrite E in E2. injection E2 as <- <-. split_and!; [done|auto|].
  specialize (Hd eq_refl Hsd). destruct Hwf2 as (bss & pre & abs & s & Hsegs & _). rewrite (unsynced_snoc _ _ _ Hsegs).
  unfold all_durable in Hd. rewrite Hsegs in Hd. apply Forall_app in Hd as [_ Hd]. rewrite Forall_singleton in Hd. unfold durable in Hd. lia.
Qed.

(** A tick reaches every log, whatever happened to the ones before it. *)
Lemma syncer_tick_each o : forall logs ls rs i l l' r,
  syncer_tick o logs = (ls, rs) -> logs !! i = Some l -> ls !! i = Some l' -> rs !! i = Some r -> FlushAndSync (o i) l = (l', r).
Proof.
  intros logs. revert o. induction logs as [|x logs IH]; intros o ls rs i l l' r; [done|]. cbn [syncer_tick].
  destruct (FlushAndSync (o 0%nat) x) as [x' rx] eqn:Ex. destruct (syncer_tick _ logs) as [ls0 rs0] eqn:Et. intros [= <- <-].
  destruct i as [|i]; cbn; [intros [= <-] [= <-] [= <-]; exact Ex|]. apply (IH _ _ _ _ _ _ _ Et).
Qed.

(** C7: Fsync mode "interval" loses at most what was produced since the last tick.
    When a tick of the syncer over all the logs has synced one of them and any number
    of produce requests follow (in any outcome, rolls included), a machine crash that
    keeps an arbitrary prefix of the bytes not synced leaves a log that [OpenLog] opens
    again with every batch stored before the tick, at its offset, and possibly some of
    the later ones.  (The sealed segments are synced, as rolling leaves them.)  The
    provisos are that the crash keeps the names of the segment
    files, which the program never fsyncs ([entries_kept], [directory_entry_lost]), and
    that the active segment's index file does not outlive every byte of its log file
    ([index_behind], [stale_index_misleads]). *)
Theorem interval_bounds_loss o logs ls rs i start bs l0 l1 l2 d wio now c guard :
  syncer_tick o logs = (ls, rs) -> logs !! i = Some l0 -> ls !! i = Some l1 -> rs !! i = Some (Ok tt) ->
  log_wf start bs l0 -> 0 <= start -> sealed_durable l0 ->
  produces l1 l2 -> crash_dir l2 d -> entries_kept l2 d -> index_behind l2 d ->
  exists l3 more, OpenLog wio now c guard d = Ok l3 /\ log_wf start (bs ++ more) l3 /\ LogStartOffset l3 = start /\ all_durable l3.
Proof.
  intros Etick Hi Hi1 Hir Hwf H0 Hsd Hprod Hcrash Hek Hib. pose proof (syncer_tick_each _ _ _ _ _ _ _ _ Etick Hi Hi1 Hir) as Htick.
  destruct (FlushAndSync_unsynced _ _ _ _ _ Hwf Hsd Htick) as (Hwf1 & Hsd1 & Hun).
  destruct (produces_bounded _ _ Hprod _ _ Hwf1 Hsd1) as ([_ Hb] & new & Hwf2 & Hsd2).
  destruct (OpenLog_crash_spec wio now c guard start _ l2 d Hwf2 H0 Hsd2 Hcrash Hek Hib) as (l3 & kept & lost & E & Hsplit & Hwf3 & Hls & Had & _ & Hlost).
  assert (exists more, kept = bs ++ more) as [more ->]; [|by exists l3, more].
  apply app_eq_app in Hsplit as [k [[-> ->]|[-> ->]]]; [|by exists k].
  destruct k as [|b k]; [exists []; by rewrite !app_nil_r|]. exfalso.
  destruct (Hlost b (k ++ new) eq_refl) as (s & a & Hlast & Hdata & Hlt).
  rewrite (log_wf_total _ _ _ Hwf1), (log_wf_total _ _ _ Hwf2), concat_app, zlen_app, Hun in Hb.
  unfold unsynced, fsize in Hb. rewrite Hlast, Hdata in Hb. cbn [app concat] in Hb. rewrite concat_app, !zlen_app in Hb.
  pose proof (zlen_nonneg (concat k)). lia.
Qed.

(** Two segments with a batch after the tick, and the machine stopping before it is
    written back. *)
Definition ticked_log : Log := fst (FlushAndSync (good_io 9) (sample_log FsyncInterval)).
Definition late_log : Log := fst (Log_Append (fun k => good_io (Z.of_nat k)) ticked_log [b2]).
Definition torn_dir : Dir :=
  mkDir (map (fun s => segmentFilename (baseOffset s) logSuffix) (segments late_log))
    (fun base => match find (fun s => baseOffset s =? base) (segments late_log) with
                 | Some s => mkSegFiles (take (Z.to_nat (fsynced (logFile s))) (fdata (logFile s))) [] [] 0
                 | None => no_files 0
                 end).

Lemma torn_dir_kept : entries_kept late_log torn_dir.
Proof. vm_compute. apply Permutation_refl. Qed.

Lemma torn_dir_no_index base : sf_index (dir_files torn_dir base) = [].
Proof. unfold torn_dir. cbn [dir_files]. by destruct (find _ _). Qed.

Lemma torn_dir_crash : crash_dir late_log torn_dir.
Proof.
  assert (forallb (fun s => bool_decide (sf_log (dir_files torn_dir (baseOffset s)) = take (Z.to_nat (fsynced (logFile s))) (fdata (logFile s))))
    (segments late_log) = true) as Hall by (vm_compute; reflexivity).
  split; [exact (Permutation_submseteq _ _ torn_dir_kept)| |].
  - intros s Hs%list_elem_of_In _. pose proof (proj1 (forallb_forall _ _) Hall s Hs) as H. clear Hall Hs. cbv beta in H.
    pose proof (bool_decide_eq_true_1 _ H) as H'. exists (fsynced (logFile s)). split; [apply Z.le_refl|exact H'].
  - intros s _ _. right. apply torn_dir_no_index.
Qed.

Lemma late_produced : produces ticked_log late_log.
Proof.
  apply (produces_more (fun k => good_io (Z.of_nat k)) _ late_log _ [b2] (Ok 6)).
  - apply Forall_singleton, b2_acceptable.
  - vm_compute. reflexivity.
  - reflexivity.
  - vm_compute. reflexivity.
  - apply produces_none.
Qed.

Lemma interval_sealed_durable : sealed_durable (sample_log FsyncInterval).
Proof.
  apply List.Forall_forall. intros s Hs.
  assert (forallb (fun s => fsynced (logFile s) =? fsize (logFile s)) (SealedSegments (sample_log FsyncInterval)) = true)
    as Hall by (vm_compute; reflexivity).
  pose proof (proj1 (forallb_forall _ _) Hall s Hs) as H. apply Z.eqb_eq in H. exact H.
Qed.

Lemma interval_bounds_loss_witness :
  unsynced late_log = zlen b2 /\
  exists l3 more, OpenLog (fun _ => (None, None)) 0 (sample_cfg FsyncInterval) None torn_dir = Ok l3 /\
    log_wf 0 (sample_batches ++ more) l3 /\ LogStartOffset l3 = 0 /\ all_durable l3.
Proof.
  split; [vm_compute; reflexivity|].
  apply (interval_bounds_loss (fun _ => good_io 9) [fresh_log FsyncInterval; sample_log FsyncInterval]
    [fst (FlushAndSync (good_io 9) (fresh_log FsyncInterval)); ticked_log] [Ok tt; Ok tt] 1 0 sample_batches
    (sample_log FsyncInterval) ticked_log late_log).
  - vm_compute. reflexivity.
  - reflexivity.
  - reflexivity.
  - reflexivity.
  - apply sample_log_wf.
  - intros H; discriminate H.
  - exact interval_sealed_durable.
  - exact late_produced.
  - exact torn_dir_crash.
  - exact torn_dir_kept.
  - intros s _ _. apply torn_dir_no_index.
Defined.

(** ** The guard *)

(** Below the threshold every log that consults the guard refuses to append and
    stays as it is; a file system that cannot be asked changes nothing. *)
Lemma low_disk_refuses g st g' note o l batches : checkOnce g st = (g', note) -> dg_paused g' = true ->
  Log_Append o (with_guard (Some g') l) batches = (with_guard (Some g') l, Err (ESentinel ErrDiskFull)) /\
  forall frac, note = Some (true, frac) -> f64_lt frac (dg_threshold g) = true.
Proof.
  intros E Hp. split.
  - unfold Log_Append. rewrite bool_decide_true by (cbn; by rewrite Hp). done.
  - intros frac ->. unfold checkOnce in E. destruct (diskStats st) as [[free tot]|]; [|done]. destruct (tot =? 0); [done|].
    by injection E as <- Hlt <-.
Qed.

Example guard_pauses_and_resumes :
  let g := NewDiskGuard (f64_of_Z 0) in
  map (fun sts => dg_paused (guard_Run g sts)) [[]; [Some (5, 100, 4096)]; [Some (5, 100, 4096); None]; [Some (5, 100, 4096); Some (10, 100, 4096)]]
  = [false; true; true; false].
Proof. vm_compute. reflexivity. Qed.
