(* ===== verification/Flags.v ===== *)
(** * The command line: flags anywhere (cmd/kafka-wire/flagorder.go, and the part of
      the standard library's flag package it works around)

    [Parse] is Go's parser, which stops at the first word that is not a flag;
    [permute] moves the flags to the front before it runs.  [parse_anywhere] says
    what the two together are meant to do. *)

From Stdlib Require Import Ascii.
From S2P Require Import Prelude GoText.

#[local] Open Scope Z_scope.


(** ** A flag set *)

Inductive fval := FvString (s : string) | FvBool (b : bool) | FvInt (z : Z).

(** A defined flag: its name, [IsBoolFlag], and [Value.Set]. *)
Record flagdef := mkFlag { fl_name : string; fl_bool : bool; fl_set : string -> option fval }.
Definition FlagSet := list flagdef.

Definition Lookup (fs : FlagSet) (name : string) : option flagdef := List.find (fun f => String.eqb (fl_name f) name) fs.

Definition flag_String (name : string) : flagdef := mkFlag name false (fun s => Some (FvString s)).
Definition flag_Bool (name : string) : flagdef :=
  mkFlag name true (fun s =>
    if bool_decide (s ∈ ["1"; "t"; "T"; "TRUE"; "true"; "True"]) then Some (FvBool true)
    else if bool_decide (s ∈ ["0"; "f"; "F"; "FALSE"; "false"; "False"]) then Some (FvBool false)
    else None).

(** ** The parser of the flag package *)

Inductive flag_error :=
| BadSyntax (arg : string) | ErrHelp | NotDefined (name : string) | InvalidValue (value name : string) | NeedsArg (name : string).
Inductive parsed := Parsed (vals : gmap string fval) (args : list string) | ParseFailed (e : flag_error).

(** [len(s) >= 2 && s[0] == '-']: a flag, or the terminator. *)
Definition flag_like (s : string) : bool :=
  match s with String c (String _ _) => Ascii.eqb c "-" | _ => false end.

(** The name and the inline value, cut at the first equals sign. *)
Fixpoint cut_eq (s : string) : string * option string :=
  match s with
  | "" => ("", None)
  | String c s =>
      if Ascii.eqb c "=" then ("", Some s)
      else let (n, v) := cut_eq s in (String c n, v)
  end.

(** One dash off, or two. *)
Definition strip_dashes (s : string) : string :=
  match s with
  | String _ (String c s') => if Ascii.eqb c "-" then s' else String c s'
  | _ => ""
  end.

Definition bad_name (name : string) : bool :=
  match name with String c _ => Ascii.eqb c "-" || Ascii.eqb c "=" | "" => true end.

(** What [parseOne] makes of one argument: an error, a flag that is complete, or one
    that takes the next argument. *)
Inductive flag_head := HeadErr (e : flag_error) | HeadSet (name : string) (v : fval) | HeadNeeds (f : flagdef) (name : string).

Definition set_flag (f : flagdef) (name value : string) : flag_head :=
  match fl_set f value with Some v => HeadSet name v | None => HeadErr (InvalidValue value name) end.

Definition parse_head (fs : FlagSet) (s : string) : flag_head :=
  if bad_name (strip_dashes s) then HeadErr (BadSyntax s)
  else
    let (name, value) := cut_eq (strip_dashes s) in
    match Lookup fs name with
    | None => if String.eqb name "help" || String.eqb name "h" then HeadErr ErrHelp else HeadErr (NotDefined name)
    | Some f =>
        match value with
        | Some v => set_flag f name v
        | None => if fl_bool f then set_flag f name "true" else HeadNeeds f name
        end
    end.

Fixpoint Parse (fs : FlagSet) (vals : gmap string fval) (args : list string) : parsed :=
  match args with
  | [] => Parsed vals []
  | s :: rest =>
      if negb (flag_like s) then Parsed vals args
      else if String.eqb s "--" then Parsed vals rest
      else match parse_head fs s with
      | HeadErr e => ParseFailed e
      | HeadSet name v => Parse fs (<[name := v]> vals) rest
      | HeadNeeds f name =>
          match rest with
          | [] => ParseFailed (NeedsArg name)
          | value :: rest =>
              match fl_set f value with
              | Some v => Parse fs (<[name := v]> vals) rest
              | None => ParseFailed (InvalidValue value name)
              end
          end
      end
  end.

(** ** permute *)

Fixpoint strip_all_dashes (s : string) : string :=
  match s with String c s' => if Ascii.eqb c "-" then strip_all_dashes s' else s | "" => "" end.

Definition takesValue (fs : FlagSet) (arg : string) : bool :=
  match Lookup fs (strip_all_dashes arg) with
  | None => false
  | Some f => negb (fl_bool f)
  end.

(** An equals sign behind the first character. *)
Definition hasInlineValue (a : string) : bool :=
  match a with String _ s => bool_decide (is_Some (cut_eq s).2) | "" => false end.

Fixpoint permute_loop (fs : FlagSet) (args : list string) : list string * list string :=
  match args with
  | [] => ([], [])
  | a :: rest =>
      if String.eqb a "--" then ([], rest)
      else if negb (flag_like a) then let (flags, positional) := permute_loop fs rest in (flags, a :: positional)
      else if hasInlineValue a then let (flags, positional) := permute_loop fs rest in (a :: flags, positional)
      else match rest with
      | value :: rest' =>
          if takesValue fs a then let (flags, positional) := permute_loop fs rest' in (a :: value :: flags, positional)
          else let (flags, positional) := permute_loop fs rest in (a :: flags, positional)
      | [] => ([a], [])
      end
  end.

Definition permute (fs : FlagSet) (args : list string) : list string :=
  let (flags, positional) := permute_loop fs args in (flags ++ positional)%list.

(** ** What is meant

    The arguments from left to right: flags are set wherever they stand, the other
    words are collected, and behind the terminator everything is a word. *)
Fixpoint parse_anywhere (fs : FlagSet) (vals : gmap string fval) (words : list string) (args : list string) : parsed :=
  match args with
  | [] => Parsed vals words
  | s :: rest =>
      if negb (flag_like s) then parse_anywhere fs vals (words ++ [s])%list rest
      else if String.eqb s "--" then Parsed vals (words ++ rest)%list
      else match parse_head fs s with
      | HeadErr e => ParseFailed e
      | HeadSet name v => parse_anywhere fs (<[name := v]> vals) words rest
      | HeadNeeds f name =>
          match rest with
          | [] => ParseFailed (NeedsArg name)
          | value :: rest =>
              match fl_set f value with
              | Some v => parse_anywhere fs (<[name := v]> vals) words rest
              | None => ParseFailed (InvalidValue value name)
              end
          end
      end
  end.

Definition plain_head (words : list string) : bool := match words with w :: _ => negb (flag_like w) | [] => true end.

(** The code's own test for a value agrees with the parser's, where the argument is a
    flag the parser accepts. *)
Lemma flag_like_inv s : flag_like s = true -> exists c s', s = String "-" (String c s').
Proof.
  destruct s as [|d [|c s]]; cbn; [done|done|]. intros E. apply Ascii.eqb_eq in E as ->. eauto.
Qed.

Lemma strip_all_eq s : flag_like s = true -> bad_name (strip_dashes s) = false -> strip_all_dashes s = strip_dashes s.
Proof.
  intros (c & s' & ->)%flag_like_inv. cbn. destruct (Ascii.eqb c "-") eqn:Ec; [|by intros _].
  destruct s' as [|d s']; cbn; [done|]. intros [Ed _]%orb_false_iff. by rewrite Ed.
Qed.

Lemma inline_eq s : flag_like s = true -> bad_name (strip_dashes s) = false ->
  hasInlineValue s = bool_decide (is_Some (cut_eq (strip_dashes s)).2).
Proof.
  intros (c & s' & ->)%flag_like_inv. cbn [hasInlineValue strip_dashes]. destruct (Ascii.eqb c "-") eqn:Ec; [|done].
  apply Ascii.eqb_eq in Ec as ->. intros _. cbn [cut_eq]. destruct (Ascii.eqb "-" "=") eqn:E; [done|]. by destruct (cut_eq s').
Qed.

Lemma cut_eq_none s : (cut_eq s).2 = None -> (cut_eq s).1 = s.
Proof.
  induction s as [|c s IH]; cbn; [done|]. destruct (Ascii.eqb c "="); [done|]. destruct (cut_eq s) as [n v]. cbn in *. intros H. by rewrite IH.
Qed.

(** What [permute] does with a flag and what the parser does with it. *)
Lemma parse_head_value fs s : flag_like s = true ->
  match parse_head fs s with
  | HeadErr _ => True
  | HeadSet _ _ => hasInlineValue s = true \/ hasInlineValue s = false /\ takesValue fs s = false
  | HeadNeeds _ _ => hasInlineValue s = false /\ takesValue fs s = true
  end.
Proof.
  intros Hf. unfold parse_head. destruct (bad_name (strip_dashes s)) eqn:Eb; [done|].
  rewrite (inline_eq s Hf Eb). unfold takesValue. rewrite (strip_all_eq s Hf Eb). pose proof (cut_eq_none (strip_dashes s)) as Hc.
  destruct (cut_eq (strip_dashes s)) as [name value]. cbn [fst snd] in *.
  destruct value as [v|].
  - rewrite bool_decide_true by done. destruct (Lookup fs name); [|by destruct (_ || _)]. unfold set_flag. destruct (fl_set f v); auto.
  - rewrite bool_decide_false by (by intros [? ?]). rewrite <- Hc by done. destruct (Lookup fs name) as [f|]; [|by destruct (_ || _)].
    destruct (fl_bool f); cbn; [|done]. unfold set_flag. destruct (fl_set f "true"); auto.
Qed.

(** Parsing what [permute] makes of the rest of the arguments, with any words
    behind its flags. *)
Definition agrees (fs : FlagSet) (vals : gmap string fval) (words : list string) (fp : list string * list string) (r : parsed) : Prop :=
  match r with
  | ParseFailed e => (forall n, e <> NeedsArg n) -> forall ws, Parse fs vals (fp.1 ++ ws)%list = ParseFailed e
  | Parsed vals' words' => words' = (words ++ fp.2)%list /\
      forall ws, plain_head ws = true -> Parse fs vals (fp.1 ++ ws)%list = Parsed vals' ws
  end.

Lemma plain_parse fs vals words : plain_head words = true -> Parse fs vals words = Parsed vals words.
Proof. destruct words as [|w words]; cbn; [done|]. by intros ->. Qed.

(** One flag in front, with its value if it has one, moves both sides alike. *)
Lemma agrees_flag fs vals words name v args fp r :
  (forall rest, Parse fs vals (args ++ rest)%list = Parse fs (<[name := v]> vals) rest) ->
  agrees fs (<[name := v]> vals) words fp r -> agrees fs vals words ((args ++ fp.1)%list, fp.2) r.
Proof.
  intros Hstep. unfold agrees. cbn [fst snd]. destruct r as [vals' words'|e].
  - intros [-> H]. split; [done|]. intros ws Hws. rewrite <- app_assoc, Hstep. auto.
  - intros H He ws. rewrite <- app_assoc, Hstep. auto.
Qed.

(** An argument that ends the parsing does so wherever it stands. *)
Lemma agrees_fails fs vals words args fp e :
  (forall rest, Parse fs vals (args ++ rest)%list = ParseFailed e) -> agrees fs vals words ((args ++ fp.1)%list, fp.2) (ParseFailed e).
Proof. intros H _ ws. cbn [fst]. by rewrite <- app_assoc, H. Qed.

Lemma permute_agrees fs : forall n args vals words, (length args <= n)%nat ->
  agrees fs vals words (permute_loop fs args) (parse_anywhere fs vals words args).
Proof.
  induction n as [|n IH]; intros args vals words Hn;
    (destruct args as [|s rest]; [split; [by rewrite app_nil_r|exact (plain_parse fs vals)]|]); [cbn in Hn; lia|].
  cbn [length] in Hn. cbn [permute_loop parse_anywhere].
  destruct (String.eqb s "--") eqn:Edd.
  { apply String.eqb_eq in Edd as ->. split; [done|]. exact (plain_parse fs vals). }
  destruct (flag_like s) eqn:Ef; cbn [negb].
  2: { pose proof (IH rest vals (words ++ [s])%list ltac:(lia)) as H. destruct (permute_loop fs rest) as [fl po].
       destruct (parse_anywhere _ _ _ rest); cbn in *; [|done]. by rewrite <- app_assoc in H. }
  pose proof (parse_head_value fs s Ef) as Hv.
  assert (forall rest, Parse fs vals (s :: rest) = match parse_head fs s with
      | HeadErr e => ParseFailed e
      | HeadSet name v => Parse fs (<[name := v]> vals) rest
      | HeadNeeds f name =>
          match rest with
          | [] => ParseFailed (NeedsArg name)
          | value :: rest => match fl_set f value with Some v => Parse fs (<[name := v]> vals) rest | None => ParseFailed (InvalidValue value name) end
          end
      end) as Hstep by (intros rest'; cbn [Parse]; by rewrite Ef, Edd).
  destruct (parse_head fs s) as [e|name v|f name].
  - (* the argument is refused; how permute takes it apart does not matter *)
    destruct (hasInlineValue s); [destruct (permute_loop fs rest) as [fl po]; exact (agrees_fails fs vals words [s] (fl, po) e Hstep)|].
    destruct rest as [|value rest]; [exact (agrees_fails fs vals words [s] ([], []) e Hstep)|].
    destruct (takesValue fs s).
    + destruct (permute_loop fs rest) as [fl po]. exact (agrees_fails fs vals words [s; value] (fl, po) e (fun r => Hstep (value :: r))).
    + destruct (permute_loop fs (value :: rest)) as [fl po]. exact (agrees_fails fs vals words [s] (fl, po) e Hstep).
  - pose proof (IH rest (<[name := v]> vals) words ltac:(lia)) as H. apply (agrees_flag fs vals words name v [s]) in H; [|exact Hstep].
    destruct Hv as [->|[-> ->]]; [by destruct (permute_loop fs rest)|]. destruct rest as [|value rest]; [exact H|]. by destruct (permute_loop fs (value :: rest)).
  - destruct Hv as [-> ->]. destruct rest as [|value rest]; [intros Hn'; by destruct (Hn' name)|].
    destruct (fl_set f value) as [v|] eqn:Es.
    + pose proof (IH rest (<[name := v]> vals) words ltac:(cbn in Hn; lia)) as H. apply (agrees_flag fs vals words name v [s; value]) in H.
      * by destruct (permute_loop fs rest).
      * intros rest'. cbn [app]. by rewrite Hstep, Es.
    + destruct (permute_loop fs rest) as [fl po]. apply (agrees_fails fs vals words [s; value] (fl, po)).
      intros rest'. cbn [app]. by rewrite Hstep, Es.
Qed.

(** C37: Flags may stand anywhere.  Whatever flags a command defines and whatever the
    arguments are, parsing them after [permute] gives what reading them from left to
    right gives, where flags count wherever they stand: the same values, the same
    remaining words in the same order, or the same error; except when the last flag
    lacks its value, and when the first remaining word looks like a flag, which only
    words behind the terminator can. *)
Theorem permute_parse fs args r : parse_anywhere fs ∅ [] args = r ->
  (forall n, r <> ParseFailed (NeedsArg n)) -> (forall vals words, r = Parsed vals words -> plain_head words = true) ->
  Parse fs ∅ (permute fs args) = r.
Proof.
  intros <- Hn Hp. pose proof (permute_agrees fs (length args) args ∅ [] (le_n _)) as H. unfold permute.
  destruct (permute_loop fs args) as [fl po]. destruct (parse_anywhere fs ∅ [] args) as [vals words|e]; cbn in *.
  - destruct H as [-> H]. apply H. by eapply Hp.
  - apply H. intros n ->. by destruct (Hn n).
Qed.

Definition demo_flags : FlagSet := [flag_String "brokers"; flag_Bool "from-beginning"; flag_String "group"].

Lemma permute_parse_witness : Parse demo_flags ∅ (permute demo_flags ["demo"; "--brokers"; "host:9092"; "x"; "-from-beginning"; "--group=g"; "--"; "-y"])
  = Parsed (<["group" := FvString "g"]> (<["from-beginning" := FvBool true]> (<["brokers" := FvString "host:9092"]> ∅))) ["demo"; "x"; "-y"].
Proof. apply permute_parse; [reflexivity|discriminate|]. intros vals words [= <- <-]. reflexivity. Defined.

(** The two exceptions.  The terminator is dropped, so the word it protects is read as
    a flag when no other word comes first; and a last flag without its value takes the
    first word instead of being reported. *)
Example terminator_lost :
  parse_anywhere demo_flags ∅ [] ["--"; "-group"; "g"] = Parsed ∅ ["-group"; "g"] /\
  Parse demo_flags ∅ (permute demo_flags ["--"; "-group"; "g"]) = Parsed {["group" := FvString "g"]} [].
Proof. split; reflexivity. Qed.

Example missing_value_takes_word :
  parse_anywhere demo_flags ∅ [] ["demo"; "--brokers"] = ParseFailed (NeedsArg "brokers") /\
  Parse demo_flags ∅ (permute demo_flags ["demo"; "--brokers"]) = Parsed {["brokers" := FvString "demo"]} [].
Proof. split; reflexivity. Qed.
