(* ===== verification/Serve.v ===== *)
(** * The broker process (cmd/kafka-wire/serve.go, main.go)

    How the configuration becomes a running broker: which components are started,
    with which settings, and what keeps the process from starting.  The operating
    system's answers (the lock, the files of the data directory, the listener) are the
    fields of [serve_env]. *)

From S2P Require Import Prelude Bytes OsFile RecordBatch Index TimeIndex Segment Log Retention Names Offsets Group Acl Manifest Cache Broker.
From S2P Require Import Produce FetchApi TopicApi GroupApi Text Sasl Dispatch ObjStore Uploader GoText S3 Flags Config ConfigLoad Admin Host.

#[local] Open Scope Z_scope.

(** ** Flags and configuration *)

(** [bootstrapFlags]: the setting and its flag. *)
Definition bootstrapFlags : list (string * string) :=
  [("storage.datadir", "data-dir"); ("listeners.kafka", "kafka-listen"); ("listeners.admin", "admin-listen"); ("log.level", "log-level")].

Definition command_flags (extra : FlagSet) : FlagSet := extra ++ flag_String "config" :: map (fun p => flag_String p.2) bootstrapFlags.

Definition flag_text (vals : gmap string fval) (name : string) : string :=
  match vals !! name with Some (FvString s) => s | _ => "" end.

Definition overrides_of (vals : gmap string fval) : gmap string string :=
  foldr (fun p m => let v := flag_text vals p.2 in if String.eqb v "" then m else <[p.1 := v]> m) ∅ bootstrapFlags.

Inductive command := CmdFlags (e : flag_error) | CmdLoaded (vals : gmap string fval) (r : load_result).

Definition loadForCommand `{Platform} (w : sysenv) (extra : FlagSet) (args : list string) : command :=
  let fs := command_flags extra in
  match Parse fs ∅ (permute fs args) with
  | ParseFailed e => CmdFlags e
  | Parsed vals _ => CmdLoaded vals (Load w (mkOptions (flag_text vals "config") (overrides_of vals)))
  end.

(** ** The advertised address *)

Fixpoint contains_char (c : ascii) (s : string) : bool :=
  match s with "" => false | String d s => Ascii.eqb c d || contains_char c s end.

(** Text up to and behind the last colon, up to and behind the first bracket. *)
Fixpoint cut_last (c : ascii) (s : string) : option (string * string) :=
  match s with
  | "" => None
  | String d s =>
      match cut_last c s with
      | Some (a, b) => Some (String d a, b)
      | None => if Ascii.eqb c d then Some ("", s) else None
      end
  end.
Fixpoint cut_first (c : ascii) (s : string) : option (string * string) :=
  match s with
  | "" => None
  | String d s => if Ascii.eqb c d then Some ("", s) else match cut_first c s with Some (a, b) => Some (String d a, b) | None => None end
  end.

(** [net.SplitHostPort]; which of its errors it is does not matter here. *)
Definition SplitHostPort (s : string) : option (string * string) :=
  match cut_last ":" s with
  | None => None
  | Some (before, port) =>
      match s with
      | String "[" rest =>
          match cut_first "]" rest with
          | Some (host, String ":" port') =>
              (* the bracket stands right before the last colon, and no other follows *)
              if contains_char ":" port' || contains_char "[" rest || contains_char "]" port' then None
              else Some (host, port)
          | _ => None
          end
      | _ =>
          if contains_char ":" before || contains_char "[" s || contains_char "]" s then None
          else Some (before, port)
      end
  end.

Definition splitHostPort (addr : string) : string * Z :=
  match SplitHostPort addr with
  | None => ("", 9092)
  | Some (h, p) => match ParseInt p with None => (h, 9092) | Some n => (h, i32 n) end
  end.

Definition advertised (c : value) : string * Z :=
  let host := as_str c "listeners.advertisedhost" in
  let port := i32 (as_int c "listeners.advertisedport") in
  let (bindHost, bindPort) := splitHostPort (as_str c "listeners.kafka") in
  let host :=
    if String.eqb host "" then
      if bool_decide (bindHost ∈ ["0.0.0.0"; ""; "::"]) then "localhost" else bindHost
    else host in
  (host, if port =? 0 then bindPort else port).

(** ** Cold storage and listener *)

Record serve_env := mkServeEnv {
  sn_sys : sysenv;
  sn_open : option error;                      (* of making the directories and taking the lock *)
  sn_statfs : list (option (Z * Z * Z));       (* what the disk guard has seen *)
  sn_wio : Z -> option Z * option Z;
  sn_now : Z;
  sn_data : Broker.DataDir;
  sn_fs : fs_net;
  sn_s3 : s3_net;
  sn_manifest : bool * bool * archive_file * pending_file;
  sn_cache : res (gmap (list string) cached);
  sn_keypair : string -> string -> option error;
  sn_certificates : list byte -> bool;         (* AppendCertsFromPEM *)
  sn_listen : option error;
  sn_users : res (option (gmap string string))
}.

Inductive backend := BackendFS (root : string) | BackendS3 (d : S3).

Definition s3_settings (c : value) : S3Config :=
  mkS3Config (as_str c "archive.s3.bucket") (as_str c "archive.s3.endpoint") (as_str c "archive.s3.region") (as_str c "archive.s3.addressing")
    (as_str c "archive.s3.accesskey") (as_str c "archive.s3.secretkey") (as_str c "archive.s3.sessiontoken") (as_bool c "archive.s3.insecure")
    (as_str c "archive.s3.cafile") (as_bool c "archive.s3.skipverify") (as_str c "archive.s3.storageclass").

Definition openArchive (e : serve_env) (c : value) : res (option backend) :=
  let b := as_str c "archive.backend" in
  if String.eqb b "none" || String.eqb b "" then Ok None
  else if String.eqb b "fs" then
    root ← wrap_err "archive.backend is fs" (NewFS (sn_fs e) (as_str c "archive.fs.path"));
    Ok (Some (BackendFS root))
  else if String.eqb b "s3" then
    d ← NewS3 (sn_s3 e) (s3_settings c);
    Ok (Some (BackendS3 d))
  else Err (EMsg "archive.backend: valid values are none, fs, s3").

(** The TLS settings of the listener, [None] for plain TCP. *)
Record tls_config := mkTls { tls_MinVersion : string; tls_RequireAndVerifyClientCert : bool }.

Fixpoint contains (sub s : string) : bool :=
  String.prefix sub s || match s with "" => false | String _ s => contains sub s end.

Definition listenError (setting addr : string) (er : error) : error :=
  let msg := error_text er in
  if contains "address already in use" msg || contains "Only one usage of each socket address" msg
  then EMsg (setting +:+ ": " +:+ addr +:+ " is already in use.")
  else if contains "permission denied" msg then EMsg (setting +:+ ": not allowed to bind " +:+ addr)
  else EWrap (setting +:+ ": cannot listen on " +:+ addr) er.

Definition kafkaListener (e : serve_env) (c : value) : res (option tls_config) :=
  let listen (t : option tls_config) :=
    match sn_listen e with
    | Some er => Err (listenError "listeners.kafka" (as_str c "listeners.kafka") er)
    | None => Ok t
    end in
  if String.eqb (as_str c "tls.certfile") "" then listen None
  else match sn_keypair e (as_str c "tls.certfile") (as_str c "tls.keyfile") with
  | Some er => Err (EWrap "loading the TLS keypair (tls.certfile, tls.keyfile)" er)
  | None =>
      let minVersion := if String.eqb (as_str c "tls.minversion") "1.3" then "1.3" else "1.2" in
      let ca := as_str c "tls.clientca" in
      if String.eqb ca "" then listen (Some (mkTls minVersion false))
      else match w_read (sn_sys e) ca with
      | None => Err (EMsg "reading tls.clientca")
      | Some pem =>
          if negb (sn_certificates e pem) then Err (EMsg "tls.clientca contains no usable certificate")
          else listen (Some (mkTls minVersion true))
      end
  end.

(** ** The broker process *)

Definition Milliseconds (d : Z) : Z := Z.quot d 1000000.

(** What runs once the banner is printed. *)
Record server := mkServer {
  sr_memory : option Z;                        (* the heap limit *)
  sr_guard : option DiskGuard;
  sr_broker : Broker;
  sr_syncer : option Z;                        (* the ticks of the background fsync *)
  sr_retention : string -> Z -> Manifest -> RetentionConfig;   (* per partition, with the manifest of the moment *)
  sr_uploader : option (backend * UploaderConfig);
  sr_tls : option tls_config;
  sr_wire : wireConfig;
  sr_scram : option scramServer;
  sr_admin : option (string * admin_config)
}.

Section serve.
Context `{Platform}.
Context (hmac : list byte -> list byte -> list byte) (sha : list byte -> list byte) (pbkdf2 : list byte -> list byte -> Z -> Z -> list byte).

Definition storage_settings (c : value) : Log.Config :=
  mkConfig (as_str c "storage.datadir") (as_int c "storage.segmentbytes") (Milliseconds (as_int c "storage.segmentage"))
    (as_int c "storage.indexinterval") (as_str c "storage.fsyncmode") (as_int c "storage.fsyncinterval").

Definition broker_settings (c : value) : BrokerConfig :=
  let (advHost, advPort) := advertised c in
  mkBrokerConfig (as_int c "cluster.brokerid") (as_str c "cluster.id") advHost advPort (as_int c "limits.maxrequestbytes") false 0 0.

Definition uploader_settings (c : value) : UploaderConfig :=
  mkUploaderConfig (as_str c "archive.prefix") (as_int c "archive.age") (as_int c "archive.s3.partsize") (30 * 1000000000)
    (as_int c "archive.concurrency") [] None.

Definition wire_settings (c : value) : wireConfig :=
  mkWireConfig (as_int c "limits.maxrequestbytes") (as_bool c "auth.saslenabled") (as_int c "limits.maxconnections").

(** The setup of cold storage: the broker gets the restorer, retention the check of
    the manifest. *)
Definition attach_archive (e : serve_env) (c : value) (b : Broker) (bk : option backend) : res (Broker * option (backend * UploaderConfig)) :=
  match bk with
  | None => Ok (b, None)
  | Some bk =>
      let '(ok1, ok2, a, p) := sn_manifest e in
      manifest ← wrap_err "opening the archive manifest" (OpenManifest ok1 ok2 a p);
      files ← wrap_err "opening the restore cache" (sn_cache e);
      let cache := NewCache (filepath_Join [as_str c "storage.datadir"] ["cache"]) (as_int c "archive.cachebytes") files in
      Ok (set_archive b (Some (mkArchive manifest cache)), Some (bk, NewUploader (uploader_settings c)))
  end.

Definition retention_settings (c : value) (bk : option backend) (topic : string) (partition : Z) (m : Manifest) : RetentionConfig :=
  mkRetention (Milliseconds (as_int c "storage.retentionage")) (as_int c "storage.retentionsize") (60 * 1000000000)
    (match bk with
     | Some _ => Some (fun seg => Holds m topic partition (baseOffset seg) (nextOffset seg) (logSize seg))
     | None => None
     end).

(** [cmdServe] from the loaded configuration to the banner. *)
Definition start_server (e : serve_env) (c : value) : res server :=
  let memory := if as_int c "limits.memorybytes" >? 0
    then Some (int64_of_float (f64_mul (f64_of_Z (as_int c "limits.memorybytes")) (default S754_nan (ParseFloat "0.80")))) else None in
  store ← Open_config (storage_settings c);
  match sn_open e with
  | Some er => Err (EWrap "opening the data directory" er)
  | None =>
      let guard := if f64_lt (f64_of_Z 0) (as_float c "storage.diskfreemin")
        then Some (guard_Run (NewDiskGuard (as_float c "storage.diskfreemin")) (sn_statfs e)) else None in
      brk ← wrap_err "recovering broker state" (LoadState (sn_wio e) (sn_now e) (broker_settings c) store (option_map dg_paused guard) (sn_data e));
      let syncer := if String.eqb (as_str c "storage.fsyncmode") FsyncInterval then Some (syncer_interval (as_int c "storage.fsyncinterval")) else None in
      bk ← openArchive e c;
      r ← attach_archive e c brk bk;
      tls ← kafkaListener e c;
      Ok (mkServer memory guard r.1 syncer (retention_settings c bk) r.2 tls (NewDispatcher_config (wire_settings c))
            (NewDispatcher_scram hmac sha pbkdf2 (as_bool c "auth.saslenabled") (as_str c "auth.usersfile") (sn_users e))
            (if as_bool c "admin.enabled" then Some (as_str c "listeners.admin", mkAdmin (as_str c "admin.token") (sn_now e)) else None))
  end.

Inductive serve_result := ServeFlags (e : flag_error) | ServeConfig (e : load_error) | ServeErr (e : error) | ServePanic | Serving (l : Loaded) (s : server).

Definition cmdServe (e : serve_env) (args : list string) : serve_result :=
  match loadForCommand (sn_sys e) [] args with
  | CmdFlags er => ServeFlags er
  | CmdLoaded _ (LoadErr er) => ServeConfig er
  | CmdLoaded _ LoadPanic => ServePanic
  | CmdLoaded _ (LoadOk l) =>
      match start_server e (ld_Config l) with
      | Ok s => Serving l s
      | Err er => ServeErr er
      | _ => ServePanic
      end
  end.

(** The rest of [cmdServe]: the topics are flushed and closed. *)
Definition shutdown (o : string -> Z -> io) (s : server) : Broker * res unit := Drain o (sr_broker s).
End serve.

(** The admin listener: the metrics page beside the handlers of the admin API. *)
Definition serve_http `{AdminJson} (metrics : http_response) (cfg : admin_config) (e : adminenv) (b : Broker) (r : http_request) : Broker * res http_response :=
  if String.eqb (hr_Path r) "/metrics" then (b, Ok metrics) else admin_serve cfg e b r.

(** ** Commands (main.go) *)

Inductive dispatch_to := ToServe (args : list string) | ToCommand (name : string) (args : list string) | ToUsage | ToVersion | ToUnknown (cmd : string).

Definition run (cmd : string) (args : list string) : dispatch_to :=
  if bool_decide (cmd ∈ ["serve"; "start"]) then ToServe args
  else if bool_decide (cmd ∈ ["produce"; "consume"; "config"; "doctor"]) then ToCommand cmd args
  else if bool_decide (cmd ∈ ["topic"; "topics"]) then ToCommand "topic" args
  else if String.eqb cmd "version" then ToVersion
  else if String.eqb cmd "help" then ToUsage
  else ToUnknown cmd.

Definition main (args : list string) : dispatch_to :=
  match args with
  | [] => run "serve" []
  | a :: rest =>
      if String.prefix "-" a then
        if bool_decide (a ∈ ["-h"; "--help"; "-help"]) then ToUsage
        else if bool_decide (a ∈ ["-v"; "--version"]) then ToVersion
        else run "serve" args
      else run a rest
  end.
