(* ===== verification/ServeProps.v ===== *)
(** * The broker process: what a start guarantees *)

From S2P Require Import Prelude Bytes OsFile RecordBatch Index TimeIndex Segment Log Retention Names Offsets Group Acl Manifest Cache Broker.
From S2P Require Import Produce FetchApi ProduceProps TopicApi TopicProps GroupApi Text Sasl SaslProps Dispatch DispatchProps BrokerProps BrokerFacts Samples ObjStore Uploader GoText Flags Config ConfigLoad ConfigFacts ConfigProps Admin AdminProps Host S3 Serve.

#[local] Open Scope Z_scope.

(** ** What was validated *)

Lemma only_if_nil b c : only_if b c = [] <-> b = false.
Proof. by destruct b. Qed.

Lemma Load_validated `{Platform} w o l : Load w o = LoadOk l -> Validate (ld_Config l) = [].
Proof.
  unfold Load. destruct (file_layer w o) as [|[flat used]]; [done|]. destruct (all_layers w o flat used) as [s| | |]; try done.
  destruct (negb _); [done|]. destruct (Validate (lg_cfg s)) eqn:E; [|done]. by intros [= <-].
Qed.

(** The parts of a valid configuration the start relies on. *)
Record validated (c : value) : Prop := {
  vd_kafka : isPublicBind (as_str c "listeners.kafka") = true -> as_bool c "auth.allowanon" = false -> as_bool c "auth.saslenabled" = true;
  vd_admin : isPublicBind (as_str c "listeners.admin") = true -> as_bool c "admin.enabled" = true -> as_bool c "auth.allowanon" = false ->
    as_str c "admin.token" <> "";
  vd_users : as_bool c "auth.saslenabled" = true -> as_str c "auth.usersfile" <> "";
  vd_tls : as_str c "tls.certfile" = "" -> as_str c "tls.keyfile" = "" /\ as_str c "tls.clientca" = "";
  vd_fsync : as_str c "storage.fsyncmode" ∈ ["none"; "interval"; "always"]
}.

Lemma Validate_validated c : Validate c = [] -> validated c.
Proof.
  unfold Validate. intros Hv.
  do 3 apply app_nil in Hv as [_ Hv]. apply app_nil in Hv as [Hfs Hv]. do 5 apply app_nil in Hv as [_ Hv].
  apply app_nil in Hv as [Hpair Hv]. apply app_nil in Hv as [Hca Hv]. apply app_nil in Hv as [Husers Hv].
  apply app_nil in Hv as [Hkafka Hv]. apply app_nil in Hv as [Hadmin _].
  apply only_if_nil in Hfs, Hpair, Hca, Husers, Hkafka, Hadmin. split.
  - intros H1 H2. rewrite H1, H2 in Hkafka. by destruct (as_bool c "auth.saslenabled").
  - intros H1 H2 H3 Ht. by rewrite H1, H2, H3, Ht in Hadmin.
  - intros H1 Hu. by rewrite H1, Hu in Husers.
  - intros Hcert. rewrite Hcert in Hpair, Hca. split; [by destruct (String.eqb_spec (as_str c "tls.keyfile") "")|].
    by destruct (String.eqb_spec (as_str c "tls.clientca") "").
  - apply negb_false_iff in Hfs. by apply bool_decide_eq_true_1 in Hfs.
Qed.

(** ** What is started *)

Section start.
Context `{Platform}.
Context (hmac : list byte -> list byte -> list byte) (sha : list byte -> list byte) (pbkdf2 : list byte -> list byte -> Z -> Z -> list byte).

Lemma wrap_err_Ok {A} ctx (r : res A) x : wrap_err ctx r = Ok x -> r = Ok x.
Proof. by destruct r. Qed.

Lemma kafkaListener_tls e c t : kafkaListener e c = Ok t ->
  (t = None <-> as_str c "tls.certfile" = "") /\
  forall x, t = Some x -> (tls_RequireAndVerifyClientCert x = true <-> as_str c "tls.clientca" <> "") /\
    (as_str c "tls.minversion" = "1.3" -> tls_MinVersion x = "1.3").
Proof.
  unfold kafkaListener. destruct (String.eqb_spec (as_str c "tls.certfile") "") as [Hc|Hc].
  { destruct (sn_listen e); [done|]. intros [= <-]. by split. }
  destruct (sn_keypair e _ _); [done|]. destruct (String.eqb_spec (as_str c "tls.clientca") "") as [Ha|Ha].
  - destruct (sn_listen e); [done|]. intros [= <-]. split; [by split|]. intros x [= <-]. cbn. split; [by split|]. by intros ->.
  - destruct (w_read _ _); [|done]. destruct (negb _); [done|]. destruct (sn_listen e); [done|]. intros [= <-]. split; [by split|].
    intros x [= <-]. cbn. split; [by split|]. by intros ->.
Qed.

(** The settings every component runs with. *)
Record started (e : serve_env) (c : value) (s : server) : Prop := {
  st_store : Open_config (storage_settings c) = Ok (b_store (sr_broker s));
  st_syncer : sr_syncer s = (if String.eqb (as_str c "storage.fsyncmode") FsyncInterval then Some (syncer_interval (as_int c "storage.fsyncinterval")) else None);
  st_archive : is_Some (sr_uploader s) <-> is_Some (b_archive (sr_broker s));
  st_uploader : forall bk u, sr_uploader s = Some (bk, u) -> u = NewUploader (uploader_settings c) /\ openArchive e c = Ok (Some bk) /\
    sr_retention s = retention_settings c (Some bk);
  st_tls : kafkaListener e c = Ok (sr_tls s);
  st_wire : sr_wire s = NewDispatcher_config (wire_settings c);
  st_admin : sr_admin s = (if as_bool c "admin.enabled" then Some (as_str c "listeners.admin", mkAdmin (as_str c "admin.token") (sn_now e)) else None)
}.

Lemma LoadState_store wio now c store guard d b : LoadState wio now c store guard d = Ok b -> b_store b = store /\ b_archive b = None.
Proof.
  unfold LoadState. destruct (adopt_topics _ _ _ _ _); try done. cbn [mbind res_bind]. destruct (NewOffsetStore _); try done. by intros [= <-].
Qed.

Lemma start_server_started e c s : start_server hmac sha pbkdf2 e c = Ok s -> started e c s.
Proof.
  unfold start_server. destruct (Open_config (storage_settings c)) as [store| | |] eqn:Es; try done. cbn [mbind res_bind].
  destruct (sn_open e); [done|]. destruct (wrap_err _ (LoadState _ _ _ _ _ _)) as [b| | |] eqn:El; try done. apply wrap_err_Ok, LoadState_store in El as [Hst Har].
  cbn [mbind res_bind]. destruct (openArchive e c) as [bk| | |] eqn:Eb; try done. cbn [mbind res_bind].
  destruct (attach_archive e c b bk) as [[b' up]| | |] eqn:Ea; try done. cbn [mbind res_bind].
  destruct (kafkaListener e c) as [t| | |] eqn:Et; try done. cbn [mbind res_bind fst snd]. intros [= <-].
  assert (b_store b' = store /\ (is_Some up <-> is_Some (b_archive b')) /\
    forall k u, up = Some (k, u) -> u = NewUploader (uploader_settings c) /\ bk = Some k) as (Hs & Hup & Hu).
  { unfold attach_archive in Ea. destruct bk as [k|]; [|injection Ea as <- <-; rewrite Har; split_and!; [done|split; by intros [? ?]|done]].
    destruct (sn_manifest e) as [[[ok1 ok2] a] p]. destruct (wrap_err _ (OpenManifest _ _ _ _)); try done. cbn [mbind res_bind] in Ea.
    destruct (wrap_err _ (sn_cache e)); try done. injection Ea as <- <-. split_and!; [done|split; by eexists|by intros ? ? [= <- <-]]. }
  split; cbn [sr_broker sr_syncer sr_uploader sr_tls sr_wire sr_admin sr_retention]; try done; [by rewrite Es, Hs|].
  intros k u E. destruct (Hu k u E) as [-> ->]. done.
Qed.

Lemma cmdServe_started e args l s : cmdServe hmac sha pbkdf2 e args = Serving l s -> validated (ld_Config l) /\ started e (ld_Config l) s.
Proof.
  unfold cmdServe, loadForCommand. destruct (Parse _ _ _) as [vals words|]; [|done].
  destruct (Load _ _) as [l'| |] eqn:El; [|done|done]. destruct (start_server _ _ _ e (ld_Config l')) as [s'| | |] eqn:Es; try done.
  intros [= <- <-]. split; [by eapply Validate_validated, Load_validated|by apply start_server_started].
Qed.

(** C8: A broker that starts is not open to the network by accident.  Unless
    auth.allowanon is set, and whatever the command line, the environment and the
    configuration file say: if the Kafka listener is not bound to the loopback
    address, a connection that does not authenticate leaves the broker exactly as it
    is, whatever bytes it sends; if the admin listener is not, a request without the
    admin token changes nothing and gets the health report, the metrics or a refusal;
    and if any of the TLS files is set, the Kafka listener speaks TLS, demanding
    client certificates exactly when their authority is set. *)
Theorem serve_closed `{AdminJson} e args l s :
  cmdServe hmac sha pbkdf2 e args = Serving l s -> as_bool (ld_Config l) "auth.allowanon" = false ->
  (isPublicBind (as_str (ld_Config l) "listeners.kafka") = true ->
     forall sha256 mac key cd tagfuel he b remote conn, (forall k x, he_others (he k) x = x) ->
     let out := Serve sha256 mac key hmac sha cd (sr_scram s) tagfuel (sr_wire s) he b remote conn in
     cs_saslComplete (sv_conn out) = false -> sv_broker out = b) /\
  (forall addr cfg, sr_admin s = Some (addr, cfg) -> isPublicBind addr = true ->
     forall metrics ae b r, hr_Authorization r <> "Bearer " +:+ ac_AdminToken cfg ->
     refused cfg ae b r (serve_http metrics cfg ae b r) \/ serve_http metrics cfg ae b r = (b, Ok metrics)) /\
  (as_str (ld_Config l) "tls.certfile" <> "" \/ as_str (ld_Config l) "tls.keyfile" <> "" \/ as_str (ld_Config l) "tls.clientca" <> "" ->
     exists t, sr_tls s = Some t /\ (tls_RequireAndVerifyClientCert t = true <-> as_str (ld_Config l) "tls.clientca" <> "")).
Proof.
  intros Hrun Hanon. destruct (cmdServe_started e args l s Hrun) as [Hv Hs]. split; [|split].
  - intros Hpub sha256 mac key cd tagfuel he b remote conn Ho. cbn zeta. unfold Serve. rewrite (st_wire _ _ _ Hs).
    cbn [NewDispatcher_config wire_settings wc_SaslEnabled]. rewrite (vd_kafka _ Hv Hpub Hanon). by apply serve_loop_conn.
  - intros addr cfg Ha Hpub metrics ae b r Hr. rewrite (st_admin _ _ _ Hs) in Ha. destruct (as_bool _ "admin.enabled") eqn:Een; [|done].
    injection Ha as <- <-. unfold serve_http. destruct (String.eqb (hr_Path r) "/metrics"); [by right|left].
    apply admin_refuses; [|done]. by apply (vd_admin _ Hv).
  - intros Hset. destruct (kafkaListener_tls e _ _ (st_tls _ _ _ Hs)) as [Hnone Hsome]. destruct (sr_tls s) as [t|]; [exists t; split; [done|]; by apply Hsome|].
    destruct (vd_tls _ Hv (proj1 Hnone eq_refl)) as [Hk Hc]. pose proof (proj1 Hnone eq_refl). by intuition.
Qed.
End start.

(** ** A concrete start *)

(** Public listeners with authentication, from the command line and the environment. *)
Definition env_of (vars : list (string * string)) : sysenv :=
  mkSys (fun k => snd <$> List.find (fun p => String.eqb (EnvPrefix +:+ "_" +:+ p.1) k) vars) (fun _ => None) (fun _ => false) None (fun _ => None) (fun _ => []).
Definition start_env (vars : list (string * string)) : serve_env :=
  mkServeEnv (env_of vars) None [] (fun _ => (None, None)) 7 (mkDataDir None None ∅ [] None) (mkFsNet Ok (fun _ => None) (fun _ => None))
    (mkS3Net (fun _ => Err (EMsg "no such file")) (fun _ => true) (fun _ _ => None) (fun _ _ _ => Ok true))
    (true, true, FileAbsent, PFileAbsent) (Ok ∅) (fun _ _ => None) (fun _ => true) None (Ok (Some {["ann" := "secret"]})).

Definition public_vars : list (string * string) :=
  [("AUTH_SASLENABLED", "true"); ("AUTH_USERSFILE", "users.json"); ("LISTENERS_ADMIN", "0.0.0.0:8080"); ("ADMIN_TOKEN", "s3cret");
   ("ARCHIVE_BACKEND", "fs"); ("ARCHIVE_FS_PATH", "/mnt/archive"); ("TLS_CERTFILE", "cert.pem"); ("TLS_KEYFILE", "key.pem")].
Definition toy_pbkdf2 (p s : list byte) (_ _ : Z) : list byte := p ++ s.
Definition public_run : serve_result :=
  cmdServe toy_hmac toy_sha toy_pbkdf2 (start_env public_vars) ["serve-me"; "--kafka-listen"; "0.0.0.0:9092"].
Definition public_loaded : Loaded := match public_run with Serving l _ => l | _ => mkLoaded (VStruct []) ∅ "" end.
Definition no_server : server :=
  mkServer None None (mkBroker (mkBrokerConfig 0 "" "" 0 0 false 0 0) (mkConfig "" 0 0 0 "" 0) None ∅ None ∅ (NewGroupCoordinator (mkStore ∅ ∅)) (NewACLStore None) None)
    None (fun _ _ _ => mkRetention 0 0 0 None) None None (mkWireConfig 0 false 0) None None.
Definition public_server : server := match public_run with Serving _ s => s | _ => no_server end.

Lemma public_runs : public_run = Serving public_loaded public_server.
Proof. unfold public_loaded, public_server. assert (match public_run with Serving _ _ => true | _ => false end = true) as Hr by (vm_compute; reflexivity). by destruct public_run. Qed.

(** A Produce request before authentication, and an admin request without the
    token. *)
Lemma serve_closed_witness :
  sv_broker (Serve sample_sha toy_mac [] toy_hmac toy_sha sample_codec (sr_scram public_server) 1 (sr_wire public_server) (fun _ => sample_henv)
    orders_broker "peer" (request_bytes sample_codec (sample_request KProduce 7))) = orders_broker /\
  exists t, sr_tls public_server = Some t.
Proof.
  pose proof (@serve_closed amd64 toy_hmac toy_sha toy_pbkdf2 toy_admin_json (start_env public_vars) ["serve-me"; "--kafka-listen"; "0.0.0.0:9092"]
    public_loaded public_server public_runs ltac:(vm_compute; reflexivity)) as (Hkafka & _ & Htls). split.
  - apply Hkafka; [vm_compute; reflexivity|reflexivity|vm_compute; reflexivity].
  - destruct Htls as (t & Ht & _); [left; vm_compute; discriminate|]. exists t. exact Ht.
Defined.

(** ** What the wiring and the checks leave open *)

(** The uploader is started without a resolver for tenants, so every segment is
    archived as a shared one; the broker then refuses a tenant its own archived
    records. *)
Lemma serve_archives_untagged `{Platform} hmac sha pbkdf2 e args l s bk u seg :
  cmdServe hmac sha pbkdf2 e args = Serving l s -> sr_uploader s = Some (bk, u) -> source_tenant u seg = "".
Proof.
  intros Hrun Hu. destruct (cmdServe_started _ _ _ _ _ _ _ Hrun) as [_ Hs]. by destruct (st_uploader _ _ _ Hs _ _ Hu) as [-> _].
Qed.

Lemma untagged_refused sha256 mac key fe b a topic partition off max tenant ent :
  b_archive b = Some a -> archived_at (ar_manifest a) topic partition off = Some ent -> se_TenantID ent = "" -> tenant <> "" ->
  fetchFromArchive sha256 mac key fe b topic partition off max tenant = (b, Err (ESentinel ErrUnauthorizedTopic)).
Proof.
  intros Ha He Ht Hne. unfold fetchFromArchive. rewrite Ha, He, Ht. rewrite (proj2 (String.eqb_neq _ _) Hne).
  destruct (String.eqb_spec "" tenant) as [Heq|_]; [by destruct Hne|done].
Qed.

Definition loads (vars : list (string * string)) (P : value -> bool) : bool :=
  match Load (env_of vars) (mkOptions "" ∅) with LoadOk l => P (ld_Config l) | _ => false end.

(** A segment of one byte more than ten thousand parts is accepted. *)
Example parts_rounded_down :
  loads [("ARCHIVE_BACKEND", "s3"); ("ARCHIVE_S3_BUCKET", "b"); ("STORAGE_SEGMENTBYTES", "83886080001")]
    (fun c => 10000 * as_int c "archive.s3.partsize" <? as_int c "storage.segmentbytes") = true.
Proof. vm_compute. reflexivity. Qed.

(** The directory backend has the limit too, and is not checked at all. *)
Example parts_of_fs_unchecked :
  loads [("ARCHIVE_BACKEND", "fs"); ("ARCHIVE_FS_PATH", "/mnt"); ("STORAGE_SEGMENTBYTES", "1TiB")]
    (fun c => 100000 * as_int c "archive.s3.partsize" <? as_int c "storage.segmentbytes") = true /\
  forall o s key id data, (fs_UploadPart o s key id 10001 data).2 = Err (EMsg "objstore/fs: part number out of range").
Proof. split; [vm_compute; reflexivity|done]. Qed.

(** Following the advice leads to the next refusal: the size is rounded up to 1280MiB
    and printed as 1GiB. *)
Definition rejected_parts (vars : list (string * string)) : option string :=
  match Load (env_of vars) (mkOptions "" ∅) with LoadErr (Rejected [CParts _ _ _ advice]) => Some advice | _ => None end.
Example advice_too_small :
  rejected_parts [("ARCHIVE_BACKEND", "s3"); ("ARCHIVE_S3_BUCKET", "b"); ("STORAGE_SEGMENTBYTES", "11TiB")] = Some "1GiB" /\
  rejected_parts [("ARCHIVE_BACKEND", "s3"); ("ARCHIVE_S3_BUCKET", "b"); ("STORAGE_SEGMENTBYTES", "11TiB"); ("ARCHIVE_S3_PARTSIZE", "1GiB")] = Some "1GiB".
Proof. split; vm_compute; reflexivity. Qed.

(** Not-a-number passes the range check, and turns the disk guard off. *)
Example nan_passes : loads [("STORAGE_DISKFREEMIN", "NaN")] (fun c => negb (f64_lt (f64_of_Z 0) (as_float c "storage.diskfreemin"))) = true.
Proof. vm_compute. reflexivity. Qed.

(** Two spellings of one key: the later one in the parser's map wins, and Go's map
    has no order. *)
Example duplicate_keys :
  let nested := ("storage", YMap [("datadir", YString "a")]) in let dotted := ("storage.datadir", YString "b") in
  flatten "" (YMap [nested; dotted]) ∅ = Ok {["storage.datadir" := "b"]} /\ flatten "" (YMap [dotted; nested]) ∅ = Ok {["storage.datadir" := "a"]}.
Proof. split; vm_compute; reflexivity. Qed.

Example advertised_samples :
  map splitHostPort ["0.0.0.0:9092"; "[::1]:7"; "::1:7"; "host"; "host:x"; "[a]b:1"; "a]:1"; ":80"; "h:4294967296"] =
  [("0.0.0.0", 9092); ("::1", 7); ("", 9092); ("", 9092); ("host", 9092); ("", 9092); ("", 9092); ("", 80); ("h", 0)].
Proof. vm_compute. reflexivity. Qed.
