(* ===== verification/ConfigCmd.v ===== *)
(** * Inspecting the configuration (cmd/kafka-wire/config_cmd.go, doctor.go)

    [config print] shows the resolved settings with their sources, [config reference]
    every setting there is, [doctor] tries what a start needs.  Output is a list of
    lines.  How a float prints is an argument: the shortest decimal that reads back as
    the same number. *)

From stdpp Require Import pretty.
From S2P Require Import Prelude Bytes Names Utf8 Text ObjStore GoText S3 Flags Config ConfigLoad Serve.

#[local] Open Scope Z_scope.

(** ** Printing a value *)

Definition digit_char_of (d : Z) : ascii := ascii_of_N (Z.to_N (d + 48)).

(** [fmtFrac]: the fraction in front of what is in the buffer, without trailing zeros,
    and what is left of [v]. *)
Fixpoint fmtFrac (prec : nat) (print : bool) (buf : string) (v : Z) : string * Z :=
  match prec with
  | O => (if print then String "." buf else buf, v)
  | S prec =>
      let d := v mod 10 in
      let print := print || negb (d =? 0) in
      fmtFrac prec print (if print then String (digit_char_of d) buf else buf) (v / 10)
  end.

Definition small_unit (u : Z) : nat * string :=
  if u <? 1000 then (0%nat, "ns") else if u <? 1000000 then (3%nat, micro 194 181) else (6%nat, "ms").

(** [time.Duration.String], without and with the sign. *)
Definition duration_abs (u : Z) : string :=
  if u <? 1000000000 then
    if u =? 0 then "0s"
    else
      let (prec, unit) := small_unit u in
      let (frac, u) := fmtFrac prec false "" u in
      pretty u +:+ (frac +:+ unit)
  else
    let (frac, u) := fmtFrac 9 false "" u in
    let secs := pretty (u mod 60) +:+ (frac +:+ "s") in
    let m := u / 60 in
    if m >? 0 then
      let mins := pretty (m mod 60) +:+ ("m" +:+ secs) in
      let h := m / 60 in
      if h >? 0 then pretty h +:+ ("h" +:+ mins) else mins
    else secs.
Definition Duration_String (d : Z) : string := if d <? 0 then "-" +:+ duration_abs (- d) else duration_abs d.

Example duration_strings :
  map Duration_String [0; 1; 1500; 2000000; 1000000000; 90000000000; 604800000000000; 5400000000001; -25000000000; - 2 ^ 63] =
  ["0s"; "1ns"; "1.5" +:+ micro 194 181; "2ms"; "1s"; "1m30s"; "168h0m0s"; "1h30m0.000000001s"; "-25s"; "-2562047h47m16.854775808s"].
Proof. vm_compute. reflexivity. Qed.

Section print.
Context (fmt_float : float64 -> string).

(** What [fmt] prints for a value of a leaf. *)
Definition print_value (k : kind) (v : value) : string :=
  match k, v with
  | KDuration, VInt z => Duration_String z
  | _, VString s => s
  | _, VBool b => if b then "true" else "false"
  | _, VFloat f => fmt_float f
  | _, VInt z => pretty z
  | _, VStruct _ => ""
  end.

(** The walk of [valueOf]: a segment that names no field is passed over. *)
Fixpoint value_at (t : gotype) (v : value) (segs : list string) : res (gotype * value) :=
  match segs with
  | [] => Ok (t, v)
  | seg :: segs =>
      match t, v with
      | TStruct fs, VStruct vs =>
          match find_field seg fs 0 with
          | Some (i, t') => match vs !! i with Some v' => value_at t' v' segs | None => Panic end
          | None => value_at t v segs
          end
      | _, _ => Panic
      end
  end.

Definition valueOf (l : Loaded) (f : Field) (showSecrets : bool) : res string :=
  tv ← value_at RootConfig (ld_Config l) (split_on "." (fd_Path f));
  if fd_Secret f && negb showSecrets then
    Ok (match tv.2 with VString "" => "" | _ => "[redacted]" end)
  else Ok (match tv.1 with TLeaf k => print_value k tv.2 | TStruct _ => "" end).

Definition source_of (l : Loaded) (f : Field) : string := default "" (ld_Sources l !! fd_Path f).

(** [utf8.RuneCountInString] *)
Fixpoint rune_count (l : list Z) : nat :=
  match l with
  | [] => 0
  | c :: r =>
      S (match rune_size c r, r with
         | 2%nat, _ :: r1 => rune_count r1
         | 3%nat, _ :: _ :: r2 => rune_count r2
         | 4%nat, _ :: _ :: _ :: r3 => rune_count r3
         | _, _ => rune_count r
         end)
  end.

Fixpoint spaces_of (n : nat) : string := match n with O => "" | S n => String " " (spaces_of n) end.
(** [%-Ns] *)
Definition pad_right (n : nat) (s : string) : string := s +:+ spaces_of (n - rune_count (map code (String.list_ascii_of_string s))).

(** The characters that need an escape in this file. *)
Definition quote : string := String "034" "".
Definition quoteIfNeeded (v : string) : string :=
  if String.eqb v "" then quote +:+ quote
  else if existsb (fun c => Ascii.eqb c ":" || Ascii.eqb c " " || Ascii.eqb c "#") (String.list_ascii_of_string v) then quote +:+ v +:+ quote
  else v.

(** ** config print *)

Fixpoint each {A B} (f : A -> res (list B)) (l : list A) : res (list B) :=
  match l with
  | [] => Ok []
  | x :: l => a ← f x; b ← each f l; Ok (a ++ b)
  end.

(** [--format env]: the variable and its value, printed as [NAME=value]. *)
Definition print_env (l : Loaded) (show : bool) : res (list (string * string)) :=
  each (fun f => v ← valueOf l f show; Ok [(fd_Env f, v)]) Fields.
Definition print_table (l : Loaded) (show : bool) : res (list string) :=
  ls ← each (fun f => v ← valueOf l f show; Ok [pad_right 40 (fd_Path f) +:+ " " +:+ pad_right 28 v +:+ " " +:+ source_of l f]) Fields;
  Ok ((pad_right 40 "SETTING" +:+ " " +:+ pad_right 28 "VALUE" +:+ " SOURCE") :: ls).

(** The headers a path still needs, with their depth. *)
Fixpoint headers (seen : list string) (prefix : string) (depth : nat) (parts : list string) : list string * list string :=
  match parts with
  | part :: ((_ :: _) as rest) =>
      let p := join_path prefix part in
      let (seen', out) := headers (if bool_decide (p ∈ seen) then seen else p :: seen) p (S depth) rest in
      (seen', if bool_decide (p ∈ seen) then out else (spaces_of (2 * depth) +:+ part +:+ ":") :: out)
  | _ => (seen, [])
  end.

Fixpoint yaml_lines (l : Loaded) (show : bool) (seen : list string) (fs : list Field) : res (list string) :=
  match fs with
  | [] => Ok []
  | f :: fs =>
      let parts := split_on "." (fd_Path f) in
      let (seen, heads) := headers seen "" 0 parts in
      v ← valueOf l f show;
      let line := spaces_of (2 * (length parts - 1)) +:+ default "" (last parts) +:+ ": " +:+ pad_right 26 (quoteIfNeeded v) +:+ " # " +:+ source_of l f in
      rest ← yaml_lines l show seen fs;
      Ok (heads ++ line :: rest)
  end.
Definition printYAML (l : Loaded) (show : bool) : res (list string) := yaml_lines l show [] Fields.

Inductive config_out := OutLines (ls : list string) | OutErr (e : error) | OutFlags (e : flag_error) | OutConfig (e : load_error) | OutPanic.

Definition out_of (r : res (list string)) : config_out :=
  match r with Ok ls => OutLines ls | Err e => OutErr e | _ => OutPanic end.

Definition print_format (format : string) (l : Loaded) (show : bool) : config_out :=
  if String.eqb format "env" then out_of (ps ← print_env l show; Ok (map (fun p => p.1 +:+ "=" +:+ p.2) ps))
  else if String.eqb format "table" then out_of (print_table l show)
  else if String.eqb format "yaml" then out_of (printYAML l show)
  else OutErr (EMsg ("unknown format " +:+ format)).

Definition configPrint `{Platform} (w : sysenv) (args : list string) : config_out :=
  match loadForCommand w [flag_String "format"; flag_Bool "show-secrets"] args with
  | CmdFlags e => OutFlags e
  | CmdLoaded _ (LoadErr e) => OutConfig e
  | CmdLoaded _ LoadPanic => OutPanic
  | CmdLoaded vals (LoadOk l) =>
      print_format (match vals !! "format" with Some (FvString s) => s | _ => "yaml" end) l
        (match vals !! "show-secrets" with Some (FvBool b) => b | _ => false end)
  end.

Definition configValidate `{Platform} (w : sysenv) (args : list string) : config_out :=
  match loadForCommand w [] args with
  | CmdFlags e => OutFlags e
  | CmdLoaded _ (LoadErr e) => OutConfig e
  | CmdLoaded _ LoadPanic => OutPanic
  | CmdLoaded _ (LoadOk l) => OutLines ["configuration is valid (" +:+ (if String.eqb (ld_File l) "" then "built-in defaults" else ld_File l) +:+ ")"]
  end.

Fixpoint dashes (n : nat) : string := match n with O => "" | S n => String "-" (dashes n) end.
Fixpoint reference_lines (section : string) (fs : list Field) : list string :=
  match fs with
  | [] => []
  | f :: fs =>
      let s := default "" (head (split_on "." (fd_Path f))) in
      (if String.eqb s section then [] else [""; ToUpper s; dashes (String.length s)]) ++
      [""; "  " +:+ fd_Path f +:+ "  (" +:+ fd_Kind f +:+ ", default " +:+ (if String.eqb (fd_Default f) "" then quote +:+ quote else fd_Default f) +:+ ")";
       "    " +:+ fd_Doc f; "    env: " +:+ fd_Env f] ++ reference_lines s fs
  end.
Definition configReference : list string :=
  ["Every setting kafka-wire understands.";
   "Set any of them in the config file by its path, or in the environment by its variable."; ""] ++ reference_lines "" Fields.
End print.

(** ** doctor *)

(** What the machine answers. *)
Record doctor_env := mkDoctor {
  dr_sys : sysenv;
  dr_writable : string -> option error;
  dr_portFree : string -> option error;
  dr_fs : fs_net;
  dr_s3 : s3_net
}.

Inductive finding := Passed (name : string) | Failed (name : string) (e : error) | Note (level text : string).

Definition check (name : string) (r : option error) : finding := match r with None => Passed name | Some e => Failed name e end.

Definition err_of {A} (r : res A) : option error :=
  match r with Ok _ => None | Err e => Some e | _ => Some (EMsg "panic") end.

Definition JoinHostPort (host port : string) : string :=
  if contains_char ":" host then "[" +:+ host +:+ "]:" +:+ port else host +:+ ":" +:+ port.

Definition s3_probe (c : value) : S3Config :=
  let s := s3_settings c in
  mkS3Config (sc_Bucket s) (sc_Endpoint s) (sc_Region s) (sc_Addressing s) (sc_AccessKey s) (sc_SecretKey s) (sc_SessionToken s) (sc_Insecure s)
    (sc_CAFile s) (sc_SkipVerify s) "".

Definition doctor_findings (e : doctor_env) (c : value) : list finding :=
  let (advHost, advPort) := advertised c in
  [check "data directory is writable" (dr_writable e (as_str c "storage.datadir"));
   check "kafka port is free" (dr_portFree e (as_str c "listeners.kafka"))] ++
  (if as_bool c "admin.enabled" then [check "admin port is free" (dr_portFree e (as_str c "listeners.admin"))] else []) ++
  [Note "info" ("clients will be told to connect to " +:+ JoinHostPort advHost (pretty advPort))] ++
  (if String.eqb advHost "localhost" || String.eqb advHost "127.0.0.1" then [Note "" "Only clients on this machine can reach that."] else []) ++
  (let b := as_str c "archive.backend" in
   if String.eqb b "" || String.eqb b "none" then [Note "info" "cold storage is off (archive.backend: none)"]
   else if String.eqb b "fs" then [check "archive directory is usable" (err_of (NewFS (dr_fs e) (as_str c "archive.fs.path")))]
   else if String.eqb b "s3" then [check "object store is reachable" (err_of (NewS3 (dr_s3 e) (s3_probe c)))]
   else []) ++
  (if as_bool c "auth.saslenabled" then []
   else if as_bool c "auth.allowanon" then [Note "warn" "authentication is off and auth.allowanon is set."]
   else [Note "info" "authentication is off, and the broker is bound to loopback only"]).

Definition failed (f : finding) : bool := match f with Failed _ _ => true | _ => false end.

Inductive doctor_out := DoctorConfig (c : command) | DoctorDone (fs : list finding) (problems : Z).

Definition cmdDoctor `{Platform} (e : doctor_env) (args : list string) : doctor_out :=
  match loadForCommand (dr_sys e) [] args with
  | CmdLoaded _ (LoadOk l) =>
      let fs := doctor_findings e (ld_Config l) in DoctorDone fs (zlen (List.filter failed fs))
  | c => DoctorConfig c
  end.

(** ** config *)

Inductive config_cmd := ConfigUsage | ConfigInit (args : list string) | ConfigPrint (args : list string) | ConfigValidate (args : list string)
  | ConfigReference | ConfigUnknown (sub : string).
Definition cmdConfig (args : list string) : config_cmd :=
  match args with
  | [] => ConfigUsage
  | sub :: rest =>
      if String.eqb sub "init" then ConfigInit rest
      else if String.eqb sub "print" then ConfigPrint rest
      else if String.eqb sub "validate" then ConfigValidate rest
      else if String.eqb sub "reference" then ConfigReference
      else if bool_decide (sub ∈ ["-h"; "--help"; "help"]) then ConfigUsage
      else ConfigUnknown sub
  end.
