(* ===== verification/ConfigCmdFacts.v ===== *)
(** * Facts about printed settings

    A value that is printed is read back: decimal numbers, fractions, and durations,
    whose fractions go through floating point on the way back. *)

From stdpp Require Import pretty.
From Stdlib Require Import Floats.SpecFloat.
From S2P Require Import Prelude Bytes Names Text GoText Flags Config ConfigLoad ConfigFacts ConfigText Serve ConfigCmd.

#[local] Open Scope Z_scope.

(** ** Decimal numbers *)

Lemma pretty_go_digits : forall (x : N) s, digits_from 0 (pretty_N_go x s) = digits_from (Z.of_N x) s.
Proof.
  intros x. induction (N.lt_wf_0 x) as [x _ IH]. intros s. destruct (decide (0 < x)%N) as [Hx|Hx].
  - rewrite pretty_N_go_step by done. rewrite IH by (apply N.div_lt; lia). cbn [digits_from].
    assert (digit (pretty_N_char (x mod 10)) = Some (Z.of_N (x mod 10))) as ->.
    { assert (x mod 10 < 10)%N as Hm by (by apply N.mod_lt). destruct (x mod 10)%N as [|p]; [done|].
      do 9 (destruct p as [p|p|]; try reflexivity; try lia). }
    f_equal. rewrite N2Z.inj_div, N2Z.inj_mod. change (Z.of_N 10) with 10. pose proof (Z.div_mod (Z.of_N x) 10). lia.
  - assert (x = 0%N) as -> by lia. by rewrite pretty_N_go_0.
Qed.

Lemma pretty_nonneg (z : Z) : 0 <= z -> digits (pretty z) = Some z.
Proof.
  intros Hz. destruct z as [|p|p]; [done| |lia]. change (pretty (Zpos p)) with (pretty (Npos p)).
  unfold digits. destruct (String.eqb_spec (pretty (Npos p)) "") as [E|_].
  - change (pretty (Npos p)) with (pretty_N_go (Npos p) "") in E. pose proof (pretty_go_digits (Npos p) "") as H. rewrite E in H. done.
  - change (pretty (Npos p)) with (pretty_N_go (Npos p) ""). by rewrite pretty_go_digits.
Qed.

Lemma pretty_neg p : pretty (Zneg p) = String "-" (pretty (Zpos p)).
Proof. reflexivity. Qed.

Lemma digits_nonempty s n : digits s = Some n -> s <> "" /\ digits_from 0 s = Some n /\ string_forallb is_digit s = true.
Proof.
  unfold digits. destruct (String.eqb_spec s "") as [->|Hne]; [done|]. intros H. split_and!; [done|done|by eapply digits_chars].
Qed.

(** The digits of a number with more in front. *)
Lemma digits_shift s : forall acc f, digits_from 0 s = Some f -> digits_from acc s = Some (acc * 10 ^ Z.of_nat (String.length s) + f).
Proof.
  enough (forall a b f, digits_from a s = Some f -> digits_from b s = Some ((b - a) * 10 ^ Z.of_nat (String.length s) + f)) as Hg.
  { intros acc f H. rewrite (Hg 0 acc f H). f_equal. lia. }
  induction s as [|c s IH]; intros a b f; cbn [digits_from String.length].
  - intros [= <-]. f_equal. change (10 ^ Z.of_nat 0) with 1. lia.
  - destruct (digit c) as [d|]; [|done]. intros H. rewrite (IH _ (b * 10 + d) _ H). f_equal.
    rewrite Nat2Z.inj_succ, Z.pow_succ_r by lia. lia.
Qed.

Lemma digits_from_bound s : forall acc f, 0 <= acc -> digits_from acc s = Some f -> acc <= f.
Proof.
  induction s as [|c s IH]; intros acc f Ha; cbn; [by intros [= <-]|]. destruct (digit c) as [d|] eqn:Ed; [|done].
  apply digit_range in Ed. intros H. apply IH in H; lia.
Qed.

Definition no_digit (s : string) : bool := match s with String c _ => negb (is_digit c) | "" => true end.

Lemma digit_is c : digit c = if is_digit c then Some (code c - 48) else None.
Proof. reflexivity. Qed.

Lemma leadingInt_digits s rest : no_digit rest = true -> forall acc v, 0 <= acc -> digits_from acc s = Some v -> v <= 2 ^ 63 / 10 ->
  leadingInt acc (s +:+ rest) = Some (v, rest).
Proof.
  intros Hr. induction s as [|c s IH]; intros acc v Ha.
  - intros [= <-] _. change ("" +:+ rest) with rest. destruct rest as [|c rest]; [done|]. cbn [leadingInt no_digit] in *. rewrite digit_is.
    apply negb_true_iff in Hr. by rewrite Hr.
  - change (String c s +:+ rest) with (String c (s +:+ rest)). cbn [digits_from leadingInt]. destruct (digit c) as [d|] eqn:Ed; [|done].
    intros H Hv. pose proof Ed as Hd%digit_range. pose proof (digits_from_bound s (acc * 10 + d) v ltac:(lia) H) as Hb.
    assert ((acc >? 2 ^ 63 / 10) = false) as -> by lia. assert ((acc * 10 + d >? 2 ^ 63) = false) as -> by (assert (2 ^ 63 / 10 <= 2 ^ 63) by (vm_compute; discriminate); lia).
    apply IH; [lia|done|done].
Qed.

(** ** Fractions *)

Fixpoint scale_n (k : nat) (scale : float64) : float64 := match k with O => scale | S k => scale_n k (f64_mul scale (f64_of_Z 10)) end.

Lemma leadingFraction_digits s rest : no_digit rest = true -> forall acc f scale, 0 <= acc -> digits_from acc s = Some f -> f <= (2 ^ 63 - 1) / 10 ->
  leadingFraction false acc scale (s +:+ rest) = (f, scale_n (String.length s) scale, rest).
Proof.
  intros Hr. induction s as [|c s IH]; intros acc f scale Ha.
  - intros [= <-] _. change ("" +:+ rest) with rest. destruct rest as [|c rest]; [done|]. cbn [leadingFraction no_digit] in *. rewrite digit_is.
    apply negb_true_iff in Hr. by rewrite Hr.
  - change (String c s +:+ rest) with (String c (s +:+ rest)). cbn [digits_from leadingFraction]. destruct (digit c) as [d|] eqn:Ed; [|done].
    intros H Hv. pose proof Ed as Hd%digit_range. pose proof (digits_from_bound s (acc * 10 + d) f ltac:(lia) H) as Hb.
    assert ((acc >? (2 ^ 63 - 1) / 10) = false) as -> by lia.
    assert ((acc * 10 + d >? 2 ^ 63) = false) as -> by (assert ((2 ^ 63 - 1) / 10 <= 2 ^ 63) by (vm_compute; discriminate); lia).
    apply IH; [lia|done|done].
Qed.

(** The fraction [r] of [10^p] units as [fmtFrac] prints it. *)
Definition is_frac (p : nat) (frac : string) (r : Z) : Prop :=
  (frac = "" /\ r = 0) \/
  exists s f, frac = String "." s /\ (1 <= String.length s <= p)%nat /\ digits_from 0 s = Some f /\ r = f * 10 ^ Z.of_nat (p - String.length s).

Lemma digit_of d : 0 <= d <= 9 -> digit (digit_char_of d) = Some d.
Proof.
  intros Hd. assert (d = 0 \/ d = 1 \/ d = 2 \/ d = 3 \/ d = 4 \/ d = 5 \/ d = 6 \/ d = 7 \/ d = 8 \/ d = 9) as H by lia.
  repeat destruct H as [->|H]; [reflexivity..|]. by subst.
Qed.

Lemma mod_pow10_S v p : v mod 10 ^ Z.of_nat (S p) = (v / 10) mod 10 ^ Z.of_nat p * 10 + v mod 10.
Proof.
  rewrite Nat2Z.inj_succ, Z.pow_succ_r by lia. assert (0 < 10 ^ Z.of_nat p) by (apply Z.pow_pos_nonneg; lia).
  rewrite Z.rem_mul_r by lia. lia.
Qed.
Lemma div_pow10_S v p : v / 10 ^ Z.of_nat (S p) = v / 10 / 10 ^ Z.of_nat p.
Proof. rewrite Nat2Z.inj_succ, Z.pow_succ_r by lia. assert (0 < 10 ^ Z.of_nat p) by (apply Z.pow_pos_nonneg; lia). by rewrite Z.div_div by lia. Qed.

Lemma fmtFrac_digits prec : forall buf f v, 0 <= v -> digits_from 0 buf = Some f ->
  exists s, fmtFrac prec true buf v = (String "." s, v / 10 ^ Z.of_nat prec) /\ String.length s = (String.length buf + prec)%nat /\
    digits_from 0 s = Some (v mod 10 ^ Z.of_nat prec * 10 ^ Z.of_nat (String.length buf) + f).
Proof.
  induction prec as [|prec IH]; intros buf f v Hv Hf.
  { exists buf. change (10 ^ Z.of_nat 0) with 1. rewrite Z.div_1_r, Z.mod_1_r, Z.mul_0_l. split_and!; [done|lia|done]. }
  cbn [fmtFrac orb]. pose proof (Z.mod_pos_bound v 10 ltac:(lia)) as Hd.
  destruct (IH (String (digit_char_of (v mod 10)) buf) (v mod 10 * 10 ^ Z.of_nat (String.length buf) + f) (v / 10)) as (s & E & Hl & Hs).
  { apply Z.div_pos; lia. }
  { cbn [digits_from]. rewrite digit_of by lia. cbn. by apply digits_shift. }
  exists s. rewrite E, div_pow10_S. split_and!; [done|cbn in Hl; lia|]. rewrite Hs. f_equal. rewrite mod_pow10_S. cbn [String.length].
  rewrite Nat2Z.inj_succ, Z.pow_succ_r by lia. lia.
Qed.

Lemma fmtFrac_spec prec : forall v, 0 <= v ->
  exists frac, fmtFrac prec false "" v = (frac, v / 10 ^ Z.of_nat prec) /\ is_frac prec frac (v mod 10 ^ Z.of_nat prec).
Proof.
  induction prec as [|prec IH]; intros v Hv.
  { exists "". change (10 ^ Z.of_nat 0) with 1. rewrite Z.div_1_r, Z.mod_1_r. split; [done|by left]. }
  cbn [fmtFrac orb]. pose proof (Z.mod_pos_bound v 10 ltac:(lia)) as Hd. destruct (v mod 10 =? 0) eqn:E0; cbn [negb]; zbool.
  - destruct (IH (v / 10)) as (frac & E & Hf); [apply Z.div_pos; lia|]. exists frac. rewrite E, div_pow10_S. split; [done|].
    rewrite mod_pow10_S, E0, Z.add_0_r. destruct Hf as [[-> ->]|(s & f & -> & Hl & Hs & ->)]; [by left|]. right. exists s, f.
    split_and!; try done; [lia..|]. replace (S prec - String.length s)%nat with (S (prec - String.length s)) by lia.
    rewrite Nat2Z.inj_succ, Z.pow_succ_r by lia. lia.
  - destruct (fmtFrac_digits prec (String (digit_char_of (v mod 10)) "") (v mod 10) (v / 10)) as (s & E & Hl & Hs).
    { apply Z.div_pos; lia. }
    { cbn [digits_from]. rewrite digit_of by lia. done. }
    exists (String "." s). rewrite E, div_pow10_S. split; [done|]. right. eexists s, _. cbn [String.length] in *. split_and!; [done|lia|lia|exact Hs|].
    replace (S prec - String.length s)%nat with 0%nat by lia. rewrite mod_pow10_S. change (10 ^ Z.of_nat 0) with 1. change (10 ^ Z.of_nat 1) with 10. lia.
Qed.

(** ** Exact products *)

Lemma round_zeros M s e : (s = 52 \/ s = 53)%positive -> Z.log2 (Zpos M) = 52 -> -1074 <= e + Zpos s <= 971 ->
  binary_round_aux 53 1024 false (Zpos (Pos.iter xO M s)) e loc_Exact = S754_finite false M (e + Zpos s).
Proof.
  intros Hs Hl He. unfold binary_round_aux at 1, shr_fexp at 1. cbn [shr_record_of_loc Zdigits2].
  rewrite digits2_log2, iter_xO, Z.log2_mul_pow2, Hl by lia.
  assert (fexp 53 1024 (Zpos s + 52 + 1 + e) - e = Zpos s) as -> by (unfold fexp, emin; lia).
  pose proof (round_exact M (e + Zpos s) Hl He) as Hr. unfold binary_round_aux in Hr.
  cbn [shr shr_record_of_loc].
  assert (iter_pos shr_1 s {| shr_m := Zpos M * 2 ^ Zpos s; shr_r := false; shr_s := false |} =
          {| shr_m := Zpos M; shr_r := false; shr_s := false |}) as -> by (rewrite <- iter_xO; destruct Hs as [->| ->]; reflexivity).
  unfold shr_fexp in Hr at 1. cbn [shr_record_of_loc Zdigits2] in Hr. rewrite digits2_log2, Hl in Hr.
  assert (fexp 53 1024 (52 + 1 + (e + Zpos s)) - (e + Zpos s) = 0) as E0 by (unfold fexp, emin; lia). rewrite E0 in Hr. cbn [shr] in Hr. exact Hr.
Qed.

(** A product of integers that has 53 bits at most is exact. *)
Lemma mul_exact f g : 0 < f -> 0 < g -> f * g < 2 ^ 53 -> f64_trunc (f64_mul (f64_of_Z f) (f64_of_Z g)) = Some (f * g).
Proof.
  intros Hf Hg Hlt. destruct f as [|f|f], g as [|g|g]; try lia.
  destruct (of_Z_exact f) as (M1 & -> & HM1 & Hl1); [nia|]. destruct (of_Z_exact g) as (M2 & -> & HM2 & Hl2); [nia|].
  set (a := Z.log2 (Zpos f)) in *. set (b := Z.log2 (Zpos g)) in *.
  assert (0 <= a) by apply Z.log2_nonneg. assert (0 <= b) by apply Z.log2_nonneg.
  set (n := Z.log2 (Zpos f * Zpos g)). assert (a + b <= n <= a + b + 1) as Hn by (split; [apply Z.log2_mul_below|apply Z.log2_mul_above]; lia).
  assert (n < 53) as Hn53 by (apply Z.log2_lt_pow2; lia).
  (* the 53 bits of the product, and the zeros behind them *)
  assert (exists M, Zpos M = Zpos f * Zpos g * 2 ^ (52 - n)) as [M HM].
  { assert (0 < Zpos f * Zpos g * 2 ^ (52 - n)) as Hp by (apply Z.mul_pos_pos; [lia|apply Z.pow_pos_nonneg; lia]).
    destruct (Zpos f * Zpos g * 2 ^ (52 - n)) as [|p|p]; [lia|by exists p|lia]. }
  assert (Z.log2 (Zpos M) = 52) as HlM by (rewrite HM, Z.log2_mul_pow2 by lia; fold n; lia).
  assert (exists s, Zpos s = 52 + n - a - b /\ (s = 52 \/ s = 53)%positive) as (s & Hs & Hs2).
  { destruct (Z.eq_dec n (a + b)) as [E|E]; [exists 52%positive|exists 53%positive]; split; auto; lia. }
  assert ((M1 * M2)%positive = Pos.iter xO M s) as Eprod.
  { apply Pos2Z.inj. rewrite iter_xO, Pos2Z.inj_mul, HM1, HM2, HM. 
    transitivity (Zpos f * Zpos g * 2 ^ (52 - a + (52 - b))); [rewrite Z.pow_add_r by lia; ring|].
    replace (52 - a + (52 - b)) with (52 - n + Zpos s) by lia. rewrite Z.pow_add_r by lia. ring. }
  unfold f64_mul, SFmul. cbn [xorb]. rewrite Eprod, round_zeros; [|done|done|lia].
  unfold f64_trunc, signed. f_equal. rewrite HM. set (e := a - 52 + (b - 52) + Zpos s). assert (e = n - 52) as -> by lia.
  destruct (n - 52 >=? 0) eqn:E; zbool.
  - assert (n = 52) as -> by lia. rewrite !Z.mul_1_r. reflexivity.
  - replace (52 - n) with (- (n - 52)) by lia. apply Z.div_mul. apply Z.pow_nonzero; lia.
Qed.

#[global] Instance spec_float_eq : EqDecision spec_float.
Proof. solve_decision. Defined.

(** The scale of a fraction, and a unit divided by it. *)
Lemma unit_scale p k : (p = 3 \/ p = 6 \/ p = 9)%nat -> (1 <= k <= p)%nat ->
  f64_div (f64_of_Z (10 ^ Z.of_nat p)) (scale_n k (f64_of_Z 1)) = f64_of_Z (10 ^ Z.of_nat (p - k)).
Proof.
  intros Hp Hk. assert (forallb (fun p => forallb (fun k => bool_decide (f64_div (f64_of_Z (10 ^ Z.of_nat p)) (scale_n k (f64_of_Z 1)) =
    f64_of_Z (10 ^ Z.of_nat (p - k)))) (List.seq 1 p)) [3; 6; 9]%nat = true) as Hall by (vm_compute; reflexivity).
  rewrite forallb_forall in Hall. specialize (Hall p ltac:(cbn; lia)). rewrite forallb_forall in Hall.
  specialize (Hall k). rewrite in_seq in Hall. specialize (Hall ltac:(lia)). by apply bool_decide_eq_true_1 in Hall.
Qed.

(** ** Durations *)

Lemma digits_upper s f : digits_from 0 s = Some f -> f < 10 ^ Z.of_nat (String.length s).
Proof.
  enough (forall acc f, digits_from acc s = Some f -> f < (acc + 1) * 10 ^ Z.of_nat (String.length s)) as Hg.
  { intros H. apply Hg in H. lia. }
  induction s as [|c s IH]; intros acc f'; cbn [digits_from String.length].
  - intros [= <-]. change (10 ^ Z.of_nat 0) with 1. lia.
  - destruct (digit c) as [d|] eqn:Ed; [|done]. apply digit_range in Ed. intros H. apply IH in H.
    rewrite Nat2Z.inj_succ, Z.pow_succ_r by lia. assert (0 < 10 ^ Z.of_nat (String.length s)) by (apply Z.pow_pos_nonneg; lia). nia.
Qed.

Lemma length_append a b : String.length (a +:+ b) = (String.length a + String.length b)%nat.
Proof. by rewrite !chars_length, chars_app, length_app. Qed.

Lemma append_longer a b : a <> "" -> String.eqb b (a +:+ b) = false.
Proof.
  intros Ha. apply String.eqb_neq. intros E. apply (f_equal String.length) in E. rewrite length_append in E. destruct a; [done|]. cbn in E. lia.
Qed.

(** A unit and what follows it. *)
Record unit_ok (u : string) (U : Z) (rest : string) : Prop := {
  uo_prefix : unit_prefix (u +:+ rest) = (u, rest);
  uo_map : unitMap u = Some U;
  uo_pos : 0 < U;
  uo_digit : no_digit (u +:+ rest) = true;
  uo_dot : match u +:+ rest with String c _ => Ascii.eqb c "." = false | "" => False end
}.

(** What the fraction adds, computed in floating point. *)
Lemma frac_value p s f U : (p = 3 \/ p = 6 \/ p = 9)%nat -> U = 10 ^ Z.of_nat p -> (1 <= String.length s <= p)%nat -> digits_from 0 s = Some f ->
  (if f >? 0 then default 0 (f64_trunc (f64_mul (f64_of_Z f) (f64_div (f64_of_Z U) (scale_n (String.length s) (f64_of_Z 1))))) else 0) =
  f * 10 ^ Z.of_nat (p - String.length s).
Proof.
  intros Hp -> Hl Hs. pose proof (digits_nonneg s 0 f ltac:(lia) Hs). destruct (f >? 0) eqn:E; zbool; [|nia].
  rewrite unit_scale by done. rewrite mul_exact; [done|lia|apply Z.pow_pos_nonneg; lia|].
  apply digits_upper in Hs. assert (10 ^ Z.of_nat p = 10 ^ Z.of_nat (String.length s) * 10 ^ Z.of_nat (p - String.length s)) as Ep.
  { rewrite <- Z.pow_add_r by lia. f_equal. lia. }
  assert (0 < 10 ^ Z.of_nat (p - String.length s)) by (apply Z.pow_pos_nonneg; lia).
  assert (10 ^ Z.of_nat p <= 10 ^ 9) by (apply Z.pow_le_mono_r; lia). nia.
Qed.

Lemma term_spec v p frac r u U rest : 0 <= v <= 2 ^ 63 / 10 -> is_frac p frac r ->
  frac = "" \/ (p = 3 \/ p = 6 \/ p = 9)%nat /\ U = 10 ^ Z.of_nat p -> unit_ok u U rest -> v * U + r <= 2 ^ 63 ->
  duration_term (pretty v +:+ (frac +:+ (u +:+ rest))) = Some (v * U + r, rest).
Proof.
  intros Hv Hfrac Hp [Hup Hum HU Hnd Hdot] Htot. destruct (digits_nonempty _ _ (pretty_nonneg v ltac:(lia))) as (Hne & Hdig & Hall).
  unfold duration_term. set (tail := frac +:+ (u +:+ rest)).
  assert (no_digit tail = true) as Htail by (unfold tail; destruct Hfrac as [[-> _]|(s & f & -> & _)]; [exact Hnd|reflexivity]).
  destruct (pretty v +:+ tail) as [|c t] eqn:Es.
  { destruct (pretty v); [by destruct Hne|discriminate Es]. }
  assert (is_digit c = true) as Hc.
  { destruct (pretty v) as [|c' s']; [done|]. injection Es as <- _. cbn in Hall. by apply andb_true_iff in Hall as [? _]. }
  rewrite (digit_is c), Hc, bool_decide_true by done. rewrite orb_true_r. cbn [negb]. rewrite <- Es.
  rewrite (leadingInt_digits (pretty v) tail Htail 0 v) by (done || lia). rewrite (append_longer _ _ Hne). cbn [negb andb].
  assert (0 <= r) as Hr.
  { destruct Hfrac as [[_ ->]|(s & f & _ & _ & Hs & ->)]; [done|]. apply digits_nonneg in Hs; [|done].
    apply Z.mul_nonneg_nonneg; [done|apply Z.pow_nonneg; lia]. }
  assert ((v >? 2 ^ 63 / U) = false) as Hvu.
  { rewrite Z.gtb_ltb. apply Z.ltb_ge. apply Z.div_le_lower_bound; lia. }
  assert ((v * U + r >? 2 ^ 63) = false) as Hle by lia.
  unfold tail. destruct Hfrac as [[-> ->]|(s & f & -> & Hl & Hs & Er)].
  - change ("" +:+ (u +:+ rest)) with (u +:+ rest). destruct (u +:+ rest) as [|d t']; [done|]. rewrite Hdot.
    rewrite Hup, Hum, Hvu. change (0 >? 0) with false. cbv iota. rewrite Z.add_0_r in Hle |- *. by rewrite Hle.
  - destruct Hp as [?|[Hp HUp]]; [done|]. change (String "." s +:+ (u +:+ rest)) with (String "." (s +:+ (u +:+ rest))).
    cbv iota beta. rewrite (Ascii.eqb_refl "."). rewrite (leadingFraction_digits s (u +:+ rest) Hnd 0 f) by (done || (apply digits_upper in Hs; assert (10 ^ Z.of_nat (String.length s) <= 10 ^ 9) by (apply Z.pow_le_mono_r; lia); assert (10 ^ 9 <= (2 ^ 63 - 1) / 10) by (vm_compute; discriminate); lia)).
    rewrite Hup, Hum, Hvu. pose proof (frac_value p s f U Hp HUp Hl Hs) as Hf. rewrite <- Er in Hf.
    destruct (f >? 0); [rewrite Hf; by rewrite Hle|]. rewrite <- Hf, Z.add_0_r in Hle |- *. by rewrite Hle.
Qed.

Definition starts_digit (s : string) : bool := match s with String c _ => is_digit c | "" => false end.

Lemma pretty_starts v t : 0 <= v -> starts_digit (pretty v +:+ t) = true.
Proof.
  intros Hv. destruct (digits_nonempty _ _ (pretty_nonneg v Hv)) as (Hne & _ & Hall). destruct (pretty v) as [|c s]; [done|].
  cbn in *. by apply andb_true_iff in Hall as [? _].
Qed.

Lemma unit_ok_digits u U rest : unit_ok u U "" -> string_forallb (fun c => negb (Ascii.eqb c "." || is_digit c)) u = true -> u <> "" ->
  starts_digit rest = true -> unit_ok u U rest.
Proof.
  intros [_ Hm HU _ _] Hu Hne Hr. split; [|done|done| |].
  - clear Hm Hne. induction u as [|c u IH].
    + change ("" +:+ rest) with rest. destruct rest as [|c rest]; [done|]. cbn [unit_prefix starts_digit string_forallb no_digit String.append] in *. 
      rewrite bool_decide_true by (rewrite digit_is, Hr; done). by rewrite orb_true_r.
    + change (String c u +:+ rest) with (String c (u +:+ rest)). cbn [unit_prefix starts_digit string_forallb no_digit String.append] in *. apply andb_true_iff in Hu as [Hc Hu].
      apply negb_true_iff, orb_false_iff in Hc as [Hc1 Hc2]. rewrite Hc1, bool_decide_false by (rewrite digit_is, Hc2; by intros H). cbn [orb]. by rewrite (IH Hu).
  - destruct u as [|c u]; [done|]. change (String c u +:+ rest) with (String c (u +:+ rest)). cbn [unit_prefix starts_digit string_forallb no_digit String.append] in *. apply andb_true_iff in Hu as [Hc _]. by apply negb_true_iff, orb_false_iff in Hc as [_ ->].
  - destruct u as [|c u]; [done|]. change (String c u +:+ rest) with (String c (u +:+ rest)). cbn [unit_prefix starts_digit string_forallb no_digit String.append] in *. apply andb_true_iff in Hu as [Hc _]. by apply negb_true_iff, orb_false_iff in Hc as [-> _].
Qed.

Ltac unit_computes := split; [reflexivity|reflexivity|reflexivity|reflexivity|reflexivity].
Lemma unit_ns : unit_ok "ns" 1 "". Proof. unit_computes. Qed.
Lemma unit_us : unit_ok (micro 194 181) 1000 "". Proof. unit_computes. Qed.
Lemma unit_ms : unit_ok "ms" 1000000 "". Proof. unit_computes. Qed.
Lemma unit_s : unit_ok "s" 1000000000 "". Proof. unit_computes. Qed.
Lemma unit_m : unit_ok "m" 60000000000 "". Proof. unit_computes. Qed.
Lemma unit_h : unit_ok "h" 3600000000000 "". Proof. unit_computes. Qed.

(** One term of the sum. *)
Lemma term_step n d v p frac r u U rest : 0 <= v <= 2 ^ 63 / 10 -> is_frac p frac r ->
  frac = "" \/ (p = 3 \/ p = 6 \/ p = 9)%nat /\ U = 10 ^ Z.of_nat p -> unit_ok u U rest -> 0 <= d -> d + (v * U + r) <= 2 ^ 63 ->
  (String.length (pretty v +:+ (frac +:+ (u +:+ rest))) <= n)%nat ->
  exists n', (String.length rest <= n')%nat /\
    duration_terms n d (pretty v +:+ (frac +:+ (u +:+ rest))) = duration_terms n' (d + (v * U + r)) rest.
Proof.
  intros Hv Hf Hp Hu Hd Htot Hn. rewrite !length_append in Hn. destruct (digits_nonempty _ _ (pretty_nonneg v ltac:(lia))) as (Hne & _ & _).
  assert (1 <= String.length (pretty v))%nat as H1 by (destruct (pretty v); [done|cbn; lia]).
  destruct n as [|n]; [lia|]. exists n. split; [lia|]. pose proof (term_spec v p frac r u U rest Hv Hf Hp Hu ltac:(lia)) as Ht.
  destruct (pretty v +:+ (frac +:+ (u +:+ rest))) as [|c t]; [done|]. cbn [duration_terms]. rewrite Ht.
  assert ((d + (v * U + r) >? 2 ^ 63) = false) as -> by lia. done.
Qed.

(** The unsigned text reads back, and is neither empty nor a bare zero. *)
Lemma string_append_nil s : s +:+ "" = s.
Proof. apply chars_inj. rewrite chars_app. apply app_nil_r. Qed.

Lemma terms_nil n d : duration_terms n d "" = Some d.
Proof. by destruct n. Qed.

Lemma last_term n d v p frac r u U : 0 <= v <= 2 ^ 63 / 10 -> is_frac p frac r ->
  frac = "" \/ (p = 3 \/ p = 6 \/ p = 9)%nat /\ U = 10 ^ Z.of_nat p -> unit_ok u U "" -> 0 <= d -> d + (v * U + r) <= 2 ^ 63 ->
  (String.length (pretty v +:+ (frac +:+ u)) <= n)%nat -> duration_terms n d (pretty v +:+ (frac +:+ u)) = Some (d + (v * U + r)).
Proof.
  intros Hv Hf Hp Hu Hd Ht Hn. destruct (term_step n d v p frac r u U "" Hv Hf Hp Hu Hd Ht) as (n' & _ & E); rewrite string_append_nil in *; [done|].
  by rewrite E, terms_nil.
Qed.

Lemma is_frac_nil p : is_frac p "" 0.
Proof. by left. Qed.

Lemma pow63 : 2 ^ 63 = 9223372036854775808. Proof. reflexivity. Qed.
Lemma pow63_10 : 2 ^ 63 / 10 = 922337203685477580. Proof. reflexivity. Qed.

Lemma small_terms u n : 0 < u < 1000000000 -> (String.length (duration_abs u) <= n)%nat -> duration_terms n 0 (duration_abs u) = Some u.
Proof.
  intros Hu. unfold duration_abs. assert ((u <? 1000000000) = true) as -> by lia. assert ((u =? 0) = false) as -> by lia.
  assert (exists p U unit, small_unit u = (p, unit) /\ U = 10 ^ Z.of_nat p /\ (p = 0 \/ p = 3 \/ p = 6 \/ p = 9)%nat /\ unit_ok unit U "") as (p & U & unit & -> & HU & Hp & Hunit).
  { unfold small_unit. destruct (u <? 1000); [exists 0%nat, 1, "ns"; pose proof unit_ns; split_and!; auto|].
    destruct (u <? 1000000); [exists 3%nat, 1000, (micro 194 181); pose proof unit_us; split_and!; auto|exists 6%nat, 1000000, "ms"; pose proof unit_ms; split_and!; auto]. }
  destruct (fmtFrac_spec p u ltac:(lia)) as (frac & -> & Hf). rewrite <- HU in *. assert (0 < U) by (subst; apply Z.pow_pos_nonneg; lia).
  pose proof (Z.div_mod u U ltac:(lia)). pose proof (Z.div_le_upper_bound u U u ltac:(lia) ltac:(nia)).
  assert (0 <= u / U) by (apply Z.div_pos; lia). pose proof (Z.mod_pos_bound u U ltac:(lia)).
  intros Hn. rewrite (last_term n 0 (u / U) p frac (u mod U) unit U); [f_equal; lia|rewrite pow63_10; lia|done| |done|lia|rewrite pow63; lia|done].
  destruct Hp as [->|Hp]; [left|by right]. destruct Hf as [[-> _]|(s & f & _ & Hl & _)]; [done|lia].
Qed.

Lemma big_terms u n : 1000000000 <= u <= 2 ^ 63 -> (String.length (duration_abs u) <= n)%nat -> duration_terms n 0 (duration_abs u) = Some u.
Proof.
  intros Hu. rewrite pow63 in Hu. unfold duration_abs. assert ((u <? 1000000000) = false) as -> by lia.
  destruct (fmtFrac_spec 9 u ltac:(lia)) as (frac & -> & Hf). change (10 ^ Z.of_nat 9) with 1000000000 in *.
  set (t := u / 1000000000). set (r := u mod 1000000000) in *.
  assert (u = t * 1000000000 + r /\ 0 <= r < 1000000000 /\ 0 <= t <= 9223372036) as (Eu & Hr & Ht).
  { unfold t, r. pose proof (Z.div_mod u 1000000000 ltac:(lia)). pose proof (Z.mod_pos_bound u 1000000000 ltac:(lia)). lia. }
  assert (t = t / 60 * 60 + t mod 60 /\ 0 <= t mod 60 < 60 /\ 0 <= t / 60) as (Et & Hsec & Hmin).
  { pose proof (Z.div_mod t 60 ltac:(lia)). pose proof (Z.mod_pos_bound t 60 ltac:(lia)). split_and!; lia. }
  set (m := t / 60) in *. set (sec := t mod 60) in *.
  assert (m = m / 60 * 60 + m mod 60 /\ 0 <= m mod 60 < 60 /\ 0 <= m / 60) as (Em & Hmm & Hh).
  { pose proof (Z.div_mod m 60 ltac:(lia)). pose proof (Z.mod_pos_bound m 60 ltac:(lia)). split_and!; lia. }
  set (h := m / 60) in *. set (mm := m mod 60) in *.
  (* the seconds, from any point of the sum *)
  assert (forall n d, 0 <= d -> d + (sec * 1000000000 + r) <= 9223372036854775808 -> (String.length (pretty sec +:+ (frac +:+ "s")) <= n)%nat ->
    duration_terms n d (pretty sec +:+ (frac +:+ "s")) = Some (d + (sec * 1000000000 + r))) as Hsecs.
  { intros n' d Hd Htot Hn'. apply (last_term n' d sec 9 frac r "s" 1000000000); [rewrite pow63_10; lia|done|right; auto|exact unit_s|done|rewrite pow63; lia|done]. }
  assert (forall n d, 0 <= d -> d + (mm * 60000000000 + sec * 1000000000 + r) <= 9223372036854775808 ->
    (String.length (pretty mm +:+ ("m" +:+ (pretty sec +:+ (frac +:+ "s")))) <= n)%nat ->
    duration_terms n d (pretty mm +:+ ("m" +:+ (pretty sec +:+ (frac +:+ "s")))) = Some (d + (mm * 60000000000 + sec * 1000000000 + r))) as Hmins.
  { intros n' d Hd Htot Hn'. destruct (term_step n' d mm 9 "" 0 "m" 60000000000 (pretty sec +:+ (frac +:+ "s"))) as (n2 & Hn2 & E);
      [rewrite pow63_10; lia|apply is_frac_nil|by left| |done|rewrite pow63; lia|done|].
    { apply unit_ok_digits; [exact unit_m|reflexivity|done|apply pretty_starts; lia]. }
    change ("" +:+ ?x) with x in E. rewrite E, Hsecs by (done || lia). f_equal. lia. }
  destruct (m >? 0) eqn:Em0; zbool; [|intros Hn; rewrite Hsecs by (done || lia); f_equal; lia].
  destruct (h >? 0) eqn:Eh0; zbool; [|intros Hn; rewrite Hmins by (done || lia); f_equal; lia].
  intros Hn. destruct (term_step n 0 h 9 "" 0 "h" 3600000000000 (pretty mm +:+ ("m" +:+ (pretty sec +:+ (frac +:+ "s"))))) as (n2 & Hn2 & E);
    [rewrite pow63_10; lia|apply is_frac_nil|by left| |done|rewrite pow63; lia|done|].
  { apply unit_ok_digits; [exact unit_h|reflexivity|done|apply pretty_starts; lia]. }
  change ("" +:+ ?x) with x in E. rewrite E, Hmins by (done || lia). f_equal. lia.
Qed.

(** ** Text that is not trimmed *)

Definition solid (c : ascii) : bool := (33 <=? code c) && (code c <? 128).

Lemma trim_front_solid n ws (b : byte) l : Forall (fun w => match w with x :: _ => (b2z x <? 33) || (128 <=? b2z x) = true | [] => False end) ws ->
  33 <= b2z b < 128 -> trim_front n ws (b :: l) = b :: l.
Proof.
  intros Hws Hb. destruct n as [|n]; [done|]. cbn [trim_front]. destruct (List.find _ ws) as [w|] eqn:E; [|done]. exfalso.
  apply List.find_some in E as [Hw Hp%bool_decide_eq_true]. rewrite List.Forall_forall in Hws. specialize (Hws w Hw).
  destruct w as [|x w]; [done|]. destruct Hp as [k [= <- _]]. lia.
Qed.

Definition hollow_head (w : list byte) : Prop := match w with x :: _ => (b2z x <? 33) || (128 <=? b2z x) = true | [] => False end.
Lemma spaces_front : Forall hollow_head spaces.
Proof. unfold spaces. repeat (constructor; [reflexivity|]). constructor. Qed.
Lemma spaces_back : Forall hollow_head (map (@rev byte) spaces).
Proof. unfold spaces. cbn [map rev app]. repeat (constructor; [reflexivity|]). constructor. Qed.

(** Only the ends matter. *)
Lemma TrimSpaceS_solid c s t d : s = String c t -> (exists u, s = u +:+ String d "") -> solid c = true -> solid d = true -> TrimSpaceS s = s.
Proof.
  intros Hc [u Hd] Hsc Hsd. unfold solid in *. apply andb_true_iff in Hsc, Hsd. unfold TrimSpaceS, TrimSpace.
  assert (String.list_byte_of_string s = byte_of_ascii c :: String.list_byte_of_string t) as E1 by (by rewrite Hc).
  assert (trim_front (length (String.list_byte_of_string s)) spaces (String.list_byte_of_string s) = String.list_byte_of_string s) as ->.
  { rewrite E1 at 2. rewrite trim_front_solid; [by rewrite E1|exact spaces_front|rewrite byte_code; lia]. }
  assert (rev (String.list_byte_of_string s) = byte_of_ascii d :: rev (String.list_byte_of_string u)) as E2.
  { rewrite Hd. unfold String.list_byte_of_string. rewrite chars_app, map_app, rev_app_distr. done. }
  rewrite E2. rewrite trim_front_solid; [|exact spaces_back|rewrite byte_code; lia].
  rewrite <- E2, rev_involutive. apply string_of_list_of_string.
Qed.

Lemma append_assoc a b c : (a +:+ b) +:+ c = a +:+ (b +:+ c).
Proof. apply chars_inj. rewrite !chars_app. symmetry. apply app_assoc. Qed.

Lemma duration_abs_ends u : 0 <= u <= 2 ^ 63 -> starts_digit (duration_abs u) = true /\ exists t, duration_abs u = t +:+ "s".
Proof.
  intros Hu. unfold duration_abs. destruct (u <? 1000000000) eqn:E; zbool.
  - destruct (u =? 0); [by split; [|exists "0"]|]. assert (exists p x, small_unit u = (p, x +:+ "s")) as (p & x & ->).
    { unfold small_unit. destruct (u <? 1000); [by exists 0%nat, "n"|]. destruct (u <? 1000000); [|by exists 6%nat, "m"].
      exists 3%nat, (String (ascii_of_N 194) (String (ascii_of_N 181) "")). reflexivity. }
    destruct (fmtFrac_spec p u ltac:(lia)) as (frac & -> & _). split; [apply pretty_starts, Z.div_pos; [lia|apply Z.pow_pos_nonneg; lia]|].
    exists (pretty (u / 10 ^ Z.of_nat p) +:+ (frac +:+ x)). by rewrite !append_assoc.
  - destruct (fmtFrac_spec 9 u ltac:(lia)) as (frac & -> & _). change (10 ^ Z.of_nat 9) with 1000000000. set (t := u / 1000000000).
    assert (0 <= t) by (apply Z.div_pos; lia). pose proof (Z.mod_pos_bound t 60 ltac:(lia)). pose proof (Z.mod_pos_bound (t / 60) 60 ltac:(lia)).
    destruct (t / 60 >? 0); [destruct (t / 60 / 60 >? 0) eqn:Eh; zbool|].
    + split; [apply pretty_starts; lia|]. exists (pretty (t / 60 / 60) +:+ ("h" +:+ (pretty (t / 60 mod 60) +:+ ("m" +:+ (pretty (t mod 60) +:+ frac))))).
      by rewrite !append_assoc.
    + split; [apply pretty_starts; lia|]. exists (pretty (t / 60 mod 60) +:+ ("m" +:+ (pretty (t mod 60) +:+ frac))). by rewrite !append_assoc.
    + split; [apply pretty_starts; lia|]. exists (pretty (t mod 60) +:+ frac). by rewrite !append_assoc.
Qed.

(** ** What is printed is read back *)

Lemma duration_abs_reads u : 0 <= u <= 2 ^ 63 -> duration_terms (String.length (duration_abs u)) 0 (duration_abs u) = Some u.
Proof.
  intros Hu. destruct (Z.eq_dec u 0) as [->|Hne]; [reflexivity|].
  destruct (Z_lt_dec u 1000000000); [apply small_terms|apply big_terms]; done || lia.
Qed.

Lemma solid_digit c : is_digit c = true -> solid c = true /\ Ascii.eqb c "+" = false /\ Ascii.eqb c "-" = false.
Proof. intros Hc. destruct (digit_char c Hc) as (H1 & H2 & _). split; [|done]. unfold is_digit, solid in *. lia. Qed.

Lemma no_number t : digits (t +:+ "s") = None.
Proof.
  unfold digits. destruct (String.eqb_spec (t +:+ "s") "") as [E|_]; [done|]. by apply (digits_from_letter t "s" "").
Qed.

Lemma ParseDuration_String d : in_s 64 d -> ParseDuration (Duration_String d) = Ok d.
Proof.
  intros Hd. unfold in_s in Hd. change (64 - 1) with 63 in Hd. rewrite !pow63 in Hd. unfold ParseDuration, Duration_String, time_ParseDuration.
  destruct (d <? 0) eqn:Eneg; zbool.
  - destruct (duration_abs_ends (- d)) as [Hs [t Ht]]; [rewrite pow63; lia|]. pose proof (duration_abs_reads (- d) ltac:(rewrite pow63; lia)) as Hr.
    rewrite (TrimSpaceS_solid "-" ("-" +:+ duration_abs (- d)) (duration_abs (- d)) "s"); [|done|exists ("-" +:+ t); by rewrite Ht, append_assoc|done|done].
    rewrite (proj2 (String.eqb_neq ("-" +:+ duration_abs (- d)) "")) by done.
    assert (ParseInt ("-" +:+ duration_abs (- d)) = None) as ->.
    { change ("-" +:+ duration_abs (- d)) with (String "-" (duration_abs (- d))). unfold ParseInt. cbn [Ascii.eqb Bool.eqb]. by rewrite Ht, no_number. }
    change (strip_sign ("-" +:+ duration_abs (- d))) with (true, duration_abs (- d)). cbv beta iota.
    assert (String.eqb (duration_abs (- d)) "0" = false /\ String.eqb (duration_abs (- d)) "" = false) as [-> ->].
    { rewrite Ht. split; apply String.eqb_neq; intros E; apply (f_equal (fun x => rev (chars x))) in E; rewrite chars_app, rev_app_distr in E; discriminate E. }
    rewrite Hr. f_equal. rewrite Z.opp_involutive. apply i64_small. rewrite pow63. lia.
  - destruct (duration_abs_ends d) as [Hs [t Ht]]; [rewrite pow63; lia|]. pose proof (duration_abs_reads d ltac:(rewrite pow63; lia)) as Hr.
    destruct (duration_abs d) as [|c w] eqn:Ew; [done|]. cbn [starts_digit] in Hs. destruct (solid_digit c Hs) as (Hsol & Hp & Hm).
    rewrite (TrimSpaceS_solid c (String c w) w "s"); [|done|exists t; exact Ht|done|done]. cbn [String.eqb].
    assert (ParseInt (String c w) = None) as -> by (unfold ParseInt; rewrite Hp, Hm, Ht, no_number; done).
    unfold strip_sign. rewrite Hp, Hm. rewrite (proj2 (String.eqb_neq (String c w) "0")).
    + cbn [String.eqb]. rewrite Hr. assert ((d >? 2 ^ 63 - 1) = false) as -> by (rewrite pow63; lia). done.
    + rewrite Ht. intros E. apply (f_equal (fun x => rev (chars x))) in E. rewrite chars_app, rev_app_distr in E. discriminate E.
Qed.

Lemma last_char s : s <> "" -> exists u d, s = u +:+ String d "".
Proof.
  intros Hne. induction s as [|c s IH]; [done|]. destruct s as [|c' s]; [by exists "", c|].
  destruct IH as (u & d & E); [done|]. exists (String c u), d. by rewrite E.
Qed.

Lemma pretty_abs (z : Z) : 0 <= z -> exists c t u d, pretty z = String c t /\ pretty z = u +:+ String d "" /\ is_digit c = true /\ is_digit d = true.
Proof.
  intros Hz. destruct (digits_nonempty _ _ (pretty_nonneg z Hz)) as (Hne & _ & Hall). destruct (last_char _ Hne) as (u & d & Ed).
  destruct (pretty z) as [|c t] eqn:Ep; [done|]. exists c, t, u, d. split_and!; [done|done|cbn in Hall; by apply andb_true_iff in Hall as [? _]|].
  rewrite Ed, string_forallb_app in Hall. apply andb_true_iff in Hall as [_ Hd]. cbn in Hd. by apply andb_true_iff in Hd as [? _].
Qed.

Lemma pretty_trimmed (z : Z) : TrimSpaceS (pretty z) = pretty z /\ pretty z <> "".
Proof.
  destruct (pretty_abs (Z.abs z)) as (c & t & u & d & E1 & E2 & Hc & Hd); [lia|]. destruct (solid_digit c Hc) as [Hsc _], (solid_digit d Hd) as [Hsd _].
  destruct z as [|p|p].
  - done.
  - change (Z.abs (Zpos p)) with (Zpos p) in *. split; [|by rewrite E1]. apply (TrimSpaceS_solid c _ t d); [done|by exists u|done|done].
  - rewrite pretty_neg. change (Z.abs (Zneg p)) with (Zpos p) in *. split; [|done]. apply (TrimSpaceS_solid "-" _ (pretty (Zpos p)) d); [done| |done|done].
    exists (String "-" u). by rewrite E2.
Qed.

Lemma ParseInt_pretty (z : Z) : in_s 64 z -> ParseInt (pretty z) = Some z.
Proof.
  intros Hz. unfold in_s in Hz. change (64 - 1) with 63 in Hz. destruct z as [|p|p]; [done| |].
  - rewrite (ParseInt_digits _ (Zpos p)) by (by apply pretty_nonneg). by rewrite (proj2 (Z.ltb_lt _ _)) by lia.
  - rewrite pretty_neg. unfold ParseInt. rewrite (pretty_nonneg (Zpos p)) by done. cbn [Ascii.eqb Bool.eqb option_map].
    change (- Zpos p) with (Zneg p). by rewrite (proj2 (Z.leb_le _ _)), (proj2 (Z.ltb_lt _ _)) by lia.
Qed.

Lemma ParseSize_pretty `{Platform} (z : Z) : in_s 64 z -> ParseSize (pretty z) = Ok z.
Proof.
  intros Hz. unfold ParseSize. destruct (pretty_trimmed z) as [-> Hne]. rewrite (proj2 (String.eqb_neq _ _) Hne). by rewrite ParseInt_pretty.
Qed.

Lemma in_s_64 k z : in_s (width k) z -> in_s 64 z.
Proof. unfold in_s. destruct k; cbn; lia. Qed.

(** A typed value, printed and parsed. *)
Lemma setField_print `{Platform} fmt k v : leaf_typed k v -> (forall f, v = VFloat f -> ParseFloat (fmt f) = Some f) ->
  setField (TLeaf k) (print_value fmt k v) = Ok v.
Proof.
  intros Ht Hf. unfold setField, print_value. destruct k, v as [s|b|f|z|vs]; try done; cbn [leaf_typed] in Ht.
  - by destruct b.
  - by rewrite (Hf f eq_refl).
  - rewrite ParseSize_pretty by done. cbn [mbind res_bind]. unfold in_s in Ht. by rewrite (proj2 (Z.leb_le _ _)), (proj2 (Z.ltb_lt _ _)) by lia.
  - rewrite ParseSize_pretty by (by apply (in_s_64 KInt32)). cbn [mbind res_bind]. unfold in_s in Ht.
    by rewrite (proj2 (Z.leb_le _ _)), (proj2 (Z.ltb_lt _ _)) by lia.
  - rewrite ParseSize_pretty by done. cbn [mbind res_bind]. unfold in_s in Ht. by rewrite (proj2 (Z.leb_le _ _)), (proj2 (Z.ltb_lt _ _)) by lia.
  - by rewrite ParseDuration_String.
Qed.

(** ** Values and their positions *)

Lemma value_at_get segs : forall t v p t', has_type t v -> resolve t segs = Ok (Some (p, t')) ->
  exists v', get_at v p = Some v' /\ value_at t v segs = Ok (t', v').
Proof.
  induction segs as [|seg segs IH]; intros t v p t' Ht; cbn.
  { intros [= <- <-]. by exists v. }
  destruct t as [k|fs]; [done|]. destruct (find_field seg fs 0) as [[i t1]|] eqn:Ef; [|done].
  destruct (find_field_lookup _ _ _ _ _ Ef) as (k & tg & -> & Hk). cbn [plus] in *. apply has_type_struct in Ht as (vs & -> & Hf).
  destruct (Forall2_lookup_l _ _ _ _ _ Hf Hk) as (v1 & Hv1 & Ht1). destruct (resolve t1 segs) as [[[p1 t2]|]| | |] eqn:Er; cbn; try done.
  intros [= <- <-]. destruct (IH _ _ _ _ Ht1 Er) as (v' & Hg & E). exists v'. cbn. by rewrite Hv1.
Qed.

(** The leaves of a type. *)
Fixpoint positions (t : gotype) : list (list nat) :=
  match t with
  | TLeaf _ => [[]]
  | TStruct fs => (fix go i fs := match fs with [] => [] | (_, t) :: fs => map (cons i) (positions t) ++ go (S i) fs end) 0%nat fs
  end.

Lemma positions_struct fs i tg t p : fs !! i = Some (tg, t) -> p ∈ positions t -> (i :: p) ∈ positions (TStruct fs).
Proof.
  cbn [positions]. enough (forall n i, fs !! i = Some (tg, t) -> p ∈ positions t ->
    ((n + i)%nat :: p) ∈ (fix go i fs := match fs with [] => [] | (_, t) :: fs => map (cons i) (positions t) ++ go (S i) fs end) n fs) as Hg by apply (Hg 0%nat).
  induction fs as [|[tg' t'] fs IH]; intros n j Hj Hp; [done|]. apply elem_of_app. destruct j as [|j]; cbn in Hj.
  - injection Hj as <- <-. left. rewrite Nat.add_0_r. by apply list_elem_of_In, in_map, list_elem_of_In.
  - right. rewrite Nat.add_succ_r. by apply (IH (S n) j).
Qed.

(** Values of a type that agree on the leaves are equal. *)
Lemma typed_ext : forall t v v', has_type t v -> has_type t v' -> (forall p, p ∈ positions t -> get_at v p = get_at v' p) -> v = v'.
Proof.
  fix IH 1. intros [k|fs] v v' Hv Hv' Hp.
  { specialize (Hp [] ltac:(by left)). cbn in Hp. by injection Hp. }
  apply has_type_struct in Hv as (vs & -> & Hf), Hv' as (vs' & -> & Hf'). f_equal.
  assert (forall i tg t p, fs !! i = Some (tg, t) -> p ∈ positions t -> get_at (VStruct vs) (i :: p) = get_at (VStruct vs') (i :: p)) as Hp'.
  { intros i tg t p Hi Hin. apply Hp. by eapply positions_struct. }
  clear Hp. revert vs vs' Hf Hf' Hp'. induction fs as [|[tg t] fs IHf]; intros vs vs' Hf Hf' Hp'; inversion Hf; inversion Hf'; subst; [done|].
  f_equal.
  - apply (IH t); [done|done|]. intros p Hin. exact (Hp' 0%nat tg t p eq_refl Hin).
  - apply IHf; [done|done|]. intros i tg' t' p Hi Hin. exact (Hp' (S i) tg' t' p Hi Hin).
Qed.
