(* ===== verification/ConfigCmdProps.v ===== *)
(** * What the configuration commands promise

    The printed configuration, set as the environment, is the same configuration; and
    what is redacted does not show. *)

From S2P Require Import Prelude Bytes Names Text GoText Flags Config ConfigLoad ConfigFacts ConfigProps ConfigText Serve ConfigCmd ConfigCmdFacts.

#[local] Open Scope Z_scope.

(** ** The value of a field *)

Lemma valueOf_shown fmt l f show : has_type RootConfig (ld_Config l) -> f ∈ Fields ->
  exists p k v, fieldByPath (fd_Path f) = Ok (Some (p, TLeaf k)) /\ setting (ld_Config l) (fd_Path f) = Some v /\ leaf_typed k v /\
    valueOf fmt l f show = Ok (if fd_Secret f && negb show then match v with VString "" => "" | _ => "[redacted]" end else print_value fmt k v).
Proof.
  intros Ht Hf. destruct (known_leaf _ (Fields_known f Hf)) as (p & k & E). pose proof E as Er. unfold fieldByPath in Er.
  destruct (value_at_get _ _ _ _ _ Ht Er) as (v & Hg & Hv). exists p, k, v. unfold setting. rewrite E. split_and!; [done|done| |].
  - destruct (resolve_get _ _ _ _ _ Ht Er) as (v' & Hg' & Hk). rewrite Hg in Hg'. by injection Hg' as <-.
  - unfold valueOf. rewrite Hv. cbn [mbind res_bind fst snd]. by destruct (fd_Secret f && negb show).
Qed.

Lemma each_single {A B} (f : A -> res (list B)) (g : A -> B) l : (forall x, x ∈ l -> f x = Ok [g x]) -> each f l = Ok (map g l).
Proof.
  induction l as [|x l IH]; intros Hf; cbn [each map]; [done|]. rewrite Hf by by left. cbn [mbind res_bind]. rewrite IH; [done|].
  intros y Hy. apply Hf. by right.
Qed.

(** The text of a field as it is printed with the secrets. *)
Definition text_of (fmt : float64 -> string) (l : Loaded) (f : Field) : string := match valueOf fmt l f true with Ok s => s | _ => "" end.

Lemma print_env_shown fmt l : has_type RootConfig (ld_Config l) -> print_env fmt l true = Ok (map (fun f => (fd_Env f, text_of fmt l f)) Fields).
Proof.
  intros Ht. unfold print_env. apply each_single. intros f Hf. unfold text_of. destruct (valueOf_shown fmt l f true Ht Hf) as (p & k & v & _ & _ & _ & ->). done.
Qed.

(** ** The printed environment *)

Definition variables (ps : list (string * string)) (k : string) : option string := snd <$> List.find (fun p => String.eqb p.1 k) ps.

Lemma NoDup_find {A} (key : A -> string) l x : NoDup (map key l) -> x ∈ l -> List.find (fun y => String.eqb (key y) (key x)) l = Some x.
Proof.
  induction l as [|y l IH]; [by intros _ ?%elem_of_nil|]. cbn. intros [Hy Hnd]%NoDup_cons Hx. destruct (String.eqb_spec (key y) (key x)) as [E|E].
  - apply elem_of_cons in Hx as [->|Hx]; [done|]. exfalso. apply Hy. rewrite E. by apply list_elem_of_In, in_map, list_elem_of_In.
  - apply elem_of_cons in Hx as [->|Hx]; [done|]. auto.
Qed.

Lemma find_map_none {A} (g : A -> string * string) l k : (forall x, x ∈ l -> (g x).1 <> k) -> List.find (fun p => String.eqb p.1 k) (map g l) = None.
Proof.
  intros Hne. destruct (List.find _ _) as [p|] eqn:E; [|done]. apply List.find_some in E as [Hin He]. apply String.eqb_eq in He.
  apply in_map_iff in Hin as (x & <- & Hx). exfalso. apply (Hne x); [by apply list_elem_of_In|done].
Qed.

Lemma find_map_some {A} (g : A -> string * string) l x : NoDup (map (fun y => (g y).1) l) -> x ∈ l ->
  List.find (fun p => String.eqb p.1 (g x).1) (map g l) = Some (g x).
Proof.
  induction l as [|y l IH]; [by intros _ ?%elem_of_nil|]. cbn. intros [Hy Hnd]%NoDup_cons Hx. destruct (String.eqb_spec (g y).1 (g x).1) as [E|E].
  - apply elem_of_cons in Hx as [->|Hx]; [done|]. exfalso. apply Hy. rewrite E. apply list_elem_of_In, in_map_iff. exists x. split; [done|]. by apply list_elem_of_In.
  - apply elem_of_cons in Hx as [->|Hx]; [done|]. auto.
Qed.

(** The names of the variables, from the table of all settings. *)
Lemma names_NoDup : NoDup ((EnvPrefix +:+ "_CONFIG") :: map fd_Env Fields ++ map (fun f => fd_Env f +:+ "_FILE") Fields).
Proof. apply (bool_decide_unpack _). vm_compute. exact I. Qed.

Lemma variables_env (text : Field -> string) f : f ∈ Fields ->
  variables (map (fun f => (fd_Env f, text f)) Fields) (fd_Env f) = Some (text f) /\
  variables (map (fun f => (fd_Env f, text f)) Fields) (fd_Env f +:+ "_FILE") = None.
Proof.
  intros Hf. pose proof names_NoDup as Hnd. apply NoDup_cons in Hnd as [_ Hnd]. apply NoDup_app in Hnd as (Hnd & Hsep & _). split.
  - unfold variables. pose proof (find_map_some (fun f => (fd_Env f, text f)) Fields f Hnd Hf) as E. cbn [fst] in E. by rewrite E.
  - unfold variables. rewrite find_map_none; [done|]. intros g Hg E. cbn in E. apply (Hsep (fd_Env g)).
    + by apply list_elem_of_In, in_map, list_elem_of_In.
    + rewrite E. apply list_elem_of_In, in_map_iff. exists f. split; [done|]. by apply list_elem_of_In.
Qed.

Lemma variables_config (text : Field -> string) : variables (map (fun f => (fd_Env f, text f)) Fields) (EnvPrefix +:+ "_CONFIG") = None.
Proof.
  pose proof names_NoDup as Hnd. apply NoDup_cons in Hnd as [Hn _]. unfold variables. rewrite find_map_none; [done|].
  intros g Hg E. cbn in E. apply Hn. rewrite <- E. apply elem_of_app. left. by apply list_elem_of_In, in_map, list_elem_of_In.
Qed.

(** ** Round trip *)

Lemma parsed_text `{Platform} fmt l f : has_type RootConfig (ld_Config l) -> f ∈ Fields ->
  (forall x, setting (ld_Config l) (fd_Path f) = Some (VFloat x) -> ParseFloat (fmt x) = Some x) ->
  exists v, setting (ld_Config l) (fd_Path f) = Some v /\ parsed (fd_Path f) (text_of fmt l f) = Ok v.
Proof.
  intros Ht Hf Hfl. destruct (valueOf_shown fmt l f true Ht Hf) as (p & k & v & E & Hs & Hk & Ev). exists v. split; [done|].
  unfold parsed, text_of. rewrite E, Ev. cbn [negb]. rewrite andb_false_r. apply setField_print; [done|]. intros x ->. by apply Hfl.
Qed.

Lemma sortedKeys_empty {V} : sortedKeys (∅ : gmap string V) = [].
Proof. unfold sortedKeys. by rewrite map_to_list_empty. Qed.

Lemma no_problems `{Platform} w (text : Field -> string) :
  (forall f, f ∈ Fields -> env_action w f = Assign (text f) ("env:" +:+ fd_Env f) (BadEnv (fd_Env f)) /\ exists v, parsed (fd_Path f) (text f) = Ok v) ->
  all_problems w (mkOptions "" ∅) ∅ "" = [].
Proof.
  intros Hall. unfold all_problems. cbn [op_Overrides]. rewrite !sortedKeys_empty. cbn [flat_map app]. rewrite app_nil_r.
  induction Fields as [|f fs IH]; [done|]. cbn [flat_map]. destruct (Hall f ltac:(by left)) as [-> [v Hv]]. cbn [blames]. unfold bad_value. rewrite Hv.
  apply IH. intros g Hg. apply Hall. by right.
Qed.

(** The positions of the known settings are all the leaves. *)
Lemma leaves_known p : p ∈ positions RootConfig -> exists f, f ∈ Fields /\ position (fd_Path f) = p.
Proof.
  intros Hp. assert (forallb (fun p => bool_decide (p ∈ map (fun f => position (fd_Path f)) Fields)) (positions RootConfig) = true) as Hall by (vm_compute; reflexivity).
  rewrite forallb_forall in Hall. apply list_elem_of_In, Hall, bool_decide_eq_true_1 in Hp. apply list_elem_of_In, in_map_iff in Hp as (f & <- & Hf).
  exists f. split; [by apply list_elem_of_In|done].
Qed.

Lemma same_settings c c' : has_type RootConfig c -> has_type RootConfig c' ->
  (forall f, f ∈ Fields -> setting c (fd_Path f) = setting c' (fd_Path f)) -> c = c'.
Proof.
  intros Hc Hc' Heq. apply (typed_ext RootConfig); [done|done|]. intros p (f & Hf & <-)%leaves_known.
  specialize (Heq f Hf). by rewrite !setting_position in Heq by (by apply Fields_known).
Qed.

(** C35: The printed configuration is the configuration.  Whatever layers a loaded
    configuration came from, [config print --format env --show-secrets] prints it, and
    in an environment of exactly the printed variables, without a configuration file
    and flags, loading gives the very same configuration, every setting now from its
    variable.  (Floats print as a decimal that reads back as the same number.) *)
Theorem config_print_roundtrip `{Platform} fmt w o l : flags_ok o -> Load w o = LoadOk l ->
  (forall f x, f ∈ Fields -> setting (ld_Config l) (fd_Path f) = Some (VFloat x) -> ParseFloat (fmt x) = Some x) ->
  exists ps, print_env fmt l true = Ok ps /\
    forall w', (forall k, w_env w' k = variables ps k) -> (forall p, w_exists w' p = false) ->
    exists l', Load w' (mkOptions "" ∅) = LoadOk l' /\ ld_Config l' = ld_Config l /\
      forall f, f ∈ Fields -> ld_Sources l' !! fd_Path f = Some ("env:" +:+ fd_Env f).
Proof.
  intros Hflags Hload Hfl. assert (has_type RootConfig (ld_Config l) /\ Validate (ld_Config l) = []) as [Ht Hval].
  { revert Hload. unfold Load. destruct (file_layer w o) as [|[flat used]]; [done|].
    destruct (all_layers_spec w o flat used Hflags) as (s & -> & Hty & _). case_bool_decide; cbn; [|done].
    destruct (Validate (lg_cfg s)) eqn:Ev; [|done]. intros [= <-]. done. }
  exists (map (fun f => (fd_Env f, text_of fmt l f)) Fields). split; [by apply print_env_shown|]. intros w' Henv Hex.
  assert (forall f, f ∈ Fields -> env_action w' f = Assign (text_of fmt l f) ("env:" +:+ fd_Env f) (BadEnv (fd_Env f)) /\
    exists v, parsed (fd_Path f) (text_of fmt l f) = Ok v) as Hact.
  { intros f Hf. destruct (variables_env (text_of fmt l) f Hf) as [H1 H2]. unfold env_action. rewrite !Henv, H1, H2. split; [done|].
    destruct (parsed_text fmt l f Ht Hf (fun x => Hfl f x Hf)) as (v & _ & Hv). by exists v. }
  assert (file_layer w' (mkOptions "" ∅) = inr (∅, "")) as Efile.
  { unfold file_layer, config_path. cbn [op_File String.eqb negb]. rewrite Henv, variables_config.
    destruct (List.find (w_exists w') _) as [q|] eqn:E; [|done]. apply List.find_some in E as [_ E]. by rewrite Hex in E. }
  assert (flags_ok (mkOptions "" ∅)) as Hf0 by (intros path [x Hx]; cbn in Hx; by rewrite lookup_empty in Hx).
  destruct (all_layers_spec w' (mkOptions "" ∅) ∅ "" Hf0) as (s & Es & Hty & Hprob & Hset). rewrite (no_problems w' (text_of fmt l) Hact) in Hprob.
  specialize (Hset Hprob).
  assert (forall f, f ∈ Fields -> lg_sources s !! fd_Path f = Some ("env:" +:+ fd_Env f) /\ setting (ld_Config l) (fd_Path f) = setting (lg_cfg s) (fd_Path f)) as Hall.
  { intros f Hf. destruct (variables_env (text_of fmt l) f Hf) as [H1 H2]. specialize (Hset f Hf). unfold settled, effective in Hset. cbn [op_Overrides] in Hset.
    rewrite lookup_empty, Henv, H1 in Hset. destruct Hset as [Hsrc (v & Hv & Hs)]. split; [done|].
    destruct (parsed_text fmt l f Ht Hf (fun x => Hfl f x Hf)) as (v' & -> & Hv'). rewrite Hv in Hv'. by injection Hv' as ->. }
  assert (ld_Config l = lg_cfg s) as Ec by (apply same_settings; [done|done|]; intros f Hf; by apply Hall).
  exists (mkLoaded (lg_cfg s) (lg_sources s) ""). unfold Load. rewrite Efile, Es, Hprob, bool_decide_true by done. cbn [negb]. rewrite <- Ec, Hval.
  split_and!; [done|done|]. intros f Hf. by apply Hall.
Qed.

(** [fmt] prints ten percent as it was written. *)
Definition tenth_only (x : float64) : string := "0.1".

Definition printed_sys (ps : list (string * string)) : sysenv := mkSys (variables ps) (fun _ => None) (fun _ => false) None (fun _ => None) (fun _ => []).

Lemma one_float f x : f ∈ Fields -> setting (ld_Config sample_load) (fd_Path f) = Some (VFloat x) -> ParseFloat (tenth_only x) = Some x.
Proof.
  intros Hf. assert (forallb (fun f => match setting (ld_Config sample_load) (fd_Path f) with
    | Some (VFloat x) => bool_decide (ParseFloat (tenth_only x) = Some x) | _ => true end) Fields = true) as Hall by (vm_compute; reflexivity).
  rewrite forallb_forall in Hall. apply list_elem_of_In, Hall in Hf. intros Hs. rewrite Hs in Hf. by apply bool_decide_eq_true_1 in Hf.
Qed.

Lemma config_print_roundtrip_witness : exists ps, print_env tenth_only sample_load true = Ok ps /\
  exists l', Load (printed_sys ps) (mkOptions "" ∅) = LoadOk l' /\ ld_Config l' = ld_Config sample_load.
Proof.
  destruct (config_print_roundtrip tenth_only sample_sys sample_options sample_load sample_flags sample_Load one_float) as (ps & Hps & Hrt).
  exists ps. split; [exact Hps|]. destruct (Hrt (printed_sys ps)) as (l' & Hl & Hc & _); [reflexivity|reflexivity|].
  exists l'. split; [exact Hl|exact Hc].
Defined.

Example printed_lines :
  match print_env tenth_only sample_load true with
  | Ok ps => map (fun n => List.find (fun p => String.eqb p.1 n) ps) ["KAFKA_WIRE_STORAGE_SEGMENTBYTES"; "KAFKA_WIRE_STORAGE_SEGMENTAGE"; "KAFKA_WIRE_ADMIN_TOKEN"]
  | _ => []
  end = [Some ("KAFKA_WIRE_STORAGE_SEGMENTBYTES", "67108864"); Some ("KAFKA_WIRE_STORAGE_SEGMENTAGE", "168h0m0s"); Some ("KAFKA_WIRE_ADMIN_TOKEN", "secret")].
Proof. vm_compute. reflexivity. Qed.

(** ** Redaction *)

#[local] Instance value_eq : EqDecision value.
Proof.
  refine (fix go (x y : value) : Decision (x = y) :=
    match x, y with
    | VString s, VString t => cast_if (decide (s = t))
    | VBool a, VBool b => cast_if (decide (a = b))
    | VFloat f, VFloat g => cast_if (decide (f = g))
    | VInt a, VInt b => cast_if (decide (a = b))
    | VStruct vs, VStruct ws => cast_if ((fix golist (vs ws : list value) : Decision (vs = ws) :=
        match vs, ws with
        | [], [] => left eq_refl
        | v :: vs, w :: ws => cast_if_and (go v w) (golist vs ws)
        | _, _ => right _
        end) vs ws)
    | _, _ => right _
    end); congruence.
Defined.

(** Two configurations that differ only in what the secrets are. *)
Definition same_but_secrets (l1 l2 : Loaded) : Prop :=
  ld_Sources l1 = ld_Sources l2 /\
  forall f, f ∈ Fields ->
    if fd_Secret f then setting (ld_Config l1) (fd_Path f) = Some (VString "") <-> setting (ld_Config l2) (fd_Path f) = Some (VString "")
    else setting (ld_Config l1) (fd_Path f) = setting (ld_Config l2) (fd_Path f).

Lemma valueOf_redacted fmt l1 l2 f : has_type RootConfig (ld_Config l1) -> has_type RootConfig (ld_Config l2) -> same_but_secrets l1 l2 -> f ∈ Fields ->
  valueOf fmt l1 f false = valueOf fmt l2 f false.
Proof.
  intros H1 H2 [_ Hsame] Hf. specialize (Hsame f Hf).
  destruct (valueOf_shown fmt l1 f false H1 Hf) as (p1 & k1 & v1 & E1 & S1 & T1 & ->), (valueOf_shown fmt l2 f false H2 Hf) as (p2 & k2 & v2 & E2 & S2 & T2 & ->).
  rewrite E1 in E2. injection E2 as <- <-. rewrite S1, S2 in Hsame. cbn [negb]. rewrite andb_true_r. destruct (fd_Secret f).
  - destruct (decide (v1 = VString "")) as [->|N1].
    + destruct Hsame as [Hs _]. specialize (Hs eq_refl). by injection Hs as ->.
    + assert (v2 <> VString "") as N2 by (intros ->; destruct Hsame as [_ Hs]; specialize (Hs eq_refl); by injection Hs).
      f_equal. by destruct v1 as [[|]| | | |], v2 as [[|]| | | |].
  - by injection Hsame as ->.
Qed.

Lemma each_ext {A B} (f g : A -> res (list B)) l : (forall x, x ∈ l -> f x = g x) -> each f l = each g l.
Proof.
  induction l as [|x l IH]; intros Hfg; cbn [each]; [done|]. rewrite Hfg by by left. rewrite IH; [done|]. intros y Hy. apply Hfg. by right.
Qed.

Lemma yaml_lines_ext fmt l1 l2 show fs : (forall f, f ∈ fs -> valueOf fmt l1 f show = valueOf fmt l2 f show) -> ld_Sources l1 = ld_Sources l2 ->
  forall seen, yaml_lines fmt l1 show seen fs = yaml_lines fmt l2 show seen fs.
Proof.
  intros Hv Hs. induction fs as [|f fs IH]; intros seen; cbn [yaml_lines]; [done|]. destruct (headers seen "" 0 _) as [seen' heads].
  rewrite Hv by by left. unfold source_of. rewrite Hs. destruct (valueOf fmt l2 f show); cbn [mbind res_bind]; try done.
  rewrite IH; [done|]. intros g Hg. apply Hv. by right.
Qed.

(** C36: Secrets stay secret.  In every format, what [config print] shows without
    --show-secrets is the same for any two configurations that differ only in the
    values of their secrets (the admin token and the keys of the object store), so the
    output tells nothing about them but whether they are set. *)
Theorem print_redacts fmt format l1 l2 : has_type RootConfig (ld_Config l1) -> has_type RootConfig (ld_Config l2) -> same_but_secrets l1 l2 ->
  print_format fmt format l1 false = print_format fmt format l2 false.
Proof.
  intros H1 H2 Hsame. assert (forall f, f ∈ Fields -> valueOf fmt l1 f false = valueOf fmt l2 f false) as Hv by (intros f Hf; by apply valueOf_redacted).
  destruct Hsame as [Hsrc _]. unfold print_format. destruct (String.eqb format "env"); [|destruct (String.eqb format "table"); [|destruct (String.eqb format "yaml"); [|done]]].
  - unfold print_env. rewrite (each_ext _ (fun f => v ← valueOf fmt l2 f false; Ok [(fd_Env f, v)])); [done|]. intros f Hf. by rewrite Hv.
  - unfold print_table. erewrite each_ext; [reflexivity|]. intros f Hf. cbn beta. unfold source_of. by rewrite Hv, Hsrc.
  - unfold printYAML. by rewrite (yaml_lines_ext fmt l1 l2 false Fields Hv Hsrc).
Qed.

(** The sample with another admin token. *)
Definition other_token : Loaded :=
  mkLoaded (set_at (ld_Config sample_load) (position "admin.token") (VString "hunter2")) (ld_Sources sample_load) (ld_File sample_load).

Lemma other_token_typed : has_type RootConfig (ld_Config other_token).
Proof. vm_compute. repeat split; discriminate. Qed.

Lemma sample_typed : has_type RootConfig (ld_Config sample_load).
Proof. vm_compute. repeat split; discriminate. Qed.

Lemma tokens_differ : same_but_secrets sample_load other_token.
Proof.
  split; [reflexivity|]. intros f Hf. assert (forallb (fun f => if fd_Secret f
    then Bool.eqb (bool_decide (setting (ld_Config sample_load) (fd_Path f) = Some (VString ""))) (bool_decide (setting (ld_Config other_token) (fd_Path f) = Some (VString "")))
    else bool_decide (setting (ld_Config sample_load) (fd_Path f) = setting (ld_Config other_token) (fd_Path f))) Fields = true) as Hall by (vm_compute; reflexivity).
  rewrite forallb_forall in Hall. apply list_elem_of_In, Hall in Hf. destruct (fd_Secret f).
  - apply Bool.eqb_prop in Hf. split; intros Hs; apply (bool_decide_eq_true_2 _) in Hs; [rewrite Hf in Hs|rewrite <- Hf in Hs]; by apply bool_decide_eq_true_1 in Hs.
  - by apply bool_decide_eq_true_1 in Hf.
Qed.

Lemma print_redacts_witness : as_str (ld_Config sample_load) "admin.token" <> as_str (ld_Config other_token) "admin.token" /\
  print_format tenth_only "yaml" sample_load false = print_format tenth_only "yaml" other_token false.
Proof.
  split; [vm_compute; discriminate|]. exact (print_redacts tenth_only "yaml" sample_load other_token sample_typed other_token_typed tokens_differ).
Defined.

(** A quote inside a value is not escaped, so the line is not what the comment on
    [printYAML] says: YAML ends the string in the middle. *)
Example unescaped_quote : quoteIfNeeded ("a" +:+ quote +:+ ": b") = quote +:+ "a" +:+ quote +:+ ": b" +:+ quote.
Proof. reflexivity. Qed.
