(* ===== verification/ConfigInit.v ===== *)
(** * Writing a first configuration (cmd/kafka-wire/config_cmd.go: config init)

    The starter file, the command that writes it, and what happens when it is then
    validated. *)

From S2P Require Import Prelude Bytes Names Text GoText Flags Config ConfigLoad ConfigFacts ConfigProps Serve ConfigCmd.

#[local] Open Scope Z_scope.

(** The lines of the file. *)
Definition starterConfig : list string :=
  ["# kafka-wire configuration";
   "#";
   "# Every setting here has an environment variable equivalent: uppercase the";
   "# dotted path, replace each " +:+ quote +:+ "." +:+ quote +:+ " with " +:+ quote +:+ "_" +:+ quote +:+ ", and prefix it with KAFKA_WIRE_.";
   "#   storage.datadir  ->  KAFKA_WIRE_STORAGE_DATADIR";
   "# Environment variables win over this file, so an orchestrator can always";
   "# override what is baked into an image.";
   "#";
   "# Full reference:  kafka-wire config reference";
   "# What is in use:  kafka-wire config print";
   "";
   "listeners:";
   "  # Bind to localhost by default. To accept clients from other machines,";
   "  # change this AND turn on authentication (see auth below), or the broker";
   "  # will refuse to start.";
   "  kafka: " +:+ quote +:+ "127.0.0.1:9092" +:+ quote;
   "  admin: " +:+ quote +:+ "127.0.0.1:8080" +:+ quote;
   "";
   "  # Clients reconnect to whatever the broker advertises, not to the address";
   "  # they dialed. Set this when the broker is behind NAT, a load balancer, or";
   "  # a container port mapping.";
   "  # advertisedhost: " +:+ quote +:+ "kafka.example.com" +:+ quote;
   "  # advertisedport: 9092";
   "";
   "storage:";
   "  datadir: " +:+ quote +:+ "./kafka-wire-data" +:+ quote;
   "  # retentionage: 168h";
   "  # segmentbytes: 1GiB";
   "";
   "# Cold storage. Leave the backend as " +:+ quote +:+ "none" +:+ quote +:+ " and everything stays on local";
   "# disk. " +:+ quote +:+ "fs" +:+ quote +:+ " archives to a directory, which can be an NFS or SMB mount.";
   "# " +:+ quote +:+ "s3" +:+ quote +:+ " is any S3-compatible store, not just AWS.";
   "# archive:";
   "#   backend: s3";
   "#   prefix: " +:+ quote +:+ "kafka-wire/" +:+ quote;
   "#   s3:";
   "#     bucket: " +:+ quote +:+ "my-bucket" +:+ quote;
   "#     endpoint: " +:+ quote +:+ "http://minio:9000" +:+ quote +:+ "   # omit for AWS";
   "#     region: " +:+ quote +:+ "us-east-1" +:+ quote +:+ "             # " +:+ quote +:+ "auto" +:+ quote +:+ " for Cloudflare R2 and Tigris";
   "#     addressing: " +:+ quote +:+ "path" +:+ quote +:+ "              # MinIO, Ceph and SeaweedFS want path";
   "#     # Prefer KAFKA_WIRE_ARCHIVE_S3_SECRETKEY_FILE over writing secrets here.";
   "";
   "# auth:";
   "#   saslenabled: true";
   "#   usersfile: " +:+ quote +:+ "./users.json" +:+ quote].

Definition starter_bytes : list byte := flat_map (fun l => String.list_byte_of_string l ++ [x0a]) starterConfig.

(** [os.Stat] finds the path; [os.WriteFile] succeeds, or fails after some bytes. *)
Record init_env := mkInitEnv { ie_stat : string -> bool; ie_write : option (nat * error) }.

Definition init_flags : FlagSet := [flag_String "o"; flag_Bool "force"].

Definition init_out (vals : gmap string fval) : string := match vals !! "o" with Some (FvString s) => s | _ => "kafka-wire.yaml" end.
Definition init_force (vals : gmap string fval) : bool := match vals !! "force" with Some (FvBool b) => b | _ => false end.

Definition configInit (e : init_env) (files : gmap string (list byte)) (args : list string) : gmap string (list byte) * config_out :=
  match Parse init_flags ∅ (permute init_flags args) with
  | ParseFailed er => (files, OutFlags er)
  | Parsed vals _ =>
      let out := init_out vals in
      if ie_stat e out && negb (init_force vals)
      then (files, OutErr (EMsg (out +:+ " already exists. Pass -force to overwrite it, or -o to choose another path")))
      else match ie_write e with
      | Some (n, er) => (<[out := take n starter_bytes]> files, OutErr er)
      | None =>
          (<[out := starter_bytes]> files,
           OutLines ["wrote " +:+ out; ""; "Next:"; "  kafka-wire config validate --config " +:+ out; "  kafka-wire serve --config " +:+ out])
      end
  end.

(** What the starter file says: the settings that are not commented out. *)
Definition starter_yaml : list (string * yaml) :=
  [("listeners", YMap [("kafka", YString "127.0.0.1:9092"); ("admin", YString "127.0.0.1:8080")]);
   ("storage", YMap [("datadir", YString "./kafka-wire-data")])].

Definition starter_flat : gmap string string :=
  <["storage.datadir" := "./kafka-wire-data"]> (<["listeners.admin" := "127.0.0.1:8080"]> (<["listeners.kafka" := "127.0.0.1:9092"]> ∅)).

Lemma starter_flattened unmarshal : unmarshal starter_bytes = Some starter_yaml -> flattenYAML unmarshal starter_bytes = Ok starter_flat.
Proof. intros H. unfold flattenYAML. rewrite H. vm_compute. reflexivity. Qed.

(** With no variable set the environment adds nothing. *)
Lemma env_empty `{Platform} w s fs : (forall x, w_env w x = None) -> steps (env_step w) s fs = Ok s.
Proof. intros He. induction fs as [|f fs IH]; [done|]. cbn [steps]. assert (env_step w s f = Ok s) as -> by (unfold env_step; by rewrite !He). exact IH. Qed.

(** Existing files are safe: [config init] without [-force] changes no file that is
    there; with it, none but the one it is asked to write. *)
Theorem configInit_keeps e files args vals rest path :
  (forall x, is_Some (files !! x) -> ie_stat e x = true) -> Parse init_flags ∅ (permute init_flags args) = Parsed vals rest ->
  is_Some (files !! path) -> init_force vals = false \/ path <> init_out vals ->
  (configInit e files args).1 !! path = files !! path.
Proof.
  intros Hstat Hp Hin Hk. unfold configInit. rewrite Hp. destruct (_ && _) eqn:Eg; [done|].
  assert (init_out vals <> path) as Hne.
  { destruct Hk as [Ef|?]; [|done]. intros <-. by rewrite Hstat, Ef in Eg. }
  destruct (ie_write e) as [[n er]|]; cbn [fst]; by rewrite lookup_insert_ne.
Qed.

(** Where each setting came from. *)
Definition starter_sources (path : string) : gmap string string :=
  let x := "file:" +:+ Base path in
  <["storage.datadir" := x]> (<["listeners.kafka" := x]> (<["listeners.admin" := x]> (list_to_map (map (fun f => (fd_Path f, "default")) Fields)))).

(** The starter settings are the defaults. *)
Lemma starter_layer `{Platform} w path :
  steps (file_step w path starter_flat) (mkLoading default_value (list_to_map (map (fun f => (fd_Path f, "default")) Fields)) [])
    (sortedKeys starter_flat) = Ok (mkLoading default_value (starter_sources path) []).
Proof. vm_compute. reflexivity. Qed.

Lemma default_valid : Validate default_value = [].
Proof. vm_compute. reflexivity. Qed.

(** The file of [config init] is a working configuration: where the YAML parser
    reads the starter text as what it says and no variable overrides it, the file
    loads, passes every check of [Validate], and leaves every setting at its default. *)
Theorem starter_loads `{Platform} e files args files' ls vals rest w :
  Parse init_flags ∅ (permute init_flags args) = Parsed vals rest -> init_out vals <> "" ->
  configInit e files args = (files', OutLines ls) ->
  w_yaml w starter_bytes = Some starter_yaml -> (forall x, w_env w x = None) -> (forall x, w_read w x = files' !! x) ->
  Load w (mkOptions (init_out vals) ∅) = LoadOk (mkLoaded default_value (starter_sources (init_out vals)) (init_out vals)).
Proof.
  intros Hp Hne Hinit Hy He Hr. unfold configInit in Hinit. rewrite Hp in Hinit. destruct (_ && _); [done|].
  destruct (ie_write e) as [[n er]|]; [done|]. injection Hinit as <- _.
  unfold Load, file_layer, config_path. cbn [op_File op_Overrides]. rewrite (proj2 (String.eqb_neq _ _) Hne). cbn [negb].
  rewrite (proj2 (String.eqb_neq _ _) Hne), Hr, lookup_insert_eq, (starter_flattened _ Hy).
  unfold all_layers. rewrite initial_value. cbn [mbind res_bind]. rewrite starter_layer. cbn [mbind res_bind].
  rewrite env_empty by done. cbn [mbind res_bind op_Overrides]. change (sortedKeys ∅) with (@nil string). cbn [steps lg_problems lg_cfg lg_sources].
  rewrite bool_decide_true, default_valid by done. done.
Qed.

(** Defaults of the command on an empty directory. *)
Definition first_files : gmap string (list byte) := (configInit (mkInitEnv (fun _ => false) None) ∅ []).1.
Definition first_sys : sysenv :=
  mkSys (fun _ => None) (fun x => first_files !! x) (fun _ => false) None (fun raw => if decide (raw = starter_bytes) then Some starter_yaml else None)
    (fun _ => []).

Lemma starter_loads_witness :
  Load (H := amd64) first_sys (mkOptions (init_out ∅) ∅) = LoadOk (mkLoaded default_value (starter_sources (init_out ∅)) (init_out ∅)).
Proof.
  eapply (starter_loads (mkInitEnv (fun _ => false) None) ∅ [] first_files _ ∅ [] first_sys).
  - reflexivity.
  - discriminate.
  - reflexivity.
  - cbn [w_yaml first_sys]. rewrite decide_True; reflexivity.
  - reflexivity.
  - reflexivity.
Defined.

Lemma configInit_keeps_witness :
  (configInit (mkInitEnv (fun x => bool_decide (is_Some (first_files !! x))) None) first_files ["-o"; "kafka-wire.yaml"]).1 !! "kafka-wire.yaml" =
  first_files !! "kafka-wire.yaml".
Proof.
  apply (configInit_keeps _ first_files ["-o"; "kafka-wire.yaml"] {["o" := FvString "kafka-wire.yaml"]} []).
  - intros x Hx. by apply bool_decide_eq_true.
  - vm_compute. reflexivity.
  - eexists. unfold first_files. vm_compute. reflexivity.
  - left. reflexivity.
Defined.
