(* ===== verification/Client.v ===== *)
(** * The client commands (cmd/kafka-wire/client_cmds.go, scram.go)

    [produce], [consume] and [topic] over a Kafka client.  The client is the kgo and
    kadm packages: its calls are the class [Kafka].  Output is bytes for records and
    lines for reports. *)

From Stdlib Require Import Ascii.
From stdpp Require Import pretty.
From S2P Require Import Prelude Bytes Utf8 Text GoText Flags Config ConfigLoad Serve ConfigCmd.

#[local] Open Scope Z_scope.

(** ** Flags of the standard library *)

Definition base_prefix (s : string) : Z * string :=
  match s with
  | String "0"%char (String b (String c u as t) as r) =>
      let l := lower_char b in
      if Ascii.eqb l "b" then (2, t) else if Ascii.eqb l "o" then (8, t) else if Ascii.eqb l "x" then (16, t) else (8, r)
  | String "0"%char r => (8, r)
  | _ => (10, s)
  end.

Fixpoint base_digits (base acc : Z) (s : string) : option Z :=
  match s with
  | "" => Some acc
  | String c s =>
      if Ascii.eqb c "_" then base_digits base acc s
      else match hex_digit c with Some d => if d <? base then base_digits base (acc * base + d) s else None | None => None end
  end.

(** [strconv.ParseInt(s, 0, 64)]: the base is that of the prefix, and underscores
    may stand between digits. *)
Definition ParseInt0 (s : string) : option Z :=
  let (neg, t) := strip_sign s in
  if String.eqb t "" then None
  else
    let (base, ds) := base_prefix t in
    match base_digits base 0 ds with
    | Some z =>
        let z := signed neg z in
        if underscoreOK t && (- 2 ^ 63 <=? z) && (z <? 2 ^ 63) then Some z else None
    | None => None
    end.

Definition flag_Int (name : string) : flagdef := mkFlag name false (fun s => FvInt <$> ParseInt0 s).
Definition flag_Duration (name : string) : flagdef := mkFlag name false (fun s => FvInt <$> time_ParseDuration s).

Definition string_or (vals : gmap string fval) (name def : string) : string :=
  match vals !! name with Some (FvString s) => s | _ => def end.
Definition int_or (vals : gmap string fval) (name : string) (def : Z) : Z :=
  match vals !! name with Some (FvInt z) => z | _ => def end.
Definition is_set (vals : gmap string fval) (name : string) : bool :=
  match vals !! name with Some (FvBool b) => b | _ => false end.

(** ** Text of the standard library *)

(** [utf8.Valid]: every byte belongs to an encoding. *)
Fixpoint valid_runes (l : list Z) : bool :=
  match l with
  | [] => true
  | c :: r =>
      match rune_size c r, r with
      | 2%nat, _ :: r1 => valid_runes r1
      | 3%nat, _ :: _ :: r2 => valid_runes r2
      | 4%nat, _ :: _ :: _ :: r3 => valid_runes r3
      | _, _ => (c <? 128) && valid_runes r
      end
  end.
Definition utf8_Valid (v : list byte) : bool := valid_runes (map b2z v).

(** [hex.EncodeToString], as bytes. *)
Definition hex_char (d : Z) : byte := z2b (if d <? 10 then 48 + d else 87 + d).
Definition EncodeToString (v : list byte) : list byte := b ← v; [hex_char (b2z b / 16); hex_char (b2z b mod 16)].

Definition text (s : string) : list byte := String.list_byte_of_string s.

(** Hexadecimal digits of an escape. *)
Fixpoint hex_width (n : nat) (z : Z) : list byte :=
  match n with O => [] | S n => hex_width n (z / 16) ++ [hex_char (z mod 16)] end.

(** [%q]: [isPrint] is the table of printable characters above Latin-1. *)
Section quote.
Context (isPrint : Z -> bool).

Definition IsPrint (r : Z) : bool :=
  if r <=? 255 then ((32 <=? r) && (r <? 127)) || ((161 <=? r) && negb (r =? 173)) else isPrint r.

(** [enc] is the encoding of [r]. *)
Definition escaped_rune (r : Z) (enc : list byte) : list byte :=
  if (r =? 34) || (r =? 92) then z2b 92 :: enc
  else if IsPrint r then enc
  else if r =? 7 then text "\a" else if r =? 8 then text "\b" else if r =? 12 then text "\f" else if r =? 10 then text "\n"
  else if r =? 13 then text "\r" else if r =? 9 then text "\t" else if r =? 11 then text "\v"
  else if (r <? 32) || (r =? 127) then text "\x" ++ hex_width 2 r
  else if r <? 65536 then text "\u" ++ hex_width 4 r
  else text "\U" ++ hex_width 8 r.

Definition cont (b : byte) : Z := b2z b - 128.

Fixpoint quote_runes (v : list byte) : list byte :=
  match v with
  | [] => []
  | c :: r =>
      let one := (if b2z c <? 128 then escaped_rune (b2z c) [c] else text "\x" ++ hex_width 2 (b2z c)) in
      match rune_size (b2z c) (map b2z r), r with
      | 2%nat, b1 :: r1 => escaped_rune ((b2z c - 192) * 64 + cont b1) [c; b1] ++ quote_runes r1
      | 3%nat, b1 :: b2 :: r2 => escaped_rune (((b2z c - 224) * 64 + cont b1) * 64 + cont b2) [c; b1; b2] ++ quote_runes r2
      | 4%nat, b1 :: b2 :: b3 :: r3 =>
          escaped_rune ((((b2z c - 240) * 64 + cont b1) * 64 + cont b2) * 64 + cont b3) [c; b1; b2; b3] ++ quote_runes r3
      | _, _ => one ++ quote_runes r
      end
  end.
Definition Quote (v : list byte) : list byte := z2b 34 :: quote_runes v ++ [z2b 34].
End quote.

(** [bufio.Scanner] over lines, with the largest token the command sets: the lines
    before the first one that is too long, and whether there is one. *)
Definition maxTokenSize : Z := 16 * 1024 * 1024.

Definition dropCR (l : list byte) : list byte :=
  match last l with Some b => if b2z b =? 13 then take (length l - 1) l else l | None => l end.

Fixpoint scan_lines (cur : list byte) (l : list byte) : list (list byte) * bool :=
  match l with
  | [] => if zlen cur =? 0 then ([], false) else if zlen cur >=? maxTokenSize then ([], true) else ([dropCR (rev cur)], false)
  | b :: l =>
      if b2z b =? 10 then
        if zlen cur >=? maxTokenSize then ([], true)
        else let (ls, bad) := scan_lines [] l in (dropCR (rev cur) :: ls, bad)
      else scan_lines (b :: cur) l
  end.

(** ** The client *)

Inductive kgo_opt :=
| SeedBrokers (addrs : list string) | DisableIdempotentWrite | SASLScramSha256 (user pass : string)
| DefaultProduceTopic (topic : string) | ConsumeTopics (topic : string) | ConsumerGroup (group : string) | ConsumeResetOffsetAtStart.

(** A record to send; no key is an empty one. *)
Record kgo_record := mkKgoRecord { kr_Topic : string; kr_Key : option (list byte); kr_Value : list byte }.

(** A record that was read. *)
Record kgo_fetched := mkFetched {
  kf_Topic : string; kf_Partition : Z; kf_Offset : Z; kf_Timestamp : Z; kf_Key : list byte; kf_Value : list byte
}.

Inductive poll_error := DeadlineExceeded | Canceled | PollError (e : error).

(** One turn of the loop of [consume]: the clock, what the poll returned, and
    whether the command's context has ended since. *)
Record turn := mkTurn {
  tn_now : Z; tn_closed : bool; tn_ended : bool; tn_errors : list poll_error; tn_records : list kgo_fetched
}.

Record topic_detail := mkTopicDetail { td_Topic : string; td_Partitions : list Z }.

(** The calls on the cluster.  Lists are sorted by topic, as [Sorted] returns them. *)
Class Kafka (W : Type) := {
  kc_New : list kgo_opt -> option error;
  kc_ProduceSync : list kgo_opt -> W -> kgo_record -> W * option error;
  kc_ListTopics : list kgo_opt -> W -> list string -> res (list topic_detail);
  kc_ListStartOffsets : list kgo_opt -> W -> list string -> gmap (string * Z) Z;
  kc_ListEndOffsets : list kgo_opt -> W -> list string -> gmap (string * Z) Z;
  kc_CreateTopics : list kgo_opt -> W -> Z -> Z -> list string -> W * res (list (string * option error));
  kc_DeleteTopics : list kgo_opt -> W -> list string -> W * res (list (string * option error))
}.

(** How a command ends. *)
Inductive ended := FlagsRefused (e : flag_error) | Ended (r : res unit).

Section commands.
Context {W : Type} `{Kafka W} (getenv : string -> string).

Definition clientFlags : FlagSet := [flag_String "brokers"; flag_String "user"; flag_String "password"].

Definition envOr (k def : string) : string := if String.eqb (getenv k) "" then def else getenv k.

Definition brokers_of (vals : gmap string fval) : string := string_or vals "brokers" (envOr "KAFKA_WIRE_BROKERS" "127.0.0.1:9092").

(** [newClient] with the options of [clientFlags]. *)
Definition client_opts (vals : gmap string fval) (extra : list kgo_opt) : list kgo_opt :=
  let user := string_or vals "user" (getenv "KAFKA_WIRE_USER") in
  let pass := string_or vals "password" (getenv "KAFKA_WIRE_PASSWORD") in
  [SeedBrokers (split_on "," (brokers_of vals)); DisableIdempotentWrite] ++
  (if String.eqb user "" then [] else [SASLScramSha256 user pass]) ++ extra.

(** *** produce *)

Definition produce_flags : FlagSet := clientFlags ++ [flag_String "key"].

Definition produceError (brokers : string) (e : error) : error := EWrap ("producing to " +:+ brokers +:+ " failed") e.

(** Sends the values in order, until one fails. *)
Fixpoint send_all (opts : list kgo_opt) (topic key : string) (values : list (list byte)) (n : Z) (w : W) : W * Z * option error :=
  match values with
  | [] => (w, n, None)
  | v :: vs =>
      match kc_ProduceSync opts w (mkKgoRecord topic (if String.eqb key "" then None else Some (text key)) v) with
      | (w, Some e) => (w, n, Some e)
      | (w, None) => send_all opts topic key vs (n + 1) w
      end
  end.

(** The world, what is printed on the error stream, how it ends. *)
Definition cmdProduce (args : list string) (stdin : list byte) (w : W) : W * list string * ended :=
  match Parse produce_flags ∅ (permute produce_flags args) with
  | ParseFailed e => (w, [], FlagsRefused e)
  | Parsed vals [] => (w, [], Ended (Err (EMsg "kafka-wire produce: name a topic")))
  | Parsed vals (topic :: values) =>
      let opts := client_opts vals [DefaultProduceTopic topic] in
      match kc_New opts with
      | Some e => (w, [], Ended (Err e))
      | None =>
          let '(lines, tooLong) := match values with [] => scan_lines [] stdin | _ => (map text values, false) end in
          match send_all opts topic (string_or vals "key" "") lines 0 w with
          | (w, n, Some e) => (w, [], Ended (Err (produceError (brokers_of vals) e)))
          | (w, n, None) =>
              if (tooLong : bool) then (w, [], Ended (Err (EMsg "bufio.Scanner: token too long")))
              else (w, ["produced " +:+ pretty n +:+ " record(s) to " +:+ topic], Ended (Ok tt))
          end
      end
  end.

(** *** consume *)

Definition consume_flags : FlagSet :=
  clientFlags ++ [flag_String "group"; flag_Bool "from-beginning"; flag_Int "n"; flag_String "format"; flag_Duration "timeout"].

(** How a timestamp is printed, and which characters are printable. *)
Context (fmt_time : Z -> string) (isPrint : Z -> bool).

Definition firstN (b : list byte) (n : Z) : list byte := if zlen b <? n then b else take (Z.to_nat n) b.
Definition previewValue (b : list byte) : list byte := if utf8_Valid b then b else text "0x" ++ EncodeToString b.

Definition newline : list byte := [z2b 10].

Definition writeRecord (format : string) (r : kgo_fetched) : list byte :=
  let q (s : list byte) := Quote isPrint s in
  if String.eqb format "json" then
    text "{" ++ q (text "topic") ++ text ":" ++ q (text (kf_Topic r)) ++ text "," ++ q (text "partition") ++ text ":" ++ text (pretty (kf_Partition r)) ++
    text "," ++ q (text "offset") ++ text ":" ++ text (pretty (kf_Offset r)) ++ text "," ++ q (text "timestamp") ++ text ":" ++
    q (text (fmt_time (kf_Timestamp r))) ++ text "," ++ q (text "key") ++ text ":" ++ q (kf_Key r) ++ text "," ++ q (text "value") ++ text ":" ++
    q (previewValue (kf_Value r)) ++ text "}" ++ newline
  else if String.eqb format "hex" then EncodeToString (kf_Value r) ++ newline
  else if utf8_Valid (kf_Value r) then kf_Value r ++ newline
  else text "<" ++ text (pretty (zlen (kf_Value r))) ++ text " binary bytes: " ++ EncodeToString (firstN (kf_Value r) 16) ++ text "...>" ++ newline.

(** [EachRecord]: what is written, how many were seen, and whether to stop. *)
Fixpoint write_records (format : string) (max : Z) (seen : Z) (rs : list kgo_fetched) : list byte * Z * bool :=
  match rs with
  | [] => ([], seen, false)
  | r :: rs =>
      let seen := seen + 1 in
      if (max >? 0) && (seen >=? max) then (writeRecord format r, seen, true)
      else let '(out, seen, stop) := write_records format max seen rs in (writeRecord format r ++ out, seen, stop)
  end.

Definition no_records (brokers : string) : error := EMsg ("read no records from " +:+ brokers).

(** The loop, over the turns it takes; [None] when it is still reading after them. *)
Fixpoint consume_loop (brokers format : string) (max timeout overall : Z) (seen : Z) (turns : list turn) : list byte * option (res unit) :=
  match turns with
  | [] => ([], None)
  | t :: turns =>
      let quiet := ([], Some (if seen =? 0 then Err (no_records brokers) else Ok tt)) in
      if (timeout >? 0) && (tn_now t >? overall) then quiet
      else if tn_closed t then ([], Some (Ok tt))
      else if tn_ended t then ([], Some (Ok tt))
      else match tn_errors t with
      | DeadlineExceeded :: _ => if timeout >? 0 then quiet else ([], Some (Err (EWrap ("consuming from " +:+ brokers) (EMsg "context deadline exceeded"))))
      | Canceled :: _ => ([], Some (Ok tt))
      | PollError e :: _ => ([], Some (Err (EWrap ("consuming from " +:+ brokers) e)))
      | [] =>
          let '(out, seen, stop) := write_records format max seen (tn_records t) in
          if (stop : bool) then (out, Some (Ok tt))
          else let '(rest, r) := consume_loop brokers format max timeout overall seen turns in (out ++ rest, r)
      end
  end.

Definition consume_opts (vals : gmap string fval) (topic : string) : list kgo_opt :=
  client_opts vals ([ConsumeTopics topic] ++
    (if String.eqb (string_or vals "group" "") "" then [] else [ConsumerGroup (string_or vals "group" "")]) ++
    (if is_set vals "from-beginning" then [ConsumeResetOffsetAtStart] else [])).

(** [now] is when the loop starts; the turns are those of a client with the options. *)
Definition cmdConsume (args : list string) (now : Z) (turns : list kgo_opt -> Z -> list turn) : list byte * option ended :=
  match Parse consume_flags ∅ (permute consume_flags args) with
  | ParseFailed e => ([], Some (FlagsRefused e))
  | Parsed vals [] => ([], Some (Ended (Err (EMsg "kafka-wire consume: name a topic"))))
  | Parsed vals (topic :: _) =>
      let opts := consume_opts vals topic in
      match kc_New opts with
      | Some e => ([], Some (Ended (Err e)))
      | None =>
          let timeout := int_or vals "timeout" 0 in
          let '(out, r) := consume_loop (brokers_of vals) (string_or vals "format" "value") (int_or vals "n" 0) timeout
                             (now + timeout) 0 (turns opts timeout) in
          (out, Ended <$> r)
      end
  end.

(** *** topic *)

Definition topic_flags : FlagSet := clientFlags ++ [flag_Int "partitions"].

(** The lines until the first answer that is an error. *)
Fixpoint report (ctx : string) (line : string -> string) (answers : list (string * option error)) : list string * res unit :=
  match answers with
  | [] => ([], Ok tt)
  | (t, Some e) :: _ => ([], Err (EWrap (ctx +:+ " " +:+ t) e))
  | (t, None) :: rest => let (ls, r) := report ctx line rest in (line t :: ls, r)
  end.

Definition describe_lines (starts ends : gmap (string * Z) Z) (td : topic_detail) : list string :=
  td_Topic td :: ("  " +:+ pad_right 10 "PARTITION" +:+ " " +:+ pad_right 14 "START" +:+ " " +:+ pad_right 14 "END" +:+ " RECORDS") ::
  map (fun p =>
    let s := default 0 (starts !! (td_Topic td, p)) in
    let e := default 0 (ends !! (td_Topic td, p)) in
    "  " +:+ pad_right 10 (pretty p) +:+ " " +:+ pad_right 14 (pretty s) +:+ " " +:+ pad_right 14 (pretty e) +:+ " " +:+ pretty (i64 (e - s)))
    (td_Partitions td).

Definition topic_command (sub : string) (vals : gmap string fval) (names : list string) (w : W) : W * list string * res unit :=
  let opts := client_opts vals [] in
  let named (what : string) (r : W * list string * res unit) :=
    match names with [] => (w, [], Err (EMsg ("kafka-wire topic " +:+ what +:+ ": name a topic"))) | _ => r end in
  if String.eqb sub "list" || String.eqb sub "ls" then
    match kc_ListTopics opts w [] with
    | Ok [] => (w, ["no topics yet. Create one:  kafka-wire topic create demo"], Ok tt)
    | Ok tds =>
        (w, (pad_right 40 "TOPIC" +:+ " PARTITIONS") ::
            map (fun t => pad_right 40 (td_Topic t) +:+ " " +:+ pretty (zlen (td_Partitions t))) tds, Ok tt)
    | Err e => (w, [], Err (EWrap ("listing topics on " +:+ brokers_of vals) e))
    | Panic => (w, [], Panic)
    | Diverge => (w, [], Diverge)
    end
  else if String.eqb sub "create" then
    named "create"
      (let partitions := int_or vals "partitions" 1 in
       match kc_CreateTopics opts w (i32 partitions) 1 names with
       | (w, Ok answers) =>
           let (ls, r) := report "creating" (fun t => "created " +:+ t +:+ " with " +:+ pretty partitions +:+ " partition(s)") answers in (w, ls, r)
       | (w, Err e) => (w, [], Err (EWrap ("creating topics on " +:+ brokers_of vals) e))
       | (w, Panic) => (w, [], Panic)
       | (w, Diverge) => (w, [], Diverge)
       end)
  else if String.eqb sub "describe" then
    named "describe"
      (match kc_ListTopics opts w names with
       | Ok tds =>
           (w, tds ≫= describe_lines (kc_ListStartOffsets opts w names) (kc_ListEndOffsets opts w names), Ok tt)
       | Err e => (w, [], Err e)
       | Panic => (w, [], Panic)
       | Diverge => (w, [], Diverge)
       end)
  else if String.eqb sub "delete" || String.eqb sub "rm" then
    named "delete"
      (match kc_DeleteTopics opts w names with
       | (w, Ok answers) => let (ls, r) := report "deleting" (fun t => "deleted " +:+ t) answers in (w, ls, r)
       | (w, Err e) => (w, [], Err e)
       | (w, Panic) => (w, [], Panic)
       | (w, Diverge) => (w, [], Diverge)
       end)
  else (w, [], Err (EMsg ("kafka-wire topic: unknown subcommand " +:+ sub))).

Definition topicUsage : list string :=
  ["kafka-wire topic - manage topics"; ""; "  topic list"; "  topic create NAME [-partitions N]"; "  topic describe NAME"; "  topic delete NAME"].

Definition cmdTopic (args : list string) (w : W) : W * list string * ended :=
  match args with
  | [] => (w, topicUsage, Ended (Ok tt))
  | sub :: args =>
      match Parse topic_flags ∅ (permute topic_flags args) with
      | ParseFailed e => (w, [], FlagsRefused e)
      | Parsed vals names =>
          match kc_New (client_opts vals []) with
          | Some e => (w, [], Ended (Err e))
          | None => let '(w, ls, r) := topic_command sub vals names w in (w, ls, Ended r)
          end
      end
  end.
End commands.
