(* ===== verification/ClientProps.v ===== *)
(** * What the client commands guarantee

    [produce] sends the lines it is given, [consume] prints the records it reads and
    no more than it is asked for, and where the output is not what it says. *)

From Stdlib Require Import Ascii.
From stdpp Require Import pretty.
From S2P Require Import Prelude Bytes Text GoText Flags Config ConfigLoad Serve ConfigCmd Client.

#[local] Open Scope Z_scope.

(** ** Lines *)

(** A line that is one record: no line feed in it, no carriage return at its end,
    within the scanner's limit. *)
Definition line_ok (l : list byte) : Prop := ~ In x0a l /\ last l <> Some x0d /\ zlen l < maxTokenSize.

Definition unlines (ls : list (list byte)) : list byte := ls ≫= fun l => l ++ newline.

Lemma dropCR_id l : last l <> Some x0d -> dropCR l = l.
Proof.
  intros H. unfold dropCR. destruct (last l) as [b|]; [|done]. destruct (Z.eqb_spec (b2z b) 13) as [E|]; [|done].
  destruct H. f_equal. by apply b2z_inj.
Qed.

Lemma scan_lines_line l rest : forall cur, ~ In x0a l ->
  scan_lines cur (l ++ newline ++ rest) =
    (if zlen (rev l ++ cur) >=? maxTokenSize then ([], true)
     else let (ls, bad) := scan_lines [] rest in (dropCR (rev cur ++ l) :: ls, bad)).
Proof.
  induction l as [|b l IH]; intros cur Hn; [by rewrite app_nil_r|]. cbn [app scan_lines].
  destruct (Z.eqb_spec (b2z b) 10) as [E|_]; [destruct Hn; left; by apply b2z_inj|].
  rewrite IH by (intros ?; apply Hn; by right). cbn [rev]. by rewrite <- !app_assoc.
Qed.

Lemma scan_unlines ls : Forall line_ok ls -> scan_lines [] (unlines ls) = (ls, false).
Proof.
  induction 1 as [|l ls (Hn & Hr & Hz) _ IH]; [done|]. unfold unlines. cbn [mbind list_bind]. fold (unlines ls).
  rewrite <- app_assoc, scan_lines_line, IH, app_nil_r by done. cbn [rev app].
  assert ((zlen (rev l) >=? maxTokenSize) = false) as ->.
  { rewrite Z.geb_leb. apply Z.leb_gt. unfold zlen in *. by rewrite length_rev. }
  by rewrite dropCR_id.
Qed.

(** ** produce *)

Section produce.
Context {W : Type} `{Kafka W}.

(** The cluster after these records were accepted in turn. *)
Inductive accepted (opts : list kgo_opt) : W -> list kgo_record -> W -> Prop :=
| accepted_nil w : accepted opts w [] w
| accepted_cons w r w1 rs w2 : kc_ProduceSync opts w r = (w1, None) -> accepted opts w1 rs w2 -> accepted opts w (r :: rs) w2.

Definition record_of (topic key : string) (v : list byte) : kgo_record :=
  mkKgoRecord topic (if String.eqb key "" then None else Some (text key)) v.

Lemma send_all_spec opts topic key vs : forall n w w' n' e, send_all opts topic key vs n w = (w', n', e) ->
  exists k w1, accepted opts w (map (record_of topic key) (take k vs)) w1 /\ n' = n + Z.of_nat k /\
    match e with
    | None => k = length vs /\ w' = w1
    | Some er => exists v, vs !! k = Some v /\ kc_ProduceSync opts w1 (record_of topic key v) = (w', Some er)
    end.
Proof.
  induction vs as [|v vs IH]; intros n w w' n' e E; cbn [send_all] in E.
  - injection E as <- <- <-. exists 0%nat, w. split; [constructor|]. split; [lia|done].
  - fold (record_of topic key v) in E. destruct (kc_ProduceSync opts w (record_of topic key v)) as [w1 [er|]] eqn:Ep.
    + injection E as <- <- <-. exists 0%nat, w. split; [constructor|]. split; [lia|]. by exists v.
    + apply IH in E as (k & w2 & Hacc & Hn & He). exists (S k), w2. split; [by econstructor|]. split; [lia|].
      destruct e as [er|]; [done|]. destruct He as [-> ->]. done.
Qed.

(** [produce] with lines on the standard input: it sends the lines, one record
    each with the topic and the key it was given, in order, and stops at the first
    one that is refused; it reports success, with their number, exactly when all
    were accepted. *)
Theorem cmdProduce_lines getenv args ls w w' out r vals topic :
  Parse produce_flags ∅ (permute produce_flags args) = Parsed vals [topic] ->
  let opts := client_opts getenv vals [DefaultProduceTopic topic] in
  let rs := map (record_of topic (string_or vals "key" "")) ls in
  kc_New opts = None -> Forall line_ok ls -> cmdProduce getenv args (unlines ls) w = (w', out, Ended r) ->
  (r = Ok tt /\ accepted opts w rs w' /\ out = ["produced " +:+ pretty (zlen ls) +:+ " record(s) to " +:+ topic]) \/
  (out = [] /\ exists k w1 v e, accepted opts w (take k rs) w1 /\ rs !! k = Some v /\ kc_ProduceSync opts w1 v = (w', Some e) /\
     r = Err (produceError (brokers_of getenv vals) e)).
Proof.
  intros Hp opts rs Hnew Hls. unfold cmdProduce. rewrite Hp. fold opts. rewrite Hnew, scan_unlines by done.
  destruct (send_all opts topic _ ls 0 w) as [[w1 n] e] eqn:E. apply send_all_spec in E as (k & w2 & Hacc & Hn & He).
  unfold rs. destruct e as [er|]; intros [= <- <- <-].
  - right. split; [done|]. destruct He as (v & Hv & Hf). exists k, w2. eexists _, er. rewrite <- firstn_map in Hacc.
    split_and!; [done| |exact Hf|done]. by rewrite list_lookup_fmap, Hv.
  - left. destruct He as [-> ->]. rewrite take_ge in Hacc by lia. split_and!; [done|done|]. by rewrite Hn.
Qed.
End produce.

(** ** consume *)

Section consume.
Context (fmt_time : Z -> string) (isPrint : Z -> bool).

#[local] Abbreviation write format := (writeRecord fmt_time isPrint format).

Lemma write_records_spec format max rs : forall seen out seen' stop, write_records fmt_time isPrint format max seen rs = (out, seen', stop) ->
  (0 < max -> seen < max) ->
  exists k, out = take k rs ≫= write format /\ (k <= length rs)%nat /\ seen' = seen + Z.of_nat k /\
    (if stop then 0 < max /\ seen' = max else k = length rs /\ (0 < max -> seen' < max)).
Proof.
  induction rs as [|x rs IH]; intros seen out seen' stop E Hm; cbn [write_records] in E.
  - injection E as <- <- <-. exists 0%nat. split_and!; [done|done|lia|done|]. intros ?. lia.
  - destruct ((max >? 0) && (seen + 1 >=? max)) eqn:Es.
    + injection E as <- <- <-. zbool. exists 1%nat. cbn. rewrite take_0. cbn. rewrite app_nil_r. split_and!; [done|lia..].
    + destruct (write_records _ _ _ _ _ rs) as [[o s] st] eqn:Er. injection E as <- <- <-.
      apply IH in Er as (k & -> & Hk & -> & Hst); [|apply andb_false_iff in Es; intros ?; destruct Es; zbool; lia].
      exists (S k). cbn. split_and!; [done|lia|lia|]. destruct st; [split; lia|]. destruct Hst. split; [lia|]. intros ?. lia.
Qed.

(** The command was stopped from outside. *)
Definition stopped (t : turn) : Prop := tn_closed t = true \/ tn_ended t = true \/ head (tn_errors t) = Some Canceled.

(** What a run of the loop is, from [seen] records on. *)
Definition consumed (brokers format : string) (max seen : Z) (turns : list turn) (out : list byte) (r : option (res unit)) : Prop :=
  exists k, out = take k (turns ≫= tn_records) ≫= write format /\
    (0 < max -> seen + Z.of_nat k <= max) /\
    (r = None -> (length (turns ≫= tn_records) <= k)%nat) /\
    (r = Some (Err (no_records brokers)) -> seen + Z.of_nat k = 0) /\
    (r = Some (Ok tt) -> (0 < max /\ seen + Z.of_nat k = max) \/ 0 < seen + Z.of_nat k \/ Exists stopped turns).

Lemma consumed_nothing brokers format max seen turns r : 0 <= seen -> (0 < max -> seen < max) ->
  (r = Err (no_records brokers) -> seen = 0) -> (r = Ok tt -> 0 < seen \/ Exists stopped turns) ->
  consumed brokers format max seen turns [] (Some r).
Proof.
  intros Hs Hm He Hok. exists 0%nat. split_and!; [done|lia|done| |].
  - intros [= ?]. rewrite He by done. done.
  - intros [= ?]. destruct (Hok ltac:(done)); right; [left; lia|by right].
Qed.

Lemma consume_loop_spec brokers format max timeout overall turns : forall seen out r,
  consume_loop fmt_time isPrint brokers format max timeout overall seen turns = (out, r) -> 0 <= seen -> (0 < max -> seen < max) ->
  consumed brokers format max seen turns out r.
Proof.
  induction turns as [|t turns IH]; intros seen out r E Hs Hm; cbn [consume_loop] in E.
  { injection E as <- <-. exists 0%nat. split_and!; try done. lia. }
  assert (forall r', ([], Some (if seen =? 0 then Err (no_records brokers) else Ok tt)) = (out, r') -> r' = r ->
    consumed brokers format max seen (t :: turns) out r) as Hquiet.
  { intros r' [= <- <-] <-. apply consumed_nothing; [done..| |]; destruct (Z.eqb_spec seen 0); try done. intros _. left. lia. }
  assert (stopped t -> consumed brokers format max seen (t :: turns) [] (Some (Ok tt))) as Hstop.
  { intros Hst. apply consumed_nothing; try done. intros _. right. by left. }
  destruct (_ && _); [by eapply Hquiet|]. destruct (tn_closed t) eqn:Ec; [injection E as <- <-; apply Hstop; by left|].
  destruct (tn_ended t) eqn:Ee; [injection E as <- <-; apply Hstop; right; by left|].
  destruct (tn_errors t) as [|[| |e] es] eqn:Et.
  - destruct (write_records _ _ _ _ _ _) as [[o s] st] eqn:Ew. apply write_records_spec in Ew as (k & -> & Hk & -> & Hst); [|done].
    destruct st.
    + injection E as <- <-. exists k. cbn [mbind list_bind]. rewrite take_app_le by lia. split_and!; [done|lia|done|done|]. intros _. by left.
    + destruct Hst as [-> Hlt]. destruct (consume_loop _ _ _ _ _ _ _ _ turns) as [rest r'] eqn:El. injection E as <- <-.
      apply IH in El as (k' & -> & Hmax & Hnone & Herr & Hok); [|lia|done]. exists (length (tn_records t) + k')%nat. cbn [mbind list_bind].
      rewrite take_app_add, bind_app, take_ge by lia. split_and!; [done|lia| |intros ?%Herr; lia|].
      * intros ?%Hnone. rewrite length_app. unfold mbind, list_bind in *. lia.
      * intros [?|[?|?]]%Hok; [left; lia|right; left; lia|right; right; by right].
  - destruct (timeout >? 0); [by eapply Hquiet|]. injection E as <- <-. by apply consumed_nothing.
  - injection E as <- <-. apply Hstop. right. right. by rewrite Et.
  - injection E as <- <-. by apply consumed_nothing.
Qed.

(** [consume] prints records it has read, in the order it read them and
    without leaving one out, and never more than [-n] asks for.  If it ends well, it
    has printed as many as [-n] asked for, or it printed some, or it was stopped from
    outside; if it says that it read nothing, it printed nothing.  So a broker that
    cannot be reached does not look like an empty topic. *)
Theorem cmdConsume_prints {W} `{Kafka W} getenv args now turns out r vals topic names :
  Parse consume_flags ∅ (permute consume_flags args) = Parsed vals (topic :: names) ->
  let opts := consume_opts getenv vals topic in
  kc_New opts = None -> cmdConsume getenv fmt_time isPrint args now turns = (out, r) ->
  exists r', r = Ended <$> r' /\
    consumed (brokers_of getenv vals) (string_or vals "format" "value") (int_or vals "n" 0) 0 (turns opts (int_or vals "timeout" 0)) out r'.
Proof.
  intros Hp opts Hnew. unfold cmdConsume. rewrite Hp. fold opts. rewrite Hnew.
  destruct (consume_loop _ _ _ _ _ _ _ _ _) as [o r'] eqn:E. intros [= <- <-]. exists r'. split; [done|].
  eapply consume_loop_spec; [exact E|lia|lia].
Qed.
End consume.

(** ** Output *)

(** The bytes a line of [--format hex] stands for. *)
Definition unhex (b : byte) : option Z := hex_digit (ascii_of_byte b).
Fixpoint DecodeString (l : list byte) : option (list byte) :=
  match l with
  | [] => Some []
  | [_] => None
  | a :: b :: l => x ← unhex a; y ← unhex b; v ← DecodeString l; Some (z2b (x * 16 + y) :: v)
  end.

Lemma unhex_pair b : unhex (hex_char (b2z b / 16)) = Some (b2z b / 16) /\ unhex (hex_char (b2z b mod 16)) = Some (b2z b mod 16).
Proof. destruct b; vm_compute; split; reflexivity. Qed.

(** With [--format hex] no record is mangled. *)
Lemma hex_roundtrip v : DecodeString (EncodeToString v) = Some v.
Proof.
  induction v as [|b v IH]; [done|]. unfold EncodeToString. cbn [mbind list_bind app]. fold (EncodeToString v). cbn [DecodeString].
  destruct (unhex_pair b) as [-> ->]. cbn [mbind option_bind]. rewrite IH. cbn.
  rewrite (Z.mul_comm _ 16), <- Z_div_mod_eq_full, z2b_b2z. done.
Qed.

(** ** A small cluster *)

Record sample_cluster := mkSampleCluster { cl_records : list kgo_record; cl_topics : list (string * Z) }.

#[export] Instance toy_kafka : Kafka sample_cluster := {
  kc_New _ := None;
  kc_ProduceSync _ w r := if 3 <=? zlen (kr_Value r) then (w, Some (EMsg "MESSAGE_TOO_LARGE")) else (mkSampleCluster (cl_records w ++ [r]) (cl_topics w), None);
  kc_ListTopics _ w _ := Ok (map (fun t => mkTopicDetail t.1 (seqZ 0 t.2)) (cl_topics w));
  kc_ListStartOffsets _ _ _ := ∅;
  kc_ListEndOffsets _ w _ := {[ ("demo", 0) := zlen (cl_records w) ]};
  kc_CreateTopics _ w n _ names := (mkSampleCluster (cl_records w) (cl_topics w ++ map (fun t => (t, n)) names), Ok (map (fun t => (t, None)) names));
  kc_DeleteTopics _ w names := (w, Ok (map (fun t => (t, Some (EMsg "NOT_CONTROLLER"))) names))
}.

Definition no_env (_ : string) : string := "".

(** Two lines are two records; the second of three is refused, and the third is
    not sent. *)
Example produce_two :
  cmdProduce no_env ["demo"; "--key"; "k"] [x61; x0a; x62; x0d; x0a] (mkSampleCluster [] []) =
  (mkSampleCluster [mkKgoRecord "demo" (Some [x6b]) [x61]; mkKgoRecord "demo" (Some [x6b]) [x62]] [], ["produced 2 record(s) to demo"], Ended (Ok tt)).
Proof. vm_compute. reflexivity. Qed.

Example produce_stops :
  cmdProduce no_env ["demo"; "a"; "too long"; "b"] [] (mkSampleCluster [] []) =
  (mkSampleCluster [mkKgoRecord "demo" None [x61]] [], [], Ended (Err (produceError "127.0.0.1:9092" (EMsg "MESSAGE_TOO_LARGE")))).
Proof. vm_compute. reflexivity. Qed.

(** The usage text shows a flag that does not exist. *)
Example no_key_from_json : cmdProduce no_env ["events"; "--key-from-json"; "id"] [] (mkSampleCluster [] []) =
  (mkSampleCluster [] [], [], FlagsRefused (NotDefined "key-from-json")).
Proof. vm_compute. reflexivity. Qed.

(** The number of partitions is cut to 32 bits, and reported uncut. *)
Example partitions_cut :
  cmdTopic no_env ["create"; "demo"; "-partitions"; "4294967297"] (mkSampleCluster [] []) =
  (mkSampleCluster [] [("demo", 1)], ["created demo with 4294967297 partition(s)"], Ended (Ok tt)).
Proof. vm_compute. reflexivity. Qed.

Definition fetched (o : Z) (v : list byte) : kgo_fetched := mkFetched "demo" 0 o 0 [] v.

(** Two records are asked for and three are polled; then a poll that times out
    before anything was read, and one after. *)
Example consume_two :
  cmdConsume (W := sample_cluster) no_env (fun _ => "") (fun _ => true) ["demo"; "-n"; "2"] 0
    (fun _ _ => [mkTurn 1 false false [] [fetched 0 [x61]]; mkTurn 2 false false [] [fetched 1 [x62]; fetched 2 [x63]]]) =
  ([x61; x0a; x62; x0a], Some (Ended (Ok tt))) /\
  cmdConsume (W := sample_cluster) no_env (fun _ => "") (fun _ => true) ["demo"; "--timeout"; "5s"] 0
    (fun _ _ => [mkTurn 1 false false [DeadlineExceeded] []]) = ([], Some (Ended (Err (no_records "127.0.0.1:9092")))) /\
  cmdConsume (W := sample_cluster) no_env (fun _ => "") (fun _ => true) ["demo"; "--timeout"; "5s"] 0
    (fun _ _ => [mkTurn 1 false false [] [fetched 0 [xff]]; mkTurn 2 false false [DeadlineExceeded] []]) =
    (text "<1 binary bytes: ff...>" ++ newline, Some (Ended (Ok tt))).
Proof. vm_compute. split_and!; reflexivity. Qed.

(** The bell of a value becomes an escape that JSON does not have, and so does a
    key that is not text. *)
Example json_is_not_json :
  Quote (fun _ => true) [x07] = x22 :: text "\a" ++ [x22] /\ Quote (fun _ => true) [xff] = x22 :: text "\xff" ++ [x22].
Proof. vm_compute. split; reflexivity. Qed.
